(** * SkyrimNet_Bench: log segmentation, payload recovery, classification
      and request/response correlation

    A shallow embedding of [openrouter_request_parser.py] and
    [openrouter_response_parser.py], and of the functions of
    [benchmark_analyzer.py] and [skyrim_prompt_parser.py] that work on
    values rather than on the file system.

    Modelling conventions.
    - A Python [str] is a [pystr]: the list of its characters, each an
      8-bit [ascii].  [str.lower], [str.strip], the regular expressions'
      classes and slicing behave as CPython does on ASCII text; text
      outside ASCII is carried as its UTF-8 bytes, so that a length or an
      index counts bytes there where CPython counts characters, and
      letters and whitespace outside ASCII are not treated as such.
    - The file system is outside the model: a method that writes a file
      or makes a folder is the record of the call and of what it was
      given.
    - A Python [dict] whose iteration order the code depends on is an
      association list in insertion order.
    - Library code the repository calls but does not contain is either
      modelled after CPython ([json.loads], [re.match] on the two header
      patterns, [datetime.strptime]) or taken as a parameter
      ([difflib.SequenceMatcher.ratio]).
    - A float that is a quotient of integers (similarity ratio, elapsed
      seconds) is the exact rational in [Q]. *)

From Equations Require Import Equations.
From Stdlib Require Import Ascii String.
From Stdlib Require Import List Bool Arith ZArith QArith Lia Lqa.
Import ListNotations.
Close Scope Q_scope.

Set Implicit Arguments.
Unset Strict Implicit.

(* ===================================================================== *)
(** * Python strings                                                      *)
(* ===================================================================== *)

Module Py.

Definition pystr := list ascii.

(** A string literal of the source. *)
Definition lit (s : string) : pystr := list_ascii_of_string s.

(** The double quote and the line feed, which a literal cannot hold. *)
Definition dq : ascii := ascii_of_nat 34.
Definition nl : ascii := ascii_of_nat 10.

Definition code (c : ascii) : nat := nat_of_ascii c.

(** [a == b] on strings. *)
Fixpoint eqb (a b : pystr) : bool :=
  match a, b with
  | [], [] => true
  | x :: a', y :: b' => Ascii.eqb x y && eqb a' b'
  | _, _ => false
  end.

(** [c.lower()] for one character. *)
Definition lower_char (c : ascii) : ascii :=
  if (65 <=? code c) && (code c <=? 90) then ascii_of_nat (code c + 32) else c.

(** [s.lower()] *)
Definition lower (s : pystr) : pystr := map lower_char s.

(** [c.isspace()]: tab, line feed, vertical tab, form feed, carriage
    return, the separators 28..31 and the space. *)
Definition isspace (c : ascii) : bool :=
  ((9 <=? code c) && (code c <=? 13)) || ((28 <=? code c) && (code c <=? 32)).

Fixpoint lstrip (s : pystr) : pystr :=
  match s with
  | [] => []
  | c :: s' => if isspace c then lstrip s' else s
  end.

Definition rstrip (s : pystr) : pystr := rev (lstrip (rev s)).

(** [s.strip()] *)
Definition strip (s : pystr) : pystr := rstrip (lstrip s).

(** [s.startswith(p)] *)
Fixpoint startswith (p s : pystr) : bool :=
  match p, s with
  | [], _ => true
  | _ :: _, [] => false
  | x :: p', y :: s' => Ascii.eqb x y && startswith p' s'
  end.

(** [s.endswith(p)] *)
Definition endswith (p s : pystr) : bool := startswith (rev p) (rev s).

(** [p in s] *)
Fixpoint contains (p s : pystr) : bool :=
  startswith p s ||
  match s with
  | [] => false
  | _ :: s' => contains p s'
  end.

(** [s.split(sep, 1)[1]] for a [sep] that occurs in [s]: the text after
    the leftmost occurrence. *)
Fixpoint after_first (sep s : pystr) : pystr :=
  if startswith sep s then skipn (length sep) s
  else match s with
       | [] => []
       | _ :: s' => after_first sep s'
       end.

(** [s[:-n]] *)
Definition drop_last (n : nat) (s : pystr) : pystr := firstn (length s - n) s.

(** [s[1:-n]] *)
Definition inner (n : nat) (s : pystr) : pystr := skipn 1 (drop_last n s).

(** [sep.join(parts)] *)
Fixpoint join (sep : pystr) (parts : list pystr) : pystr :=
  match parts with
  | [] => []
  | [p] => p
  | p :: rest => p ++ sep ++ join sep rest
  end.

(** [s.split('\n')]: always at least one piece. *)
Fixpoint split_nl (s : pystr) : list pystr :=
  match s with
  | [] => [[]]
  | c :: s' =>
      if Ascii.eqb c nl then [] :: split_nl s'
      else match split_nl s' with
           | [] => [[c]]
           | l :: ls => (c :: l) :: ls
           end
  end.

(** Truth value of a string: non-empty. *)
Definition nonempty (s : pystr) : bool :=
  match s with [] => false | _ => true end.

End Py.
Import Py.

(* ===================================================================== *)
(** * The header patterns ([re.match] on a stripped line)                 *)
(* ===================================================================== *)

Module Header.

(** [[^\]]+] followed by [\]]: the class excludes the bracket, so the
    group is the run up to the first closing bracket, and must not be
    empty.  Returns the group and the text after the bracket. *)
Fixpoint until_rbracket (s : pystr) : option (pystr * pystr) :=
  match s with
  | [] => None
  | c :: s' =>
      if Ascii.eqb c "]" then Some ([], s')
      else match until_rbracket s' with
           | Some (g, r) => Some (c :: g, r)
           | None => None
           end
  end.

(** [\[([^\]]+)\]] at the head of [s]. *)
Definition bracket_group (s : pystr) : option (pystr * pystr) :=
  match s with
  | c :: s' =>
      if Ascii.eqb c "[" then
        match until_rbracket s' with
        | Some (g, r) => if nonempty g then Some (g, r) else None
        | None => None
        end
      else None
  | [] => None
  end.

(** A literal at the head of [s]; returns what follows it. *)
Definition expect (p s : pystr) : option pystr :=
  if startswith p s then Some (skipn (length p) s) else None.

(** [tail] at the head of [s], where [tail] is a literal, a bracket group
    and a colon: the identifier's end of both patterns. *)
Definition id_here (word s : pystr) : option pystr :=
  match expect word s with
  | Some s1 =>
      match bracket_group s1 with
      | Some (g, r) => if startswith (lit ":") r then Some g else None
      | None => None
      end
  | None => None
  end.

(** [.*?] followed by the identifier's end: the leftmost position at which
    it matches, the dot refusing a line feed. *)
Fixpoint lazy_id (word s : pystr) : option pystr :=
  match id_here word s with
  | Some g => Some g
  | None =>
      match s with
      | [] => None
      | c :: s' => if Ascii.eqb c nl then None else lazy_id word s'
      end
  end.

(** Both patterns: [\[([^\]]+)\] Generate.*?<word>\[([^\]]+)\]:], matched
    from the start of the line; the groups are (timestamp, identifier). *)
Definition pattern_match (word line : pystr) : option (pystr * pystr) :=
  match bracket_group line with
  | Some (timestamp, r) =>
      match expect (lit " Generate") r with
      | Some r' =>
          match lazy_id word r' with
          | Some unique_id => Some (timestamp, unique_id)
          | None => None
          end
      | None => None
      end
  | None => None
  end.

(** [self.request_pattern = re.compile(r'\[([^\]]+)\] Generate.*?\[([^\]]+)\]:')] *)
Definition request_pattern : pystr -> option (pystr * pystr) :=
  pattern_match [].

(** [self.response_pattern =
     re.compile(r'\[([^\]]+)\] Generate.*?response \[([^\]]+)\]:')] *)
Definition response_pattern : pystr -> option (pystr * pystr) :=
  pattern_match (lit "response ").

End Header.

(* ===================================================================== *)
(** * Segmentation of a log into records (both parsers' line loops)       *)
(* ===================================================================== *)

Module Segmenter.

Section WithPattern.

(** The compiled header pattern: [self.request_pattern.match] or
    [self.response_pattern.match]. *)
Variable pattern : pystr -> option (pystr * pystr).

(** [pattern.match(line.strip())] is not [None]. *)
Definition is_header (line : pystr) : bool :=
  match pattern (strip line) with Some _ => true | None => false end.

(** The inner [while]: the lines appended to [json_lines] ... *)
Fixpoint collect_body (lines : list pystr) : list pystr :=
  match lines with
  | [] => []
  | l :: rest => if is_header l then [] else l :: collect_body rest
  end.

(** ... and the lines left at index [i] when it stops. *)
Fixpoint skip_body (lines : list pystr) : list pystr :=
  match lines with
  | [] => []
  | l :: rest => if is_header l then lines else skip_body rest
  end.

Lemma skip_body_length (lines : list pystr) :
  length (skip_body lines) <= length lines.
Proof.
  induction lines as [|l rest IH]; simpl; [lia|].
  destruct (is_header l); simpl; lia.
Qed.

(** One record of the log.  [header_line] is [lines[i]] as read; the code
    keeps only its two groups, the field is kept here to state what the
    records cover. *)
Record log_record := {
  header_line : pystr;
  timestamp : pystr;
  unique_id : pystr;
  json_lines : list pystr
}.

(** [json_content = ''.join(json_lines).strip()] *)
Definition json_content (r : log_record) : pystr :=
  strip (concat (json_lines r)).

(** The outer [while i < len(lines)] of [process_log_file], as far as it
    finds records. *)
Equations? segment (lines : list pystr) : list log_record
  by wf (length lines) lt :=
segment [] := [];
segment (l :: rest) with pattern (strip l) := {
  | Some (ts, uid) =>
      {| header_line := l; timestamp := ts; unique_id := uid;
         json_lines := collect_body rest |} :: segment (skip_body rest)
  | None => segment rest }.
Proof.
  all: simpl; try lia.
  pose proof (skip_body_length rest); lia.
Qed.

End WithPattern.

End Segmenter.

(* ===================================================================== *)
(** * JSON values and [json.loads]                                        *)
(* ===================================================================== *)

Module Json.

(** What [json.loads] returns.  A number keeps its lexeme; an object is
    the [dict] in insertion order. *)
#[warnings="-register-all"]
Inductive json : Type :=
| JNull
| JBool (b : bool)
| JNum (lexeme : pystr)
| JStr (s : pystr)
| JArr (items : list json)
| JObj (members : list (pystr * json)).

Definition dict := list (pystr * json).

(** [d.get(k)] *)
Fixpoint dict_get (k : pystr) (d : dict) : option json :=
  match d with
  | [] => None
  | (k', v) :: d' => if eqb k k' then Some v else dict_get k d'
  end.

(** [d[k] = v]: a key already present keeps its place. *)
Fixpoint dict_set (k : pystr) (v : json) (d : dict) : dict :=
  match d with
  | [] => [(k, v)]
  | (k', v') :: d' =>
      if eqb k k' then (k, v) :: d' else (k', v') :: dict_set k v d'
  end.

Definition is_digit (c : ascii) : bool := (48 <=? code c) && (code c <=? 57).

(** A number is false when it is zero: every digit of its integer and
    fraction parts is 0 (floating underflow apart). *)
Fixpoint mantissa_zero (lexeme : pystr) : bool :=
  match lexeme with
  | [] => true
  | c :: r =>
      if Ascii.eqb c "e" || Ascii.eqb c "E" then true
      else if is_digit c && negb (Ascii.eqb c "0") then false
      else mantissa_zero r
  end.

(** The truth value of [if v:] / [if not v:]. *)
Definition truthy (v : json) : bool :=
  match v with
  | JNull => false
  | JBool b => b
  | JNum n => if startswith (lit "N") n || startswith (lit "I") n
                 || startswith (lit "-I") n
              then true else negb (mantissa_zero n)
  | JStr s => nonempty s
  | JArr l => match l with [] => false | _ => true end
  | JObj m => match m with [] => false | _ => true end
  end.

(** ** The decoder *)

Inductive res (A : Type) : Type :=
| Ok (a : A)
| DecodeError
| OutOfFuel.
Arguments DecodeError {A}.
Arguments OutOfFuel {A}.

(** [WHITESPACE = re.compile(r'[ \t\n\r]*')] *)
Definition is_ws (c : ascii) : bool :=
  Ascii.eqb c " " || (code c =? 9) || (code c =? 10) || (code c =? 13).

Fixpoint skip_ws (s : pystr) : pystr :=
  match s with
  | [] => []
  | c :: s' => if is_ws c then skip_ws s' else s
  end.

Definition hex_val (c : ascii) : option N :=
  let n := code c in
  if (48 <=? n) && (n <=? 57) then Some (N.of_nat (n - 48))
  else if (97 <=? n) && (n <=? 102) then Some (N.of_nat (n - 87))
  else if (65 <=? n) && (n <=? 70) then Some (N.of_nat (n - 55))
  else None.

Definition hex4 (a b c d : ascii) : option N :=
  match hex_val a, hex_val b, hex_val c, hex_val d with
  | Some x, Some y, Some z, Some w =>
      Some (((x * 16 + y) * 16 + z) * 16 + w)%N
  | _, _, _, _ => None
  end.

(** [chr(cp)], as UTF-8. *)
Definition utf8 (cp : N) : pystr :=
  (if cp <? 128 then [ascii_of_N cp]
   else if cp <? 2048 then
     [ascii_of_N (192 + cp / 64); ascii_of_N (128 + cp mod 64)]
   else if cp <? 65536 then
     [ascii_of_N (224 + cp / 4096); ascii_of_N (128 + (cp / 64) mod 64);
      ascii_of_N (128 + cp mod 64)]
   else
     [ascii_of_N (240 + cp / 262144); ascii_of_N (128 + (cp / 4096) mod 64);
      ascii_of_N (128 + (cp / 64) mod 64); ascii_of_N (128 + cp mod 64)])%N.

(** A high surrogate, and a low one. *)
Definition high_surrogate (u : N) : bool := ((55296 <=? u) && (u <=? 56319))%N.
Definition low_surrogate (u : N) : bool := ((56320 <=? u) && (u <=? 57343))%N.
Definition pair_code_point (hi lo : N) : N :=
  (65536 + (hi - 55296) * 1024 + (lo - 56320))%N.

(** [BACKSLASH]: the one-letter escapes. *)
Definition simple_escape (c : ascii) : option ascii :=
  if Ascii.eqb c dq then Some dq
  else if Ascii.eqb c "\" then Some "\"%char
  else if Ascii.eqb c "/" then Some "/"%char
  else if Ascii.eqb c "b" then Some (ascii_of_nat 8)
  else if Ascii.eqb c "f" then Some (ascii_of_nat 12)
  else if Ascii.eqb c "n" then Some (ascii_of_nat 10)
  else if Ascii.eqb c "r" then Some (ascii_of_nat 13)
  else if Ascii.eqb c "t" then Some (ascii_of_nat 9)
  else None.

Definition prepend (p : pystr) (r : option (pystr * pystr)) :
  option (pystr * pystr) :=
  match r with
  | Some (s, rest) => Some (p ++ s, rest)
  | None => None
  end.

(** [scanstring(s, end, strict=True)] from just after the opening quote:
    the decoded string and the text after the closing quote.  A control
    character, a bad escape or a missing closing quote is an error. *)
Fixpoint scan_string (s : pystr) : option (pystr * pystr) :=
  match s with
  | [] => None
  | c :: s1 =>
      if Ascii.eqb c dq then Some ([], s1)
      else if Ascii.eqb c "\" then
        match s1 with
        | [] => None
        | e :: s2 =>
            if Ascii.eqb e "u" then
              match s2 with
              | h1 :: h2 :: h3 :: h4 :: s3 =>
                  match hex4 h1 h2 h3 h4 with
                  | None => None
                  | Some uni =>
                      if high_surrogate uni then
                        match s3 with
                        | b :: u :: l1 :: l2 :: l3 :: l4 :: s4 =>
                            if Ascii.eqb b "\" && Ascii.eqb u "u" then
                              match hex4 l1 l2 l3 l4 with
                              | None => None
                              | Some uni2 =>
                                  if low_surrogate uni2 then
                                    prepend
                                      (utf8 (pair_code_point uni uni2))
                                      (scan_string s4)
                                  else prepend (utf8 uni) (scan_string s3)
                              end
                            else prepend (utf8 uni) (scan_string s3)
                        | _ => prepend (utf8 uni) (scan_string s3)
                        end
                      else prepend (utf8 uni) (scan_string s3)
                  end
              | _ => None
              end
            else
              match simple_escape e with
              | Some ch => prepend [ch] (scan_string s2)
              | None => None
              end
        end
      else if code c <? 32 then None
      else prepend [c] (scan_string s1)
  end.

Fixpoint take_digits (s : pystr) : pystr * pystr :=
  match s with
  | c :: r =>
      if is_digit c then let (ds, r') := take_digits r in (c :: ds, r')
      else ([], s)
  | [] => ([], [])
  end.

(** The integer part: an optional minus, then 0 or a digit 1..9 and any
    digits. *)
Definition take_int (s : pystr) : option (pystr * pystr) :=
  let (sign, s1) :=
    match s with
    | c :: r => if Ascii.eqb c "-" then ([c], r) else ([], s)
    | [] => ([], s)
    end in
  match s1 with
  | c :: r =>
      if Ascii.eqb c "0" then Some (sign ++ [c], r)
      else if is_digit c then
        let (ds, r') := take_digits r in Some (sign ++ c :: ds, r')
      else None
  | [] => None
  end.

(** [(\.\d+)?] *)
Definition take_frac (s : pystr) : pystr * pystr :=
  match s with
  | c :: r =>
      if Ascii.eqb c "." then
        match take_digits r with
        | ([], _) => ([], s)
        | (ds, r') => (c :: ds, r')
        end
      else ([], s)
  | [] => ([], s)
  end.

(** [([eE][-+]?\d+)?] *)
Definition take_exp (s : pystr) : pystr * pystr :=
  match s with
  | e :: r =>
      if Ascii.eqb e "e" || Ascii.eqb e "E" then
        let (sign, r1) :=
          match r with
          | c :: r0 =>
              if Ascii.eqb c "-" || Ascii.eqb c "+" then ([c], r0) else ([], r)
          | [] => ([], r)
          end in
        match take_digits r1 with
        | ([], _) => ([], s)
        | (ds, r') => (e :: sign ++ ds, r')
        end
      else ([], s)
  | [] => ([], s)
  end.

(** [NUMBER_RE.match]: the lexeme and what follows it. *)
Definition match_number (s : pystr) : option (pystr * pystr) :=
  match take_int s with
  | Some (i, r) =>
      let (f, r1) := take_frac r in
      let (e, r2) := take_exp r1 in
      Some (i ++ f ++ e, r2)
  | None => None
  end.

(** A word of the grammar at the head of [s]. *)
Definition keyword (w : string) (v : json) (s : pystr) :
  option (json * pystr) :=
  if startswith (lit w) s then Some (v, skipn (length (lit w)) s) else None.

(** The scanner's cases that do not recurse, in its order: [null], [true],
    [false], a number, [NaN], [Infinity], [-Infinity]. *)
Definition scan_atom (s : pystr) : option (json * pystr) :=
  match keyword "null" JNull s with
  | Some x => Some x
  | None =>
  match keyword "true" (JBool true) s with
  | Some x => Some x
  | None =>
  match keyword "false" (JBool false) s with
  | Some x => Some x
  | None =>
  match match_number s with
  | Some (n, r) => Some (JNum n, r)
  | None =>
  match keyword "NaN" (JNum (lit "NaN")) s with
  | Some x => Some x
  | None =>
  match keyword "Infinity" (JNum (lit "Infinity")) s with
  | Some x => Some x
  | None => keyword "-Infinity" (JNum (lit "-Infinity")) s
  end end end end end end.

(** [scan_once], [JSONObject]'s loop over the members and [JSONArray]'s
    loop over the items.  Two calls in a row consume a character, so a
    fuel above twice the length of the text is never used up ([scan_fuel]
    below).
    [scan_members] starts just after the opening quote of a key,
    [scan_items] at a value. *)
Fixpoint scan_once (fuel : nat) (s : pystr) : res (json * pystr) :=
  match fuel with
  | 0 => OutOfFuel
  | S fuel' =>
      match s with
      | [] => DecodeError
      | c :: s1 =>
          if Ascii.eqb c dq then
            match scan_string s1 with
            | Some (str, r) => Ok (JStr str, r)
            | None => DecodeError
            end
          else if Ascii.eqb c "{" then
            match skip_ws s1 with
            | c1 :: s2 =>
                if Ascii.eqb c1 "}" then Ok (JObj [], s2)
                else if Ascii.eqb c1 dq then scan_members fuel' [] s2
                else DecodeError
            | [] => DecodeError
            end
          else if Ascii.eqb c "[" then
            match skip_ws s1 with
            | c1 :: s2 =>
                if Ascii.eqb c1 "]" then Ok (JArr [], s2)
                else scan_items fuel' [] (c1 :: s2)
            | [] => DecodeError
            end
          else
            match scan_atom s with
            | Some x => Ok x
            | None => DecodeError
            end
      end
  end

with scan_members (fuel : nat) (pairs : dict) (s : pystr) :
  res (json * pystr) :=
  match fuel with
  | 0 => OutOfFuel
  | S fuel' =>
      match scan_string s with
      | None => DecodeError
      | Some (key, r) =>
          match skip_ws r with
          | colon :: r1 =>
              if Ascii.eqb colon ":" then
                match scan_once fuel' (skip_ws r1) with
                | Ok (value, r2) =>
                    let pairs' := dict_set key value pairs in
                    match skip_ws r2 with
                    | c :: r3 =>
                        if Ascii.eqb c "}" then Ok (JObj pairs', r3)
                        else if Ascii.eqb c "," then
                          match skip_ws r3 with
                          | q :: r4 =>
                              if Ascii.eqb q dq
                              then scan_members fuel' pairs' r4
                              else DecodeError
                          | [] => DecodeError
                          end
                        else DecodeError
                    | [] => DecodeError
                    end
                | DecodeError => DecodeError
                | OutOfFuel => OutOfFuel
                end
              else DecodeError
          | [] => DecodeError
          end
      end
  end

with scan_items (fuel : nat) (values : list json) (s : pystr) :
  res (json * pystr) :=
  match fuel with
  | 0 => OutOfFuel
  | S fuel' =>
      match scan_once fuel' s with
      | Ok (value, r) =>
          let values' := values ++ [value] in
          match skip_ws r with
          | c :: r1 =>
              if Ascii.eqb c "]" then Ok (JArr values', r1)
              else if Ascii.eqb c "," then scan_items fuel' values' (skip_ws r1)
              else DecodeError
          | [] => DecodeError
          end
      | DecodeError => DecodeError
      | OutOfFuel => OutOfFuel
      end
  end.

(** [json.loads(s)]: [None] stands for [JSONDecodeError].  The limits of
    an interpreter are left out: CPython gives up on very deep nesting
    ([RecursionError]) and on an integer of more digits than its
    conversion limit ([ValueError]), and no handler of the parser catches
    either. *)
Definition json_loads (s : pystr) : option json :=
  let s0 := skip_ws s in
  match scan_once (S (S (2 * length s0))) s0 with
  | Ok (v, r) => match skip_ws r with [] => Some v | _ => None end
  | _ => None
  end.

End Json.

(* ===================================================================== *)
(** * [openrouter_request_parser.py]                                      *)
(* ===================================================================== *)

Module RequestParser.
Import Json.

(** The literals the recovery scan looks for. *)
Definition MESSAGES_KEY : pystr := dq :: lit "messages" ++ [dq].
Definition CONTENT_KEY : pystr := dq :: lit "content" ++ dq :: lit ":".
Definition ROLE_KEY : pystr := dq :: lit "role" ++ dq :: lit ":".
Definition QUOTE : pystr := [dq].
Definition QUOTE_COMMA : pystr := dq :: lit ",".

(** ** [_manual_json_parse] *)

(** The locals of the scan ([brace_count] is written and never read, and
    is left out). *)
Record scan_state := {
  messages : list json;            (* result["messages"] *)
  current_message : dict;
  in_messages : bool;
  in_content : bool;
  content_lines : list pystr
}.

Definition scan_init : scan_state :=
  {| messages := []; current_message := []; in_messages := false;
     in_content := false; content_lines := [] |}.

(** One turn of [for line in lines]; the boolean is [break]. *)
Definition scan_line (st : scan_state) (line : pystr) : scan_state * bool :=
  let stripped := strip line in
  if contains MESSAGES_KEY stripped then
    ({| messages := messages st; current_message := current_message st;
        in_messages := true; in_content := in_content st;
        content_lines := content_lines st |}, false)
  else if in_messages st then
    if startswith (lit "{") stripped && negb (in_content st) then
      ({| messages := messages st; current_message := [];
          in_messages := true; in_content := in_content st;
          content_lines := content_lines st |}, false)
    else if contains CONTENT_KEY stripped then
      let content_start := strip (after_first CONTENT_KEY stripped) in
      ({| messages := messages st; current_message := current_message st;
          in_messages := true; in_content := true;
          content_lines :=
            if startswith QUOTE content_start
            then [skipn 1 content_start]
            else content_lines st |}, false)
    else if in_content st then
      if endswith QUOTE_COMMA stripped || endswith QUOTE stripped then
        let last_line :=
          if endswith QUOTE_COMMA stripped then drop_last 2 stripped
          else drop_last 1 stripped in
        ({| messages := messages st;
            current_message :=
              dict_set (lit "content")
                (JStr (join [nl] (content_lines st ++ [last_line])))
                (current_message st);
            in_messages := true; in_content := false;
            content_lines := [] |}, false)
      else
        ({| messages := messages st; current_message := current_message st;
            in_messages := true; in_content := true;
            content_lines := content_lines st ++ [stripped] |}, false)
    else if contains ROLE_KEY stripped then
      let role_value := strip (after_first ROLE_KEY stripped) in
      if startswith QUOTE role_value && endswith QUOTE role_value then
        ({| messages := messages st;
            current_message :=
              dict_set (lit "role") (JStr (inner 1 role_value))
                (current_message st);
            in_messages := true; in_content := false;
            content_lines := content_lines st |}, false)
      else if startswith QUOTE role_value && endswith QUOTE_COMMA role_value
      then
        ({| messages := messages st;
            current_message :=
              dict_set (lit "role") (JStr (inner 2 role_value))
                (current_message st);
            in_messages := true; in_content := false;
            content_lines := content_lines st |}, false)
      else (st, false)
    else if eqb stripped (lit "}") || eqb stripped (lit "},") then
      match current_message st with
      | [] => (st, false)
      | _ :: _ =>
          ({| messages := messages st ++ [JObj (current_message st)];
              current_message := [];
              in_messages := true; in_content := false;
              content_lines := content_lines st |}, false)
      end
    else if eqb stripped (lit "]") then
      ({| messages := messages st; current_message := current_message st;
          in_messages := false; in_content := false;
          content_lines := content_lines st |}, true)
    else (st, false)
  else (st, false).

(** The whole [for] loop. *)
Fixpoint scan_lines (st : scan_state) (lines : list pystr) : scan_state :=
  match lines with
  | [] => st
  | line :: rest =>
      let (st', stop) := scan_line st line in
      if stop then st' else scan_lines st' rest
  end.

(** What the function returns once the loop is over. *)
Definition scan_result (st : scan_state) : option json :=
  match messages st with
  | [] => None
  | _ :: _ => Some (JObj [(lit "messages", JArr (messages st))])
  end.

Definition manual_parse_lines (lines : list pystr) : option json :=
  scan_result (scan_lines scan_init lines).

Definition _manual_json_parse (json_text : pystr) : option json :=
  manual_parse_lines (split_nl json_text).

(** ** [parse_json_entry]: strict decoding, the recovery scan on a
    [JSONDecodeError] when the text holds the messages key. *)
Definition parse_json_entry (json_text : pystr) : option json :=
  match json_loads json_text with
  | Some v => Some v
  | None =>
      if contains MESSAGES_KEY json_text then _manual_json_parse json_text
      else None
  end.

(** ** Exceptions no handler of [process_log_file] catches. *)
Inductive exn := AttributeError | TypeError.

Inductive result (A : Type) : Type :=
| Return (a : A)
| Raise (e : exn).
Arguments Raise {A}.

Definition bind {A B} (m : result A) (k : A -> result B) : result B :=
  match m with
  | Return a => k a
  | Raise e => Raise e
  end.

Notation "x <- m ;; k" := (bind m (fun x => k))
  (at level 61, m at next level, right associativity).

(** [request_data.get('messages', [])]: only a dict has [get]. *)
Definition get_messages (request_data : json) : result json :=
  match request_data with
  | JObj d =>
      match dict_get (lit "messages") d with
      | Some v => Return v
      | None => Return (JArr [])
      end
  | _ => Raise AttributeError
  end.

(** [for message in messages]: what the iteration yields. *)
Definition iterate (v : json) : result (list json) :=
  match v with
  | JArr l => Return l
  | JStr s => Return (map (fun c => JStr [c]) s)
  | JObj d => Return (map (fun kv => JStr (fst kv)) d)
  | _ => Raise TypeError
  end.

(** [message['content']] when ['content' in message], for one message. *)
Definition content_of (message : json) : result (option json) :=
  match message with
  | JObj d => Return (dict_get (lit "content") d)
  | JStr s => if contains (lit "content") s then Raise TypeError
              else Return None
  | JArr l =>
      if existsb (fun x => match x with
                           | JStr s => eqb s (lit "content")
                           | _ => false
                           end) l
      then Raise TypeError else Return None
  | _ => Raise TypeError
  end.

Fixpoint content_parts (msgs : list json) : result (list json) :=
  match msgs with
  | [] => Return []
  | m :: rest =>
      c <- content_of m ;;
      parts <- content_parts rest ;;
      Return (match c with Some v => v :: parts | None => parts end)
  end.

(** ['\n\n'.join(content_parts)]: every part has to be a string. *)
Fixpoint join_parts (parts : list json) : result (list pystr) :=
  match parts with
  | [] => Return []
  | JStr s :: rest => l <- join_parts rest ;; Return (s :: l)
  | _ :: _ => Raise TypeError
  end.

Definition BLANK_LINE : pystr := [nl; nl].

(** ** [extract_messages_content] *)
Definition extract_messages_content (msgs : json) : result pystr :=
  items <- iterate msgs ;;
  parts <- content_parts items ;;
  strs <- join_parts parts ;;
  Return (join BLANK_LINE strs).

(** The payload extractor as [process_log_file] runs it on one raw body:
    [Return None] is a record skipped with a warning. *)
Definition extract_content (json_content : pystr) : result (option pystr) :=
  match parse_json_entry json_content with
  | None => Return None
  | Some request_data =>
      if negb (truthy request_data) then Return None
      else
        msgs <- get_messages request_data ;;
        if negb (truthy msgs) then Return None
        else
          combined_content <- extract_messages_content msgs ;;
          Return (Some combined_content)
  end.

(** ** The signature store *)

(** One value of [self.prompt_types]; an absent key reads as the empty
    string ([data.get(key, '')]). *)
Record prompt_type_data := {
  original_signature : pystr;
  simplified_signature : pystr
}.

(** A [{enabled, min_similarity_threshold}] object. *)
Record fuzzy_settings := {
  fs_enabled : option bool;
  fs_min_similarity_threshold : option Q
}.

(** One value of [self.variants], a JSON object.  The code reads its key
    [patterns] on every entry, and its keys [enabled] and
    [min_similarity_threshold] on the entry stored under the name
    [fuzzy_matching]; a [fuzzy_matching] object inside an entry is part of
    the file format and is kept, whether or not the code reads it. *)
Record variant_data := {
  patterns : option (list pystr);
  enabled : option bool;
  min_similarity_threshold : option Q;
  fuzzy_matching : option fuzzy_settings
}.

Definition prompt_types_t := list (pystr * prompt_type_data).
Definition variants_t := list (pystr * variant_data).

(** [d.get(name)] on the variants mapping. *)
Fixpoint variants_get (name : pystr) (variants : variants_t) :
  option variant_data :=
  match variants with
  | [] => None
  | (k, v) :: rest => if eqb name k then Some v else variants_get name rest
  end.

(** [variant_data.get('patterns', [])] *)
Definition patterns_of (v : variant_data) : list pystr :=
  match patterns v with Some l => l | None => [] end.

(** ** [find_matching_prompt_type] *)

(** [content_prefix = content.lower()[:800]] *)
Definition content_prefix_of (content : pystr) : pystr :=
  firstn 800 (lower content).

(** First tier: the variants, in the mapping's order. *)
Fixpoint variant_tier (variants : variants_t) (content_prefix : pystr) :
  option pystr :=
  match variants with
  | [] => None
  | (prompt_type, variant_data) :: rest =>
      if existsb (fun pattern => contains (lower pattern) content_prefix)
                 (patterns_of variant_data)
      then Some prompt_type
      else variant_tier rest content_prefix
  end.

(** The dict literal [pattern_matches], in source order. *)
Definition pattern_matches : list (pystr * list pystr) :=
  [ (lit "dialogue_response",
      [lit "you are roleplaying as";
       lit "remain completely in character and speak as they would"]);
    (lit "player_dialogue",
      [lit "you are roleplaying as";
       lit "you are reacting verbally to a"]);
    (lit "player_thoughts",
      [lit "you are roleplaying as";
       lit "you are thinking to yourself about the current situation"]);
    (lit "gamemaster_action_selector",
      [lit "you are the gamemaster ai for skyrim";
       lit "acting like a tabletop dungeon master"]);
    (lit "evaluate_mood",
      [lit "you are an ai mood analyzer for skyrim";
       lit "determining the emotional state of npcs"]);
    (lit "generate_search_query",
      [lit "you are a memory search query generator";
       lit "generate a search query optimized for semantic similarity"]);
    (lit "dialogue_speaker_selector",
      [lit "you are deciding which single skyrim npc should speak next";
       lit "identify the npc who would naturally speak next"]);
    (lit "native_action_selector",
      [lit "you are an expert at determining what action should accompany";
       lit "you are an expect at determining what action should accompany"]);
    (lit "memory_builder",
      [lit "you are an ai assistant that summarizes game events into memories";
       lit "create personalized, first-person memories";
       lit "you are an expert on the elder scrolls universe"]);
    (lit "evaluate_memory_relevance",
      [lit "you are an ai assistant that analyzes events in the game skyrim";
       lit "determine which ones are relevant to form memories"]);
    (lit "mood_evaluator",
      [lit "you are an ai assistant that analyzes an npc's recent experiences";
       lit "determine their current mood"]);
    (lit "character_profile_update",
      [lit "you are an expert at updating character profiles for npcs";
       lit "update the existing character bio"]);
    (lit "dynamic_bio_update",
      [lit "you are an expert at updating character biographies";
       lit "based on recent events and character development"]);
    (lit "player_dialogue_target_selector",
      [lit "you are an ai decision-maker for skyrim";
       lit "determining which npcs the player is addressing"]);
    (lit "native_dialogue_transformer",
      [lit "your task is to transform dialogue to make it more immersive";
       lit "natural, and fitting for"]) ].

(** [matches]: how many of a type's patterns occur in the prefix. *)
Definition count_matches (pats : list pystr) (content_prefix : pystr) : nat :=
  length (filter (fun pattern => contains pattern content_prefix) pats).

(** Second tier: the table, in its order; one match is enough. *)
Fixpoint pattern_tier (table : list (pystr * list pystr))
  (content_prefix : pystr) : option pystr :=
  match table with
  | [] => None
  | (prompt_type, pats) :: rest =>
      if 0 <? count_matches pats content_prefix then Some prompt_type
      else pattern_tier rest content_prefix
  end.

Definition Qltb (a b : Q) : bool := negb (Qle_bool b a).

(** [self.variants.get('fuzzy_matching', {}).get('enabled', False)] *)
Definition fuzzy_enabled (variants : variants_t) : bool :=
  match variants_get (lit "fuzzy_matching") variants with
  | Some v => match enabled v with Some b => b | None => false end
  | None => false
  end.

(** [self.variants['fuzzy_matching'].get('min_similarity_threshold', 0.7)] *)
Definition fuzzy_threshold (variants : variants_t) : Q :=
  match variants_get (lit "fuzzy_matching") variants with
  | Some v => match min_similarity_threshold v with
              | Some t => t
              | None => 7 # 10
              end
  | None => 7 # 10
  end.

(** [signatures], per type, flattened in the order the two loops visit
    them: the candidates of the third tier. *)
Definition fuzzy_candidates (prompt_types : prompt_types_t) :
  list (pystr * pystr) :=
  flat_map (fun entry =>
              [(fst entry, original_signature (snd entry));
               (fst entry, simplified_signature (snd entry))])
           prompt_types.

Section Classifier.

(** [SequenceMatcher(None, a, b).ratio()] of difflib. *)
Variable ratio : pystr -> pystr -> Q.

(** [similarity_score] *)
Definition similarity_score (a b : pystr) : Q := ratio (lower a) (lower b).

(** The score of one signature against the content prefix. *)
Definition fuzzy_score (content_prefix signature : pystr) : Q :=
  similarity_score (firstn 200 content_prefix) (firstn 200 signature).

(** The body of the inner [for signature in signatures]. *)
Definition fuzzy_step (content_prefix : pystr) (min_threshold : Q)
  (best : option pystr * Q) (candidate : pystr * pystr) : option pystr * Q :=
  let (prompt_type, signature) := candidate in
  if nonempty signature then
    let score := fuzzy_score content_prefix signature in
    if Qltb (snd best) score && Qle_bool min_threshold score
    then (Some prompt_type, score)
    else best
  else best.

(** [(best_match, best_score)] after the two loops. *)
Definition fuzzy_best (prompt_types : prompt_types_t)
  (content_prefix : pystr) (min_threshold : Q) : option pystr * Q :=
  fold_left (fuzzy_step content_prefix min_threshold)
            (fuzzy_candidates prompt_types) (None, 0%Q).

(** Third tier, once enabled: [if best_match: return best_match]. *)
Definition fuzzy_tier (variants : variants_t) (prompt_types : prompt_types_t)
  (content_prefix : pystr) : option pystr :=
  match fst (fuzzy_best prompt_types content_prefix
                        (fuzzy_threshold variants)) with
  | Some best_match => if nonempty best_match then Some best_match else None
  | None => None
  end.

(** One signature of the fourth tier. *)
Definition signature_hit (signature content_prefix : pystr) : bool :=
  let sig := lower signature in
  (30 <? length sig) &&
  contains (firstn (Nat.min 100 (length sig)) sig) content_prefix.

(** Fourth tier: the signatures' beginnings. *)
Fixpoint signature_tier (prompt_types : prompt_types_t)
  (content_prefix : pystr) : option pystr :=
  match prompt_types with
  | [] => None
  | (prompt_type, data) :: rest =>
      if signature_hit (original_signature data) content_prefix
      then Some prompt_type
      else if signature_hit (simplified_signature data) content_prefix
      then Some prompt_type
      else signature_tier rest content_prefix
  end.

Definition find_matching_prompt_type (variants : variants_t)
  (prompt_types : prompt_types_t) (content : pystr) : option pystr :=
  let content_prefix := content_prefix_of content in
  match variant_tier variants content_prefix with
  | Some prompt_type => Some prompt_type
  | None =>
  match pattern_tier pattern_matches content_prefix with
  | Some prompt_type => Some prompt_type
  | None =>
  match (if fuzzy_enabled variants
         then fuzzy_tier variants prompt_types content_prefix
         else None) with
  | Some best_match => Some best_match
  | None => signature_tier prompt_types content_prefix
  end end end.

(** ** [process_log_file] *)

(** A call of [save_request_data]: the prompt type, the identifier and the
    content it is given.  The method opens the path
    [output_base_dir / prompt_type / unique_id.txt] and writes the content
    to it; an exception of the write is logged and the run goes on.  What
    the file system makes of the call is not modelled: the list [saved]
    holds the calls, in order. *)
Record saved_request := {
  folder : pystr;
  file_id : pystr;
  file_content : pystr
}.

(** An entry of [self.unique_identifiers]. *)
Record identifier_entry := {
  id : pystr;
  entry_timestamp : pystr;
  prompt_type : pystr
}.

Record parser_state := {
  saved : list saved_request;
  unique_identifiers : list identifier_entry
}.

Definition UNKNOWN : pystr := lit "unknown".

(** [if not prompt_type: prompt_type = 'unknown'] *)
Definition bucket_of (found : option pystr) : pystr :=
  match found with
  | Some prompt_type => if nonempty prompt_type then prompt_type else UNKNOWN
  | None => UNKNOWN
  end.

(** The end of the loop body, from the classification on. *)
Definition classify_and_save (variants : variants_t)
  (prompt_types : prompt_types_t) (st : parser_state)
  (uid ts combined_content : pystr) : parser_state :=
  let prompt_type :=
    bucket_of (find_matching_prompt_type variants prompt_types
                                         combined_content) in
  {| saved := saved st ++
              [{| folder := prompt_type; file_id := uid;
                  file_content := combined_content |}];
     unique_identifiers := unique_identifiers st ++
              [{| id := uid; entry_timestamp := ts;
                  prompt_type := prompt_type |}] |}.

(** The loop body on one record. *)
Definition process_record (variants : variants_t)
  (prompt_types : prompt_types_t) (st : parser_state)
  (r : Segmenter.log_record) : result parser_state :=
  extracted <- extract_content (Segmenter.json_content r) ;;
  match extracted with
  | None => Return st
  | Some combined_content =>
      Return (classify_and_save variants prompt_types st
                (Segmenter.unique_id r) (Segmenter.timestamp r)
                combined_content)
  end.

Fixpoint process_records (variants : variants_t)
  (prompt_types : prompt_types_t) (st : parser_state)
  (records : list Segmenter.log_record) : result parser_state :=
  match records with
  | [] => Return st
  | r :: rest =>
      st' <- process_record variants prompt_types st r ;;
      process_records variants prompt_types st' rest
  end.

(** The body of a record neither moves [i] nor changes [lines], so the
    loop is the records found by the segmentation, handled in order. *)
Definition process_log_file (variants : variants_t)
  (prompt_types : prompt_types_t) (st : parser_state)
  (lines : list pystr) : result parser_state :=
  process_records variants prompt_types st
    (Segmenter.segment Header.request_pattern lines).

End Classifier.

End RequestParser.

(* ===================================================================== *)
(** * [openrouter_response_parser.py]                                     *)
(* ===================================================================== *)

Module ResponseParser.

(** ** [datetime.strptime(s, "%Y-%m-%d %H:%M:%S.%f")] *)

Record datetime := {
  year : Z; month : Z; day : Z;
  hour : Z; minute : Z; second : Z; microsecond : Z
}.

Definition digit (c : ascii) : Z := Z.of_nat (code c) - 48.

Definition between (lo hi c : ascii) : bool :=
  (code lo <=? code c) && (code c <=? code hi).

Definition any_digit : ascii -> bool := between "0" "9".

(** One alternative of a directive's regular expression: the value read
    and the text after it. *)
Definition alt := pystr -> option (Z * pystr).

Definition two (p1 p2 : ascii -> bool) : alt := fun s =>
  match s with
  | a :: b :: r =>
      if p1 a && p2 b then Some (10 * digit a + digit b, r)%Z else None
  | _ => None
  end.

Definition one (p : ascii -> bool) : alt := fun s =>
  match s with
  | a :: r => if p a then Some (digit a, r) else None
  | _ => None
  end.

Definition blank_then (p : ascii -> bool) : alt := fun s =>
  match s with
  | b :: a :: r =>
      if Ascii.eqb b " " && p a then Some (digit a, r) else None
  | _ => None
  end.

(** [a1|a2|...] followed by the rest of the expression: the first
    alternative with which the rest matches. *)
Fixpoint alternation {A : Type} (alts : list alt)
  (k : Z -> pystr -> option A) (s : pystr) : option A :=
  match alts with
  | [] => None
  | a :: rest =>
      match a s with
      | Some (v, r) =>
          match k v r with
          | Some x => Some x
          | None => alternation rest k s
          end
      | None => alternation rest k s
      end
  end.

(** [%Y]: four digits. *)
Definition directive_Y : list alt :=
  [fun s =>
     match s with
     | a :: b :: c :: d :: r =>
         if any_digit a && any_digit b && any_digit c && any_digit d
         then Some (1000 * digit a + 100 * digit b + 10 * digit c + digit d,
                    r)%Z
         else None
     | _ => None
     end].

(** [%m]: 1[0-2], 0[1-9] or [1-9]. *)
Definition directive_m : list alt :=
  [two (Ascii.eqb "1") (between "0" "2");
   two (Ascii.eqb "0") (between "1" "9");
   one (between "1" "9")].

(** [%d]: 3[0-1], [1-2]\d, 0[1-9], [1-9] or a blank and [1-9]. *)
Definition directive_d : list alt :=
  [two (Ascii.eqb "3") (between "0" "1");
   two (between "1" "2") any_digit;
   two (Ascii.eqb "0") (between "1" "9");
   one (between "1" "9");
   blank_then (between "1" "9")].

(** [%H]: 2[0-3], [0-1]\d or \d. *)
Definition directive_H : list alt :=
  [two (Ascii.eqb "2") (between "0" "3");
   two (between "0" "1") any_digit;
   one any_digit].

(** [%M]: [0-5]\d or \d. *)
Definition directive_M : list alt :=
  [two (between "0" "5") any_digit; one any_digit].

(** [%S]: 6[0-1], [0-5]\d or \d. *)
Definition directive_S : list alt :=
  [two (Ascii.eqb "6") (between "0" "1");
   two (between "0" "5") any_digit;
   one any_digit].

(** A literal character of the format. *)
Definition literal {A : Type} (c : ascii) (k : pystr -> option A)
  (s : pystr) : option A :=
  match s with
  | x :: r => if Ascii.eqb x c then k r else None
  | [] => None
  end.

(** The format's blank: one or more whitespace characters. *)
Definition blanks {A : Type} (k : pystr -> option A) (s : pystr) : option A :=
  match s with
  | x :: r => if isspace x then k (lstrip r) else None
  | [] => None
  end.

(** [%f]: one to six digits, as many as there are; the value pads them
    with zeros on the right. *)
Fixpoint fraction_digits (n : nat) (s : pystr) : list Z * pystr :=
  match n, s with
  | S n', c :: r =>
      if any_digit c
      then let (ds, r') := fraction_digits n' r in (digit c :: ds, r')
      else ([], s)
  | _, _ => ([], s)
  end.

Definition fraction_value (ds : list Z) : Z :=
  fold_left (fun acc d => 10 * acc + d)%Z
    (ds ++ repeat 0%Z (6 - length ds)) 0%Z.

(** The regular expression of the format, then the check that it used the
    whole string. *)
Definition match_format (s : pystr) : option datetime :=
  let found :=
    alternation directive_Y (fun Y => literal "-" (
    alternation directive_m (fun m => literal "-" (
    alternation directive_d (fun d => blanks (
    alternation directive_H (fun H => literal ":" (
    alternation directive_M (fun M => literal ":" (
    alternation directive_S (fun S => literal "." (fun s' =>
      match fraction_digits 6 s' with
      | ([], _) => None
      | (ds, rest) =>
          Some ({| year := Y; month := m; day := d; hour := H; minute := M;
                   second := S; microsecond := fraction_value ds |}, rest)
      end)))))))))))) s in
  match found with
  | Some (dt, []) => Some dt
  | _ => None
  end.

Definition is_leap (y : Z) : bool :=
  ((y mod 4 =? 0) && (negb (y mod 100 =? 0) || (y mod 400 =? 0)))%Z.

Definition days_in_month (y m : Z) : Z :=
  (if (m =? 2) && is_leap y then 29
   else nth (Z.to_nat m) [-1; 31; 28; 31; 30; 31; 30; 31; 31; 30; 31; 30; 31]
            (-1))%Z.

Definition days_before_month (y m : Z) : Z :=
  (nth (Z.to_nat m) [-1; 0; 31; 59; 90; 120; 151; 181; 212; 243; 273; 304; 334]
       (-1)
   + (if (2 <? m) && is_leap y then 1 else 0))%Z.

Definition days_before_year (y : Z) : Z :=
  (let y' := y - 1 in y' * 365 + y' / 4 - y' / 100 + y' / 400)%Z.

(** [toordinal()] *)
Definition ymd2ord (y m d : Z) : Z :=
  (days_before_year y + days_before_month y m + d)%Z.

(** What the [datetime] constructor accepts of the fields the expression
    lets through. *)
Definition valid_datetime (dt : datetime) : bool :=
  ((1 <=? year dt) && (1 <=? day dt)
   && (day dt <=? days_in_month (year dt) (month dt))
   && (second dt <=? 59))%Z.

(** [None] stands for the [ValueError] the caller catches. *)
Definition strptime (s : pystr) : option datetime :=
  match match_format s with
  | Some dt => if valid_datetime dt then Some dt else None
  | None => None
  end.

(** Microseconds since the start of day 0 of the ordinal count. *)
Definition to_microseconds (dt : datetime) : Z :=
  ((ymd2ord (year dt) (month dt) (day dt) * 86400
    + (second dt + minute dt * 60 + hour dt * 3600)) * 1000000
   + microsecond dt)%Z.

(** [(resp_dt - req_dt).total_seconds()] *)
Definition total_seconds (req_dt resp_dt : datetime) : Q :=
  Qmake (to_microseconds resp_dt - to_microseconds req_dt) 1000000.

(** ** [calculate_response_time] *)
Definition calculate_response_time (request_timestamp response_timestamp : pystr)
  : option Q :=
  match strptime request_timestamp with
  | Some req_dt =>
      match strptime response_timestamp with
      | Some resp_dt => Some (total_seconds req_dt resp_dt)
      | None => None
      end
  | None => None
  end.

(** ** [process_log_file] *)

(** A value of the lookup [self.unique_identifiers]. *)
Record request_info := {
  info_timestamp : pystr;
  info_prompt_type : pystr
}.

Definition lookup_t := list (pystr * request_info).

(** [self.unique_identifiers[unique_id]], [None] when the key is absent. *)
Fixpoint lookup (uid : pystr) (ids : lookup_t) : option request_info :=
  match ids with
  | [] => None
  | (k, v) :: rest => if eqb uid k then Some v else lookup uid rest
  end.

(** An entry of [self.timing_data]. *)
Record timing_entry := {
  t_id : pystr;
  t_prompt_type : pystr;
  t_request_timestamp : pystr;
  t_response_timestamp : pystr;
  t_response_time : option Q
}.

(** An entry of [self.processed_responses]. *)
Record processed_entry := {
  p_timing : timing_entry;
  p_content_length : nat
}.

(** A call of [save_response_data]: the identifier, the prompt type, the
    content and the response time it is given.  The method opens the path
    [output_base_dir / prompt_type / unique_id.txt] and writes lines of
    metadata followed by the content; an exception of the write is logged
    and the run goes on.  What the file system makes of the call is not
    modelled: the list [saved] holds the calls, in order. *)
Record saved_response := {
  s_folder : pystr;
  s_id : pystr;
  s_content : pystr;
  s_response_time : option Q
}.

Record parser_state := {
  saved : list saved_response;
  processed_responses : list processed_entry;
  timing_data : list timing_entry;
  matched_responses : nat;
  unmatched_responses : nat
}.

Definition initial_state : parser_state :=
  {| saved := []; processed_responses := []; timing_data := [];
     matched_responses := 0; unmatched_responses := 0 |}.

(** [unmatched_responses += 1] *)
Definition count_unmatched (st : parser_state) : parser_state :=
  {| saved := saved st; processed_responses := processed_responses st;
     timing_data := timing_data st;
     matched_responses := matched_responses st;
     unmatched_responses := S (unmatched_responses st) |}.

(** The entry both lists receive for a matched response. *)
Definition timing_of (uid response_timestamp : pystr) (info : request_info)
  : timing_entry :=
  {| t_id := uid;
     t_prompt_type := info_prompt_type info;
     t_request_timestamp := info_timestamp info;
     t_response_timestamp := response_timestamp;
     t_response_time :=
       calculate_response_time (info_timestamp info) response_timestamp |}.

(** The loop body for a matched response whose content lines are
    [content_lines]. *)
Definition record_matched (st : parser_state)
  (uid response_timestamp : pystr) (info : request_info)
  (content_lines : list pystr) : parser_state :=
  let content := strip (concat content_lines) in
  let entry := timing_of uid response_timestamp info in
  {| saved := saved st ++
              [{| s_folder := info_prompt_type info; s_id := uid;
                  s_content := content;
                  s_response_time := t_response_time entry |}];
     processed_responses := processed_responses st ++
              [{| p_timing := entry; p_content_length := length content |}];
     timing_data := timing_data st ++ [entry];
     matched_responses := S (matched_responses st);
     unmatched_responses := unmatched_responses st |}.

Definition collect_body := Segmenter.collect_body Header.response_pattern.
Definition skip_body := Segmenter.skip_body Header.response_pattern.

(** The [while i < len(lines)] loop; [lines] is what is left from index
    [i] on. *)
Equations? process_log_file (ids : lookup_t) (st : parser_state)
  (lines : list pystr) : parser_state by wf (length lines) lt :=
process_log_file ids st [] := st;
process_log_file ids st (l :: rest) with Header.response_pattern (strip l) := {
  | None => process_log_file ids st rest
  | Some (response_timestamp, uid) with lookup uid ids := {
      | None => process_log_file ids (count_unmatched st) rest
      | Some info =>
          process_log_file ids
            (record_matched st uid response_timestamp info (collect_body rest))
            (skip_body rest) } }.
Proof.
  all: simpl; try lia.
  pose proof (Segmenter.skip_body_length Header.response_pattern rest).
  unfold skip_body. lia.
Qed.

End ResponseParser.

(* ===================================================================== *)
(** * Properties of the segmentation                                      *)
(* ===================================================================== *)

Section SegmenterFacts.

Import Segmenter.

Variable pattern : pystr -> option (pystr * pystr).

Local Abbreviation headerb := (is_header pattern).

Lemma segment_header l rest ts uid :
  pattern (strip l) = Some (ts, uid) ->
  segment pattern (l :: rest) =
  {| header_line := l; timestamp := ts; unique_id := uid;
     json_lines := collect_body pattern rest |}
  :: segment pattern (skip_body pattern rest).
Proof.
  intros H. simp segment. rewrite H. reflexivity.
Qed.

Lemma segment_other l rest :
  pattern (strip l) = None ->
  segment pattern (l :: rest) = segment pattern rest.
Proof.
  intros H. simp segment. rewrite H. reflexivity.
Qed.

Lemma is_header_true l :
  headerb l = true -> exists ts uid, pattern (strip l) = Some (ts, uid).
Proof.
  unfold is_header. destruct (pattern (strip l)) as [[ts uid]|]; [eauto|discriminate].
Qed.

Lemma is_header_of_match l ts uid :
  pattern (strip l) = Some (ts, uid) -> headerb l = true.
Proof.
  unfold is_header. now intros ->.
Qed.

Lemma is_header_false l : headerb l = false -> pattern (strip l) = None.
Proof.
  unfold is_header. destruct (pattern (strip l)); [discriminate|reflexivity].
Qed.

Lemma collect_skip lines :
  collect_body pattern lines ++ skip_body pattern lines = lines.
Proof.
  induction lines as [|l rest IH]; simpl; [reflexivity|].
  destruct (headerb l); simpl; [reflexivity|now rewrite IH].
Qed.

Lemma collect_body_no_header lines :
  forallb (fun l => negb (headerb l)) (collect_body pattern lines) = true.
Proof.
  induction lines as [|l rest IH]; simpl; [reflexivity|].
  destruct (headerb l) eqn:E; simpl; [reflexivity|].
  now rewrite E, IH.
Qed.

Lemma skip_body_idem lines :
  skip_body pattern (skip_body pattern lines) = skip_body pattern lines.
Proof.
  induction lines as [|l rest IH]; simpl; [reflexivity|].
  destruct (headerb l) eqn:E; [simpl; now rewrite E|exact IH].
Qed.

Lemma skip_body_preamble pre lines :
  forallb (fun l => negb (headerb l)) pre = true ->
  skip_body pattern (pre ++ lines) = skip_body pattern lines.
Proof.
  induction pre as [|l pre IH]; simpl; [reflexivity|].
  destruct (headerb l); simpl; [discriminate|exact IH].
Qed.

Lemma filter_skip_body lines :
  filter headerb (skip_body pattern lines) = filter headerb lines.
Proof.
  induction lines as [|l rest IH]; simpl; [reflexivity|].
  destruct (headerb l) eqn:E; simpl; [now rewrite E|exact IH].
Qed.

Lemma segment_skip_body lines :
  segment pattern (skip_body pattern lines) = segment pattern lines.
Proof.
  induction lines as [|l rest IH]; simpl; [reflexivity|].
  destruct (headerb l) eqn:E; [reflexivity|].
  rewrite IH. symmetry. apply segment_other. now apply is_header_false.
Qed.

(** The records are found by induction on the number of lines left. *)
Lemma segment_ind (P : list pystr -> Prop) :
  P [] ->
  (forall l rest, headerb l = true -> P (skip_body pattern rest) -> P (l :: rest)) ->
  (forall l rest, headerb l = false -> P rest -> P (l :: rest)) ->
  forall lines, P lines.
Proof.
  intros Hnil Hhead Hother lines.
  remember (length lines) as n eqn:Hn.
  revert lines Hn.
  induction n as [n IH] using lt_wf_ind.
  intros [|l rest] Hn; [exact Hnil|].
  destruct (headerb l) eqn:E.
  - apply Hhead; [exact E|].
    apply (IH (length (skip_body pattern rest))); [|reflexivity].
    pose proof (skip_body_length pattern rest). simpl in Hn. lia.
  - apply Hother; [exact E|].
    apply (IH (length rest)); [simpl in Hn; lia|reflexivity].
Qed.

Lemma segment_count lines :
  length (segment pattern lines) = length (filter headerb lines).
Proof.
  induction lines as [|l rest E IH|l rest E IH] using segment_ind.
  - reflexivity.
  - destruct (is_header_true E) as (ts & uid & Hm).
    rewrite (segment_header rest Hm). simpl. rewrite E. simpl.
    now rewrite IH, filter_skip_body.
  - rewrite (segment_other rest (is_header_false E)). simpl. now rewrite E.
Qed.

Lemma segment_cover lines :
  flat_map (fun r => header_line r :: json_lines r) (segment pattern lines)
  = skip_body pattern lines.
Proof.
  induction lines as [|l rest E IH|l rest E IH] using segment_ind.
  - reflexivity.
  - destruct (is_header_true E) as (ts & uid & Hm).
    rewrite (segment_header rest Hm). simpl. rewrite E, IH, skip_body_idem.
    now rewrite collect_skip.
  - rewrite (segment_other rest (is_header_false E)). simpl. now rewrite E.
Qed.

Lemma segment_wellformed lines :
  Forall (fun r =>
            pattern (strip (header_line r)) = Some (timestamp r, unique_id r)
            /\ forallb (fun l => negb (headerb l)) (json_lines r) = true)
         (segment pattern lines).
Proof.
  induction lines as [|l rest E IH|l rest E IH] using segment_ind.
  - constructor.
  - destruct (is_header_true E) as (ts & uid & Hm).
    rewrite (segment_header rest Hm). constructor; [|exact IH].
    simpl. split; [exact Hm|apply collect_body_no_header].
  - now rewrite (segment_other rest (is_header_false E)).
Qed.

Lemma segment_preamble pre lines :
  forallb (fun l => negb (headerb l)) pre = true ->
  segment pattern (pre ++ lines) = segment pattern lines.
Proof.
  intros H. rewrite <- segment_skip_body, skip_body_preamble by exact H.
  apply segment_skip_body.
Qed.

Lemma strip_nil : strip [] = [].
Proof. reflexivity. Qed.

Lemma segment_empty_body h rest :
  headerb h = true ->
  (rest = [] \/ exists h' t, rest = h' :: t /\ headerb h' = true) ->
  exists r others,
    segment pattern (h :: rest) = r :: others
    /\ header_line r = h /\ json_lines r = [] /\ json_content r = [].
Proof.
  intros E Hrest.
  destruct (is_header_true E) as (ts & uid & Hm).
  rewrite (segment_header rest Hm).
  eexists; eexists; split; [reflexivity|]. simpl.
  assert (Hc : collect_body pattern rest = []).
  { destruct Hrest as [->|(h' & t & -> & E')]; simpl; [reflexivity|now rewrite E']. }
  split; [reflexivity|]. split; [exact Hc|].
  unfold json_content. simpl. now rewrite Hc.
Qed.

End SegmenterFacts.

(** What the loop keeps of a record: the two groups of its header line
    and [json_content], the raw body.  Neither the header line nor the
    list [json_lines] outlives the loop body. *)
Record raw_record := {
  r_timestamp : pystr;
  r_unique_id : pystr;
  raw_body : pystr
}.

Definition kept (r : Segmenter.log_record) : raw_record :=
  {| r_timestamp := Segmenter.timestamp r;
     r_unique_id := Segmenter.unique_id r;
     raw_body := Segmenter.json_content r |}.

(** The records of a request log, in order. *)
Definition records (lines : list pystr) : list raw_record :=
  map kept (Segmenter.segment Header.request_pattern lines).

(** A header line of the log with the lines that follow it, up to the
    next header line. *)
Definition span : Type := pystr * list pystr.

Definition lines_of_span (sp : span) : list pystr := fst sp :: snd sp.

(** The record of a span: the groups the pattern finds in its stripped
    header line, and for raw body its other lines, joined and stripped. *)
Definition record_of_span (sp : span) (rec : raw_record) : Prop :=
  Header.request_pattern (strip (fst sp))
  = Some (r_timestamp rec, r_unique_id rec)
  /\ raw_body rec = strip (concat (snd sp)).

Section RecordFacts.

Import Segmenter.

Local Abbreviation rq := Header.request_pattern.

Lemma records_spans lines :
  Forall2 record_of_span
    (map (fun r => (header_line r, json_lines r)) (segment rq lines))
    (records lines).
Proof.
  unfold records.
  pose proof (segment_wellformed rq lines) as H.
  induction H as [|r rs [Hm _] _ IH]; simpl; constructor; [|exact IH].
  split; [exact Hm|reflexivity].
Qed.

Lemma spans_cover lines :
  flat_map lines_of_span
    (map (fun r => (header_line r, json_lines r)) (segment rq lines))
  = skip_body rq lines.
Proof.
  rewrite <- segment_cover. induction (segment rq lines) as [|r rs IH];
    simpl; [reflexivity|]. now rewrite IH.
Qed.

Lemma spans_bodies lines :
  Forall (fun sp : span => forallb (fun l => negb (is_header rq l)) (snd sp) = true)
    (map (fun r => (header_line r, json_lines r)) (segment rq lines)).
Proof.
  pose proof (segment_wellformed rq lines) as H.
  induction H as [|r rs [_ Hb] _ IH]; simpl; constructor; [exact Hb|exact IH].
Qed.

End RecordFacts.

(** C2. The segmenter makes exactly one record per header-matching line;
    lines before the first header are dropped (prepending header-free
    lines changes nothing); a header directly followed by a header, or by
    the end of the input, gives a record with the groups of that header
    and an empty raw body.  The input is its header-free beginning
    followed by one span per record, in order: a header line, whose
    groups are the record's timestamp and identifier, and the header-free
    lines up to the next header, whose concatenation, stripped of
    whitespace at both ends, is the record's raw body.  So every line
    after the first header lies in exactly one span; but the record does
    not keep the lines themselves. *)
Theorem segmenter_one_record_per_header (lines : list pystr) :
  let header := Segmenter.is_header Header.request_pattern in
  length (records lines) = length (filter header lines)
  /\ (forall preamble,
        forallb (fun l => negb (header l)) preamble = true ->
        records (preamble ++ lines) = records lines)
  /\ (forall h rest,
        header h = true ->
        (rest = [] \/ exists h' t, rest = h' :: t /\ header h' = true) ->
        exists rec others,
          records (h :: rest) = rec :: others
          /\ Header.request_pattern (strip h)
             = Some (r_timestamp rec, r_unique_id rec)
          /\ raw_body rec = [])
  /\ (exists preamble spans,
        lines = preamble ++ flat_map lines_of_span spans
        /\ forallb (fun l => negb (header l)) preamble = true
        /\ Forall (fun sp : span =>
                     forallb (fun l => negb (header l)) (snd sp) = true)
                  spans
        /\ Forall2 record_of_span spans (records lines)).
Proof.
  cbv zeta. split; [unfold records; rewrite length_map; apply segment_count|].
  split.
  { intros pre Hpre. unfold records. now rewrite segment_preamble. }
  split.
  { intros h rest Hh Hrest.
    destruct (segment_empty_body Hh Hrest) as (r & others & E & Hl & _ & Hc).
    pose proof (segment_wellformed Header.request_pattern (h :: rest)) as Hw.
    rewrite E in Hw. inversion Hw as [|? ? [Hm _] _]; subst.
    exists (kept r), (map kept others). unfold records. rewrite E.
    split; [reflexivity|]. split; [exact Hm|exact Hc]. }
  exists (Segmenter.collect_body Header.request_pattern lines),
         (map (fun r => (Segmenter.header_line r, Segmenter.json_lines r))
              (Segmenter.segment Header.request_pattern lines)).
  split; [rewrite spans_cover; symmetry; apply collect_skip|].
  split; [apply collect_body_no_header|].
  split; [apply spans_bodies|apply records_spans].
Qed.

(** Two logs that begin with the same header line: in the first, a blank
    line and an indented line follow it, in the second the same text
    without the blank line and the indentation. *)
Definition padded_log : list pystr :=
  [lit "[2025-08-01 10:00:00.250] Generate request [req-1]:" ++ [nl];
   [nl];
   lit "  {}" ++ [nl]].

Definition plain_log : list pystr :=
  [lit "[2025-08-01 10:00:00.250] Generate request [req-1]:" ++ [nl];
   lit "{}" ++ [nl]].

(** The records do not give the lines back: the two logs, neither of
    which has lines before its first header, differ and have the same
    records; and the header line of the first with its record's raw body
    is not the text of the first. *)
Lemma raw_body_loses_lines_counterexample :
  Segmenter.is_header Header.request_pattern (hd [] padded_log) = true
  /\ Segmenter.is_header Header.request_pattern (hd [] plain_log) = true
  /\ padded_log <> plain_log
  /\ records padded_log = records plain_log
  /\ records padded_log
     = [{| r_timestamp := lit "2025-08-01 10:00:00.250";
           r_unique_id := lit "req-1";
           raw_body := lit "{}" |}]
  /\ hd [] padded_log ++ lit "{}" <> concat padded_log.
Proof.
  split; [vm_compute; reflexivity|].
  split; [vm_compute; reflexivity|].
  split; [discriminate|].
  split; [vm_compute; reflexivity|].
  split; [vm_compute; reflexivity|].
  vm_compute. discriminate.
Qed.

(* ===================================================================== *)
(** * Properties of the response parser                                   *)
(* ===================================================================== *)

Section ResponseFacts.

Import ResponseParser.

Local Abbreviation rpattern := Header.response_pattern.
Local Abbreviation rheader := (Segmenter.is_header Header.response_pattern).

Variable ids : lookup_t.

Lemma process_other st l rest :
  rpattern (strip l) = None ->
  process_log_file ids st (l :: rest) = process_log_file ids st rest.
Proof.
  intros H. simp process_log_file. rewrite H. reflexivity.
Qed.

Lemma process_unmatched st l rest ts uid :
  rpattern (strip l) = Some (ts, uid) ->
  lookup uid ids = None ->
  process_log_file ids st (l :: rest)
  = process_log_file ids (count_unmatched st) rest.
Proof.
  intros H L. simp process_log_file. rewrite H. simpl. rewrite L. reflexivity.
Qed.

Lemma process_matched st l rest ts uid info :
  rpattern (strip l) = Some (ts, uid) ->
  lookup uid ids = Some info ->
  process_log_file ids st (l :: rest)
  = process_log_file ids
      (record_matched st uid ts info (collect_body rest)) (skip_body rest).
Proof.
  intros H L. simp process_log_file. rewrite H. simpl. rewrite L. reflexivity.
Qed.

(** Header-free lines in front of the loop are passed over. *)
Lemma process_preamble st pre lines :
  forallb (fun l => negb (rheader l)) pre = true ->
  process_log_file ids st (pre ++ lines) = process_log_file ids st lines.
Proof.
  induction pre as [|l pre IH]; simpl; [reflexivity|].
  destruct (rheader l) eqn:E; simpl; [discriminate|].
  intros H. rewrite process_other by now apply is_header_false. now apply IH.
Qed.

Lemma process_skip_body st lines :
  process_log_file ids st (skip_body lines) = process_log_file ids st lines.
Proof.
  rewrite <- (collect_skip rpattern lines) at 2.
  symmetry. apply process_preamble, collect_body_no_header.
Qed.

(** Counting an unmatched response commutes with the rest of the run. *)
Lemma process_count_unmatched lines : forall st,
  process_log_file ids (count_unmatched st) lines
  = count_unmatched (process_log_file ids st lines).
Proof.
  induction lines as [|l rest E IH|l rest E IH] using (segment_ind (pattern:=rpattern));
    intros st.
  - now simp process_log_file.
  - destruct (is_header_true E) as (ts & uid & Hm).
    destruct (lookup uid ids) as [info|] eqn:L.
    + rewrite !(process_matched _ rest Hm L).
      change (record_matched (count_unmatched st) uid ts info (collect_body rest))
        with (count_unmatched (record_matched st uid ts info (collect_body rest))).
      apply IH.
    + rewrite !(process_unmatched _ rest Hm L).
      rewrite <- !process_skip_body with (lines := rest).
      rewrite !IH. reflexivity.
  - rewrite !(process_other _ rest (is_header_false E)). apply IH.
Qed.

(** [lines] is empty or starts with a header. *)
Definition header_led (lines : list pystr) : Prop :=
  match lines with
  | [] => True
  | h :: _ => rheader h = true
  end.

Lemma collect_body_app p x :
  header_led x -> collect_body (p ++ x) = collect_body p.
Proof.
  intros Hx. induction p as [|l p IH]; simpl.
  - destruct x as [|h t]; simpl; [reflexivity|]. simpl in Hx.
    unfold collect_body. simpl. now rewrite Hx.
  - unfold collect_body in *. simpl. destruct (rheader l); [reflexivity|].
    now rewrite IH.
Qed.

Lemma skip_body_app p x :
  header_led x -> skip_body (p ++ x) = skip_body p ++ x.
Proof.
  intros Hx. induction p as [|l p IH]; simpl.
  - destruct x as [|h t]; simpl; [reflexivity|]. simpl in Hx.
    unfold skip_body. simpl. now rewrite Hx.
  - unfold skip_body in *. simpl. destruct (rheader l); [reflexivity|].
    exact IH.
Qed.

(** The loop can be cut in front of any header. *)
Lemma process_app p x : header_led x -> forall st,
  process_log_file ids st (p ++ x)
  = process_log_file ids (process_log_file ids st p) x.
Proof.
  intros Hx.
  induction p as [|l rest E IH|l rest E IH] using (segment_ind (pattern:=rpattern));
    intros st.
  - simpl. now simp process_log_file.
  - destruct (is_header_true E) as (ts & uid & Hm). simpl.
    destruct (lookup uid ids) as [info|] eqn:L.
    + rewrite !(process_matched _ _ Hm L).
      rewrite collect_body_app, skip_body_app by exact Hx. apply IH.
    + rewrite !(process_unmatched _ _ Hm L).
      rewrite <- (process_skip_body _ (rest ++ x)), <- (process_skip_body _ rest).
      rewrite skip_body_app by exact Hx. apply IH.
  - simpl. rewrite !(process_other _ _ (is_header_false E)). apply IH.
Qed.

End ResponseFacts.

Section ResponseOutputs.

Import ResponseParser.

Variable ids : lookup_t.

(** The timing list only grows, and only by entries of identifiers the
    lookup knows. *)
Lemma timing_data_grows lines : forall st,
  exists later,
    timing_data (process_log_file ids st lines) = timing_data st ++ later
    /\ Forall (fun e => lookup (t_id e) ids <> None) later.
Proof.
  induction lines as [|l rest E IH|l rest E IH]
    using (segment_ind (pattern:=Header.response_pattern)); intros st.
  - exists []. simp process_log_file. now rewrite app_nil_r.
  - destruct (is_header_true E) as (ts & uid & Hm).
    destruct (lookup uid ids) as [info|] eqn:L.
    + rewrite (process_matched _ rest Hm L). unfold ResponseParser.skip_body.
      destruct (IH (record_matched st uid ts info (collect_body rest)))
        as (later & -> & Hl).
      exists (timing_of uid ts info :: later). simpl.
      rewrite <- app_assoc. split; [reflexivity|].
      constructor; [simpl; congruence|exact Hl].
    + rewrite (process_unmatched _ rest Hm L), process_count_unmatched.
      rewrite <- process_skip_body. simpl. apply IH.
  - rewrite (process_other ids _ rest (is_header_false E)). apply IH.
Qed.

(** So do the calls of [save_response_data]. *)
Lemma saved_grows lines : forall st,
  exists later,
    saved (process_log_file ids st lines) = saved st ++ later
    /\ Forall (fun f => lookup (s_id f) ids <> None) later.
Proof.
  induction lines as [|l rest E IH|l rest E IH]
    using (segment_ind (pattern:=Header.response_pattern)); intros st.
  - exists []. simp process_log_file. now rewrite app_nil_r.
  - destruct (is_header_true E) as (ts & uid & Hm).
    destruct (lookup uid ids) as [info|] eqn:L.
    + rewrite (process_matched _ rest Hm L). unfold ResponseParser.skip_body.
      destruct (IH (record_matched st uid ts info (collect_body rest)))
        as (later & -> & Hl).
      eexists (_ :: later). simpl.
      rewrite <- app_assoc. split; [reflexivity|].
      constructor; [simpl; congruence|exact Hl].
    + rewrite (process_unmatched _ rest Hm L), process_count_unmatched.
      rewrite <- process_skip_body. simpl. apply IH.
  - rewrite (process_other ids _ rest (is_header_false E)). apply IH.
Qed.

End ResponseOutputs.

(** C7. A response whose identifier the lookup does not hold leaves no
    trace but the unmatched count: the run over a log that contains it
    (header [hdr] and body [body], up to the next header or the end) ends
    in the state of the run over the log without it, with one more
    unmatched response; no timing entry and no file written by the run
    carries its identifier.  The loop is a total function: nothing is
    raised. *)
Theorem unmatched_response_dropped
  (ids : ResponseParser.lookup_t) (st : ResponseParser.parser_state)
  (before : list pystr) (hdr : pystr) (body after : list pystr)
  (ts uid : pystr) :
  Header.response_pattern (strip hdr) = Some (ts, uid) ->
  ResponseParser.lookup uid ids = None ->
  forallb (fun l => negb (Segmenter.is_header Header.response_pattern l)) body
  = true ->
  header_led after ->
  let final :=
    ResponseParser.process_log_file ids st (before ++ hdr :: body ++ after) in
  final = ResponseParser.count_unmatched
            (ResponseParser.process_log_file ids st (before ++ after))
  /\ ResponseParser.unmatched_responses final
     = S (ResponseParser.unmatched_responses
            (ResponseParser.process_log_file ids st (before ++ after)))
  /\ (forall e, In e (ResponseParser.timing_data final) ->
                In e (ResponseParser.timing_data st)
                \/ ResponseParser.t_id e <> uid)
  /\ (forall f, In f (ResponseParser.saved final) ->
                In f (ResponseParser.saved st)
                \/ ResponseParser.s_id f <> uid).
Proof.
  intros Hm L Hbody Hafter final.
  assert (Hfinal : final = ResponseParser.count_unmatched
            (ResponseParser.process_log_file ids st (before ++ after))).
  { unfold final.
    rewrite process_app by exact (is_header_of_match Hm).
    rewrite (process_unmatched _ _ Hm L), process_count_unmatched.
    rewrite process_preamble by exact Hbody.
    now rewrite <- process_app by exact Hafter. }
  split; [exact Hfinal|]. split; [now rewrite Hfinal|].
  split.
  - intros e He. unfold final in He.
    destruct (timing_data_grows ids (before ++ hdr :: body ++ after) st)
      as (later & Heq & Hl).
    rewrite Heq in He. apply in_app_or in He as [He|He]; [now left|right].
    rewrite Forall_forall in Hl. specialize (Hl e He). congruence.
  - intros f Hf. unfold final in Hf.
    destruct (saved_grows ids (before ++ hdr :: body ++ after) st)
      as (later & Heq & Hl).
    rewrite Heq in Hf. apply in_app_or in Hf as [Hf|Hf]; [now left|right].
    rewrite Forall_forall in Hl. specialize (Hl f Hf). congruence.
Qed.

(** A log line as [readlines] gives it. *)
Definition line (s : string) : pystr := lit s ++ [nl].

(** A lookup with one request, and a response log in which the second of
    three responses carries an identifier the lookup does not hold. *)
Definition example_ids : ResponseParser.lookup_t :=
  [(lit "abc-123",
    {| ResponseParser.info_timestamp := lit "2024-01-01 10:00:00.000000";
       ResponseParser.info_prompt_type := lit "dialogue_response" |})].

Definition example_before : list pystr :=
  [line "[2024-01-01 10:00:02.500000] Generate response [abc-123]:";
   line "Well met, traveller."].

Definition example_orphan : pystr :=
  line "[2024-01-01 10:00:03.000000] Generate response [zzz-999]:".

Definition example_orphan_body : list pystr := [line "Nobody asked."].

Definition example_after : list pystr :=
  [line "[2024-01-01 10:00:04.000000] Generate response [abc-123]:";
   line "Safe travels."].

Lemma unmatched_response_dropped_example :
  ResponseParser.process_log_file example_ids ResponseParser.initial_state
    (example_before ++ example_orphan :: example_orphan_body ++ example_after)
  = ResponseParser.count_unmatched
      (ResponseParser.process_log_file example_ids ResponseParser.initial_state
         (example_before ++ example_after)).
Proof.
  refine (proj1 (@unmatched_response_dropped example_ids
                   ResponseParser.initial_state example_before example_orphan
                   example_orphan_body example_after
                   (lit "2024-01-01 10:00:03.000000") (lit "zzz-999")
                   _ _ _ _)).
  - vm_compute. reflexivity.
  - vm_compute. reflexivity.
  - vm_compute. reflexivity.
  - vm_compute. reflexivity.
Defined.


(* ===================================================================== *)
(** * Properties of the classifier                                        *)
(* ===================================================================== *)

Section ClassifierFacts.

Import RequestParser.

Variable ratio : pystr -> pystr -> Q.

(** The first tier answers [None] exactly when no variant occurs. *)
Lemma variant_tier_none variants prefix :
  variant_tier variants prefix = None <->
  (forall pt vd p, In (pt, vd) variants -> In p (patterns_of vd) ->
                   contains (lower p) prefix = false).
Proof.
  induction variants as [|[pt0 vd0] rest IH]; simpl.
  - split; [intros _ pt vd p []|reflexivity].
  - destruct (existsb _ (patterns_of vd0)) eqn:E.
    + split; [discriminate|]. intros H.
      apply existsb_exists in E as (p & Hp & Hc).
      rewrite (H pt0 vd0 p (or_introl eq_refl) Hp) in Hc. discriminate.
    + rewrite IH. split.
      * intros H pt vd p [Heq|Hin] Hp; [|now apply (H pt vd p)].
        inversion Heq; subst.
        destruct (contains (lower p) prefix) eqn:C; [|reflexivity].
        assert (X : existsb (fun pattern => contains (lower pattern) prefix)
                      (patterns_of vd) = true)
          by (apply existsb_exists; eauto).
        congruence.
      * intros H pt vd p Hin. apply (H pt vd p). now right.
Qed.


Lemma count_matches_zero pats prefix :
  count_matches pats prefix = 0 <->
  (forall p, In p pats -> contains p prefix = false).
Proof.
  unfold count_matches. induction pats as [|p0 pats IH]; simpl.
  - split; [intros _ p []|reflexivity].
  - destruct (contains p0 prefix) eqn:C; simpl.
    + split; [discriminate|]. intros H. rewrite (H p0 (or_introl eq_refl)) in C.
      discriminate.
    + rewrite IH. split.
      * intros H p [<-|Hin]; [exact C|now apply H].
      * intros H p Hin. apply H. now right.
Qed.

(** The second tier answers [None] exactly when no pattern of the table
    occurs. *)
Lemma pattern_tier_none table prefix :
  pattern_tier table prefix = None <->
  (forall pt pats p, In (pt, pats) table -> In p pats ->
                     contains p prefix = false).
Proof.
  induction table as [|[pt0 pats0] rest IH]; simpl.
  - split; [intros _ pt pats p []|reflexivity].
  - destruct (count_matches pats0 prefix) as [|n] eqn:E; simpl.
    + rewrite IH. pose proof (proj1 (count_matches_zero pats0 prefix) E) as E'.
      split.
      * intros H pt pats p [Heq|Hin] Hp; [|now apply (H pt pats p)].
        inversion Heq; subst. now apply E'.
      * intros H pt pats p Hin. apply (H pt pats p). now right.
    + split; [discriminate|]. intros H.
      assert (X : count_matches pats0 prefix = 0)
        by (apply count_matches_zero; intros p Hp;
            now apply (H pt0 pats0 p (or_introl eq_refl))).
      congruence.
Qed.

(** A signature hit, spelled out. *)
Lemma signature_hit_false signature prefix :
  signature_hit signature prefix = false <->
  (length signature <= 30
   \/ contains (firstn 100 (lower signature)) prefix = false).
Proof.
  unfold signature_hit, lower. rewrite length_map.
  assert (Hf : firstn (Nat.min 100 (length signature)) (map lower_char signature)
               = firstn 100 (map lower_char signature)).
  { destruct (Nat.le_ge_cases 100 (length signature)) as [H|H].
    - now rewrite Nat.min_l.
    - rewrite Nat.min_r by exact H.
      rewrite !firstn_all2; rewrite ?length_map; [reflexivity|lia|lia]. }
  rewrite Hf.
  destruct (Nat.ltb_spec 30 (length signature)) as [H|H]; simpl.
  - split; [now right|]. intros [H'|H']; [lia|exact H'].
  - split; [now left|reflexivity].
Qed.

(** The fourth tier answers [None] exactly when no signature hits. *)
Lemma signature_tier_none prompt_types prefix :
  signature_tier prompt_types prefix = None <->
  (forall pt data, In (pt, data) prompt_types ->
     signature_hit (original_signature data) prefix = false
     /\ signature_hit (simplified_signature data) prefix = false).
Proof.
  induction prompt_types as [|[pt0 d0] rest IH]; simpl.
  - split; [intros _ pt data []|reflexivity].
  - destruct (signature_hit (original_signature d0) prefix) eqn:E1.
    + split; [discriminate|]. intros H.
      destruct (H pt0 d0 (or_introl eq_refl)). congruence.
    + destruct (signature_hit (simplified_signature d0) prefix) eqn:E2.
      * split; [discriminate|]. intros H.
        destruct (H pt0 d0 (or_introl eq_refl)). congruence.
      * rewrite IH. split.
        -- intros H pt data [Heq|Hin]; [inversion Heq; subst; now split|].
           now apply (H pt data).
        -- intros H pt data Hin. apply (H pt data). now right.
Qed.

End ClassifierFacts.

(** No signature prefix occurs: every signature of more than 30
    characters has its first 100 characters (fewer if it is shorter),
    lowercased, absent from the prefix. *)
Definition no_signature_prefix (prompt_types : RequestParser.prompt_types_t)
  (prefix : pystr) : Prop :=
  forall pt data signature,
    In (pt, data) prompt_types ->
    signature = RequestParser.original_signature data
    \/ signature = RequestParser.simplified_signature data ->
    30 < length signature ->
    contains (firstn 100 (lower signature)) prefix = false.

Lemma signature_tier_none_iff prompt_types prefix :
  RequestParser.signature_tier prompt_types prefix = None <->
  no_signature_prefix prompt_types prefix.
Proof.
  rewrite signature_tier_none. unfold no_signature_prefix. split.
  - intros H pt data signature Hin Hsig Hlen.
    destruct (H pt data Hin) as [H1 H2].
    apply signature_hit_false in H1, H2.
    destruct Hsig as [->| ->]; [destruct H1|destruct H2]; (lia || assumption).
  - intros H pt data Hin. split; apply signature_hit_false.
    + destruct (Nat.le_gt_cases (length (RequestParser.original_signature data)) 30)
        as [Hl|Hl]; [now left|right].
      now apply (H pt data _ Hin (or_introl eq_refl)).
    + destruct (Nat.le_gt_cases (length (RequestParser.simplified_signature data)) 30)
        as [Hl|Hl]; [now left|right].
      now apply (H pt data _ Hin (or_intror eq_refl)).
Qed.

(** C6. Content in which no variant, no fixed pattern and no signature
    prefix occurs, with fuzzy matching not enabled, is classified as
    nothing ([None], the "unknown" result); the classifier is a total
    function and raises nothing.  A record whose extracted content is
    such is saved in the folder [unknown] and entered in the identifier
    list with the prompt type [unknown], so it stays countable. *)
Theorem unmatched_content_is_unknown
  (ratio : pystr -> pystr -> Q)
  (variants : RequestParser.variants_t)
  (prompt_types : RequestParser.prompt_types_t) (content : pystr) :
  let prefix := RequestParser.content_prefix_of content in
  (forall pt vd p,
      In (pt, vd) variants -> In p (RequestParser.patterns_of vd) ->
      contains (lower p) prefix = false) ->
  (forall pt pats p,
      In (pt, pats) RequestParser.pattern_matches -> In p pats ->
      contains p prefix = false) ->
  RequestParser.fuzzy_enabled variants = false ->
  no_signature_prefix prompt_types prefix ->
  RequestParser.find_matching_prompt_type ratio variants prompt_types content
  = None
  /\ (forall st r,
        RequestParser.extract_content (Segmenter.json_content r)
        = RequestParser.Return (Some content) ->
        RequestParser.process_record ratio variants prompt_types st r
        = RequestParser.Return
            {| RequestParser.saved :=
                 RequestParser.saved st ++
                 [{| RequestParser.folder := RequestParser.UNKNOWN;
                     RequestParser.file_id := Segmenter.unique_id r;
                     RequestParser.file_content := content |}];
               RequestParser.unique_identifiers :=
                 RequestParser.unique_identifiers st ++
                 [{| RequestParser.id := Segmenter.unique_id r;
                     RequestParser.entry_timestamp := Segmenter.timestamp r;
                     RequestParser.prompt_type := RequestParser.UNKNOWN |}] |}).
Proof.
  intros prefix Hvar Hpat Hfuzzy Hsig.
  assert (Hnone : RequestParser.find_matching_prompt_type ratio variants
                    prompt_types content = None).
  { unfold RequestParser.find_matching_prompt_type. fold prefix.
    rewrite (proj2 (variant_tier_none variants prefix) Hvar).
    rewrite (proj2 (pattern_tier_none RequestParser.pattern_matches prefix) Hpat).
    rewrite Hfuzzy.
    exact (proj2 (signature_tier_none_iff prompt_types prefix) Hsig). }
  split; [exact Hnone|].
  intros st r Hex. unfold RequestParser.process_record. rewrite Hex. simpl.
  unfold RequestParser.classify_and_save. rewrite Hnone. reflexivity.
Qed.

(** A store with one variant and one signature, and content none of them
    fits. *)
Definition example_variants : RequestParser.variants_t :=
  [(lit "dialogue_response",
    {| RequestParser.patterns := Some [lit "Speak as they would"];
       RequestParser.enabled := None;
       RequestParser.min_similarity_threshold := None;
       RequestParser.fuzzy_matching := None |})].

Definition example_prompt_types : RequestParser.prompt_types_t :=
  [(lit "memory_builder",
    {| RequestParser.original_signature :=
         lit "You are an AI assistant that summarizes game events into memories.";
       RequestParser.simplified_signature :=
         lit "You are an AI assistant that summarizes game events into memories" |})].

Definition example_unknown_content : pystr :=
  lit "What is the weather like in Whiterun today?".

(** A similarity that is 1 on equal strings and 0 otherwise: what
    [SequenceMatcher.ratio] gives on equal strings, used where an example
    needs some function. *)
Definition equal_ratio (a b : pystr) : Q := if eqb a b then 1%Q else 0%Q.

Lemma unmatched_content_is_unknown_example :
  RequestParser.find_matching_prompt_type equal_ratio example_variants
    example_prompt_types example_unknown_content = None.
Proof.
  refine (proj1 (@unmatched_content_is_unknown equal_ratio example_variants
                   example_prompt_types example_unknown_content _ _ _ _)).
  - apply variant_tier_none. vm_compute. reflexivity.
  - apply pattern_tier_none. vm_compute. reflexivity.
  - vm_compute. reflexivity.
  - apply signature_tier_none_iff. vm_compute. reflexivity.
Defined.







(** ** The third tier *)

Lemma Qltb_true (a b : Q) : RequestParser.Qltb a b = true <-> (a < b)%Q.
Proof.
  unfold RequestParser.Qltb. rewrite negb_true_iff. split.
  - intros H. apply Qnot_le_lt. intros Hle.
    apply Qle_bool_iff in Hle. congruence.
  - intros H. destruct (Qle_bool b a) eqn:E; [|reflexivity].
    apply Qle_bool_iff in E. lra.
Qed.

Section FuzzyFacts.

Import RequestParser.

Variable ratio : pystr -> pystr -> Q.
Variable prefix : pystr.
Variable threshold : Q.

Local Abbreviation score := (fuzzy_score ratio prefix).
Local Abbreviation step := (fuzzy_step ratio prefix threshold).

(** A candidate replaces the best so far when its signature is not empty
    and its score is above the best score and at least the threshold. *)
Definition beats (best_score : Q) (signature : pystr) : Prop :=
  nonempty signature = true
  /\ (best_score < score signature)%Q
  /\ (threshold <= score signature)%Q.

Lemma fuzzy_step_cases best s pt sig :
  (beats s sig /\ step (best, s) (pt, sig) = (Some pt, score sig))
  \/ (~ beats s sig /\ step (best, s) (pt, sig) = (best, s)).
Proof.
  unfold fuzzy_step, beats. simpl.
  destruct (nonempty sig); [|right; split; [intros [H _]; discriminate|reflexivity]].
  destruct (Qltb s (score sig)) eqn:E1; simpl.
  - destruct (Qle_bool threshold (score sig)) eqn:E2.
    + left. apply Qltb_true in E1. apply Qle_bool_iff in E2. now repeat split.
    + right. split; [|reflexivity]. intros (_ & _ & H).
      apply Qle_bool_iff in H. congruence.
  - right. split; [|reflexivity]. intros (_ & H & _).
    apply Qltb_true in H. congruence.
Qed.

(** What the two loops leave in [(best_match, best_score)]: either the
    initial pair, no candidate having beaten it, or the type and score of
    a candidate that beats the initial score, scores strictly more than
    every candidate before it and at least as much as every one after. *)
Lemma fuzzy_fold cands : forall best s,
  (fold_left step cands (best, s) = (best, s)
   /\ forall pt sig, In (pt, sig) cands -> ~ beats s sig)
  \/ (exists l1 pt sig l2,
        cands = l1 ++ (pt, sig) :: l2
        /\ fold_left step cands (best, s) = (Some pt, score sig)
        /\ beats s sig
        /\ (forall pt' sig', In (pt', sig') l1 -> nonempty sig' = true ->
                             (score sig' < score sig)%Q)
        /\ (forall pt' sig', In (pt', sig') l2 -> nonempty sig' = true ->
                             (score sig' <= score sig)%Q)).
Proof.
  induction cands as [|[pt0 sig0] cands IH]; intros best s; cbn [fold_left].
  - left. split; [reflexivity|intros pt sig []].
  - destruct (fuzzy_step_cases best s pt0 sig0) as [[Hb ->]|[Hnb ->]].
    + right.
      destruct (IH (Some pt0) (score sig0))
        as [[Heq Hnone]|(l1 & pt & sig & l2 & -> & Heq & Hb' & H1 & H2)].
      * exists [], pt0, sig0, cands. simpl.
        repeat split; try assumption; try apply Hb.
        -- intros pt' sig' [].
        -- intros pt' sig' Hin Hne.
           specialize (Hnone pt' sig' Hin). unfold beats in Hnone.
           destruct Hb as (_ & _ & Ht).
           destruct (Qlt_le_dec (score sig0) (score sig')) as [Hlt|Hle];
             [|exact Hle].
           exfalso. apply Hnone. repeat split; [exact Hne|exact Hlt|lra].
      * exists ((pt0, sig0) :: l1), pt, sig, l2. simpl.
        destruct Hb as (Hne0 & Hs0 & Ht0). destruct Hb' as (Hne & Hs & Ht).
        repeat split; try assumption; try lra.
        intros pt' sig' [Heq'|Hin] Hne'.
        -- inversion Heq'; subst. exact Hs.
        -- now apply (H1 pt' sig').
    + destruct (IH best s)
        as [[Heq Hnone]|(l1 & pt & sig & l2 & -> & Heq & Hb' & H1 & H2)].
      * left. split; [exact Heq|].
        intros pt sig [Heq'|Hin]; [inversion Heq'; subst; exact Hnb|].
        now apply (Hnone pt sig).
      * right. exists ((pt0, sig0) :: l1), pt, sig, l2. simpl.
        repeat split; try assumption; try apply Hb'.
        intros pt' sig' [Heq'|Hin] Hne'; [|now apply (H1 pt' sig')].
        inversion Heq'; subst.
        destruct Hb' as (_ & Hs & Ht). unfold beats in Hnb.
        destruct (Qlt_le_dec s (score sig')) as [Hlt|Hle]; [|lra].
        destruct (Qlt_le_dec (score sig') threshold) as [Hlt'|Hle']; [lra|].
        exfalso. apply Hnb. now repeat split.
Qed.

End FuzzyFacts.

Lemma lower_char_idem c : lower_char (lower_char c) = lower_char c.
Proof.
  unfold lower_char.
  destruct ((65 <=? code c) && (code c <=? 90)) eqn:E; [|now rewrite E].
  apply andb_true_iff in E as [E1 E2]. apply Nat.leb_le in E1, E2.
  unfold code in *. rewrite nat_ascii_embedding by lia.
  destruct (Nat.leb_spec (nat_of_ascii c + 32) 90); [lia|].
  now rewrite andb_false_r.
Qed.

Lemma lower_idem s : lower (lower s) = lower s.
Proof.
  unfold lower. rewrite map_map. apply map_ext. apply lower_char_idem.
Qed.

(** The score of a signature compares the first 200 characters of the
    content with the first 200 characters of the signature, lowercased. *)
Lemma fuzzy_score_200 ratio content signature :
  RequestParser.fuzzy_score ratio (RequestParser.content_prefix_of content)
    signature
  = ratio (lower (firstn 200 content)) (lower (firstn 200 signature)).
Proof.
  unfold RequestParser.fuzzy_score, RequestParser.similarity_score,
    RequestParser.content_prefix_of.
  rewrite firstn_firstn. change (Nat.min 200 800) with 200.
  unfold lower at 1 2. rewrite firstn_map.
  change (map lower_char (map lower_char (firstn 200 content)))
    with (lower (lower (firstn 200 content))).
  now rewrite lower_idem.
Qed.

(** C9 (as amended).  Once the first two tiers have found nothing, the
    third tier runs exactly when the variants mapping has an entry named
    [fuzzy_matching] whose own key [enabled] is true; its threshold is
    that entry's [min_similarity_threshold], 0.7 when the key is absent
    (a [fuzzy_matching] object inside a prompt type's entry is not read).
    Not enabled, the fourth tier decides.  Enabled, each non-empty
    original and simplified signature is scored, its first 200 characters
    against the first 200 characters of the content; either no score is
    both positive and at least the threshold, and the fourth tier
    decides, or the result is the type of the candidate whose score is
    positive, at least the threshold, above the score of every candidate
    before it in store order and not below that of any after it (a type
    with an empty name excepted, for which the fourth tier decides). *)
Theorem fuzzy_tier_selection
  (ratio : pystr -> pystr -> Q)
  (variants : RequestParser.variants_t)
  (prompt_types : RequestParser.prompt_types_t) (content : pystr) :
  let prefix := RequestParser.content_prefix_of content in
  let threshold := RequestParser.fuzzy_threshold variants in
  let score := fun signature =>
    ratio (lower (firstn 200 content)) (lower (firstn 200 signature)) in
  let candidates := RequestParser.fuzzy_candidates prompt_types in
  let result :=
    RequestParser.find_matching_prompt_type ratio variants prompt_types
      content in
  let fallback := RequestParser.signature_tier prompt_types prefix in
  RequestParser.variant_tier variants prefix = None ->
  RequestParser.pattern_tier RequestParser.pattern_matches prefix = None ->
  (RequestParser.fuzzy_enabled variants = true <->
   exists v, RequestParser.variants_get (lit "fuzzy_matching") variants = Some v
             /\ RequestParser.enabled v = Some true)
  /\ (forall v,
        RequestParser.variants_get (lit "fuzzy_matching") variants = Some v ->
        threshold = match RequestParser.min_similarity_threshold v with
                    | Some t => t
                    | None => (7 # 10)%Q
                    end)
  /\ (RequestParser.fuzzy_enabled variants = false -> result = fallback)
  /\ (RequestParser.fuzzy_enabled variants = true ->
      ((forall pt signature,
           In (pt, signature) candidates -> nonempty signature = true ->
           ~ (0 < score signature /\ threshold <= score signature)%Q)
       /\ result = fallback)
      \/ (exists earlier pt signature later,
            candidates = earlier ++ (pt, signature) :: later
            /\ nonempty signature = true
            /\ (0 < score signature)%Q
            /\ (threshold <= score signature)%Q
            /\ (forall pt' signature',
                  In (pt', signature') earlier -> nonempty signature' = true ->
                  (score signature' < score signature)%Q)
            /\ (forall pt' signature',
                  In (pt', signature') later -> nonempty signature' = true ->
                  (score signature' <= score signature)%Q)
            /\ result = if nonempty pt then Some pt else fallback)).
Proof.
  intros prefix threshold score candidates result fallback H1 H2.
  assert (Hscore : forall signature,
             RequestParser.fuzzy_score ratio prefix signature = score signature)
    by (intros; apply fuzzy_score_200).
  split.
  { unfold RequestParser.fuzzy_enabled.
    destruct (RequestParser.variants_get (lit "fuzzy_matching") variants)
      as [v|].
    - split.
      + intros H. exists v. split; [reflexivity|].
        destruct (RequestParser.enabled v) as [[|]|]; congruence.
      + intros (v' & Hv & He). inversion Hv; subst. now rewrite He.
    - split; [discriminate|]. intros (v' & Hv & _). discriminate. }
  split.
  { intros v Hv. unfold threshold, RequestParser.fuzzy_threshold.
    now rewrite Hv. }
  split.
  { intros Hoff. unfold result, RequestParser.find_matching_prompt_type.
    fold prefix. now rewrite H1, H2, Hoff. }
  intros Hon.
  assert (Hres : result =
            match RequestParser.fuzzy_tier ratio variants prompt_types prefix with
            | Some best_match => Some best_match
            | None => fallback
            end).
  { unfold result, RequestParser.find_matching_prompt_type.
    fold prefix. now rewrite H1, H2, Hon. }
  unfold RequestParser.fuzzy_tier, RequestParser.fuzzy_best in Hres.
  fold threshold candidates in Hres.
  destruct (fuzzy_fold ratio prefix threshold candidates None 0%Q)
    as [[Heq Hnone]|(l1 & pt & sig & l2 & Hdec & Heq & Hb & Hbefore & Hafter)].
  - left. split.
    + intros pt sig Hin Hne [Hpos Hthr].
      apply (Hnone pt sig Hin). unfold beats. rewrite Hscore. now repeat split.
    + now rewrite Hres, Heq.
  - right. exists l1, pt, sig, l2.
    destruct Hb as (Hne & Hpos & Hthr). rewrite Hscore in Hpos, Hthr.
    repeat split; try assumption.
    + intros pt' sig' Hin Hne'. rewrite <- !Hscore. now apply (Hbefore pt' sig').
    + intros pt' sig' Hin Hne'. rewrite <- !Hscore. now apply (Hafter pt' sig').
    + rewrite Hres, Heq. simpl. now destruct (nonempty pt).
Qed.

(** A variants mapping whose [fuzzy_matching] entry enables the third
    tier and names no threshold, one prompt type, and content that is its
    signature in capitals. *)
Definition fuzzy_variants : RequestParser.variants_t :=
  [(lit "fuzzy_matching",
    {| RequestParser.patterns := None;
       RequestParser.enabled := Some true;
       RequestParser.min_similarity_threshold := None;
       RequestParser.fuzzy_matching := None |})].

Definition greeting_types : RequestParser.prompt_types_t :=
  [(lit "greeting",
    {| RequestParser.original_signature := lit "Hello there, friend.";
       RequestParser.simplified_signature := lit "Hello there, friend" |})].

Definition greeting_content : pystr := lit "HELLO THERE, FRIEND.".

Lemma fuzzy_tier_selection_example :
  RequestParser.find_matching_prompt_type equal_ratio fuzzy_variants
    greeting_types greeting_content = Some (lit "greeting")
  /\ RequestParser.fuzzy_threshold fuzzy_variants = (7 # 10)%Q.
Proof.
  destruct (@fuzzy_tier_selection equal_ratio fuzzy_variants greeting_types
              greeting_content eq_refl eq_refl)
    as (_ & Hthr & _ & Hon).
  split; [|exact (Hthr _ eq_refl)].
  destruct (Hon eq_refl)
    as [[Hnone _]|(l1 & pt & sig & l2 & Hdec & _ & _ & _ & _ & _ & Hres)].
  - exfalso.
    apply (Hnone (lit "greeting") (lit "Hello there, friend.")
                 (or_introl eq_refl) eq_refl).
    vm_compute. split; [reflexivity|discriminate].
  - rewrite Hres.
    assert (Hpt : pt = lit "greeting").
    { destruct l1 as [|x [|y l1]]; inversion Hdec; subst;
        [reflexivity|reflexivity|].
      destruct l1; discriminate. }
    now rewrite Hpt.
Defined.

(** C9 as stated fails on where the switch is read: with the switch and
    the threshold inside the prompt type's own entry, as the format
    [{patterns, fuzzy_matching: {enabled, min_similarity_threshold}}] has
    them, and content equal to the type's signature (similarity 1, above
    the threshold 0.7), the third tier is not run and nothing is found. *)
Definition per_type_variants : RequestParser.variants_t :=
  [(lit "greeting",
    {| RequestParser.patterns := Some [];
       RequestParser.enabled := None;
       RequestParser.min_similarity_threshold := None;
       RequestParser.fuzzy_matching :=
         Some {| RequestParser.fs_enabled := Some true;
                 RequestParser.fs_min_similarity_threshold :=
                   Some (7 # 10)%Q |} |})].

Lemma fuzzy_switch_counterexample :
  (exists v settings,
      In (lit "greeting", v) per_type_variants
      /\ RequestParser.fuzzy_matching v = Some settings
      /\ RequestParser.fs_enabled settings = Some true
      /\ RequestParser.fs_min_similarity_threshold settings = Some (7 # 10)%Q)
  /\ In (lit "greeting", lit "Hello there, friend.")
        (RequestParser.fuzzy_candidates greeting_types)
  /\ Qeq (equal_ratio (lower (firstn 200 greeting_content))
                      (lower (firstn 200 (lit "Hello there, friend."))))
         1
  /\ RequestParser.fuzzy_enabled per_type_variants = false
  /\ RequestParser.find_matching_prompt_type equal_ratio per_type_variants
       greeting_types greeting_content = None.
Proof.
  split.
  { eexists; eexists. split; [left; reflexivity|]. simpl. now repeat split. }
  split; [left; reflexivity|].
  split; [vm_compute; reflexivity|].
  split; vm_compute; reflexivity.
Qed.

(* ===================================================================== *)
(** * The decoder never lacks fuel                                        *)
(* ===================================================================== *)

Section DecoderFacts.
Import Json.

Lemma skip_ws_length s : length (skip_ws s) <= length s.
Proof.
  induction s as [|c s IH]; simpl; [lia|]. destruct (is_ws c); simpl; lia.
Qed.

Lemma take_digits_length s ds r :
  take_digits s = (ds, r) -> length r <= length s.
Proof.
  revert ds r. induction s as [|c s IH]; simpl; intros ds r H.
  - injection H as <- <-. simpl. lia.
  - destruct (is_digit c).
    + destruct (take_digits s) as [ds' r'] eqn:E. injection H as <- <-.
      specialize (IH _ _ eq_refl). lia.
    + injection H as <- <-. simpl. lia.
Qed.

Lemma take_int_length s i r : take_int s = Some (i, r) -> length r < length s.
Proof.
  unfold take_int. intros H.
  destruct s as [|c s]; [discriminate|].
  destruct (Ascii.eqb c "-").
  - destruct s as [|c' s]; [discriminate|].
    destruct (Ascii.eqb c' "0"); [injection H as <- <-; simpl; lia|].
    destruct (is_digit c'); [|discriminate].
    destruct (take_digits s) as [ds r'] eqn:E. injection H as <- <-.
    apply take_digits_length in E. simpl. lia.
  - destruct (Ascii.eqb c "0"); [injection H as <- <-; simpl; lia|].
    destruct (is_digit c); [|discriminate].
    destruct (take_digits s) as [ds r'] eqn:E. injection H as <- <-.
    apply take_digits_length in E. simpl. lia.
Qed.

Lemma take_frac_length s f r : take_frac s = (f, r) -> length r <= length s.
Proof.
  unfold take_frac. intros H. destruct s as [|c s]; [injection H as <- <-; lia|].
  destruct (Ascii.eqb c "."); [|injection H as <- <-; lia].
  destruct (take_digits s) as [[|d ds] r'] eqn:E; injection H as <- <-;
    [lia|]. apply take_digits_length in E. simpl. lia.
Qed.

Lemma take_exp_length s e r : take_exp s = (e, r) -> length r <= length s.
Proof.
  unfold take_exp. intros H. destruct s as [|c s]; [injection H as <- <-; lia|].
  destruct (Ascii.eqb c "e" || Ascii.eqb c "E"); [|injection H as <- <-; lia].
  destruct s as [|c' s].
  - simpl in H. injection H as <- <-. simpl. lia.
  - destruct (Ascii.eqb c' "-" || Ascii.eqb c' "+").
    + destruct (take_digits s) as [[|d ds] r'] eqn:E; injection H as <- <-;
        [simpl; lia|]. apply take_digits_length in E. simpl. lia.
    + destruct (take_digits (c' :: s)) as [[|d ds] r'] eqn:E;
        injection H as <- <-; [simpl; lia|].
      apply take_digits_length in E. simpl in *. lia.
Qed.

Lemma match_number_length s n r :
  match_number s = Some (n, r) -> length r < length s.
Proof.
  unfold match_number. intros H.
  destruct (take_int s) as [[i r0]|] eqn:Ei; [|discriminate].
  destruct (take_frac r0) as [f r1] eqn:Ef.
  destruct (take_exp r1) as [e r2] eqn:Ee. injection H as <- <-.
  apply take_int_length in Ei. apply take_frac_length in Ef.
  apply take_exp_length in Ee. lia.
Qed.

Lemma startswith_length p s : startswith p s = true -> length p <= length s.
Proof.
  revert s. induction p as [|x p IH]; intros [|y s]; simpl; try lia;
    try discriminate.
  intros H. apply andb_true_iff in H as [_ H]. apply IH in H. lia.
Qed.

Lemma keyword_length w v s x r :
  w <> EmptyString -> keyword w v s = Some (x, r) -> length r < length s.
Proof.
  unfold keyword. intros Hw H.
  destruct (startswith (lit w) s) eqn:E; [|discriminate].
  injection H as <- <-. apply startswith_length in E.
  rewrite length_skipn.
  destruct w; [contradiction|]. simpl in *. lia.
Qed.

Lemma scan_atom_length s v r : scan_atom s = Some (v, r) -> length r < length s.
Proof.
  unfold scan_atom. intros H.
  repeat match type of H with
         | match keyword ?w ?x ?s with _ => _ end = _ =>
             let E := fresh "E" in
             destruct (keyword w x s) as [[? ?]|] eqn:E;
             [injection H as <- <-;
              apply keyword_length in E; [exact E|discriminate]|]
         | match match_number ?s with _ => _ end = _ =>
             let E := fresh "E" in
             destruct (match_number s) as [[? ?]|] eqn:E;
             [injection H as <- <-; now apply match_number_length in E|]
         end.
  apply keyword_length in H; [exact H|discriminate].
Qed.

Lemma prepend_inv p x str r :
  prepend p x = Some (str, r) -> exists str', x = Some (str', r).
Proof.
  unfold prepend. destruct x as [[s' r']|]; [|discriminate].
  intros H. injection H as <- <-. eauto.
Qed.

(** A string ends at its closing quote: the scan consumes a character at
    least. *)
Lemma scan_string_length n : forall s str r,
  length s <= n -> scan_string s = Some (str, r) -> length r < length s.
Proof.
  induction n as [|n IH]; intros s str r Hn H.
  - destruct s; [discriminate|simpl in Hn; lia].
  - destruct s as [|c s1]; [discriminate|]. cbn [scan_string] in H.
    simpl in Hn.
    repeat match type of H with
           | Some _ = Some _ => injection H as <- <-; simpl; lia
           | None = Some _ => discriminate H
           | prepend _ (scan_string ?x) = Some _ =>
               apply prepend_inv in H; destruct H as (? & H);
               apply IH in H; simpl in *; lia
           | (if ?b then _ else _) = _ => destruct b
           | match ?x with _ => _ end = _ => destruct x
           end.
Qed.

(** A result that is not a lack of fuel and leaves less text than it was
    given. *)
Definition consumes (s : pystr) (x : res (json * pystr)) : Prop :=
  x <> OutOfFuel /\ forall v r, x = Ok (v, r) -> length r < length s.

Lemma consumes_error s : consumes s DecodeError.
Proof.
  split; [discriminate|intros v r H; discriminate].
Qed.

Lemma consumes_ok s v r : length r < length s -> consumes s (Ok (v, r)).
Proof.
  intros H. split; [discriminate|]. intros v' r' E. now injection E as <- <-.
Qed.

Lemma consumes_shorter s s' x :
  length s' <= length s -> consumes s' x -> consumes s x.
Proof.
  intros Hl [H1 H2]. split; [exact H1|]. intros v r E.
  specialize (H2 v r E). lia.
Qed.

(** Fuel above twice the length of the text is enough for the three
    functions. *)
Lemma scan_fuel fuel :
  (forall s, 2 * length s + 1 <= fuel -> consumes s (scan_once fuel s))
  /\ (forall pairs s, 2 * length s + 2 <= fuel ->
                      consumes s (scan_members fuel pairs s))
  /\ (forall values s, 2 * length s + 2 <= fuel ->
                       consumes s (scan_items fuel values s)).
Proof.
  induction fuel as [|fuel (IHonce & IHmembers & IHitems)].
  - repeat split; intros; simpl in *; lia.
  - split; [|split].
    + intros s Hf. cbn [scan_once].
      destruct s as [|c s1]; [apply consumes_error|]. simpl in Hf.
      destruct (Ascii.eqb c dq).
      { destruct (scan_string s1) as [[str r]|] eqn:E;
          [|apply consumes_error].
        apply (scan_string_length (n:=length s1)) in E; [|lia].
        apply consumes_ok. simpl. lia. }
      destruct (Ascii.eqb c "{").
      { pose proof (skip_ws_length s1) as Hw.
        destruct (skip_ws s1) as [|c1 s2]; [apply consumes_error|].
        simpl in Hw.
        destruct (Ascii.eqb c1 "}"); [apply consumes_ok; simpl; lia|].
        destruct (Ascii.eqb c1 dq); [|apply consumes_error].
        apply (@consumes_shorter _ s2); [simpl; lia|].
        apply IHmembers. lia. }
      destruct (Ascii.eqb c "[").
      { pose proof (skip_ws_length s1) as Hw.
        destruct (skip_ws s1) as [|c1 s2]; [apply consumes_error|].
        simpl in Hw.
        destruct (Ascii.eqb c1 "]"); [apply consumes_ok; simpl; lia|].
        apply (@consumes_shorter _ (c1 :: s2)); [simpl; lia|].
        apply IHitems. simpl. lia. }
      destruct (scan_atom (c :: s1)) as [[v r]|] eqn:E;
        [|apply consumes_error].
      apply scan_atom_length in E. now apply consumes_ok.
    + intros pairs s Hf. cbn [scan_members].
      destruct (scan_string s) as [[key r]|] eqn:E; [|apply consumes_error].
      apply (scan_string_length (n:=length s)) in E; [|lia].
      pose proof (skip_ws_length r) as Hw.
      destruct (skip_ws r) as [|colon r1]; [apply consumes_error|].
      simpl in Hw.
      destruct (Ascii.eqb colon ":"); [|apply consumes_error].
      pose proof (skip_ws_length r1) as Hw1.
      destruct (IHonce (skip_ws r1)) as [Hne Hok]; [lia|].
      destruct (scan_once fuel (skip_ws r1)) as [[value r2]| |];
        [|apply consumes_error|contradiction].
      specialize (Hok value r2 eq_refl).
      pose proof (skip_ws_length r2) as Hw2.
      destruct (skip_ws r2) as [|c r3]; [apply consumes_error|].
      simpl in Hw2.
      destruct (Ascii.eqb c "}"); [apply consumes_ok; lia|].
      destruct (Ascii.eqb c ","); [|apply consumes_error].
      pose proof (skip_ws_length r3) as Hw3.
      destruct (skip_ws r3) as [|q r4]; [apply consumes_error|].
      simpl in Hw3.
      destruct (Ascii.eqb q dq); [|apply consumes_error].
      apply (@consumes_shorter _ r4); [lia|].
      apply IHmembers. lia.
    + intros values s Hf. cbn [scan_items].
      destruct (IHonce s) as [Hne Hok]; [lia|].
      destruct (scan_once fuel s) as [[value r]| |];
        [|apply consumes_error|contradiction].
      specialize (Hok value r eq_refl).
      pose proof (skip_ws_length r) as Hw.
      destruct (skip_ws r) as [|c r1]; [apply consumes_error|].
      simpl in Hw.
      destruct (Ascii.eqb c "]"); [apply consumes_ok; lia|].
      destruct (Ascii.eqb c ","); [|apply consumes_error].
      pose proof (skip_ws_length r1) as Hw1.
      apply (@consumes_shorter _ (skip_ws r1)); [lia|].
      apply IHitems. lia.
Qed.

(** [json_loads] answers [None] only for a text the decoder refuses. *)
Lemma json_loads_fuel s :
  scan_once (S (S (2 * length (skip_ws s)))) (skip_ws s) <> OutOfFuel.
Proof.
  destruct (scan_fuel (S (S (2 * length (skip_ws s))))) as (H & _ & _).
  apply H. lia.
Qed.
End DecoderFacts.

(* ===================================================================== *)
(** * Properties of the payload extractor                                 *)
(* ===================================================================== *)

(** A payload written with ['] for the double quote and [|] for the line
    feed. *)
Definition payload (s : string) : pystr :=
  map (fun c => if Ascii.eqb c "'" then dq
                else if Ascii.eqb c "|" then nl else c) (lit s).

(** A message unit: an object whose [content], when it has one, is a
    string. *)
Definition is_unit (m : Json.json) : Prop :=
  exists d, m = Json.JObj d
            /\ (Json.dict_get (lit "content") d = None
                \/ exists c, Json.dict_get (lit "content") d
                             = Some (Json.JStr c)).

(** The content values of a list of messages, in order. *)
Fixpoint unit_contents (msgs : list Json.json) : list pystr :=
  match msgs with
  | [] => []
  | Json.JObj d :: rest =>
      match Json.dict_get (lit "content") d with
      | Some (Json.JStr c) => c :: unit_contents rest
      | _ => unit_contents rest
      end
  | _ :: rest => unit_contents rest
  end.

(** An object all of whose values are strings. *)
Definition str_dict (d : Json.dict) : Prop :=
  Forall (fun kv => exists s, snd kv = Json.JStr s) d.

Section ExtractorFacts.

Import Json RequestParser.

Lemma content_parts_units msgs :
  Forall is_unit msgs ->
  content_parts msgs = Return (map JStr (unit_contents msgs)).
Proof.
  induction 1 as [|m msgs (d & -> & Hc) _ IH]; [reflexivity|].
  cbn [content_parts content_of unit_contents bind]. rewrite IH.
  destruct Hc as [->|(c & ->)]; reflexivity.
Qed.

Lemma join_parts_strings l : join_parts (map JStr l) = Return l.
Proof.
  induction l as [|s l IH]; simpl; [reflexivity|]. now rewrite IH.
Qed.

(** On message units the extraction is the join of their contents. *)
Lemma extract_units msgs :
  Forall is_unit msgs ->
  extract_messages_content (JArr msgs)
  = Return (join BLANK_LINE (unit_contents msgs)).
Proof.
  intros H. unfold extract_messages_content. simpl.
  rewrite (content_parts_units H). simpl.
  now rewrite join_parts_strings.
Qed.

Lemma str_dict_get k d v :
  str_dict d -> dict_get k d = Some v -> exists s, v = JStr s.
Proof.
  induction 1 as [|[k' v'] d (s & Hs) _ IH]; simpl; [discriminate|].
  destruct (eqb k k'); [|exact IH].
  intros H. inversion H; subst. simpl in Hs. eauto.
Qed.

Lemma str_dict_set k s d : str_dict d -> str_dict (dict_set k (JStr s) d).
Proof.
  induction 1 as [|[k' v'] d Hs Hd IH]; simpl.
  - constructor; [simpl; eauto|constructor].
  - destruct (eqb k k'); constructor; simpl; eauto; assumption.
Qed.

Lemma str_dict_unit d : str_dict d -> is_unit (JObj d).
Proof.
  intros H. exists d. split; [reflexivity|].
  destruct (dict_get (lit "content") d) as [v|] eqn:E; [right|now left].
  destruct (str_dict_get H E) as (s & ->). eauto.
Qed.

(** What the scan keeps true: the messages finalized so far are units,
    and the message being built holds strings only. *)
Definition scan_inv (st : scan_state) : Prop :=
  Forall is_unit (messages st) /\ str_dict (current_message st).

Lemma scan_line_inv st line :
  scan_inv st -> scan_inv (fst (scan_line st line)).
Proof.
  intros [Hm Hc]. unfold scan_line.
  repeat match goal with
         | |- context [if ?b then _ else _] =>
             lazymatch type of b with bool => destruct b end
         end;
    try destruct (current_message st) eqn:E;
    unfold scan_inv; cbn [fst messages current_message]; split;
    first [ assumption
          | now constructor
          | now apply str_dict_set
          | rewrite E; assumption
          | apply Forall_app; split; [assumption|];
            constructor; [|constructor];
            apply str_dict_unit; assumption ].
Qed.

Lemma scan_lines_inv lines : forall st,
  scan_inv st -> scan_inv (scan_lines st lines).
Proof.
  induction lines as [|l lines IH]; intros st H; simpl; [exact H|].
  pose proof (scan_line_inv l H) as H'.
  destruct (scan_line st l) as [st' stop]. simpl in H'.
  destruct stop; [exact H'|now apply IH].
Qed.

Lemma scan_init_inv : scan_inv scan_init.
Proof.
  split; constructor.
Qed.

(** A [break] leaves the list state. *)
Lemma scan_line_break st line st' :
  scan_line st line = (st', true) -> in_messages st' = false.
Proof.
  unfold scan_line.
  repeat match goal with
         | |- context [if ?b then _ else _] =>
             lazymatch type of b with bool => destruct b end
         end;
    try destruct (current_message st);
    intros H; inversion H; reflexivity.
Qed.

(** The scan of a beginning that ends inside the list goes on with what
    follows. *)
Lemma scan_lines_app before more : forall st,
  in_messages (scan_lines st before) = true ->
  scan_lines st (before ++ more) = scan_lines (scan_lines st before) more.
Proof.
  induction before as [|l before IH]; intros st H; simpl in *; [reflexivity|].
  destruct (scan_line st l) as [st' stop] eqn:E.
  destruct stop; [|now apply IH].
  rewrite (scan_line_break E) in H. discriminate.
Qed.

End ExtractorFacts.

(** ** The strict path *)

(** C3 (as amended).  When the strict parser decodes the raw body into an
    object whose [messages] is a non-empty list of message units, the
    extractor returns that object and the recovery scan is not run; the
    normalized content is the content values joined by a blank line. *)
Theorem strict_result_is_used
  (body : pystr) (d : Json.dict) (msgs : list Json.json) :
  Json.json_loads body = Some (Json.JObj d) ->
  Json.dict_get (lit "messages") d = Some (Json.JArr msgs) ->
  Forall is_unit msgs ->
  msgs <> [] ->
  RequestParser.parse_json_entry body = Some (Json.JObj d)
  /\ RequestParser.extract_content body
     = RequestParser.Return
         (Some (join RequestParser.BLANK_LINE (unit_contents msgs))).
Proof.
  intros Hload Hget Hunits Hne.
  assert (Hparse : RequestParser.parse_json_entry body = Some (Json.JObj d))
    by (unfold RequestParser.parse_json_entry; now rewrite Hload).
  split; [exact Hparse|].
  unfold RequestParser.extract_content. rewrite Hparse.
  assert (Ht : Json.truthy (Json.JObj d) = true)
    by (destruct d; [discriminate|reflexivity]).
  rewrite Ht. cbn [negb RequestParser.get_messages]. rewrite Hget.
  cbn [RequestParser.bind].
  assert (Ht' : Json.truthy (Json.JArr msgs) = true)
    by (destruct msgs; [contradiction|reflexivity]).
  rewrite Ht'. cbn [negb]. now rewrite (extract_units Hunits).
Qed.

(** A well-formed payload, as the log holds it. *)
Definition valid_payload : pystr :=
  payload "{|  'messages': [|    {|      'role': 'system',|      'content': 'Be brief.'|    },|    {|      'role': 'user',|      'content': 'hi'|    }|  ]|}".

Definition valid_payload_messages : list Json.json :=
  [Json.JObj [(lit "role", Json.JStr (lit "system"));
              (lit "content", Json.JStr (lit "Be brief."))];
   Json.JObj [(lit "role", Json.JStr (lit "user"));
              (lit "content", Json.JStr (lit "hi"))]].

Lemma valid_payload_units : Forall is_unit valid_payload_messages.
Proof.
  repeat constructor; eexists; (split; [reflexivity|right; eexists; reflexivity]).
Qed.

Lemma strict_result_is_used_example :
  RequestParser.extract_content valid_payload
  = RequestParser.Return (Some (lit "Be brief." ++ [nl; nl] ++ lit "hi")).
Proof.
  refine (proj2 (@strict_result_is_used valid_payload
                   [(lit "messages", Json.JArr valid_payload_messages)]
                   valid_payload_messages _ _ valid_payload_units _)).
  - vm_compute. reflexivity.
  - vm_compute. reflexivity.
  - discriminate.
Defined.

(** The same message with its [content] before its [role]. *)
Definition content_first_payload : pystr :=
  payload "{|  'messages': [|    {|      'content': 'hi',|      'role': 'user'|    }|  ]|}".

(** C3 as stated fails.  On the first payload the strict parser gives the
    two contents, and the recovery scan gives nothing: each one-line
    content is left open and swallows the lines after it.  On the second
    the strict content is [hi], and the recovery scan gives a content made
    of the rest of the content line and of the role line. *)
Lemma recovery_differs_counterexample :
  Json.json_loads valid_payload
  = Some (Json.JObj [(lit "messages", Json.JArr valid_payload_messages)])
  /\ RequestParser.extract_content valid_payload
     = RequestParser.Return (Some (lit "Be brief." ++ [nl; nl] ++ lit "hi"))
  /\ RequestParser._manual_json_parse valid_payload = None
  /\ RequestParser.extract_content content_first_payload
     = RequestParser.Return (Some (lit "hi"))
  /\ RequestParser._manual_json_parse content_first_payload
     = Some (Json.JObj
               [(lit "messages",
                 Json.JArr
                   [Json.JObj
                      [(lit "content",
                        Json.JStr (payload "hi',|'role': 'user"))]])]).
Proof.
  repeat split; vm_compute; reflexivity.
Qed.

(** ** The recovery scan *)

(** A line that begins the capture of a content value. *)
Definition opens_content (l : pystr) : Prop :=
  contains RequestParser.MESSAGES_KEY (strip l) = false
  /\ startswith (lit "{") (strip l) = false
  /\ contains RequestParser.CONTENT_KEY (strip l) = true.

(** A line that does not end with a quote, nor with a quote and a comma. *)
Definition leaves_open (l : pystr) : Prop :=
  endswith RequestParser.QUOTE (strip l) = false
  /\ endswith RequestParser.QUOTE_COMMA (strip l) = false.

Section RecoveryFacts.

Import Json RequestParser.

Lemma scan_line_opens st l :
  in_messages st = true -> opens_content l ->
  exists st',
    scan_line st l = (st', false)
    /\ messages st' = messages st
    /\ current_message st' = current_message st
    /\ in_messages st' = true /\ in_content st' = true.
Proof.
  intros Hin (H1 & H2 & H3). unfold scan_line.
  rewrite H1, Hin, H2, H3. cbn [andb]. eexists. split; [reflexivity|].
  now repeat split.
Qed.

Lemma scan_line_leaves_open st l :
  in_messages st = true -> in_content st = true -> leaves_open l ->
  exists st',
    scan_line st l = (st', false)
    /\ messages st' = messages st
    /\ current_message st' = current_message st
    /\ in_messages st' = true /\ in_content st' = true.
Proof.
  intros Hin Hc (H1 & H2). unfold scan_line.
  rewrite Hin, Hc, H1, H2. rewrite andb_false_r. cbn [orb].
  destruct (contains MESSAGES_KEY (strip l));
    [eexists; split; [reflexivity|now repeat split]|].
  destruct (contains CONTENT_KEY (strip l));
    eexists; (split; [reflexivity|now repeat split]).
Qed.

(** Once a content value is open, lines that leave it open finalize
    nothing. *)
Lemma content_never_closed rest : forall st,
  in_messages st = true -> in_content st = true ->
  Forall leaves_open rest ->
  messages (scan_lines st rest) = messages st.
Proof.
  induction rest as [|l rest IH]; intros st Hin Hc Hall; [reflexivity|].
  inversion Hall as [|? ? Hl Hrest]; subst.
  destruct (scan_line_leaves_open Hin Hc Hl)
    as (st' & Hstep & Hm & _ & Hin' & Hc').
  cbn [scan_lines]. rewrite Hstep. rewrite (IH st' Hin' Hc' Hrest). exact Hm.
Qed.

Lemma parse_some_recovered body recovered :
  json_loads body = None ->
  contains MESSAGES_KEY body = true ->
  messages (scan_lines scan_init (split_nl body)) = recovered ->
  parse_json_entry body
  = match recovered with
    | [] => None
    | _ :: _ => Some (JObj [(lit "messages", JArr recovered)])
    end.
Proof.
  intros Hload Hkey Hrec. unfold parse_json_entry. rewrite Hload, Hkey.
  unfold _manual_json_parse, manual_parse_lines, scan_result. rewrite Hrec.
  reflexivity.
Qed.

End RecoveryFacts.

(** C4 (as amended).  When strict decoding fails on a body that holds the
    messages key, the extraction succeeds exactly when the recovery scan
    finalizes a message: with none the record is skipped, with one or more
    the content values of the finalized messages are joined.  A content
    value that no later line closes (no later line ends with a quote, or
    a quote and a comma) is never finalized: the scan recovers the
    messages finalized before its line, and neither the role nor the
    truncated content of that message. *)
Theorem recovery_outcome (body : pystr) :
  Json.json_loads body = None ->
  contains RequestParser.MESSAGES_KEY body = true ->
  let recovered :=
    RequestParser.messages
      (RequestParser.scan_lines RequestParser.scan_init (split_nl body)) in
  (recovered = [] ->
   RequestParser.extract_content body = RequestParser.Return None)
  /\ (recovered <> [] ->
      RequestParser.extract_content body
      = RequestParser.Return
          (Some (join RequestParser.BLANK_LINE (unit_contents recovered))))
  /\ (forall before opening rest,
        split_nl body = before ++ opening :: rest ->
        RequestParser.in_messages
          (RequestParser.scan_lines RequestParser.scan_init before) = true ->
        opens_content opening ->
        Forall leaves_open rest ->
        recovered
        = RequestParser.messages
            (RequestParser.scan_lines RequestParser.scan_init before)).
Proof.
  intros Hload Hkey recovered.
  pose proof (@parse_some_recovered body recovered Hload Hkey eq_refl) as Hparse.
  split; [|split].
  - intros Hnil. unfold RequestParser.extract_content.
    rewrite Hparse, Hnil. reflexivity.
  - intros Hne. unfold RequestParser.extract_content. rewrite Hparse.
    destruct recovered as [|m ms] eqn:E; [contradiction|].
    cbn [Json.truthy negb RequestParser.get_messages].
    change (Json.dict_get (lit "messages")
              [(lit "messages", Json.JArr (m :: ms))])
      with (Some (Json.JArr (m :: ms))).
    cbn [RequestParser.bind Json.truthy negb].
    assert (Hunits : Forall is_unit (m :: ms)).
    { rewrite <- E. unfold recovered.
      apply (scan_lines_inv (split_nl body) scan_init_inv). }
    now rewrite (extract_units Hunits).
  - intros before opening rest Hsplit Hin Hopen Hrest.
    unfold recovered. rewrite Hsplit.
    rewrite scan_lines_app by exact Hin.
    destruct (scan_line_opens Hin Hopen) as (st' & Hstep & Hm & _ & Hin' & Hc').
    cbn [RequestParser.scan_lines]. rewrite Hstep.
    now rewrite (content_never_closed Hin' Hc' Hrest).
Qed.

(** A payload cut in the middle of its second message's content; the
    first message's content runs over two lines and is closed. *)
Definition truncated_payload : pystr :=
  payload "{|  'messages': [|    {|      'role': 'system',|      'content': 'You are a guard.|Stay in character.'|    },|    {|      'role': 'user',|      'content': 'Halt! Who goes".

Lemma recovery_outcome_example :
  RequestParser.extract_content truncated_payload
  = RequestParser.Return
      (Some (lit "You are a guard." ++ [nl] ++ lit "Stay in character.")).
Proof.
  destruct (@recovery_outcome truncated_payload eq_refl eq_refl)
    as (_ & Hsome & _).
  rewrite Hsome; [vm_compute; reflexivity|].
  vm_compute. discriminate.
Defined.

(** C4 as stated fails: a payload whose only message has a role line and a
    content string that is never closed is not decoded by the strict
    parser, and the recovery scan finalizes nothing, so the record is
    skipped. *)
Definition unterminated_payload : pystr :=
  payload "{|  'messages': [|    {|      'role': 'user',|      'content': 'Halt! Who goes".

Lemma unterminated_content_counterexample :
  Json.json_loads unterminated_payload = None
  /\ contains RequestParser.MESSAGES_KEY unterminated_payload = true
  /\ In (payload "      'role': 'user',") (split_nl unterminated_payload)
  /\ In (payload "      'content': 'Halt! Who goes")
        (split_nl unterminated_payload)
  /\ RequestParser.messages
       (RequestParser.scan_lines RequestParser.scan_init
          (split_nl unterminated_payload)) = []
  /\ RequestParser._manual_json_parse unterminated_payload = None
  /\ RequestParser.extract_content unterminated_payload
     = RequestParser.Return None.
Proof.
  split; [vm_compute; reflexivity|].
  split; [vm_compute; reflexivity|].
  split; [vm_compute; tauto|].
  split; [vm_compute; tauto|].
  repeat split; vm_compute; reflexivity.
Qed.

(** A line inside an open content value that neither closes it nor holds
    one of the keys the scan reacts to. *)
Definition continues_content (l : pystr) : Prop :=
  leaves_open l
  /\ contains RequestParser.MESSAGES_KEY (strip l) = false
  /\ contains RequestParser.CONTENT_KEY (strip l) = false.

(** A line that closes a content value: [last] and a quote, or [last], a
    quote and a comma. *)
Definition closes_content (l last : pystr) : Prop :=
  contains RequestParser.MESSAGES_KEY (strip l) = false
  /\ contains RequestParser.CONTENT_KEY (strip l) = false
  /\ (strip l = last ++ RequestParser.QUOTE
      \/ strip l = last ++ RequestParser.QUOTE_COMMA).

Section CaptureFacts.

Import Json RequestParser.

Lemma drop_last_app (s t : pystr) : drop_last (length t) (s ++ t) = s.
Proof.
  unfold drop_last. rewrite length_app.
  replace (length s + length t - length t) with (length s + 0) by lia.
  rewrite firstn_app_2. simpl. apply app_nil_r.
Qed.

Lemma endswith_app (s t : pystr) : endswith t (s ++ t) = true.
Proof.
  unfold endswith. rewrite rev_app_distr.
  induction (rev t) as [|c r IH]; simpl; [reflexivity|].
  now rewrite Ascii.eqb_refl.
Qed.

Lemma endswith_quote_comma_quote (s : pystr) :
  endswith QUOTE_COMMA (s ++ QUOTE) = false.
Proof.
  unfold endswith. rewrite rev_app_distr. reflexivity.
Qed.

Lemma scan_line_opens_with st l first :
  in_messages st = true -> opens_content l ->
  strip (after_first CONTENT_KEY (strip l)) = dq :: first ->
  scan_line st l
  = ({| messages := messages st; current_message := current_message st;
        in_messages := true; in_content := true;
        content_lines := [first] |}, false).
Proof.
  intros Hin (H1 & H2 & H3) Hstart. unfold scan_line.
  rewrite H1, Hin, H2, H3, Hstart. cbn [andb].
  change (startswith QUOTE (dq :: first)) with true. reflexivity.
Qed.

Lemma scan_line_continues st l :
  in_messages st = true -> in_content st = true -> continues_content l ->
  scan_line st l
  = ({| messages := messages st; current_message := current_message st;
        in_messages := true; in_content := true;
        content_lines := content_lines st ++ [strip l] |}, false).
Proof.
  intros Hin Hc ((H1 & H2) & H3 & H4). unfold scan_line.
  rewrite H3, Hin, Hc, H4, H1, H2. rewrite andb_false_r. reflexivity.
Qed.

Lemma scan_line_closes st l last :
  in_messages st = true -> in_content st = true -> closes_content l last ->
  scan_line st l
  = ({| messages := messages st;
        current_message :=
          dict_set (lit "content")
            (JStr (join [nl] (content_lines st ++ [last])))
            (current_message st);
        in_messages := true; in_content := false;
        content_lines := [] |}, false).
Proof.
  intros Hin Hc (H1 & H2 & [H3|H3]); unfold scan_line;
    rewrite H1, Hin, Hc, H2, H3, andb_false_r.
  - rewrite endswith_quote_comma_quote, endswith_app. cbn [orb].
    change (drop_last 1 (last ++ QUOTE))
      with (drop_last (length QUOTE) (last ++ QUOTE)).
    now rewrite drop_last_app.
  - rewrite endswith_app. cbn [orb].
    change (drop_last 2 (last ++ QUOTE_COMMA))
      with (drop_last (length QUOTE_COMMA) (last ++ QUOTE_COMMA)).
    now rewrite drop_last_app.
Qed.

(** The lines between the opening and the closing one are gathered. *)
Lemma scan_lines_middle middle : forall st more,
  in_messages st = true -> in_content st = true ->
  Forall continues_content middle ->
  scan_lines st (middle ++ more)
  = scan_lines {| messages := messages st;
                  current_message := current_message st;
                  in_messages := true; in_content := true;
                  content_lines := content_lines st ++ map strip middle |}
               more.
Proof.
  induction middle as [|m middle IH]; intros st more Hin Hc Hall.
  - simpl. rewrite app_nil_r. destruct st; simpl in *. now subst.
  - inversion Hall as [|? ? Hm Hrest]; subst.
    cbn [app scan_lines]. rewrite (scan_line_continues Hin Hc Hm).
    rewrite IH by (try reflexivity; exact Hrest).
    cbn [messages current_message content_lines map].
    now rewrite <- app_assoc.
Qed.

Lemma join_in (sep : pystr) parts c ch :
  In c parts -> In ch c -> In ch (join sep parts).
Proof.
  induction parts as [|p parts IH]; intros Hc Hch; [contradiction|].
  destruct Hc as [->|Hc].
  - destruct parts; simpl; [exact Hch|apply in_or_app; now left].
  - destruct parts as [|q parts]; [contradiction|].
    change (join sep (p :: q :: parts))
      with (p ++ sep ++ join sep (q :: parts)).
    apply in_or_app. right. apply in_or_app. right. now apply IH.
Qed.

End CaptureFacts.

(** The case the recovery scan is written for: a content value that runs
    over several lines.  The value captured is the text after the opening
    quote of the content line, the lines that follow, and the closing line
    without its final quote (or quote and comma), each line without its
    outer whitespace, joined by line feeds: the quotes that delimit the
    value are removed. *)
Lemma multi_line_content_captured
  st opening first middle closing last rest :
  RequestParser.in_messages st = true ->
  opens_content opening ->
  strip (after_first RequestParser.CONTENT_KEY (strip opening)) = dq :: first ->
  Forall continues_content middle ->
  closes_content closing last ->
  RequestParser.scan_lines st (opening :: middle ++ closing :: rest)
  = RequestParser.scan_lines
      {| RequestParser.messages := RequestParser.messages st;
         RequestParser.current_message :=
           Json.dict_set (lit "content")
             (Json.JStr (join [nl] (first :: map strip middle ++ [last])))
             (RequestParser.current_message st);
         RequestParser.in_messages := true;
         RequestParser.in_content := false;
         RequestParser.content_lines := [] |}
      rest.
Proof.
  intros Hin Hopen Hstart Hmid Hclose.
  cbn [RequestParser.scan_lines].
  rewrite (scan_line_opens_with Hin Hopen Hstart).
  rewrite scan_lines_middle by (try reflexivity; exact Hmid).
  cbn [RequestParser.scan_lines RequestParser.messages
       RequestParser.current_message RequestParser.content_lines].
  erewrite scan_line_closes by (first [exact Hclose|reflexivity]).
  reflexivity.
Qed.

(** A payload cut off before the closing bracket of its messages list,
    whose only message has its [content] before its [role], each on one
    line. *)
Definition cut_content_first_payload : pystr :=
  payload "{|  'messages': [|    {|      'content': 'hi',|      'role': 'user'|    }".

(** A payload cut off at the same place, with a one-line [content] after
    the [role] of its first message and a second message without
    content. *)
Definition cut_two_message_payload : pystr :=
  payload "{|  'messages': [|    {|      'role': 'system',|      'content': 'Be brief.'|    },|    {|      'role': 'user'|    }".

(** A request log with the first payload as the body of its only
    record. *)
Definition cut_request_log : list pystr :=
  (lit "[2025-08-01 10:00:00.250] Generate request [req-1]:" ++ [nl])
  :: map (fun l => l ++ [nl]) (split_nl cut_content_first_payload).

(** C5.  The recovery scan lets punctuation of the payload format into the
    normalized content.  A content line opens the capture even when the
    value ends on that line, and the capture then runs on to the next
    line that ends with a quote.  Neither payload is decoded by the strict
    parser.  Of the first, whose content value is [hi], the normalized
    content is [hi] with the closing quote and comma of its field, a line
    feed, and the role field up to its closing quote; of the second,
    whose content value is [Be brief.], it also holds the braces between
    the two messages.  The run over the log hands the first of these
    contents to [save_request_data] as the content of the record. *)
Theorem recovery_leaks_structure :
  Json.json_loads cut_content_first_payload = None
  /\ RequestParser.extract_content cut_content_first_payload
     = RequestParser.Return (Some (payload "hi',|'role': 'user"))
  /\ In dq (payload "hi',|'role': 'user")
  /\ Json.json_loads cut_two_message_payload = None
  /\ RequestParser.extract_content cut_two_message_payload
     = RequestParser.Return (Some (payload "Be brief.'|},|{|'role': 'user"))
  /\ In "{"%char (payload "Be brief.'|},|{|'role': 'user")
  /\ In "}"%char (payload "Be brief.'|},|{|'role': 'user")
  /\ In dq (payload "Be brief.'|},|{|'role': 'user")
  /\ RequestParser.process_log_file equal_ratio example_variants
       example_prompt_types
       {| RequestParser.saved := []; RequestParser.unique_identifiers := [] |}
       cut_request_log
     = RequestParser.Return
         {| RequestParser.saved :=
              [{| RequestParser.folder := lit "unknown";
                  RequestParser.file_id := lit "req-1";
                  RequestParser.file_content := payload "hi',|'role': 'user" |}];
            RequestParser.unique_identifiers :=
              [{| RequestParser.id := lit "req-1";
                  RequestParser.entry_timestamp := lit "2025-08-01 10:00:00.250";
                  RequestParser.prompt_type := lit "unknown" |}] |}.
Proof.
  split; [vm_compute; reflexivity|].
  split; [vm_compute; reflexivity|].
  split; [vm_compute; tauto|].
  split; [vm_compute; reflexivity|].
  split; [vm_compute; reflexivity|].
  split; [vm_compute; tauto|].
  split; [vm_compute; tauto|].
  split; [vm_compute; tauto|].
  vm_compute. reflexivity.
Qed.

(* ===================================================================== *)
(** * Timestamps: lexical order and elapsed time                          *)
(* ===================================================================== *)

(** [a < b] on strings: by code point, a proper prefix first. *)
Fixpoint lex_ltb (a b : pystr) : bool :=
  match a, b with
  | [], [] => false
  | [], _ :: _ => true
  | _ :: _, [] => false
  | x :: a', y :: b' =>
      if code x <? code y then true
      else if code x =? code y then lex_ltb a' b'
      else false
  end.

(** The 26 characters [YYYY-MM-DD HH:MM:SS.ffffff], every field a run of
    digits of its full width. *)
Definition fixed_layout (s : pystr) : bool :=
  match s with
  | [y1; y2; y3; y4; p1; m1; m2; p2; d1; d2; p3; h1; h2; p4; n1; n2; p5;
     s1; s2; p6; u1; u2; u3; u4; u5; u6] =>
      forallb ResponseParser.any_digit
        [y1; y2; y3; y4; m1; m2; d1; d2; h1; h2; n1; n2; s1; s2;
         u1; u2; u3; u4; u5; u6]
      && eqb [p1; p2; p3; p4; p5; p6] (lit "-- ::.")
  | _ => false
  end.

(** The fields a string of that layout spells. *)
Definition fields_of (s : pystr) : ResponseParser.datetime :=
  let d := ResponseParser.digit in
  match s with
  | [y1; y2; y3; y4; _; m1; m2; _; d1; d2; _; h1; h2; _; n1; n2; _;
     s1; s2; _; u1; u2; u3; u4; u5; u6] =>
      {| ResponseParser.year := 1000 * d y1 + 100 * d y2 + 10 * d y3 + d y4;
         ResponseParser.month := 10 * d m1 + d m2;
         ResponseParser.day := 10 * d d1 + d d2;
         ResponseParser.hour := 10 * d h1 + d h2;
         ResponseParser.minute := 10 * d n1 + d n2;
         ResponseParser.second := 10 * d s1 + d s2;
         ResponseParser.microsecond :=
           100000 * d u1 + 10000 * d u2 + 1000 * d u3 + 100 * d u4
           + 10 * d u5 + d u6 |}%Z
  | _ => {| ResponseParser.year := 0; ResponseParser.month := 0;
            ResponseParser.day := 0; ResponseParser.hour := 0;
            ResponseParser.minute := 0; ResponseParser.second := 0;
            ResponseParser.microsecond := 0 |}%Z
  end.

(** The fields read as one decimal number, most significant first. *)
Definition sort_key (dt : ResponseParser.datetime) : Z :=
  ((((((ResponseParser.year dt * 100 + ResponseParser.month dt) * 100
       + ResponseParser.day dt) * 100 + ResponseParser.hour dt) * 100
     + ResponseParser.minute dt) * 100 + ResponseParser.second dt) * 1000000
   + ResponseParser.microsecond dt)%Z.

Section TimestampFacts.

Import ResponseParser.

Lemma any_digit_code c : any_digit c = true -> 48 <= code c <= 57.
Proof.
  unfold any_digit, between.
  change (code "0") with 48. change (code "9") with 57.
  intros H. apply andb_true_iff in H as [H1 H2].
  apply Nat.leb_le in H1, H2. lia.
Qed.

Lemma any_digit_value c : any_digit c = true -> (0 <= digit c <= 9)%Z.
Proof.
  intros H. apply any_digit_code in H. unfold digit. lia.
Qed.

Lemma between_value lo hi c :
  between lo hi c = true ->
  (Z.of_nat (code lo) - 48 <= digit c <= Z.of_nat (code hi) - 48)%Z.
Proof.
  unfold between, digit. intros H. apply andb_true_iff in H as [H1 H2].
  apply Nat.leb_le in H1, H2. lia.
Qed.

Lemma eqb_value x c :
  Ascii.eqb x c = true -> digit c = (Z.of_nat (code x) - 48)%Z.
Proof.
  intros H. apply Ascii.eqb_eq in H. now subst.
Qed.

Lemma digit_not x c :
  any_digit c = true -> any_digit x = false -> Ascii.eqb c x = false.
Proof.
  intros Hc Hx. destruct (Ascii.eqb c x) eqn:E; [|reflexivity].
  apply Ascii.eqb_eq in E. congruence.
Qed.

Lemma digit_not_space c : any_digit c = true -> isspace c = false.
Proof.
  intros H. apply any_digit_code in H. unfold isspace.
  destruct (Nat.leb_spec (code c) 13); [lia|].
  destruct (Nat.leb_spec (code c) 32); [lia|].
  now rewrite !andb_false_r.
Qed.

(** What an alternation that matches has found. *)
Lemma alternation_inv {A : Type} (alts : list alt)
  (k : Z -> pystr -> option A) (s : pystr) (x : A)
  (P : Z -> pystr -> Prop) :
  Forall (fun a => forall v r, a s = Some (v, r) -> P v r) alts ->
  alternation alts k s = Some x ->
  exists v r, P v r /\ k v r = Some x.
Proof.
  induction 1 as [|a alts Ha _ IH]; simpl; [discriminate|].
  destruct (a s) as [[v r]|] eqn:E; [|exact IH].
  destruct (k v r) as [y|] eqn:Ek; [|exact IH].
  intros H. inversion H; subst. exists v, r. split; [now apply Ha|exact Ek].
Qed.

(** A directive of one or two digits before two digits and a text on
    which the rest cannot start with a digit: the two digits are the
    value. *)
Lemma two_digits {A : Type} (alts : list alt) (Bound : Z -> Prop)
  (k : Z -> pystr -> option A) (a b : ascii) (r : pystr) (x : A) :
  Forall (fun alt => forall v r',
            alt (a :: b :: r) = Some (v, r') ->
            (v = (10 * digit a + digit b)%Z /\ r' = r /\ Bound v)
            \/ r' = b :: r) alts ->
  (forall v, k v (b :: r) = None) ->
  alternation alts k (a :: b :: r) = Some x ->
  Bound (10 * digit a + digit b)%Z
  /\ k (10 * digit a + digit b)%Z r = Some x.
Proof.
  intros Halts Hk H.
  destruct (alternation_inv Halts H) as (v & r' & [(-> & -> & Hb)| ->] & Hkv).
  - now split.
  - rewrite Hk in Hkv. discriminate.
Qed.

End TimestampFacts.

(** ** The calendar *)

Section CalendarFacts.
Import ResponseParser.
Local Open Scope Z_scope.

Lemma is_leap_cases y : is_leap y = true \/ is_leap y = false.
Proof. destruct (is_leap y); auto. Qed.

Lemma days_before_year_succ y :
  days_before_year (y + 1)
  = days_before_year y + 365 + (if is_leap y then 1 else 0).
Proof.
  unfold days_before_year, is_leap.
  replace (y + 1 - 1) with y by lia.
  destruct (Z.eqb_spec (y mod 4) 0); destruct (Z.eqb_spec (y mod 100) 0);
    destruct (Z.eqb_spec (y mod 400) 0); cbn [andb orb negb];
    Z.div_mod_to_equations; lia.
Qed.

Lemma days_before_year_mono y1 y2 :
  y1 <= y2 -> days_before_year y1 <= days_before_year y2.
Proof.
  unfold days_before_year. intros H. Z.div_mod_to_equations. lia.
Qed.

Lemma month_cases m :
  1 <= m <= 12 ->
  m = 1 \/ m = 2 \/ m = 3 \/ m = 4 \/ m = 5 \/ m = 6 \/ m = 7 \/ m = 8
  \/ m = 9 \/ m = 10 \/ m = 11 \/ m = 12.
Proof. lia. Qed.

Ltac fold_closed :=
  repeat match goal with
         | |- context [nth (Z.to_nat ?k) ?l ?d] =>
             let v := eval vm_compute in (nth (Z.to_nat k) l d) in
             change (nth (Z.to_nat k) l d) with v
         | H : context [nth (Z.to_nat ?k) ?l ?d] |- _ =>
             let v := eval vm_compute in (nth (Z.to_nat k) l d) in
             change (nth (Z.to_nat k) l d) with v in H
         | |- context [(?a <? ?b) && ?c] =>
             let v := eval vm_compute in ((a <? b) && c) in
             change ((a <? b) && c) with v
         | H : context [(?a =? ?b) && ?c] |- _ =>
             let v := eval vm_compute in ((a =? b) && c) in
             change ((a =? b) && c) with v in H
         end;
  cbv iota in *.

Ltac each_month m H :=
  destruct (month_cases H) as
    [->|[->|[->|[->|[->|[->|[->|[->|[->|[->|[->| ->]]]]]]]]]]].

(** The day of the year of a valid date is at most the year's length. *)
Lemma day_of_year_bound y m d :
  1 <= m <= 12 -> d <= days_in_month y m ->
  days_before_month y m + d <= 365 + (if is_leap y then 1 else 0).
Proof.
  intros Hm Hd. unfold days_before_month, days_in_month in *.
  each_month m Hm; destruct (is_leap y); fold_closed; lia.
Qed.

Lemma days_before_month_nonneg y m :
  1 <= m <= 12 -> 0 <= days_before_month y m.
Proof.
  intros Hm. unfold days_before_month.
  each_month m Hm; destruct (is_leap y); fold_closed; lia.
Qed.

Lemma days_before_month_next y m1 m2 d :
  1 <= m1 -> m1 < m2 -> m2 <= 12 -> d <= days_in_month y m1 ->
  days_before_month y m1 + d <= days_before_month y m2.
Proof.
  intros H1 H12 H2 Hd. unfold days_before_month, days_in_month in *.
  assert (Hm1 : 1 <= m1 <= 12) by lia. assert (Hm2 : 1 <= m2 <= 12) by lia.
  each_month m1 Hm1; each_month m2 Hm2; try lia;
    destruct (is_leap y); fold_closed; lia.
Qed.

(** Dates in calendar order have ordinals in the same order. *)
Lemma ymd2ord_mono y1 m1 d1 y2 m2 d2 :
  1 <= m1 <= 12 -> 1 <= m2 <= 12 ->
  d1 <= days_in_month y1 m1 -> 1 <= d2 ->
  y1 < y2 \/ (y1 = y2 /\ (m1 < m2 \/ (m1 = m2 /\ d1 < d2))) ->
  ymd2ord y1 m1 d1 < ymd2ord y2 m2 d2.
Proof.
  intros Hm1 Hm2 Hd1 Hd2 Hlt. unfold ymd2ord.
  pose proof (@days_before_month_nonneg y2 m2 Hm2) as Hnn.
  destruct Hlt as [Hy|[-> [Hm| [-> Hd]]]].
  - pose proof (@day_of_year_bound y1 m1 d1 Hm1 Hd1) as Hb.
    pose proof (days_before_year_succ y1) as Hs.
    assert (Hle : days_before_year (y1 + 1) <= days_before_year y2)
      by (apply days_before_year_mono; lia).
    lia.
  - pose proof (@days_before_month_next y2 m1 m2 d1) as Hn. lia.
  - lia.
Qed.

Lemma valid_datetime_spec dt :
  valid_datetime dt = true ->
  1 <= year dt /\ 1 <= day dt
  /\ day dt <= days_in_month (year dt) (month dt) /\ second dt <= 59.
Proof.
  unfold valid_datetime. intros H.
  repeat (apply andb_true_iff in H as [H ?]).
  repeat match goal with
         | H : (_ <=? _) = true |- _ => apply Z.leb_le in H
         end.
  now repeat split.
Qed.
End CalendarFacts.
(** ** Timestamps of the fixed layout *)

Section FixedLayoutFacts.
Import ResponseParser.
Local Opaque Z.mul.

Ltac alt_case :=
  let v := fresh "v" in let r' := fresh "r'" in let H := fresh "H" in
  intros v r'; unfold two, one, blank_then;
  repeat match goal with
         | |- context [if ?c then _ else _] => destruct c eqn:?
         end;
  intros H; try discriminate H; injection H as <- <-.

Ltac digit_facts :=
  repeat match goal with
         | H : (_ && _) = true |- _ => apply andb_true_iff in H as [? ?]
         | H : between _ _ _ = true |- _ => apply between_value in H
         | H : Ascii.eqb _ _ = true |- _ => apply eqb_value in H
         | H : any_digit _ = true |- _ => apply any_digit_value in H
         | H : context [Z.of_nat (code ?c)] |- _ =>
             let n := eval vm_compute in (Z.of_nat (code c)) in
             change (Z.of_nat (code c)) with n in H
         end.

Ltac blank_case :=
  match goal with
  | H : (Ascii.eqb ?a " " && _) = true, Ha : any_digit ?a = true |- _ =>
      apply andb_true_iff in H as [H _]; apply Ascii.eqb_eq in H;
      rewrite H in Ha; vm_compute in Ha; discriminate Ha
  end.

Ltac directive_alts :=
  repeat apply Forall_cons; try apply Forall_nil; alt_case;
  first [ right; reflexivity
        | blank_case
        | left; split; [reflexivity|split; [reflexivity|]];
          digit_facts; lia ].

Lemma directive_m_alts a b r :
  any_digit a = true -> any_digit b = true ->
  Forall (fun alt => forall v r',
            alt (a :: b :: r) = Some (v, r') ->
            (v = (10 * digit a + digit b)%Z /\ r' = r /\ (1 <= v <= 12)%Z)
            \/ r' = b :: r) directive_m.
Proof. intros Ha Hb. unfold directive_m. directive_alts. Qed.

Lemma directive_d_alts a b r :
  any_digit a = true -> any_digit b = true ->
  Forall (fun alt => forall v r',
            alt (a :: b :: r) = Some (v, r') ->
            (v = (10 * digit a + digit b)%Z /\ r' = r /\ (1 <= v <= 31)%Z)
            \/ r' = b :: r) directive_d.
Proof. intros Ha Hb. unfold directive_d. directive_alts. Qed.

Lemma directive_H_alts a b r :
  any_digit a = true -> any_digit b = true ->
  Forall (fun alt => forall v r',
            alt (a :: b :: r) = Some (v, r') ->
            (v = (10 * digit a + digit b)%Z /\ r' = r /\ (0 <= v <= 23)%Z)
            \/ r' = b :: r) directive_H.
Proof. intros Ha Hb. unfold directive_H. directive_alts. Qed.

Lemma directive_M_alts a b r :
  any_digit a = true -> any_digit b = true ->
  Forall (fun alt => forall v r',
            alt (a :: b :: r) = Some (v, r') ->
            (v = (10 * digit a + digit b)%Z /\ r' = r /\ (0 <= v <= 59)%Z)
            \/ r' = b :: r) directive_M.
Proof. intros Ha Hb. unfold directive_M. directive_alts. Qed.

Lemma directive_S_alts a b r :
  any_digit a = true -> any_digit b = true ->
  Forall (fun alt => forall v r',
            alt (a :: b :: r) = Some (v, r') ->
            (v = (10 * digit a + digit b)%Z /\ r' = r /\ (0 <= v <= 61)%Z)
            \/ r' = b :: r) directive_S.
Proof. intros Ha Hb. unfold directive_S. directive_alts. Qed.

Lemma alternation_single {A : Type} (a : alt) (k : Z -> pystr -> option A) s :
  alternation [a] k s
  = match a s with Some (v, r) => k v r | None => None end.
Proof.
  simpl. destruct (a s) as [[v r]|]; [|reflexivity]. now destruct (k v r).
Qed.

Lemma literal_digit {A : Type} (c b : ascii) (k : pystr -> option A) r :
  any_digit b = true -> any_digit c = false -> literal c k (b :: r) = None.
Proof.
  intros Hb Hc. unfold literal. now rewrite (digit_not Hb Hc).
Qed.

Lemma literal_same {A : Type} (c : ascii) (k : pystr -> option A) r :
  literal c k (c :: r) = k r.
Proof.
  unfold literal. now rewrite Ascii.eqb_refl.
Qed.

Lemma blanks_digit {A : Type} (b : ascii) (k : pystr -> option A) r :
  any_digit b = true -> blanks k (b :: r) = None.
Proof.
  intros Hb. unfold blanks. now rewrite (digit_not_space Hb).
Qed.

Lemma blanks_space {A : Type} (b : ascii) (k : pystr -> option A) r :
  any_digit b = true -> blanks k (" "%char :: b :: r) = k (b :: r).
Proof.
  intros Hb. unfold blanks. change (isspace " ") with true.
  cbn [lstrip]. now rewrite (digit_not_space Hb).
Qed.

(** The ranges the expression itself guarantees. *)
Definition in_ranges (dt : datetime) : Prop :=
  (0 <= year dt <= 9999 /\ 1 <= month dt <= 12 /\ 1 <= day dt <= 31
   /\ 0 <= hour dt <= 23 /\ 0 <= minute dt <= 59 /\ 0 <= second dt <= 61
   /\ 0 <= microsecond dt <= 999999)%Z.

Ltac destruct_fixed s Hl :=
  repeat (destruct s as [|? s]; [discriminate Hl|]);
  destruct s as [|? s]; [|discriminate Hl];
  cbn [fixed_layout forallb] in Hl;
  let Hd := fresh "Hd" in let Hs := fresh "Hs" in
  apply andb_true_iff in Hl as [Hd Hs];
  repeat (let H := fresh "Hdigit" in apply andb_true_iff in Hd as [H Hd]);
  clear Hd;
  cbn [eqb lit list_ascii_of_string] in Hs;
  repeat (let H := fresh "Hsep" in
          apply andb_true_iff in Hs as [H Hs]; apply Ascii.eqb_eq in H;
          subst);
  clear Hs.

Lemma match_format_fixed s dt :
  fixed_layout s = true -> match_format s = Some dt ->
  dt = fields_of s /\ in_ranges dt.
Proof.
  intros Hl Hm.
  destruct_fixed s Hl.
  unfold match_format in Hm.
  match type of Hm with
  | match ?f with _ => _ end = _ => destruct f as [[dt0 rest]|] eqn:E; [|discriminate Hm]
  end.
  unfold directive_Y in E. rewrite alternation_single in E.
  rewrite Hdigit, Hdigit0, Hdigit1, Hdigit2 in E. cbn [andb] in E.
  rewrite literal_same in E.
  apply (two_digits (directive_m_alts _ Hdigit3 Hdigit4)) in E;
    [|intros; now apply literal_digit].
  destruct E as [Bm E]. rewrite literal_same in E.
  apply (two_digits (directive_d_alts _ Hdigit5 Hdigit6)) in E;
    [|intros; now apply blanks_digit].
  destruct E as [Bd E]. rewrite blanks_space in E by assumption.
  apply (two_digits (directive_H_alts _ Hdigit7 Hdigit8)) in E;
    [|intros; now apply literal_digit].
  destruct E as [BH E]. rewrite literal_same in E.
  apply (two_digits (directive_M_alts _ Hdigit9 Hdigit10)) in E;
    [|intros; now apply literal_digit].
  destruct E as [BM E]. rewrite literal_same in E.
  apply (two_digits (directive_S_alts _ Hdigit11 Hdigit12)) in E;
    [|intros; now apply literal_digit].
  destruct E as [BS E]. rewrite literal_same in E.
  cbn [fraction_digits] in E.
  rewrite Hdigit13, Hdigit14, Hdigit15, Hdigit16, Hdigit17, Hdigit18 in E.
  injection E as <- <-. injection Hm as <-.
  repeat match goal with
         | H : any_digit _ = true |- _ => apply any_digit_value in H
         end.
  assert (Hf : fraction_value
                 [digit a19; digit a20; digit a21; digit a22; digit a23;
                  digit a24]
               = (100000 * digit a19 + 10000 * digit a20 + 1000 * digit a21
                  + 100 * digit a22 + 10 * digit a23 + digit a24)%Z)
    by (unfold fraction_value; cbn [length Nat.sub repeat app fold_left]; lia).
  rewrite Hf. split.
  - reflexivity.
  - unfold in_ranges.
    cbn [year month day hour minute second microsecond]. lia.
Qed.

Lemma lex_same c ra rb : lex_ltb (c :: ra) (c :: rb) = lex_ltb ra rb.
Proof.
  cbn [lex_ltb]. now rewrite Nat.ltb_irrefl, Nat.eqb_refl.
Qed.

Lemma lex_digit a b ra rb :
  lex_ltb (a :: ra) (b :: rb) = true ->
  (digit a < digit b)%Z \/ (digit a = digit b /\ lex_ltb ra rb = true).
Proof.
  cbn [lex_ltb]. unfold digit.
  destruct (Nat.ltb_spec (code a) (code b)) as [Hlt|Hge]; [intros _; left; lia|].
  destruct (Nat.eqb_spec (code a) (code b)) as [Heq|Hne]; [|discriminate].
  intros Hrest. right. split; [lia|exact Hrest].
Qed.

Lemma lex_fixed_layout a b :
  fixed_layout a = true -> fixed_layout b = true ->
  lex_ltb a b = true ->
  (sort_key (fields_of a) < sort_key (fields_of b))%Z.
Proof.
  intros Ha Hb H.
  destruct_fixed a Ha. destruct_fixed b Hb.
  repeat match goal with
         | H : any_digit _ = true |- _ => apply any_digit_value in H
         end.
  unfold sort_key, fields_of.
  cbn [year month day hour minute second microsecond].
  repeat first
    [ rewrite lex_same in H
    | apply lex_digit in H; destruct H as [H|[? H]]; [lia|] ].
  discriminate H.
Qed.

(** Valid timestamps in the order of their fields are instants in the
    same order. *)
Lemma to_microseconds_mono dt1 dt2 :
  in_ranges dt1 -> in_ranges dt2 ->
  valid_datetime dt1 = true -> valid_datetime dt2 = true ->
  (sort_key dt1 < sort_key dt2)%Z ->
  (to_microseconds dt1 < to_microseconds dt2)%Z.
Proof.
  intros R1 R2 V1 V2 Hlt.
  apply valid_datetime_spec in V1, V2.
  destruct dt1 as [y1 m1 d1 h1 n1 s1 u1], dt2 as [y2 m2 d2 h2 n2 s2 u2].
  unfold in_ranges, sort_key, to_microseconds in *.
  cbn [year month day hour minute second microsecond] in *.
  assert (Hcase : ((y1 < y2 \/ (y1 = y2 /\ (m1 < m2 \/ (m1 = m2 /\ d1 < d2))))
                   \/ (y1 = y2 /\ m1 = m2 /\ d1 = d2))%Z) by lia.
  destruct Hcase as [Hdate|(-> & -> & ->)].
  - assert (Hord : (ymd2ord y1 m1 d1 < ymd2ord y2 m2 d2)%Z)
      by (apply ymd2ord_mono; lia || assumption).
    revert Hord. generalize (ymd2ord y1 m1 d1) (ymd2ord y2 m2 d2).
    intros o1 o2 Hord. lia.
  - generalize (ymd2ord y2 m2 d2). intros o. lia.
Qed.
End FixedLayoutFacts.

(** C10 (as amended).  The elapsed time is the signed difference, with no
    check of the order: for two timestamps that parse and are written in
    the fixed layout [YYYY-MM-DD HH:MM:SS.ffffff], a response timestamp
    that is lexically earlier than the request timestamp gives a negative
    elapsed time, the response instant minus the request instant, and the
    timing entry of the matched pair is produced with that value. *)
Theorem earlier_response_negative_time
  (request_timestamp response_timestamp : pystr)
  (req_dt resp_dt : ResponseParser.datetime) :
  fixed_layout request_timestamp = true ->
  fixed_layout response_timestamp = true ->
  ResponseParser.strptime request_timestamp = Some req_dt ->
  ResponseParser.strptime response_timestamp = Some resp_dt ->
  lex_ltb response_timestamp request_timestamp = true ->
  let elapsed :=
    Qmake (ResponseParser.to_microseconds resp_dt
           - ResponseParser.to_microseconds req_dt) 1000000 in
  (elapsed < 0)%Q
  /\ ResponseParser.calculate_response_time request_timestamp
       response_timestamp = Some elapsed
  /\ (forall ids st hdr rest uid info,
        Header.response_pattern (strip hdr) = Some (response_timestamp, uid) ->
        ResponseParser.lookup uid ids = Some info ->
        ResponseParser.info_timestamp info = request_timestamp ->
        exists later,
          ResponseParser.timing_data
            (ResponseParser.process_log_file ids st (hdr :: rest))
          = ResponseParser.timing_data st ++
            {| ResponseParser.t_id := uid;
               ResponseParser.t_prompt_type :=
                 ResponseParser.info_prompt_type info;
               ResponseParser.t_request_timestamp := request_timestamp;
               ResponseParser.t_response_timestamp := response_timestamp;
               ResponseParser.t_response_time := Some elapsed |} :: later).
Proof.
  intros Lreq Lresp Preq Presp Hlex elapsed.
  assert (Hcalc : ResponseParser.calculate_response_time request_timestamp
                    response_timestamp = Some elapsed).
  { unfold ResponseParser.calculate_response_time. now rewrite Preq, Presp. }
  unfold ResponseParser.strptime in Preq, Presp.
  destruct (ResponseParser.match_format request_timestamp) as [dreq|] eqn:Mreq;
    [|discriminate].
  destruct (ResponseParser.match_format response_timestamp) as [dresp|] eqn:Mresp;
    [|discriminate].
  destruct (ResponseParser.valid_datetime dreq) eqn:Vreq; [|discriminate].
  destruct (ResponseParser.valid_datetime dresp) eqn:Vresp; [|discriminate].
  injection Preq as ->. injection Presp as ->.
  destruct (match_format_fixed Lreq Mreq) as [Freq Rreq].
  destruct (match_format_fixed Lresp Mresp) as [Fresp Rresp].
  pose proof (lex_fixed_layout Lresp Lreq Hlex) as Hkey.
  rewrite <- Freq, <- Fresp in Hkey.
  pose proof (to_microseconds_mono Rresp Rreq Vresp Vreq Hkey) as Hus.
  split; [|split].
  - unfold elapsed, Qlt. simpl. lia.
  - exact Hcalc.
  - intros ids st hdr rest uid info Hm L Hts.
    rewrite (process_matched st rest Hm L).
    destruct (timing_data_grows ids (ResponseParser.skip_body rest)
                (ResponseParser.record_matched st uid response_timestamp info
                   (ResponseParser.collect_body rest))) as (later & -> & _).
    exists later. simpl. rewrite <- app_assoc. simpl.
    unfold ResponseParser.timing_of. now rewrite Hts, Hcalc.
Qed.

Lemma earlier_response_negative_time_example :
  exists q,
    ResponseParser.calculate_response_time
      (lit "2024-01-01 10:00:02.500000") (lit "2024-01-01 10:00:00.000000")
    = Some q
    /\ (q < 0)%Q /\ Qeq q (- (5 # 2)).
Proof.
  destruct (@earlier_response_negative_time
              (lit "2024-01-01 10:00:02.500000")
              (lit "2024-01-01 10:00:00.000000")
              _ _ eq_refl eq_refl eq_refl eq_refl eq_refl)
    as (Hneg & Hcalc & _).
  eexists. split; [exact Hcalc|]. split; [exact Hneg|].
  vm_compute. reflexivity.
Defined.

(** C10 as stated fails on timestamps that parse without being padded:
    [strptime] takes an hour of one digit, so that the response below,
    an hour after the request, is lexically earlier than it (its
    character [1] against the request's [9]); the elapsed time is 3600
    seconds, not a negative number. *)
Lemma unpadded_timestamp_counterexample :
  let request_timestamp := lit "2024-01-01 9:00:00.000000" in
  let response_timestamp := lit "2024-01-01 10:00:00.000000" in
  ResponseParser.strptime request_timestamp
  = Some {| ResponseParser.year := 2024; ResponseParser.month := 1;
            ResponseParser.day := 1; ResponseParser.hour := 9;
            ResponseParser.minute := 0; ResponseParser.second := 0;
            ResponseParser.microsecond := 0 |}
  /\ ResponseParser.strptime response_timestamp
     = Some {| ResponseParser.year := 2024; ResponseParser.month := 1;
               ResponseParser.day := 1; ResponseParser.hour := 10;
               ResponseParser.minute := 0; ResponseParser.second := 0;
               ResponseParser.microsecond := 0 |}
  /\ lex_ltb response_timestamp request_timestamp = true
  /\ exists q,
       ResponseParser.calculate_response_time request_timestamp
         response_timestamp = Some q
       /\ Qeq q 3600 /\ (0 < q)%Q.
Proof.
  cbv zeta. split; [vm_compute; reflexivity|].
  split; [vm_compute; reflexivity|].
  split; [vm_compute; reflexivity|].
  eexists. split; [vm_compute; reflexivity|].
  split; vm_compute; reflexivity.
Qed.

(* ===================================================================== *)
(** * Further properties: the header patterns                             *)
(* ===================================================================== *)

Section StringFacts.

Lemma eqb_refl (s : pystr) : eqb s s = true.
Proof.
  induction s as [|c s IH]; simpl; [reflexivity|].
  now rewrite Ascii.eqb_refl.
Qed.

Lemma eqb_eq (a b : pystr) : eqb a b = true <-> a = b.
Proof.
  split; [|intros ->; apply eqb_refl].
  revert b. induction a as [|x a IH]; intros [|y b]; simpl; try discriminate;
    [reflexivity|].
  intros H. apply andb_true_iff in H as [Hx Hab].
  apply Ascii.eqb_eq in Hx. apply IH in Hab. now subst.
Qed.

Lemma eqb_neq (a b : pystr) : eqb a b = false <-> a <> b.
Proof.
  split.
  - intros H E. apply eqb_eq in E. congruence.
  - intros H. destruct (eqb a b) eqn:E; [|reflexivity].
    apply eqb_eq in E. contradiction.
Qed.

Lemma startswith_app (p r : pystr) : startswith p (p ++ r) = true.
Proof.
  induction p as [|c p IH]; simpl; [reflexivity|].
  now rewrite Ascii.eqb_refl.
Qed.

Lemma startswith_split (p s : pystr) :
  startswith p s = true -> s = p ++ skipn (length p) s.
Proof.
  revert s. induction p as [|c p IH]; intros [|y s]; simpl;
    try discriminate; [reflexivity|reflexivity|].
  intros H. apply andb_true_iff in H as [Hc Hp].
  apply Ascii.eqb_eq in Hc. subst. f_equal. now apply IH.
Qed.

Lemma skipn_app_exact (p r : pystr) : skipn (length p) (p ++ r) = r.
Proof.
  induction p as [|c p IH]; simpl; [reflexivity|exact IH].
Qed.

End StringFacts.

Section HeaderFacts.

Import Header.

Definition RBRACKET : ascii := "]"%char.

Lemma until_rbracket_sound s g r :
  until_rbracket s = Some (g, r) ->
  s = g ++ RBRACKET :: r /\ ~ In RBRACKET g.
Proof.
  revert g r. induction s as [|c s IH]; simpl; intros g r H; [discriminate|].
  destruct (Ascii.eqb c "]") eqn:E.
  - injection H as <- <-. apply Ascii.eqb_eq in E. subst. now split.
  - destruct (until_rbracket s) as [[g' r']|]; [|discriminate].
    injection H as <- <-. destruct (IH g' r' eq_refl) as [-> Hn].
    split; [reflexivity|]. intros [Hc|Hin]; [|contradiction].
    unfold RBRACKET in Hc. subst. rewrite Ascii.eqb_refl in E. discriminate.
Qed.

Lemma until_rbracket_complete g r :
  ~ In RBRACKET g -> until_rbracket (g ++ RBRACKET :: r) = Some (g, r).
Proof.
  induction g as [|c g IH]; simpl; intros Hn; [reflexivity|].
  destruct (Ascii.eqb c "]") eqn:E.
  - apply Ascii.eqb_eq in E. exfalso. apply Hn. now left.
  - rewrite IH; [reflexivity|]. intros Hin. apply Hn. now right.
Qed.

Lemma bracket_group_sound s g r :
  bracket_group s = Some (g, r) ->
  s = "["%char :: g ++ RBRACKET :: r /\ g <> [] /\ ~ In RBRACKET g.
Proof.
  unfold bracket_group. destruct s as [|c s]; [discriminate|].
  destruct (Ascii.eqb c "[") eqn:E; [|discriminate].
  apply Ascii.eqb_eq in E. subst.
  destruct (until_rbracket s) as [[g' r']|] eqn:U; [|discriminate].
  destruct g' as [|x g']; simpl; [discriminate|].
  intros H. injection H as <- <-.
  destruct (until_rbracket_sound U) as [-> Hn].
  split; [reflexivity|]. split; [discriminate|exact Hn].
Qed.

Lemma bracket_group_complete g r :
  g <> [] -> ~ In RBRACKET g ->
  bracket_group ("["%char :: g ++ RBRACKET :: r) = Some (g, r).
Proof.
  intros Hne Hn. unfold bracket_group.
  change (Ascii.eqb "[" "[") with true. cbv iota.
  rewrite (until_rbracket_complete r Hn).
  destruct g; [contradiction|reflexivity].
Qed.

Lemma expect_sound p s r : expect p s = Some r -> s = p ++ r.
Proof.
  unfold expect. destruct (startswith p s) eqn:E; [|discriminate].
  intros H. injection H as <-. now apply startswith_split.
Qed.

Lemma expect_complete p r : expect p (p ++ r) = Some r.
Proof.
  unfold expect. now rewrite startswith_app, skipn_app_exact.
Qed.

(** The end of a header: the word, the identifier in brackets, a colon. *)
Definition id_part (word uid tail : pystr) : pystr :=
  word ++ "["%char :: uid ++ RBRACKET :: ":"%char :: tail.

Lemma id_here_sound word s uid :
  id_here word s = Some uid ->
  exists tail, s = id_part word uid tail /\ uid <> [] /\ ~ In RBRACKET uid.
Proof.
  unfold id_here.
  destruct (expect word s) as [s1|] eqn:E; [|discriminate].
  destruct (bracket_group s1) as [[g r]|] eqn:B; [|discriminate].
  destruct (startswith (lit ":") r) eqn:C; [|discriminate].
  intros H. injection H as <-.
  apply expect_sound in E. apply bracket_group_sound in B as (-> & Hne & Hn).
  apply startswith_split in C. simpl in C.
  exists (skipn 1 r). unfold id_part. rewrite E. rewrite C at 1.
  now repeat split.
Qed.

Lemma id_here_complete word uid tail :
  uid <> [] -> ~ In RBRACKET uid ->
  id_here word (id_part word uid tail) = Some uid.
Proof.
  intros Hne Hn. unfold id_here, id_part.
  rewrite expect_complete, (bracket_group_complete _ Hne Hn). reflexivity.
Qed.

Lemma lazy_id_sound word s uid :
  lazy_id word s = Some uid ->
  exists middle tail,
    s = middle ++ id_part word uid tail
    /\ ~ In nl middle /\ uid <> [] /\ ~ In RBRACKET uid.
Proof.
  induction s as [|c s IH]; cbn [lazy_id].
  - destruct (id_here word []) as [g|] eqn:E; [|discriminate].
    intros H. injection H as ->.
    destruct (id_here_sound E) as (tail & -> & Hne & Hn).
    exists [], tail. now repeat split.
  - destruct (id_here word (c :: s)) as [g|] eqn:E.
    + intros H. injection H as ->.
      destruct (id_here_sound E) as (tail & -> & Hne & Hn).
      exists [], tail. now repeat split.
    + destruct (Ascii.eqb c nl) eqn:N; [discriminate|].
      intros H. destruct (IH H) as (middle & tail & -> & Hnl & Hne & Hn).
      exists (c :: middle), tail. repeat split; try assumption.
      intros [Hc|Hin]; [|contradiction].
      subst. rewrite Ascii.eqb_refl in N. discriminate.
Qed.

Lemma lazy_id_complete word middle uid tail :
  ~ In nl middle -> uid <> [] -> ~ In RBRACKET uid ->
  exists uid', lazy_id word (middle ++ id_part word uid tail) = Some uid'.
Proof.
  intros Hnl Hne Hn. induction middle as [|c middle IH].
  - exists uid. simpl app.
    destruct (id_part word uid tail) as [|x rest] eqn:E; cbn [lazy_id];
      rewrite <- E, (id_here_complete word tail Hne Hn); reflexivity.
  - cbn [app lazy_id].
    destruct (id_here word (c :: middle ++ id_part word uid tail)) as [g|];
      [now exists g|].
    destruct (Ascii.eqb c nl) eqn:N.
    + apply Ascii.eqb_eq in N. exfalso. apply Hnl. now left.
    + apply IH. intros Hin. apply Hnl. now right.
Qed.

(** A line of the header shape: the timestamp in brackets, [ Generate],
    any text without a line feed, the word, the identifier in brackets and
    a colon; anything may follow. *)
Definition header_shape (word ts middle uid tail : pystr) : pystr :=
  "["%char :: ts ++ RBRACKET :: lit " Generate" ++ middle
  ++ id_part word uid tail.

Lemma pattern_match_sound word line ts uid :
  pattern_match word line = Some (ts, uid) ->
  exists middle tail,
    line = header_shape word ts middle uid tail
    /\ ts <> [] /\ ~ In RBRACKET ts /\ ~ In nl middle
    /\ uid <> [] /\ ~ In RBRACKET uid.
Proof.
  unfold pattern_match.
  destruct (bracket_group line) as [[t r]|] eqn:B; [|discriminate].
  destruct (expect (lit " Generate") r) as [r'|] eqn:E; [|discriminate].
  destruct (lazy_id word r') as [u|] eqn:L; [|discriminate].
  intros H. injection H as <- <-.
  apply bracket_group_sound in B as (-> & Hne & Hn).
  apply expect_sound in E. subst r.
  destruct (lazy_id_sound L) as (middle & tail & -> & Hnl & Hune & Hun).
  exists middle, tail. now repeat split.
Qed.

Lemma pattern_match_complete word ts middle uid tail :
  ts <> [] -> ~ In RBRACKET ts -> ~ In nl middle ->
  uid <> [] -> ~ In RBRACKET uid ->
  exists uid',
    pattern_match word (header_shape word ts middle uid tail)
    = Some (ts, uid').
Proof.
  intros Hne Hn Hnl Hune Hun. unfold pattern_match, header_shape.
  rewrite (bracket_group_complete _ Hne Hn), expect_complete.
  destruct (lazy_id_complete word tail Hnl Hune Hun) as (uid' & ->).
  now exists uid'.
Qed.

End HeaderFacts.

(** X1. What the two header patterns accept.  A line on which the pattern
    with the word [word] (empty for the request pattern, [response ] for
    the response pattern) matches is the timestamp in brackets, the text
    [ Generate], some text free of line feeds, the word, the identifier in
    brackets and a colon, followed by anything; both groups are non-empty
    and hold no closing bracket.  Conversely every line of that shape is
    matched, with the same timestamp. *)
Theorem header_match_shape (word line ts uid : pystr) :
  Header.pattern_match word line = Some (ts, uid) ->
  (exists middle tail,
     line = header_shape word ts middle uid tail
     /\ ts <> [] /\ ~ In RBRACKET ts /\ ~ In nl middle
     /\ uid <> [] /\ ~ In RBRACKET uid)
  /\ (forall middle' uid' tail',
        ~ In nl middle' -> uid' <> [] -> ~ In RBRACKET uid' ->
        exists found,
          Header.pattern_match word
            (header_shape word ts middle' uid' tail') = Some (ts, found)).
Proof.
  intros H.
  destruct (pattern_match_sound H) as (middle & tail & -> & Hne & Hn & Hrest).
  split; [exists middle, tail; now repeat split|].
  intros middle' uid' tail' Hnl Hune Hun.
  now apply pattern_match_complete.
Qed.

Definition example_request_header : pystr :=
  lit "[2025-08-01 10:00:00.250] Generate request [req-1]: sending".

Lemma header_match_shape_example :
  Header.request_pattern example_request_header
  = Some (lit "2025-08-01 10:00:00.250", lit "req-1")
  /\ exists middle tail,
       example_request_header
       = header_shape [] (lit "2025-08-01 10:00:00.250") middle
           (lit "req-1") tail.
Proof.
  split; [reflexivity|].
  destruct (@header_match_shape [] example_request_header
              (lit "2025-08-01 10:00:00.250") (lit "req-1") eq_refl)
    as [(middle & tail & E & _) _].
  now exists middle, tail.
Defined.

(** X2. A line the response pattern matches is also matched by the request
    pattern, with the same timestamp: the request pattern is the response
    pattern without the word [response ]. *)
Theorem response_header_is_request_header (line ts uid : pystr) :
  Header.response_pattern line = Some (ts, uid) ->
  exists uid', Header.request_pattern line = Some (ts, uid').
Proof.
  intros H.
  destruct (pattern_match_sound H)
    as (middle & tail & -> & Hne & Hn & Hnl & Hune & Hun).
  unfold Header.request_pattern.
  replace (header_shape (lit "response ") ts middle uid tail)
    with (header_shape [] ts (middle ++ lit "response ") uid tail).
  - apply pattern_match_complete; try assumption.
    intros Hin. apply in_app_or in Hin as [Hin|Hin]; [contradiction|].
    simpl in Hin. unfold nl in Hin.
    repeat (destruct Hin as [Hin|Hin]; [discriminate|]). exact Hin.
  - unfold header_shape, id_part. simpl. now rewrite <- !app_assoc.
Qed.

Definition example_response_header : pystr :=
  lit "[2025-08-01 10:00:01.500] Generate response [req-1]: done".

Lemma response_header_is_request_header_example :
  Header.response_pattern example_response_header
  = Some (lit "2025-08-01 10:00:01.500", lit "req-1")
  /\ exists uid',
       Header.request_pattern example_response_header
       = Some (lit "2025-08-01 10:00:01.500", uid').
Proof.
  split; [reflexivity|].
  exact (@response_header_is_request_header example_response_header
           (lit "2025-08-01 10:00:01.500") (lit "req-1") eq_refl).
Defined.

(* ===================================================================== *)
(** * Further properties: cutting a log in front of a header              *)
(* ===================================================================== *)

Section CutFacts.

Import Segmenter.

Variable pattern : pystr -> option (pystr * pystr).

(** [lines] is empty or starts with a line the pattern matches. *)
Definition led_by (lines : list pystr) : Prop :=
  match lines with
  | [] => True
  | h :: _ => is_header pattern h = true
  end.

Lemma collect_body_cut p x :
  led_by x -> collect_body pattern (p ++ x) = collect_body pattern p.
Proof.
  intros Hx. induction p as [|l p IH]; simpl.
  - destruct x as [|h t]; simpl; [reflexivity|]. simpl in Hx. now rewrite Hx.
  - destruct (is_header pattern l); [reflexivity|]. now rewrite IH.
Qed.

Lemma skip_body_cut p x :
  led_by x -> skip_body pattern (p ++ x) = skip_body pattern p ++ x.
Proof.
  intros Hx. induction p as [|l p IH]; simpl.
  - destruct x as [|h t]; simpl; [reflexivity|]. simpl in Hx. now rewrite Hx.
  - destruct (is_header pattern l); [reflexivity|exact IH].
Qed.

Lemma segment_cut p x :
  led_by x -> segment pattern (p ++ x) = segment pattern p ++ segment pattern x.
Proof.
  intros Hx.
  induction p as [|l rest E IH|l rest E IH] using (segment_ind (pattern:=pattern)).
  - reflexivity.
  - destruct (is_header_true E) as (ts & uid & Hm). simpl.
    rewrite !(segment_header _ Hm).
    rewrite collect_body_cut, skip_body_cut by exact Hx.
    simpl. now rewrite IH.
  - simpl. rewrite !(segment_other _ (is_header_false E)). exact IH.
Qed.

End CutFacts.

Section RequestRunFacts.

Import RequestParser.

Variable ratio : pystr -> pystr -> Q.
Variable variants : variants_t.
Variable prompt_types : prompt_types_t.

Local Abbreviation run_records := (process_records ratio variants prompt_types).
Local Abbreviation run_record := (process_record ratio variants prompt_types).

Lemma process_records_app a b : forall st,
  run_records st (a ++ b)
  = (st' <- run_records st a ;; run_records st' b).
Proof.
  induction a as [|r a IH]; intros st; simpl; [reflexivity|].
  destruct (run_record st r) as [st1|e]; simpl; [apply IH|reflexivity].
Qed.

(** One record either leaves the state alone, or adds one save call and
    one identifier entry made from the record's groups, or raises. *)
Lemma process_record_cases st r :
  match run_record st r with
  | Return st' =>
      st' = st
      \/ exists content,
           extract_content (Segmenter.json_content r) = Return (Some content)
           /\ st' = classify_and_save ratio variants prompt_types st
                      (Segmenter.unique_id r) (Segmenter.timestamp r) content
  | Raise e => extract_content (Segmenter.json_content r) = Raise e
  end.
Proof.
  unfold process_record.
  destruct (extract_content (Segmenter.json_content r)) as [[c|]|e]; simpl.
  - right. now exists c.
  - now left.
  - reflexivity.
Qed.

End RequestRunFacts.

(** X3. Both line loops can be cut in front of any header line: the
    records of a log [before ++ after], where [after] is empty or starts
    with a header, are the records of [before] followed by those of
    [after]; and the request parser's run over the whole log is its run
    over [before] followed, unless that raised, by its run over [after]
    from the state reached. *)
Theorem request_run_cut
  (ratio : pystr -> pystr -> Q)
  (variants : RequestParser.variants_t)
  (prompt_types : RequestParser.prompt_types_t)
  (st : RequestParser.parser_state) (before after : list pystr) :
  led_by Header.request_pattern after ->
  Segmenter.segment Header.request_pattern (before ++ after)
  = Segmenter.segment Header.request_pattern before
    ++ Segmenter.segment Header.request_pattern after
  /\ RequestParser.process_log_file ratio variants prompt_types st
       (before ++ after)
     = RequestParser.bind
         (RequestParser.process_log_file ratio variants prompt_types st before)
         (fun st' =>
            RequestParser.process_log_file ratio variants prompt_types st'
              after).
Proof.
  intros Hled. split; [now apply segment_cut|].
  unfold RequestParser.process_log_file.
  rewrite (segment_cut before Hled). apply process_records_app.
Qed.

(** Two requests of a log: a header line each and a one-line payload. *)
Definition example_first_request : list pystr :=
  [line "[2025-08-01 10:00:00.250] Generate request [req-1]:";
   payload "{'messages': [{'role': 'system', 'content': 'You are the gamemaster AI for Skyrim.'}]}|"].

Definition example_second_request : list pystr :=
  [line "[2025-08-01 10:00:05.000] Generate request [req-2]:";
   payload "{'messages': [{'role': 'user', 'content': 'What is the weather like?'}]}|"].

Definition request_initial_state : RequestParser.parser_state :=
  {| RequestParser.saved := []; RequestParser.unique_identifiers := [] |}.

Lemma request_run_cut_example :
  led_by Header.request_pattern example_second_request
  /\ RequestParser.process_log_file equal_ratio example_variants
       example_prompt_types request_initial_state
       (example_first_request ++ example_second_request)
     = RequestParser.bind
         (RequestParser.process_log_file equal_ratio example_variants
            example_prompt_types request_initial_state example_first_request)
         (fun st' =>
            RequestParser.process_log_file equal_ratio example_variants
              example_prompt_types st' example_second_request).
Proof.
  assert (H : led_by Header.request_pattern example_second_request)
    by (vm_compute; reflexivity).
  split; [exact H|].
  exact (proj2 (@request_run_cut equal_ratio example_variants
                  example_prompt_types request_initial_state
                  example_first_request example_second_request H)).
Defined.

(* ===================================================================== *)
(** * Further properties: what the request parser writes                  *)
(* ===================================================================== *)

(** The save calls and the identifier entries go together: the n-th call
    of [save_request_data] was given the prompt type and the identifier of
    the n-th entry. *)
Definition outputs_aligned (st : RequestParser.parser_state) : Prop :=
  map (fun f => (RequestParser.folder f, RequestParser.file_id f))
      (RequestParser.saved st)
  = map (fun e => (RequestParser.prompt_type e, RequestParser.id e))
        (RequestParser.unique_identifiers st).

(** An entry made from one of the records: its identifier and timestamp
    are the record's groups, and its prompt type is not empty. *)
Definition entry_of_record (records : list Segmenter.log_record)
  (e : RequestParser.identifier_entry) : Prop :=
  exists r, In r records
            /\ RequestParser.id e = Segmenter.unique_id r
            /\ RequestParser.entry_timestamp e = Segmenter.timestamp r
            /\ RequestParser.prompt_type e <> [].

Section RequestOutputFacts.

Import RequestParser.

Variable ratio : pystr -> pystr -> Q.
Variable variants : variants_t.
Variable prompt_types : prompt_types_t.

Lemma bucket_of_nonempty found : bucket_of found <> [].
Proof.
  unfold bucket_of. destruct found as [[|c s]|]; simpl; discriminate.
Qed.

Lemma process_records_outputs records : forall st st',
  process_records ratio variants prompt_types st records = Return st' ->
  (outputs_aligned st -> outputs_aligned st')
  /\ exists new,
       unique_identifiers st' = unique_identifiers st ++ new
       /\ length (saved st') = length (saved st) + length new
       /\ length new <= length records
       /\ Forall (entry_of_record records) new.
Proof.
  induction records as [|r rest IH]; intros st st'; simpl.
  - intros H. injection H as <-. split; [tauto|].
    exists []. rewrite app_nil_r. simpl.
    split; [reflexivity|]. split; [lia|]. split; [lia|constructor].
  - pose proof (process_record_cases ratio variants prompt_types st r) as Hr.
    destruct (process_record ratio variants prompt_types st r) as [st1|e];
      simpl; [|discriminate].
    intros Hrest. destruct (IH _ _ Hrest) as (Hal & new & Hids & Hlen & Hle & Hall).
    assert (Hweak : Forall (entry_of_record (r :: rest)) new).
    { eapply Forall_impl; [|exact Hall].
      intros e (r' & Hin & Hrest'). exists r'. split; [now right|exact Hrest']. }
    destruct Hr as [->|(content & _ & ->)].
    + split; [exact Hal|]. exists new. repeat split; try assumption. lia.
    + split.
      * intros Hst. apply Hal. unfold outputs_aligned, classify_and_save.
        simpl. rewrite !map_app. simpl. now rewrite Hst.
      * eexists (_ :: new). simpl in Hids, Hlen.
        rewrite <- app_assoc in Hids. simpl in Hids.
        split; [exact Hids|]. rewrite length_app in Hlen. simpl in *.
        split; [lia|]. split; [lia|].
        constructor; [|exact Hweak].
        exists r. simpl. repeat split; [now left|apply bucket_of_nonempty].
Qed.

End RequestOutputFacts.

(** X4. What a run of the request parser that ends without an exception
    has recorded.  The identifier list has only grown, by at most one
    entry per header line of the log; [save_request_data] was called as
    many times as entries were added (an entry is added whether or not the
    write succeeds); every new entry carries the identifier and the
    timestamp of one of the log's records and a prompt type that is not
    empty; and if the save calls and the entries went together before the
    run (the n-th call given the prompt type and the identifier of the
    n-th entry), they still do. *)
Theorem request_outputs_follow_records
  (ratio : pystr -> pystr -> Q)
  (variants : RequestParser.variants_t)
  (prompt_types : RequestParser.prompt_types_t)
  (st st' : RequestParser.parser_state) (lines : list pystr) :
  RequestParser.process_log_file ratio variants prompt_types st lines
  = RequestParser.Return st' ->
  (outputs_aligned st -> outputs_aligned st')
  /\ exists new,
       RequestParser.unique_identifiers st'
       = RequestParser.unique_identifiers st ++ new
       /\ length (RequestParser.saved st')
          = length (RequestParser.saved st) + length new
       /\ length new
          <= length (filter (Segmenter.is_header Header.request_pattern) lines)
       /\ Forall (entry_of_record
                    (Segmenter.segment Header.request_pattern lines)) new.
Proof.
  unfold RequestParser.process_log_file. intros H.
  destruct (process_records_outputs H) as (Hal & new & Hids & Hlen & Hle & Hall).
  split; [exact Hal|]. exists new. repeat split; try assumption.
  now rewrite <- segment_count.
Qed.

Definition example_request_log : list pystr :=
  example_first_request ++ example_second_request.

Definition example_request_outcome : RequestParser.parser_state :=
  {| RequestParser.saved :=
       [{| RequestParser.folder := lit "gamemaster_action_selector";
           RequestParser.file_id := lit "req-1";
           RequestParser.file_content :=
             lit "You are the gamemaster AI for Skyrim." |};
        {| RequestParser.folder := lit "unknown";
           RequestParser.file_id := lit "req-2";
           RequestParser.file_content := lit "What is the weather like?" |}];
     RequestParser.unique_identifiers :=
       [{| RequestParser.id := lit "req-1";
           RequestParser.entry_timestamp := lit "2025-08-01 10:00:00.250";
           RequestParser.prompt_type := lit "gamemaster_action_selector" |};
        {| RequestParser.id := lit "req-2";
           RequestParser.entry_timestamp := lit "2025-08-01 10:00:05.000";
           RequestParser.prompt_type := lit "unknown" |}] |}.

Lemma request_outputs_follow_records_example :
  RequestParser.process_log_file equal_ratio example_variants
    example_prompt_types request_initial_state example_request_log
  = RequestParser.Return example_request_outcome
  /\ outputs_aligned example_request_outcome
  /\ exists new,
       RequestParser.unique_identifiers example_request_outcome
       = RequestParser.unique_identifiers request_initial_state ++ new
       /\ length new
          <= length (filter (Segmenter.is_header Header.request_pattern)
                            example_request_log).
Proof.
  assert (H : RequestParser.process_log_file equal_ratio example_variants
                example_prompt_types request_initial_state example_request_log
              = RequestParser.Return example_request_outcome)
    by (vm_compute; reflexivity).
  split; [exact H|].
  destruct (request_outputs_follow_records H)
    as (Hal & new & Hids & _ & Hle & _).
  split; [apply Hal; reflexivity|].
  exists new. now split.
Defined.

(* ===================================================================== *)
(** * Further properties: the classifier's answers                        *)
(* ===================================================================== *)

Section AnswerFacts.

Import RequestParser.

Variable ratio : pystr -> pystr -> Q.

Lemma variant_tier_key variants prefix pt :
  variant_tier variants prefix = Some pt -> In pt (map fst variants).
Proof.
  induction variants as [|[pt0 vd0] rest IH]; simpl; [discriminate|].
  destruct (existsb _ (patterns_of vd0)).
  - intros H. injection H as <-. now left.
  - intros H. right. now apply IH.
Qed.

Lemma pattern_tier_key table prefix pt :
  pattern_tier table prefix = Some pt -> In pt (map fst table).
Proof.
  induction table as [|[pt0 pats0] rest IH]; simpl; [discriminate|].
  destruct (0 <? count_matches pats0 prefix).
  - intros H. injection H as <-. now left.
  - intros H. right. now apply IH.
Qed.

Lemma signature_tier_key prompt_types prefix pt :
  signature_tier prompt_types prefix = Some pt -> In pt (map fst prompt_types).
Proof.
  induction prompt_types as [|[pt0 d0] rest IH]; simpl; [discriminate|].
  destruct (signature_hit (original_signature d0) prefix).
  - intros H. injection H as <-. now left.
  - destruct (signature_hit (simplified_signature d0) prefix).
    + intros H. injection H as <-. now left.
    + intros H. right. now apply IH.
Qed.

Lemma fuzzy_candidates_key prompt_types c :
  In c (fuzzy_candidates prompt_types) -> In (fst c) (map fst prompt_types).
Proof.
  unfold fuzzy_candidates. intros H.
  apply in_flat_map in H as (entry & Hin & Hc).
  apply in_map_iff. exists entry. split; [|exact Hin].
  simpl in Hc. destruct Hc as [<-|[<-|[]]]; reflexivity.
Qed.

Lemma fuzzy_fold_key prefix threshold keys candidates : forall best,
  (forall c, In c candidates -> In (fst c) keys) ->
  (forall pt, fst best = Some pt -> In pt keys) ->
  forall pt,
    fst (fold_left (fuzzy_step ratio prefix threshold) candidates best)
    = Some pt -> In pt keys.
Proof.
  induction candidates as [|c rest IH]; intros best Hc Hb; simpl; [exact Hb|].
  apply IH; [intros c' Hin; apply Hc; now right|].
  unfold fuzzy_step. destruct c as [pt0 sig0].
  destruct (nonempty sig0); [|exact Hb].
  destruct (Qltb (snd best) (fuzzy_score ratio prefix sig0)
            && Qle_bool threshold (fuzzy_score ratio prefix sig0)); [|exact Hb].
  simpl. intros pt H. injection H as <-.
  apply (Hc (pt0, sig0)). now left.
Qed.

Lemma fuzzy_tier_key variants prompt_types prefix pt :
  fuzzy_tier ratio variants prompt_types prefix = Some pt ->
  In pt (map fst prompt_types).
Proof.
  unfold fuzzy_tier, fuzzy_best.
  destruct (fst (fold_left _ _ _)) as [best|] eqn:E; [|discriminate].
  destruct (nonempty best); [|discriminate].
  intros H. injection H as <-.
  revert E. apply fuzzy_fold_key.
  - apply fuzzy_candidates_key.
  - simpl. discriminate.
Qed.

End AnswerFacts.

(** X5. The classifier never invents a prompt type: an answer of
    [find_matching_prompt_type] is a key of the variants mapping, a key of
    the built-in pattern table or a key of the signature store; and the
    prompt type recorded for a request, the answer or [unknown] when there
    is none or it is the empty string, is never empty. *)
Theorem classifier_answers_known_type
  (ratio : pystr -> pystr -> Q)
  (variants : RequestParser.variants_t)
  (prompt_types : RequestParser.prompt_types_t)
  (content prompt_type : pystr) :
  RequestParser.find_matching_prompt_type ratio variants prompt_types content
  = Some prompt_type ->
  (In prompt_type (map fst variants)
   \/ In prompt_type (map fst RequestParser.pattern_matches)
   \/ In prompt_type (map fst prompt_types))
  /\ RequestParser.bucket_of
       (RequestParser.find_matching_prompt_type ratio variants prompt_types
          content) <> []
  /\ (prompt_type <> [] ->
      RequestParser.bucket_of
        (RequestParser.find_matching_prompt_type ratio variants prompt_types
           content) = prompt_type).
Proof.
  intros H. split; [|split; [apply bucket_of_nonempty|]].
  - revert H. unfold RequestParser.find_matching_prompt_type. cbv zeta.
    destruct (RequestParser.variant_tier variants _) as [pt1|] eqn:E1.
    { intros H. injection H as <-. left. eapply variant_tier_key, E1. }
    destruct (RequestParser.pattern_tier RequestParser.pattern_matches _)
      as [pt2|] eqn:E2.
    { intros H. injection H as <-. right. left. eapply pattern_tier_key, E2. }
    destruct (RequestParser.fuzzy_enabled variants).
    + destruct (RequestParser.fuzzy_tier ratio variants prompt_types _)
        as [pt3|] eqn:E3.
      * intros H. injection H as <-. right. right.
        eapply fuzzy_tier_key, E3.
      * intros H. right. right. eapply signature_tier_key, H.
    + intros H. right. right. eapply signature_tier_key, H.
  - rewrite H. intros Hne. unfold RequestParser.bucket_of.
    destruct prompt_type; [contradiction|reflexivity].
Qed.

Lemma classifier_answers_known_type_example :
  RequestParser.find_matching_prompt_type equal_ratio example_variants
    example_prompt_types (lit "You are the gamemaster AI for Skyrim.")
  = Some (lit "gamemaster_action_selector")
  /\ In (lit "gamemaster_action_selector")
        (map fst RequestParser.pattern_matches).
Proof.
  split; [vm_compute; reflexivity|].
  destruct (@classifier_answers_known_type equal_ratio example_variants
              example_prompt_types
              (lit "You are the gamemaster AI for Skyrim.")
              (lit "gamemaster_action_selector"))
    as [[Hv|[Hp|Hs]] _].
  - vm_compute. reflexivity.
  - exfalso. vm_compute in Hv. destruct Hv as [Hv|[]]. discriminate.
  - exact Hp.
  - exfalso. vm_compute in Hs. destruct Hs as [Hs|[]]. discriminate.
Defined.

(** A character of ASCII.  On ASCII text [str.lower] works character by
    character, as [lower] does; on other text it need not (a capital
    sigma is lowered by what follows it). *)
Definition is_ascii (c : ascii) : bool := code c <? 128.

Section PrefixFacts.

Import RequestParser.

Lemma lower_app (a b : pystr) : lower (a ++ b) = lower a ++ lower b.
Proof. apply map_app. Qed.

Lemma lower_length (s : pystr) : length (lower s) = length s.
Proof. apply length_map. Qed.

Lemma content_prefix_of_lower content :
  content_prefix_of (lower content) = content_prefix_of content.
Proof.
  unfold content_prefix_of. now rewrite lower_idem.
Qed.

Lemma content_prefix_of_app content tail :
  800 <= length content ->
  content_prefix_of (content ++ tail) = content_prefix_of content.
Proof.
  intros H. unfold content_prefix_of. rewrite lower_app.
  rewrite firstn_app, lower_length.
  replace (800 - length content) with 0 by lia.
  now rewrite firstn_O, app_nil_r.
Qed.

Lemma find_matching_prefix ratio variants prompt_types a b :
  content_prefix_of a = content_prefix_of b ->
  find_matching_prompt_type ratio variants prompt_types a
  = find_matching_prompt_type ratio variants prompt_types b.
Proof.
  intros H. unfold find_matching_prompt_type. now rewrite H.
Qed.

End PrefixFacts.

(** X6. The classifier looks at the lowercased first 800 characters of the
    content and at nothing else: two contents with the same such prefix
    get the same answer, so the case of the content's letters does not
    matter; and when the first 800 characters of a content are ASCII
    characters, neither does anything that comes after them. *)
Theorem classifier_reads_prefix_only
  (ratio : pystr -> pystr -> Q)
  (variants : RequestParser.variants_t)
  (prompt_types : RequestParser.prompt_types_t) :
  (forall a b,
     firstn 800 (lower a) = firstn 800 (lower b) ->
     RequestParser.find_matching_prompt_type ratio variants prompt_types a
     = RequestParser.find_matching_prompt_type ratio variants prompt_types b)
  /\ (forall content,
        RequestParser.find_matching_prompt_type ratio variants prompt_types
          (lower content)
        = RequestParser.find_matching_prompt_type ratio variants prompt_types
            content)
  /\ (forall content tail,
        800 <= length content ->
        forallb is_ascii (firstn 800 content) = true ->
        RequestParser.find_matching_prompt_type ratio variants prompt_types
          (content ++ tail)
        = RequestParser.find_matching_prompt_type ratio variants prompt_types
            content).
Proof.
  split; [intros a b H; now apply find_matching_prefix|].
  split.
  - intros content. apply find_matching_prefix, content_prefix_of_lower.
  - intros content tail H _.
    now apply find_matching_prefix, content_prefix_of_app.
Qed.

(* ===================================================================== *)
(** * Further properties: the order of the built-in table                 *)
(* ===================================================================== *)

Definition ROLEPLAY : pystr := lit "you are roleplaying as".
Definition IN_CHARACTER : pystr :=
  lit "remain completely in character and speak as they would".
Definition REACTING : pystr := lit "you are reacting verbally to a".
Definition THINKING : pystr :=
  lit "you are thinking to yourself about the current situation".

Section TableFacts.

Import RequestParser.

Lemma count_matches_pair a b prefix :
  (0 <? count_matches [a; b] prefix) = contains a prefix || contains b prefix.
Proof.
  unfold count_matches. simpl.
  destruct (contains a prefix), (contains b prefix); reflexivity.
Qed.

(** The table behind its first three entries. *)
Definition later_entries : list (pystr * list pystr) := skipn 3 pattern_matches.

Lemma pattern_tier_first_three prefix :
  pattern_tier pattern_matches prefix =
  if contains ROLEPLAY prefix || contains IN_CHARACTER prefix
  then Some (lit "dialogue_response")
  else if contains ROLEPLAY prefix || contains REACTING prefix
  then Some (lit "player_dialogue")
  else if contains ROLEPLAY prefix || contains THINKING prefix
  then Some (lit "player_thoughts")
  else pattern_tier later_entries prefix.
Proof.
  change pattern_matches with
    ((lit "dialogue_response", [ROLEPLAY; IN_CHARACTER])
     :: (lit "player_dialogue", [ROLEPLAY; REACTING])
     :: (lit "player_thoughts", [ROLEPLAY; THINKING]) :: later_entries).
  cbn [pattern_tier]. now rewrite !count_matches_pair.
Qed.

Lemma later_entries_keys prefix pt :
  pattern_tier later_entries prefix = Some pt ->
  pt <> lit "dialogue_response" /\ pt <> lit "player_dialogue"
  /\ pt <> lit "player_thoughts".
Proof.
  intros H. apply pattern_tier_key in H.
  vm_compute in H.
  repeat (destruct H as [<-|H]; [repeat split; discriminate|]).
  destruct H.
Qed.

End TableFacts.

(** X7. In the built-in table the phrase [you are roleplaying as] is a
    pattern of [dialogue_response], the first entry, and also of
    [player_dialogue] and [player_thoughts]; one pattern is enough for an
    entry and the first entry wins.  So a content whose prefix holds the
    phrase and none of the variants is classified [dialogue_response],
    whatever else it holds; the table answers [player_dialogue] exactly
    when the prefix lacks both patterns of [dialogue_response] and holds
    [you are reacting verbally to a], and [player_thoughts] exactly when
    it lacks those three and holds [you are thinking to yourself about
    the current situation]. *)
Theorem roleplay_phrase_means_dialogue_response
  (ratio : pystr -> pystr -> Q)
  (variants : RequestParser.variants_t)
  (prompt_types : RequestParser.prompt_types_t) (content : pystr) :
  contains ROLEPLAY (RequestParser.content_prefix_of content) = true ->
  RequestParser.variant_tier variants (RequestParser.content_prefix_of content)
  = None ->
  RequestParser.find_matching_prompt_type ratio variants prompt_types content
  = Some (lit "dialogue_response")
  /\ (forall prefix,
        RequestParser.pattern_tier RequestParser.pattern_matches prefix
        = Some (lit "player_dialogue")
        <-> contains ROLEPLAY prefix = false
            /\ contains IN_CHARACTER prefix = false
            /\ contains REACTING prefix = true)
  /\ (forall prefix,
        RequestParser.pattern_tier RequestParser.pattern_matches prefix
        = Some (lit "player_thoughts")
        <-> contains ROLEPLAY prefix = false
            /\ contains IN_CHARACTER prefix = false
            /\ contains REACTING prefix = false
            /\ contains THINKING prefix = true).
Proof.
  intros Hrole Hvar. split; [|split].
  - unfold RequestParser.find_matching_prompt_type. cbv zeta.
    rewrite Hvar, pattern_tier_first_three, Hrole. reflexivity.
  - intros prefix. rewrite pattern_tier_first_three.
    destruct (contains ROLEPLAY prefix), (contains IN_CHARACTER prefix),
      (contains REACTING prefix), (contains THINKING prefix); cbn [orb];
      (split;
       [intros H;
        first [ apply later_entries_keys in H; tauto
              | now repeat split
              | exfalso; injection H as H; vm_compute in H; discriminate ]
       |intros (H1 & H2 & H3); first [discriminate|reflexivity]]).
  - intros prefix. rewrite pattern_tier_first_three.
    destruct (contains ROLEPLAY prefix), (contains IN_CHARACTER prefix),
      (contains REACTING prefix), (contains THINKING prefix); cbn [orb];
      (split;
       [intros H;
        first [ apply later_entries_keys in H; tauto
              | now repeat split
              | exfalso; injection H as H; vm_compute in H; discriminate ]
       |intros (H1 & H2 & H3 & H4); first [discriminate|reflexivity]]).
Qed.

Definition roleplay_reaction_content : pystr :=
  lit "You are roleplaying as Lydia. You are reacting verbally to a dragon attack.".

Lemma roleplay_phrase_means_dialogue_response_example :
  contains REACTING (RequestParser.content_prefix_of roleplay_reaction_content)
  = true
  /\ RequestParser.find_matching_prompt_type equal_ratio example_variants
       example_prompt_types roleplay_reaction_content
     = Some (lit "dialogue_response").
Proof.
  split; [vm_compute; reflexivity|].
  refine (proj1 (@roleplay_phrase_means_dialogue_response equal_ratio
                   example_variants example_prompt_types
                   roleplay_reaction_content _ _)).
  - vm_compute. reflexivity.
  - vm_compute. reflexivity.
Defined.

(* ===================================================================== *)
(** * Further properties: the exceptions of the request parser            *)
(* ===================================================================== *)

Section ExceptionFacts.

Import Json RequestParser.

Lemma content_parts_exn msgs e : content_parts msgs = Raise e -> e = TypeError.
Proof.
  induction msgs as [|m msgs IH]; simpl; [discriminate|].
  destruct (content_of m) as [c|e'] eqn:E; simpl.
  - destruct (content_parts msgs) as [parts|e'']; simpl; [discriminate|].
    intros H. injection H as <-. now apply IH.
  - intros H. injection H as <-.
    destruct m as [| | |s|l|d]; cbn [content_of] in E; try congruence.
    + destruct (contains (lit "content") s); congruence.
    + destruct (existsb _ l); congruence.
Qed.

Lemma join_parts_exn parts e : join_parts parts = Raise e -> e = TypeError.
Proof.
  induction parts as [|p parts IH]; simpl; [discriminate|].
  destruct p; try congruence.
  destruct (join_parts parts) as [l|e']; simpl; [discriminate|].
  intros H. injection H as <-. now apply IH.
Qed.

Lemma extract_messages_content_exn msgs e :
  extract_messages_content msgs = Raise e -> e = TypeError.
Proof.
  unfold extract_messages_content.
  destruct (iterate msgs) as [items|e1] eqn:E1; simpl.
  - destruct (content_parts items) as [parts|e2] eqn:E2; simpl.
    + destruct (join_parts parts) as [strs|e3] eqn:E3; simpl; [discriminate|].
      intros H. injection H as <-. eapply join_parts_exn, E3.
    + intros H. injection H as <-. eapply content_parts_exn, E2.
  - intros H. injection H as <-.
    destruct msgs; simpl in E1; congruence.
Qed.

(** The parts of messages one of which is an object with a content. *)
Lemma content_parts_member msgs m v parts :
  In (JObj m) msgs -> dict_get (lit "content") m = Some v ->
  content_parts msgs = Return parts -> In v parts.
Proof.
  revert parts. induction msgs as [|x msgs IH]; intros parts Hin Hget; [destruct Hin|].
  cbn [content_parts].
  destruct (content_of x) as [c|e] eqn:E; cbn [bind]; [|discriminate].
  destruct (content_parts msgs) as [parts'|e]; cbn [bind]; [|discriminate].
  intros H. injection H as <-.
  destruct Hin as [->|Hin].
  - cbn [content_of] in E. rewrite Hget in E. injection E as <-. now left.
  - specialize (IH parts' Hin Hget eq_refl).
    destruct c; [now right|exact IH].
Qed.

Lemma join_parts_member parts v :
  In v parts -> (forall s, v <> JStr s) -> join_parts parts = Raise TypeError.
Proof.
  induction parts as [|p parts IH]; intros Hin Hv; [destruct Hin|].
  destruct Hin as [->|Hin].
  - destruct v; try reflexivity. now destruct (Hv s).
  - simpl. destruct p; try reflexivity.
    now rewrite (IH Hin Hv).
Qed.

Lemma manual_parse_units text v :
  _manual_json_parse text = Some v ->
  exists msgs, v = JObj [(lit "messages", JArr msgs)]
               /\ msgs <> [] /\ Forall is_unit msgs.
Proof.
  unfold _manual_json_parse, manual_parse_lines, scan_result.
  pose proof (scan_lines_inv (split_nl text) scan_init_inv) as [Hu _].
  destruct (messages (scan_lines scan_init (split_nl text))) as [|m ms];
    [discriminate|].
  intros H. injection H as <-. exists (m :: ms).
  split; [reflexivity|]. split; [discriminate|exact Hu].
Qed.

(** When strict decoding fails the extractor raises nothing. *)
Lemma extract_content_recovered body :
  json_loads body = None ->
  exists r, extract_content body = Return r.
Proof.
  intros Hload. unfold extract_content, parse_json_entry. rewrite Hload.
  destruct (contains MESSAGES_KEY body); [|now exists None].
  destruct (_manual_json_parse body) as [v|] eqn:E; [|now exists None].
  destruct (manual_parse_units E) as (msgs & -> & Hne & Hu).
  destruct msgs as [|m ms]; [contradiction|].
  cbn [truthy negb get_messages].
  change (dict_get (lit "messages") [(lit "messages", JArr (m :: ms))])
    with (Some (JArr (m :: ms))).
  cbn [bind truthy negb]. rewrite (extract_units Hu). cbn [bind]. eauto.
Qed.

Lemma process_records_raise ratio variants prompt_types before r rest st st1 e :
  process_records ratio variants prompt_types st before = Return st1 ->
  extract_content (Segmenter.json_content r) = Raise e ->
  process_records ratio variants prompt_types st (before ++ r :: rest)
  = Raise e.
Proof.
  intros Hb He. rewrite process_records_app, Hb. cbn [bind process_records].
  unfold process_record. rewrite He. reflexivity.
Qed.

End ExceptionFacts.

(** X8. When the request parser dies of an [AttributeError].  The payload
    extractor raises it exactly when the raw body decodes strictly to a
    JSON value that is true as a condition and is not an object (a
    non-empty list or string, a non-zero number, [true]): the code calls
    [get] on it.  No handler catches it, so the run over a log ends with
    it at the first such record, whatever the records after it hold. *)
Theorem attribute_error_on_non_object
  (ratio : pystr -> pystr -> Q)
  (variants : RequestParser.variants_t)
  (prompt_types : RequestParser.prompt_types_t)
  (body : pystr) :
  (RequestParser.extract_content body
   = RequestParser.Raise RequestParser.AttributeError
   <-> exists v, Json.json_loads body = Some v
                 /\ Json.truthy v = true
                 /\ forall d, v <> Json.JObj d)
  /\ (forall st st1 lines before r rest,
        Segmenter.segment Header.request_pattern lines = before ++ r :: rest ->
        RequestParser.process_records ratio variants prompt_types st before
        = RequestParser.Return st1 ->
        Segmenter.json_content r = body ->
        RequestParser.extract_content body
        = RequestParser.Raise RequestParser.AttributeError ->
        RequestParser.process_log_file ratio variants prompt_types st lines
        = RequestParser.Raise RequestParser.AttributeError).
Proof.
  split.
  - split.
    + intros H. destruct (Json.json_loads body) as [v|] eqn:Hload.
      * exists v. split; [reflexivity|].
        unfold RequestParser.extract_content, RequestParser.parse_json_entry in H.
        rewrite Hload in H.
        destruct (Json.truthy v); cbn [negb] in H; [|discriminate].
        split; [reflexivity|]. intros d ->.
        cbn [RequestParser.get_messages] in H.
        destruct (Json.dict_get (lit "messages") d) as [msgs|];
          cbn [RequestParser.bind] in H.
        -- destruct (Json.truthy msgs); cbn [negb] in H; [|discriminate].
           destruct (RequestParser.extract_messages_content msgs) as [c|e] eqn:E;
             cbn [RequestParser.bind] in H; [discriminate|].
           apply extract_messages_content_exn in E. congruence.
        -- cbn [Json.truthy negb] in H. discriminate.
      * destruct (extract_content_recovered Hload) as (r & Hr). congruence.
    + intros (v & Hload & Ht & Hobj).
      unfold RequestParser.extract_content, RequestParser.parse_json_entry.
      rewrite Hload, Ht. cbn [negb].
      destruct v; try reflexivity. now destruct (Hobj members).
  - intros st st1 lines before r rest Hseg Hbefore Hbody Hraise.
    unfold RequestParser.process_log_file. rewrite Hseg.
    eapply process_records_raise; [exact Hbefore|]. now rewrite Hbody.
Qed.

(** A log whose second request has a list for a body. *)
Definition list_body_log : list pystr :=
  example_first_request
  ++ [line "[2025-08-01 10:00:03.000] Generate request [req-x]:";
      payload "[{'role': 'user', 'content': 'hi'}]|"]
  ++ example_second_request.

Lemma attribute_error_on_non_object_example :
  RequestParser.extract_content (payload "[{'role': 'user', 'content': 'hi'}]")
  = RequestParser.Raise RequestParser.AttributeError
  /\ RequestParser.process_log_file equal_ratio example_variants
       example_prompt_types request_initial_state list_body_log
     = RequestParser.Raise RequestParser.AttributeError.
Proof.
  pose proof (@attribute_error_on_non_object equal_ratio example_variants
                example_prompt_types
                (payload "[{'role': 'user', 'content': 'hi'}]")) as [Hiff Hrun].
  assert (Hraise :
            RequestParser.extract_content
              (payload "[{'role': 'user', 'content': 'hi'}]")
            = RequestParser.Raise RequestParser.AttributeError).
  { apply Hiff. eexists. split; [vm_compute; reflexivity|].
    split; [reflexivity|]. intros d. discriminate. }
  split; [exact Hraise|].
  eapply (Hrun request_initial_state _ list_body_log
            (Segmenter.segment Header.request_pattern example_first_request)).
  - vm_compute. reflexivity.
  - vm_compute. reflexivity.
  - vm_compute. reflexivity.
  - exact Hraise.
Defined.

(** X9. When the request parser dies of a [TypeError].  Every exception
    of [extract_messages_content] is a [TypeError]; and when the body
    decodes strictly to an object whose [messages] is a list, one message
    of which is an object with a [content] that is not a string ([null],
    a number, a list of parts), the extractor raises it, whatever the
    other messages are: the join of the parts refuses the value. *)
Theorem type_error_on_non_string_content
  (body : pystr) (d m : Json.dict) (msgs : list Json.json) (v : Json.json) :
  Json.json_loads body = Some (Json.JObj d) ->
  Json.dict_get (lit "messages") d = Some (Json.JArr msgs) ->
  In (Json.JObj m) msgs ->
  Json.dict_get (lit "content") m = Some v ->
  (forall s, v <> Json.JStr s) ->
  RequestParser.extract_content body
  = RequestParser.Raise RequestParser.TypeError
  /\ (forall other e,
        RequestParser.extract_messages_content other = RequestParser.Raise e ->
        e = RequestParser.TypeError).
Proof.
  intros Hload Hget Hin Hc Hv.
  split; [|intros other e; apply extract_messages_content_exn].
  unfold RequestParser.extract_content, RequestParser.parse_json_entry.
  rewrite Hload.
  assert (Ht : Json.truthy (Json.JObj d) = true)
    by (destruct d; [discriminate|reflexivity]).
  rewrite Ht. cbn [negb RequestParser.get_messages]. rewrite Hget.
  cbn [RequestParser.bind].
  assert (Ht' : Json.truthy (Json.JArr msgs) = true)
    by (destruct msgs; [destruct Hin|reflexivity]).
  rewrite Ht'. cbn [negb].
  unfold RequestParser.extract_messages_content.
  cbn [RequestParser.iterate RequestParser.bind].
  destruct (RequestParser.content_parts msgs) as [parts|e] eqn:E;
    cbn [RequestParser.bind].
  - rewrite (join_parts_member (content_parts_member Hin Hc E) Hv). reflexivity.
  - now rewrite (content_parts_exn E).
Qed.

Definition parts_content_payload : pystr :=
  payload "{'messages': [{'role': 'system', 'content': 'Be brief.'}, {'role': 'user', 'content': [{'type': 'text', 'text': 'hi'}]}]}".

Lemma type_error_on_non_string_content_example :
  RequestParser.extract_content parts_content_payload
  = RequestParser.Raise RequestParser.TypeError.
Proof.
  refine (proj1 (@type_error_on_non_string_content parts_content_payload
     [(lit "messages",
       Json.JArr
         [Json.JObj [(lit "role", Json.JStr (lit "system"));
                     (lit "content", Json.JStr (lit "Be brief."))];
          Json.JObj [(lit "role", Json.JStr (lit "user"));
                     (lit "content",
                      Json.JArr
                        [Json.JObj [(lit "type", Json.JStr (lit "text"));
                                    (lit "text", Json.JStr (lit "hi"))]])]])]
     [(lit "role", Json.JStr (lit "user"));
      (lit "content",
       Json.JArr [Json.JObj [(lit "type", Json.JStr (lit "text"));
                             (lit "text", Json.JStr (lit "hi"))]])]
     _ _ _ _ _ _ _)).
  - vm_compute. reflexivity.
  - vm_compute. reflexivity.
  - right. left. reflexivity.
  - vm_compute. reflexivity.
  - intros s. discriminate.
Defined.

(* ===================================================================== *)
(** * Further properties: what the recovery scan reads and builds         *)
(* ===================================================================== *)

(** A line that does not mention the messages key. *)
Definition no_messages_key (l : pystr) : Prop :=
  contains RequestParser.MESSAGES_KEY (strip l) = false.

(** A recovered message: an object with one or two members, under the
    keys [role] and [content] only, each once, with string values. *)
Definition role_content_dict (d : Json.dict) : Prop :=
  NoDup (map fst d)
  /\ Forall (fun kv => (fst kv = lit "role" \/ fst kv = lit "content")
                       /\ exists s, snd kv = Json.JStr s) d.

Definition role_content_object (m : Json.json) : Prop :=
  exists d, m = Json.JObj d /\ d <> [] /\ length d <= 2
            /\ role_content_dict d.

Section ScanFacts.

Import Json RequestParser.

Lemma scan_line_outside st l :
  in_messages st = false -> no_messages_key l -> scan_line st l = (st, false).
Proof.
  intros Hin Hkey. unfold scan_line. cbv zeta.
  unfold no_messages_key in Hkey. now rewrite Hkey, Hin.
Qed.

Lemma scan_lines_outside pre rest : forall st,
  in_messages st = false -> Forall no_messages_key pre ->
  scan_lines st (pre ++ rest) = scan_lines st rest.
Proof.
  induction pre as [|l pre IH]; intros st Hin Hall; [reflexivity|].
  inversion Hall as [|? ? Hl Hpre]; subst.
  cbn [app scan_lines]. rewrite (scan_line_outside Hin Hl). now apply IH.
Qed.

Lemma scan_line_closing st l :
  in_messages st = true -> in_content st = false -> strip l = lit "]" ->
  exists st', scan_line st l = (st', true) /\ messages st' = messages st.
Proof.
  intros Hin Hc Hl. unfold scan_line. cbv zeta. rewrite Hl, Hin, Hc.
  change (contains MESSAGES_KEY (lit "]")) with false.
  change (startswith (lit "{") (lit "]")) with false.
  change (contains CONTENT_KEY (lit "]")) with false.
  change (contains ROLE_KEY (lit "]")) with false.
  change (eqb (lit "]") (lit "}")) with false.
  change (eqb (lit "]") (lit "},")) with false.
  change (eqb (lit "]") (lit "]")) with true.
  cbn [andb orb]. eexists. split; reflexivity.
Qed.

Lemma scan_lines_closing span l rest st :
  in_messages (scan_lines st span) = true ->
  in_content (scan_lines st span) = false ->
  strip l = lit "]" ->
  messages (scan_lines st (span ++ l :: rest)) = messages (scan_lines st span).
Proof.
  intros Hin Hc Hl. rewrite scan_lines_app by exact Hin.
  destruct (scan_line_closing Hin Hc Hl) as (st' & Hstep & Hm).
  cbn [scan_lines]. now rewrite Hstep.
Qed.

Lemma role_content_dict_set k s d :
  k = lit "role" \/ k = lit "content" ->
  role_content_dict d ->
  role_content_dict (dict_set k (JStr s) d).
Proof.
  intros Hk [Hnd Hall]. induction d as [|[k' v'] d IH]; simpl.
  - split; [repeat constructor; intros []|].
    constructor; [simpl; eauto|constructor].
  - inversion Hnd as [|? ? Hnotin Hnd']; subst.
    inversion Hall as [|? ? Hkv Hall']; subst.
    destruct (eqb k k') eqn:E.
    + apply eqb_eq in E. subst k'. split.
      * simpl. now constructor.
      * constructor; [simpl; eauto|exact Hall'].
    + apply eqb_neq in E. destruct (IH Hnd' Hall') as [Hnd2 Hall2]. split.
      * simpl. constructor; [|exact Hnd2].
        intros Hin. apply Hnotin. clear - Hin E.
        induction d as [|[k2 v2] d IH]; simpl in *.
        -- destruct Hin as [Hin|[]]. congruence.
        -- destruct (eqb k k2) eqn:E2.
           ++ apply eqb_eq in E2. subst k2. simpl in Hin.
              destruct Hin as [Hin|Hin]; [congruence|now right].
           ++ simpl in Hin. destruct Hin as [Hin|Hin]; [now left|].
              right. now apply IH.
      * constructor; assumption.
Qed.

Lemma role_content_dict_length d : role_content_dict d -> length d <= 2.
Proof.
  intros [Hnd Hall]. rewrite <- (length_map fst d).
  change 2 with (length [lit "role"; lit "content"]).
  apply NoDup_incl_length; [exact Hnd|].
  intros k Hin. apply in_map_iff in Hin as (kv & <- & Hkv).
  rewrite Forall_forall in Hall. destruct (Hall kv Hkv) as [[->| ->] _];
    simpl; tauto.
Qed.

(** What the scan keeps true of its two accumulators. *)
Definition scan_shape (st : scan_state) : Prop :=
  Forall role_content_object (messages st)
  /\ role_content_dict (current_message st).

Lemma scan_line_shape st l : scan_shape st -> scan_shape (fst (scan_line st l)).
Proof.
  intros [Hm Hc]. unfold scan_line.
  repeat match goal with
         | |- context [if ?b then _ else _] =>
             lazymatch type of b with bool => destruct b end
         end;
    try destruct (current_message st) eqn:E;
    unfold scan_shape; cbn [fst messages current_message]; split;
    first [ assumption
          | now constructor
          | apply role_content_dict_set; [tauto|assumption]
          | split; [constructor|constructor]
          | rewrite E; assumption
          | apply Forall_app; split; [assumption|];
            constructor; [|constructor];
            eexists; split; [reflexivity|];
            split; [discriminate|];
            split; [now apply role_content_dict_length|assumption] ].
Qed.

Lemma scan_lines_shape lines : forall st,
  scan_shape st -> scan_shape (scan_lines st lines).
Proof.
  induction lines as [|l lines IH]; intros st H; simpl; [exact H|].
  pose proof (scan_line_shape l H) as H'.
  destruct (scan_line st l) as [st' stop]. simpl in H'.
  destruct stop; [exact H'|now apply IH].
Qed.

Lemma scan_init_shape : scan_shape scan_init.
Proof.
  split; [constructor|]. split; constructor.
Qed.

End ScanFacts.

(** X10. The recovery scan reads one span of the text only.  Lines in
    front that do not mention the messages key are passed over, and once
    a line that is [\]] alone is met outside a content value the loop
    stops: the result for [before ++ span ++ closing :: after] is the
    result for [span], whatever [after] holds. *)
Theorem recovery_reads_one_span
  (before span after : list pystr) (closing : pystr) :
  Forall no_messages_key before ->
  RequestParser.in_messages
    (RequestParser.scan_lines RequestParser.scan_init span) = true ->
  RequestParser.in_content
    (RequestParser.scan_lines RequestParser.scan_init span) = false ->
  strip closing = lit "]" ->
  RequestParser.manual_parse_lines (before ++ span ++ closing :: after)
  = RequestParser.manual_parse_lines span.
Proof.
  intros Hbefore Hin Hc Hclose. unfold RequestParser.manual_parse_lines.
  rewrite (scan_lines_outside _ (st:=RequestParser.scan_init) eq_refl Hbefore).
  unfold RequestParser.scan_result.
  now rewrite (scan_lines_closing after Hin Hc Hclose).
Qed.

Definition span_before : list pystr := [payload "{"; payload "  'model': 'x',"].
Definition span_lines : list pystr :=
  [payload "  'messages': ["; payload "    {"; payload "      'role': 'user',";
   payload "      'content': 'Hello,"; payload "there'"; payload "    }"].
Definition span_after : list pystr :=
  [payload "  'extra': ["; payload "    {"; payload "      'role': 'ghost'";
   payload "    }"; payload "  ]"].

Lemma recovery_reads_one_span_example :
  RequestParser.manual_parse_lines span_lines
  = Some (Json.JObj
            [(lit "messages",
              Json.JArr
                [Json.JObj [(lit "role", Json.JStr (lit "user"));
                            (lit "content",
                             Json.JStr (payload "Hello,|there"))]])])
  /\ RequestParser.manual_parse_lines
       (span_before ++ span_lines ++ payload "  ]" :: span_after)
     = RequestParser.manual_parse_lines span_lines.
Proof.
  split; [vm_compute; reflexivity|].
  apply recovery_reads_one_span.
  - repeat constructor.
  - vm_compute. reflexivity.
  - vm_compute. reflexivity.
  - vm_compute. reflexivity.
Defined.

(** X11. What the recovery scan can give back.  Its result, when there is
    one, is an object with the single key [messages] holding a non-empty
    list; every message of the list is an object with one or two members,
    under the keys [role] and [content] only, each at most once, and with
    string values.  No other key of the original payload survives. *)
Theorem recovered_messages_shape (json_text : pystr) (v : Json.json) :
  RequestParser._manual_json_parse json_text = Some v ->
  exists msgs,
    v = Json.JObj [(lit "messages", Json.JArr msgs)]
    /\ msgs <> []
    /\ Forall role_content_object msgs.
Proof.
  unfold RequestParser._manual_json_parse, RequestParser.manual_parse_lines,
    RequestParser.scan_result.
  pose proof (scan_lines_shape (split_nl json_text) scan_init_shape) as [Hs _].
  destruct (RequestParser.messages
              (RequestParser.scan_lines RequestParser.scan_init
                 (split_nl json_text))) as [|m ms]; [discriminate|].
  intros H. injection H as <-. exists (m :: ms).
  split; [reflexivity|]. split; [discriminate|exact Hs].
Qed.

Definition named_message_payload : pystr :=
  payload "{|  'messages': [|    {|      'role': 'user',|      'name': 'Lydia',|      'content': 'Hello,|there'|    }|  ]".

Lemma recovered_messages_shape_example :
  RequestParser._manual_json_parse named_message_payload
  = Some (Json.JObj
            [(lit "messages",
              Json.JArr
                [Json.JObj [(lit "role", Json.JStr (lit "user"));
                            (lit "content",
                             Json.JStr (payload "Hello,|there"))]])])
  /\ exists msgs,
       Json.JObj
         [(lit "messages",
           Json.JArr
             [Json.JObj [(lit "role", Json.JStr (lit "user"));
                         (lit "content",
                          Json.JStr (payload "Hello,|there"))]])]
       = Json.JObj [(lit "messages", Json.JArr msgs)]
       /\ Forall role_content_object msgs.
Proof.
  assert (H : RequestParser._manual_json_parse named_message_payload
              = Some (Json.JObj
                        [(lit "messages",
                          Json.JArr
                            [Json.JObj [(lit "role", Json.JStr (lit "user"));
                                        (lit "content",
                                         Json.JStr (payload "Hello,|there"))]])]))
    by (vm_compute; reflexivity).
  split; [exact H|].
  destruct (recovered_messages_shape H) as (msgs & E & _ & Hall).
  exists msgs. now split.
Defined.

(* ===================================================================== *)
(** * Further properties: the response loop over the records              *)
(* ===================================================================== *)

(** What the response loop does with one record of the segmentation. *)
Definition response_step (ids : ResponseParser.lookup_t)
  (st : ResponseParser.parser_state) (r : Segmenter.log_record)
  : ResponseParser.parser_state :=
  match ResponseParser.lookup (Segmenter.unique_id r) ids with
  | None => ResponseParser.count_unmatched st
  | Some info =>
      ResponseParser.record_matched st (Segmenter.unique_id r)
        (Segmenter.timestamp r) info (Segmenter.json_lines r)
  end.

(** The identifier of the record is a key of the lookup. *)
Definition known (ids : ResponseParser.lookup_t) (r : Segmenter.log_record)
  : bool :=
  match ResponseParser.lookup (Segmenter.unique_id r) ids with
  | Some _ => true
  | None => false
  end.

(** The three lists of the state go together, entry by entry: the timing
    entries are those of the processed responses, and the n-th call of
    [save_response_data] was given the prompt type, the identifier and the
    response time of the n-th entry, and a content of the length the n-th
    processed response records. *)
Definition lists_agree (st : ResponseParser.parser_state) : Prop :=
  ResponseParser.timing_data st
  = map ResponseParser.p_timing (ResponseParser.processed_responses st)
  /\ map (fun f => (ResponseParser.s_folder f, ResponseParser.s_id f,
                    ResponseParser.s_response_time f))
         (ResponseParser.saved st)
     = map (fun e => (ResponseParser.t_prompt_type e, ResponseParser.t_id e,
                      ResponseParser.t_response_time e))
           (ResponseParser.timing_data st)
  /\ map (fun f => length (ResponseParser.s_content f))
         (ResponseParser.saved st)
     = map ResponseParser.p_content_length
           (ResponseParser.processed_responses st).

Section ResponseLoopFacts.

Import ResponseParser.

Variable ids : lookup_t.

Lemma process_as_fold lines : forall st,
  process_log_file ids st lines
  = fold_left (response_step ids)
      (Segmenter.segment Header.response_pattern lines) st.
Proof.
  induction lines as [|l rest E IH|l rest E IH]
    using (segment_ind (pattern:=Header.response_pattern)); intros st.
  - now simp process_log_file.
  - destruct (is_header_true E) as (ts & uid & Hm).
    rewrite (segment_header rest Hm). cbn [fold_left].
    unfold response_step at 2. cbn [Segmenter.unique_id Segmenter.timestamp
                                     Segmenter.json_lines].
    destruct (lookup uid ids) as [info|] eqn:L.
    + rewrite (process_matched _ rest Hm L). apply IH.
    + rewrite (process_unmatched _ rest Hm L).
      rewrite <- process_skip_body. apply IH.
  - rewrite (process_other ids _ rest (is_header_false E)).
    rewrite (segment_other rest (is_header_false E)). apply IH.
Qed.

Lemma fold_counts records : forall st,
  matched_responses (fold_left (response_step ids) records st)
  = matched_responses st + length (filter (known ids) records)
  /\ unmatched_responses (fold_left (response_step ids) records st)
     = unmatched_responses st
       + length (filter (fun r => negb (known ids r)) records)
  /\ length (timing_data (fold_left (response_step ids) records st))
     = length (timing_data st) + length (filter (known ids) records).
Proof.
  induction records as [|r records IH]; intros st; simpl; [lia|].
  destruct (IH (response_step ids st r)) as (H1 & H2 & H3).
  rewrite H1, H2, H3. unfold response_step, known.
  destruct (lookup (Segmenter.unique_id r) ids); simpl;
    rewrite ?length_app; simpl; lia.
Qed.

Lemma fold_lists_agree records : forall st,
  lists_agree st -> lists_agree (fold_left (response_step ids) records st).
Proof.
  induction records as [|r records IH]; intros st H; simpl; [exact H|].
  apply IH. destruct H as (H1 & H2 & H3). unfold response_step.
  destruct (lookup (Segmenter.unique_id r) ids) as [info|];
    [|split; [exact H1|split; [exact H2|exact H3]]].
  unfold lists_agree, record_matched. cbn [timing_data processed_responses saved].
  rewrite !map_app. cbn [map p_timing p_content_length s_folder s_id
                          s_response_time s_content].
  rewrite H1, H2, H3. rewrite <- H1.
  repeat split; reflexivity.
Qed.

Lemma filter_partition_length {A} (f : A -> bool) l :
  length (filter f l) + length (filter (fun x => negb (f x)) l) = length l.
Proof.
  induction l as [|x l IH]; simpl; [reflexivity|].
  destruct (f x); simpl; lia.
Qed.

End ResponseLoopFacts.

(** X12. The response loop is a pass over the records of the
    segmentation: for each record, in order, a record whose identifier
    the lookup lacks adds one to the unmatched count, and any other one
    is stored with the record's timestamp and body lines.  That an
    unmatched response only moves the index by one makes no difference. *)
Theorem response_loop_over_records
  (ids : ResponseParser.lookup_t) (st : ResponseParser.parser_state)
  (lines : list pystr) :
  ResponseParser.process_log_file ids st lines
  = fold_left (response_step ids)
      (Segmenter.segment Header.response_pattern lines) st.
Proof.
  apply process_as_fold.
Qed.

(** X13. The counters and lists of the response parser after any run.
    Every header line of the log is counted once, as matched or as
    unmatched: the matched count grows by the number of records whose
    identifier the lookup holds, the unmatched count by the number of the
    others, and together by the number of header lines.  The timing list
    grows by one entry per matched response.  And if the three lists went
    together before (same entries in [timing_data] and
    [processed_responses]; each call of [save_response_data] given the
    prompt type, the identifier and the response time of its entry, and a
    content of the recorded length), they still do. *)
Theorem response_counts_and_lists
  (ids : ResponseParser.lookup_t) (st : ResponseParser.parser_state)
  (lines : list pystr) :
  let st' := ResponseParser.process_log_file ids st lines in
  let records := Segmenter.segment Header.response_pattern lines in
  ResponseParser.matched_responses st'
  = ResponseParser.matched_responses st + length (filter (known ids) records)
  /\ ResponseParser.unmatched_responses st'
     = ResponseParser.unmatched_responses st
       + length (filter (fun r => negb (known ids r)) records)
  /\ ResponseParser.matched_responses st'
     + ResponseParser.unmatched_responses st'
     = ResponseParser.matched_responses st
       + ResponseParser.unmatched_responses st
       + length (filter (Segmenter.is_header Header.response_pattern) lines)
  /\ length (ResponseParser.timing_data st')
     = length (ResponseParser.timing_data st)
       + length (filter (known ids) records)
  /\ (lists_agree st -> lists_agree st').
Proof.
  cbv zeta. rewrite process_as_fold.
  destruct (fold_counts ids
              (Segmenter.segment Header.response_pattern lines) st)
    as (H1 & H2 & H3).
  split; [exact H1|]. split; [exact H2|]. split; [|split; [exact H3|]].
  - rewrite H1, H2, <- segment_count.
    pose proof (filter_partition_length (known ids)
                  (Segmenter.segment Header.response_pattern lines)). lia.
  - apply fold_lists_agree.
Qed.

(* ===================================================================== *)
(** * Further properties: what [strptime] accepts                         *)
(* ===================================================================== *)

(** [r] is what is left of [s] after some beginning of it. *)
Definition rest_of (s r : pystr) : Prop := exists p, s = p ++ r.

(** The fields of a [datetime] that exists. *)
Definition valid_fields (dt : ResponseParser.datetime) : Prop :=
  (1 <= ResponseParser.year dt <= 9999
   /\ 1 <= ResponseParser.month dt <= 12
   /\ 1 <= ResponseParser.day dt
      <= ResponseParser.days_in_month (ResponseParser.year dt)
           (ResponseParser.month dt)
   /\ 0 <= ResponseParser.hour dt <= 23
   /\ 0 <= ResponseParser.minute dt <= 59
   /\ 0 <= ResponseParser.second dt <= 59
   /\ 0 <= ResponseParser.microsecond dt <= 999999)%Z.

Section ParseFacts.

Import ResponseParser.
Local Opaque Z.mul.

Lemma rest_of_refl s : rest_of s s.
Proof. now exists []. Qed.

Lemma rest_of_trans s r t : rest_of s r -> rest_of r t -> rest_of s t.
Proof.
  intros (p & ->) (q & ->). exists (p ++ q). now rewrite app_assoc.
Qed.

Lemma rest_of_cons c s : rest_of (c :: s) s.
Proof. now exists [c]. Qed.

Lemma rest_of_lstrip s : rest_of s (lstrip s).
Proof.
  induction s as [|c s IH]; simpl; [apply rest_of_refl|].
  destruct (isspace c); [|apply rest_of_refl].
  eapply rest_of_trans; [apply rest_of_cons|exact IH].
Qed.

Lemma two_spec p1 p2 s v r :
  two p1 p2 s = Some (v, r) ->
  exists a b, s = a :: b :: r /\ p1 a = true /\ p2 b = true
              /\ v = (10 * digit a + digit b)%Z.
Proof.
  unfold two. destruct s as [|a [|b s]]; try discriminate.
  destruct (p1 a) eqn:E1; [|discriminate].
  destruct (p2 b) eqn:E2; [|discriminate].
  intros H. injection H as <- <-. now exists a, b.
Qed.

Lemma one_spec p s v r :
  one p s = Some (v, r) -> exists a, s = a :: r /\ p a = true /\ v = digit a.
Proof.
  unfold one. destruct s as [|a s]; [discriminate|].
  destruct (p a) eqn:E; [|discriminate].
  intros H. injection H as <- <-. now exists a.
Qed.

Lemma blank_then_spec p s v r :
  blank_then p s = Some (v, r) ->
  exists b a, s = b :: a :: r /\ p a = true /\ v = digit a.
Proof.
  unfold blank_then. destruct s as [|b [|a s]]; try discriminate.
  destruct (Ascii.eqb b " "); [|discriminate].
  destruct (p a) eqn:E; [|discriminate].
  intros H. injection H as <- <-. now exists b, a.
Qed.

Ltac alt_range :=
  let v := fresh "v" in let r := fresh "r" in let H := fresh "H" in
  intros v r H;
  first [ apply two_spec in H as (? & ? & -> & ? & ? & ->)
        | apply one_spec in H as (? & -> & ? & ->)
        | apply blank_then_spec in H as (? & ? & -> & ? & ->) ];
  (split;
   [ repeat match goal with
            | H : between _ _ _ = true |- _ => apply between_value in H
            | H : Ascii.eqb _ _ = true |- _ => apply eqb_value in H
            | H : any_digit _ = true |- _ => apply any_digit_value in H
            | H : context [Z.of_nat (code ?c)] |- _ =>
                let n := eval vm_compute in (Z.of_nat (code c)) in
                change (Z.of_nat (code c)) with n in H
            end; lia
   | first [ eexists [_; _]; reflexivity | eexists [_]; reflexivity ] ]).

Ltac directive_range :=
  repeat apply Forall_cons; try apply Forall_nil; alt_range.

Definition ranged (s : pystr) (lo hi : Z) (v : Z) (r : pystr) : Prop :=
  (lo <= v <= hi)%Z /\ rest_of s r.

Lemma directive_Y_range s :
  Forall (fun a : alt => forall v r, a s = Some (v, r) -> ranged s 0 9999 v r)
         directive_Y.
Proof.
  unfold directive_Y. constructor; [|constructor].
  intros v r. destruct s as [|a [|b [|c [|d s]]]]; try discriminate.
  destruct (any_digit a) eqn:Ea; [|discriminate].
  destruct (any_digit b) eqn:Eb; [|discriminate].
  destruct (any_digit c) eqn:Ec; [|discriminate].
  destruct (any_digit d) eqn:Ed; [|discriminate].
  cbn [andb]. intros H. injection H as <- <-.
  apply any_digit_value in Ea, Eb, Ec, Ed.
  split; [lia|]. now exists [a; b; c; d].
Qed.

Lemma directive_m_range s :
  Forall (fun a : alt => forall v r, a s = Some (v, r) -> ranged s 1 12 v r)
         directive_m.
Proof. unfold directive_m, ranged. directive_range. Qed.

Lemma directive_d_range s :
  Forall (fun a : alt => forall v r, a s = Some (v, r) -> ranged s 1 31 v r)
         directive_d.
Proof. unfold directive_d, ranged. directive_range. Qed.

Lemma directive_H_range s :
  Forall (fun a : alt => forall v r, a s = Some (v, r) -> ranged s 0 23 v r)
         directive_H.
Proof. unfold directive_H, ranged. directive_range. Qed.

Lemma directive_M_range s :
  Forall (fun a : alt => forall v r, a s = Some (v, r) -> ranged s 0 59 v r)
         directive_M.
Proof. unfold directive_M, ranged. directive_range. Qed.

Lemma directive_S_range s :
  Forall (fun a : alt => forall v r, a s = Some (v, r) -> ranged s 0 61 v r)
         directive_S.
Proof. unfold directive_S, ranged. directive_range. Qed.

Lemma literal_inv {A : Type} c (k : pystr -> option A) s x :
  literal c k s = Some x -> exists r, s = c :: r /\ k r = Some x.
Proof.
  unfold literal. destruct s as [|y r]; [discriminate|].
  destruct (Ascii.eqb y c) eqn:E; [|discriminate].
  apply Ascii.eqb_eq in E. subst. intros H. now exists r.
Qed.

Lemma blanks_inv {A : Type} (k : pystr -> option A) s x :
  blanks k s = Some x -> exists r, rest_of s r /\ k r = Some x.
Proof.
  unfold blanks. destruct s as [|y r]; [discriminate|].
  destruct (isspace y); [|discriminate].
  intros H. exists (lstrip r). split; [|exact H].
  eapply rest_of_trans; [apply rest_of_cons|apply rest_of_lstrip].
Qed.

Lemma fraction_digits_spec n : forall s ds rest,
  fraction_digits n s = (ds, rest) ->
  exists p, s = p ++ rest /\ ds = map digit p /\ length p <= n
            /\ forallb any_digit p = true.
Proof.
  assert (Hnil : forall m s, exists p : pystr,
             s = p ++ s /\ @nil Z = map digit p /\ length p <= m
             /\ forallb any_digit p = true).
  { intros m s. exists []. simpl. repeat (split; [reflexivity|]).
    split; [lia|reflexivity]. }
  induction n as [|n IH]; intros s ds rest; simpl.
  - intros H. assert (ds = [] /\ rest = s) as [-> ->]
      by (destruct s; injection H as <- <-; now split).
    apply Hnil.
  - destruct s as [|c s].
    + intros H. injection H as <- <-. apply Hnil.
    + destruct (any_digit c) eqn:E.
      * destruct (fraction_digits n s) as [ds' r'] eqn:F.
        intros H. injection H as <- <-.
        destruct (IH _ _ _ F) as (p & -> & -> & Hlen & Hall).
        exists (c :: p). simpl. rewrite E, Hall.
        repeat (split; [reflexivity|]). split; [lia|reflexivity].
      * intros H. injection H as <- <-. apply Hnil.
Qed.

Lemma fraction_value_range p :
  length p <= 6 -> forallb any_digit p = true ->
  (0 <= fraction_value (map digit p) <= 999999)%Z.
Proof.
  intros Hlen Hall.
  assert (Hd : Forall (fun c => (0 <= digit c <= 9)%Z) p).
  { apply Forall_forall. intros c Hc. apply any_digit_value.
    rewrite forallb_forall in Hall. now apply Hall. }
  clear Hall.
  do 7 (destruct p as [|? p];
        [unfold fraction_value; cbn [map length Nat.sub repeat app fold_left];
         repeat match goal with
                | H : Forall _ (_ :: _) |- _ =>
                    let H1 := fresh in let H2 := fresh in
                    inversion H as [|? ? H1 H2]; subst; clear H
                end; lia|]).
  simpl in Hlen. lia.
Qed.

(** What the expression of the format has read when it matches. *)
Lemma match_format_inv s dt :
  match_format s = Some dt ->
  ((0 <= year dt <= 9999 /\ 1 <= month dt <= 12 /\ 1 <= day dt <= 31
    /\ 0 <= hour dt <= 23 /\ 0 <= minute dt <= 59 /\ 0 <= second dt <= 61
    /\ 0 <= microsecond dt <= 999999)%Z)
  /\ exists front frac,
       s = front ++ "."%char :: frac
       /\ 1 <= length frac <= 6 /\ forallb any_digit frac = true.
Proof.
  unfold match_format.
  match goal with
  | |- match ?f with _ => _ end = _ -> _ =>
      destruct f as [[dt0 rest]|] eqn:E; [|discriminate]
  end.
  destruct rest; [|discriminate]. intros H. injection H as ->.
  pose proof (alternation_inv (directive_Y_range s) E) as (Y & r1 & [BY S1] & E1).
  apply literal_inv in E1 as (r1' & -> & E1).
  pose proof (alternation_inv (directive_m_range r1') E1)
    as (m & r2 & [Bm S2] & E2).
  apply literal_inv in E2 as (r2' & -> & E2).
  pose proof (alternation_inv (directive_d_range r2') E2)
    as (d & r3 & [Bd S3] & E3).
  apply blanks_inv in E3 as (r3' & S3' & E3).
  pose proof (alternation_inv (directive_H_range r3') E3)
    as (H & r4 & [BH S4] & E4).
  apply literal_inv in E4 as (r4' & -> & E4).
  pose proof (alternation_inv (directive_M_range r4') E4)
    as (M & r5 & [BM S5] & E5).
  apply literal_inv in E5 as (r5' & -> & E5).
  pose proof (alternation_inv (directive_S_range r5') E5)
    as (S & r6 & [BS S6] & E6).
  apply literal_inv in E6 as (r6' & -> & E6).
  destruct (fraction_digits 6 r6') as [ds rest] eqn:F.
  destruct (fraction_digits_spec F) as (p & -> & -> & Hlen & Hall).
  destruct p as [|c p]; [discriminate|]. cbn [map] in E6.
  injection E6 as <- ->. rewrite app_nil_r in *.
  split.
  - cbn [year month day hour minute second microsecond].
    pose proof (fraction_value_range Hlen Hall) as Hf.
    cbn [map] in Hf. repeat split; lia.
  - assert (Hrest : rest_of s ("."%char :: c :: p)).
    { eapply rest_of_trans; [exact S1|].
      eapply rest_of_trans; [apply rest_of_cons|].
      eapply rest_of_trans; [exact S2|].
      eapply rest_of_trans; [apply rest_of_cons|].
      eapply rest_of_trans; [exact S3|].
      eapply rest_of_trans; [exact S3'|].
      eapply rest_of_trans; [exact S4|].
      eapply rest_of_trans; [apply rest_of_cons|].
      eapply rest_of_trans; [exact S5|].
      eapply rest_of_trans; [apply rest_of_cons|].
      exact S6. }
    destruct Hrest as (front & ->). exists front, (c :: p).
    split; [reflexivity|]. split; [cbn [length] in Hlen |- *; lia|exact Hall].
Qed.

End ParseFacts.

(** X14. What [strptime] lets through.  A timestamp that parses against
    the format [%Y-%m-%d %H:%M:%S.%f] has the fields of a date and time
    that exist: a year from 1 to 9999, a month from 1 to 12, a day of that
    month in that year, an hour below 24, minutes and seconds below 60,
    microseconds below a million.  And it ends with a full stop followed
    by one to six digits: a timestamp without a fraction of a second does
    not parse, and no elapsed time is computed from it. *)
Theorem strptime_accepts_valid_fields (s : pystr) (dt : ResponseParser.datetime) :
  ResponseParser.strptime s = Some dt ->
  valid_fields dt
  /\ (exists front frac,
        s = front ++ "."%char :: frac
        /\ 1 <= length frac <= 6
        /\ forallb ResponseParser.any_digit frac = true)
  /\ (forall other,
        ~ In "."%char other ->
        ResponseParser.calculate_response_time other s = None
        /\ ResponseParser.calculate_response_time s other = None).
Proof.
  intros H.
  assert (Hnone : forall other, ~ In "."%char other ->
                                ResponseParser.strptime other = None).
  { intros other Hdot. unfold ResponseParser.strptime.
    destruct (ResponseParser.match_format other) as [dt'|] eqn:E;
      [|reflexivity].
    destruct (match_format_inv E) as (_ & front & frac & -> & _).
    exfalso. apply Hdot. apply in_or_app. right. now left. }
  unfold ResponseParser.strptime in H.
  destruct (ResponseParser.match_format s) as [dt0|] eqn:E; [|discriminate].
  destruct (ResponseParser.valid_datetime dt0) eqn:V; [|discriminate].
  injection H as ->.
  destruct (match_format_inv E) as (R & Hshape).
  apply valid_datetime_spec in V.
  split; [unfold valid_fields; lia|]. split; [exact Hshape|].
  intros other Hdot. unfold ResponseParser.calculate_response_time.
  rewrite (Hnone other Hdot).
  now destruct (ResponseParser.strptime s).
Qed.

Lemma strptime_accepts_valid_fields_example :
  valid_fields
    {| ResponseParser.year := 2024; ResponseParser.month := 2;
       ResponseParser.day := 29; ResponseParser.hour := 9;
       ResponseParser.minute := 5; ResponseParser.second := 0;
       ResponseParser.microsecond := 250000 |}
  /\ ResponseParser.calculate_response_time (lit "2024-02-29 09:05:00")
       (lit "2024-02-29 9:05:00.25") = None.
Proof.
  destruct (@strptime_accepts_valid_fields (lit "2024-02-29 9:05:00.25")
              {| ResponseParser.year := 2024; ResponseParser.month := 2;
                 ResponseParser.day := 29; ResponseParser.hour := 9;
                 ResponseParser.minute := 5; ResponseParser.second := 0;
                 ResponseParser.microsecond := 250000 |})
    as (Hv & _ & Hnone).
  - vm_compute. reflexivity.
  - split; [exact Hv|].
    apply (Hnone (lit "2024-02-29 09:05:00")).
    vm_compute. intuition discriminate.
Defined.

Section ElapsedFacts.

Import ResponseParser.

Lemma strptime_in_ranges s dt :
  strptime s = Some dt -> in_ranges dt /\ valid_datetime dt = true.
Proof.
  unfold strptime.
  destruct (match_format s) as [dt0|] eqn:E; [|discriminate].
  destruct (valid_datetime dt0) eqn:V; [|discriminate].
  intros H. injection H as <-. split; [|exact V].
  exact (proj1 (match_format_inv E)).
Qed.

Lemma radix_split (b a1 r1 a2 r2 : Z) :
  (0 <= r1 < b -> 0 <= r2 < b -> a1 * b + r1 = a2 * b + r2 ->
   a1 = a2 /\ r1 = r2)%Z.
Proof.
  intros H1 H2 H. apply (Z.div_mod_unique b); [now left|now left|].
  rewrite !(Z.mul_comm b). exact H.
Qed.

Lemma sort_key_injective dt1 dt2 :
  in_ranges dt1 -> in_ranges dt2 -> sort_key dt1 = sort_key dt2 -> dt1 = dt2.
Proof.
  destruct dt1 as [y1 m1 d1 h1 n1 s1 u1], dt2 as [y2 m2 d2 h2 n2 s2 u2].
  unfold in_ranges, sort_key.
  cbn [year month day hour minute second microsecond].
  intros R1 R2 H.
  apply radix_split in H as [H ->]; [|lia|lia].
  apply radix_split in H as [H ->]; [|lia|lia].
  apply radix_split in H as [H ->]; [|lia|lia].
  apply radix_split in H as [H ->]; [|lia|lia].
  apply radix_split in H as [H ->]; [|lia|lia].
  apply radix_split in H as [-> ->]; [|lia|lia].
  reflexivity.
Qed.

Lemma to_microseconds_order dt1 dt2 :
  in_ranges dt1 -> in_ranges dt2 ->
  valid_datetime dt1 = true -> valid_datetime dt2 = true ->
  ((sort_key dt1 < sort_key dt2 <-> to_microseconds dt1 < to_microseconds dt2)
   /\ (sort_key dt1 = sort_key dt2 <-> to_microseconds dt1 = to_microseconds dt2))%Z.
Proof.
  intros R1 R2 V1 V2.
  pose proof (@to_microseconds_mono dt1 dt2 R1 R2 V1 V2) as H12.
  pose proof (@to_microseconds_mono dt2 dt1 R2 R1 V2 V1) as H21.
  assert (Heq : sort_key dt1 = sort_key dt2 ->
                to_microseconds dt1 = to_microseconds dt2)
    by (intros H; now rewrite (sort_key_injective R1 R2 H)).
  destruct (Z.lt_trichotomy (sort_key dt1) (sort_key dt2)) as [H|[H|H]].
  - specialize (H12 H). lia.
  - specialize (Heq H). lia.
  - specialize (H21 H). lia.
Qed.

End ElapsedFacts.

(** X15. The sign of the elapsed time is the calendar order of the two
    date-times read, however the timestamps are spelled.  When both
    timestamps parse, the elapsed time exists; it is positive exactly when
    the response's fields (year, month, day, hour, minute, second,
    microsecond, compared in that order) come after the request's, zero
    exactly when they are the same, and exchanging the two timestamps
    gives the opposite value. *)
Theorem elapsed_sign_is_calendar_order
  (request_timestamp response_timestamp : pystr)
  (req_dt resp_dt : ResponseParser.datetime) :
  ResponseParser.strptime request_timestamp = Some req_dt ->
  ResponseParser.strptime response_timestamp = Some resp_dt ->
  exists elapsed back,
    ResponseParser.calculate_response_time request_timestamp
      response_timestamp = Some elapsed
    /\ ResponseParser.calculate_response_time response_timestamp
         request_timestamp = Some back
    /\ Qeq back (- elapsed)
    /\ ((sort_key req_dt < sort_key resp_dt)%Z <-> (0 < elapsed)%Q)
    /\ (sort_key req_dt = sort_key resp_dt <-> Qeq elapsed 0)
    /\ (req_dt = resp_dt <-> Qeq elapsed 0).
Proof.
  intros Hreq Hresp.
  destruct (strptime_in_ranges Hreq) as [Rreq Vreq].
  destruct (strptime_in_ranges Hresp) as [Rresp Vresp].
  destruct (to_microseconds_order Rreq Rresp Vreq Vresp) as [Hlt Heq].
  assert (Hsame : req_dt = resp_dt
                  <-> ResponseParser.to_microseconds req_dt
                      = ResponseParser.to_microseconds resp_dt).
  { split; [now intros ->|]. intros H.
    apply (sort_key_injective Rreq Rresp). now apply Heq. }
  unfold ResponseParser.calculate_response_time. rewrite Hreq, Hresp.
  eexists. eexists. split; [reflexivity|]. split; [reflexivity|].
  unfold ResponseParser.total_seconds, Qeq, Qlt, Qopp.
  cbn [Qnum Qden].
  revert Hlt Heq Hsame.
  generalize (ResponseParser.to_microseconds req_dt)
             (ResponseParser.to_microseconds resp_dt)
             (sort_key req_dt) (sort_key resp_dt).
  intros a b ka kb Hlt Heq Hsame.
  split; [lia|]. split; [lia|]. split; [lia|].
  split; intros H; [apply Hsame in H; lia|apply Hsame; lia].
Qed.

Lemma elapsed_sign_is_calendar_order_example :
  exists elapsed,
    ResponseParser.calculate_response_time (lit "2024-01-01 9:59:59.5")
      (lit "2024-01-01 10:00:00.000000") = Some elapsed
    /\ (0 < elapsed)%Q.
Proof.
  destruct (@elapsed_sign_is_calendar_order (lit "2024-01-01 9:59:59.5")
              (lit "2024-01-01 10:00:00.000000") _ _ eq_refl eq_refl)
    as (elapsed & back & Hcalc & _ & _ & Hpos & _).
  exists elapsed. split; [exact Hcalc|].
  apply Hpos. vm_compute. reflexivity.
Defined.

(* ===================================================================== *)
(** * The elapsed time of a matched pair                                  *)
(* ===================================================================== *)

(** ** The calendar the elapsed time is measured on

    The proleptic Gregorian calendar, written down on its own: which
    years are leap years, how long the months are, and which day follows
    a day. *)










Section DayCountFacts.

Import ResponseParser.
Local Open Scope Z_scope.













End DayCountFacts.



(* ===================================================================== *)
(** * [openrouter_response_parser.py]: the lookup and the folders         *)
(* ===================================================================== *)

Module ResponseSetup.
Import ResponseParser.

(** [d[k] = v] on the lookup: a key already present keeps its place and
    takes the new value. *)
Fixpoint lookup_set (k : pystr) (v : request_info) (d : lookup_t) : lookup_t :=
  match d with
  | [] => [(k, v)]
  | (k', v') :: d' =>
      if eqb k k' then (k', v) :: d' else (k', v') :: lookup_set k v d'
  end.

(** [{'timestamp': item['timestamp'], 'prompt_type': item['prompt_type']}] *)
Definition info_of (item : RequestParser.identifier_entry) : request_info :=
  {| info_timestamp := RequestParser.entry_timestamp item;
     info_prompt_type := RequestParser.prompt_type item |}.

(** ** [load_unique_identifiers]: the dict comprehension over the
    [identifiers] list of the file the request parser wrote. *)
Definition load_unique_identifiers
  (identifiers : list RequestParser.identifier_entry) : lookup_t :=
  fold_left (fun d item => lookup_set (RequestParser.id item) (info_of item) d)
            identifiers [].

(** [x in seen] for a list of strings. *)
Definition mem (x : pystr) (seen : list pystr) : bool := existsb (eqb x) seen.

(** The elements of [set(...)], each once; the order a Python set is
    visited in is not specified, the first occurrences are kept here. *)
Fixpoint distinct (seen l : list pystr) : list pystr :=
  match l with
  | [] => []
  | x :: rest =>
      if mem x seen then distinct seen rest else x :: distinct (x :: seen) rest
  end.

(** ** [create_folder_structure]: the prompt types for which it calls
    [mkdir] on [output_base_dir / prompt_type], one call per prompt type
    among the lookup's values.  The code goes through a [set], whose order
    is not fixed; the list has them in the order of their first
    occurrence. *)
Definition create_folder_structure (unique_identifiers : lookup_t)
  : list pystr :=
  distinct [] (map (fun kv => info_prompt_type (snd kv)) unique_identifiers).

End ResponseSetup.

Section SetupFacts.

Import ResponseParser ResponseSetup.

Lemma lookup_set_same k v d : lookup k (lookup_set k v d) = Some v.
Proof.
  induction d as [|[k' v'] d IH]; simpl.
  - now rewrite eqb_refl.
  - destruct (eqb k k') eqn:E; simpl; now rewrite E.
Qed.

Lemma lookup_set_other k k' v d :
  eqb k k' = false -> lookup k (lookup_set k' v d) = lookup k d.
Proof.
  intros Hk. induction d as [|[k2 v2] d IH]; simpl.
  - now rewrite Hk.
  - destruct (eqb k' k2) eqn:E; simpl.
    + apply eqb_eq in E. subst k2. now rewrite Hk.
    + destruct (eqb k k2); [reflexivity|exact IH].
Qed.

Lemma eqb_sym (a b : pystr) : eqb a b = eqb b a.
Proof.
  destruct (eqb a b) eqn:E.
  - apply eqb_eq in E. subst. symmetry. apply eqb_refl.
  - destruct (eqb b a) eqn:E'; [|reflexivity].
    apply eqb_eq in E'. subst. now rewrite eqb_refl in E.
Qed.

Lemma load_snoc identifiers item :
  load_unique_identifiers (identifiers ++ [item])
  = lookup_set (RequestParser.id item) (info_of item)
      (load_unique_identifiers identifiers).
Proof.
  unfold load_unique_identifiers. now rewrite fold_left_app.
Qed.

Lemma lookup_load_snoc identifiers item uid :
  lookup uid (load_unique_identifiers (identifiers ++ [item]))
  = if eqb uid (RequestParser.id item) then Some (info_of item)
    else lookup uid (load_unique_identifiers identifiers).
Proof.
  rewrite load_snoc. destruct (eqb uid (RequestParser.id item)) eqn:E.
  - apply eqb_eq in E. subst. apply lookup_set_same.
  - now apply lookup_set_other.
Qed.

Lemma lookup_load identifiers uid :
  lookup uid (load_unique_identifiers identifiers)
  = option_map info_of
      (find (fun item => eqb uid (RequestParser.id item)) (rev identifiers)).
Proof.
  induction identifiers as [|item identifiers IH] using rev_ind;
    [reflexivity|].
  rewrite lookup_load_snoc, rev_app_distr. simpl.
  destruct (eqb uid (RequestParser.id item)); [reflexivity|exact IH].
Qed.

Lemma lookup_set_keys k v d :
  map fst (lookup_set k v d)
  = if mem k (map fst d) then map fst d else map fst d ++ [k].
Proof.
  unfold mem. induction d as [|[k' v'] d IH]; simpl; [reflexivity|].
  destruct (eqb k k') eqn:E; simpl; [reflexivity|].
  rewrite IH. now destruct (existsb (eqb k) (map fst d)).
Qed.

Lemma mem_in x l : mem x l = true <-> In x l.
Proof.
  unfold mem. rewrite existsb_exists. split.
  - intros (y & Hy & E). apply eqb_eq in E. now subst.
  - intros H. exists x. split; [exact H|apply eqb_refl].
Qed.

Lemma distinct_in seen l x :
  In x (distinct seen l) <-> In x l /\ ~ In x seen.
Proof.
  revert seen. induction l as [|y l IH]; intros seen; simpl; [tauto|].
  destruct (mem y seen) eqn:E.
  - apply mem_in in E. rewrite IH. split.
    + intros [H1 H2]. tauto.
    + intros [[->|H1] H2]; [contradiction|tauto].
  - assert (Hy : ~ In y seen)
      by (intros H; apply mem_in in H; congruence).
    simpl. rewrite IH. simpl. split.
    + intros [->|[H1 H2]]; [tauto|]. split; [tauto|]. tauto.
    + intros [[->|H1] H2]; [now left|].
      destruct (eqb y x) eqn:Eyx.
      * apply eqb_eq in Eyx. now left.
      * apply eqb_neq in Eyx. right. split; [exact H1|]. tauto.
Qed.

Lemma distinct_NoDup seen l : NoDup (distinct seen l).
Proof.
  revert seen. induction l as [|y l IH]; intros seen; simpl; [constructor|].
  destruct (mem y seen); [apply IH|].
  constructor; [|apply IH].
  rewrite distinct_in. simpl. tauto.
Qed.

Lemma lookup_in uid ids info :
  lookup uid ids = Some info -> In (uid, info) ids.
Proof.
  induction ids as [|[k v] ids IH]; simpl; [discriminate|].
  destruct (eqb uid k) eqn:E.
  - intros H. injection H as <-. apply eqb_eq in E. subst. now left.
  - intros H. right. now apply IH.
Qed.

End SetupFacts.

(** X16. The lookup the response parser builds from the identifier file.
    An identifier is looked up to the timestamp and prompt type of the
    last entry of the file that carries it, and to nothing when no entry
    carries it: when two requests share an identifier, the later one
    replaces the earlier one, and every response with that identifier is
    timed against the later request. *)
Theorem lookup_finds_last_request
  (identifiers : list RequestParser.identifier_entry) (uid : pystr) :
  ResponseParser.lookup uid (ResponseSetup.load_unique_identifiers identifiers)
  = option_map ResponseSetup.info_of
      (find (fun item => eqb uid (RequestParser.id item)) (rev identifiers))
  /\ (ResponseParser.lookup uid
        (ResponseSetup.load_unique_identifiers identifiers) = None
      <-> forall item, In item identifiers -> RequestParser.id item <> uid)
  /\ (forall earlier item later,
        identifiers = earlier ++ item :: later ->
        RequestParser.id item = uid ->
        (forall other, In other later -> RequestParser.id other <> uid) ->
        ResponseParser.lookup uid
          (ResponseSetup.load_unique_identifiers identifiers)
        = Some (ResponseSetup.info_of item)).
Proof.
  split; [apply lookup_load|]. split.
  - rewrite lookup_load. split.
    + intros H item Hin Hid.
      destruct (find _ (rev identifiers)) as [x|] eqn:F; [discriminate|].
      apply in_rev in Hin. pose proof (find_none _ _ F item Hin) as E.
      cbv beta in E. rewrite Hid, eqb_refl in E. discriminate.
    + intros H.
      destruct (find _ (rev identifiers)) as [x|] eqn:F; [|reflexivity].
      apply find_some in F as [Hin E]. apply eqb_eq in E.
      apply in_rev in Hin. now destruct (H x Hin).
  - intros earlier item later -> Hid Hlater. rewrite lookup_load.
    rewrite rev_app_distr. simpl. rewrite <- app_assoc. simpl.
    assert (Hnone : forall l, (forall other, In other l ->
                                RequestParser.id other <> uid) ->
              forall tail, find (fun item => eqb uid (RequestParser.id item))
                             (l ++ tail)
                           = find (fun item => eqb uid (RequestParser.id item))
                               tail).
    { induction l as [|x l IH]; intros Hl tail; [reflexivity|]. simpl.
      assert (E : eqb uid (RequestParser.id x) = false).
      { apply eqb_neq. intros ->. now apply (Hl x (or_introl eq_refl)). }
      rewrite E. apply IH. intros other Hin. apply Hl. now right. }
    rewrite Hnone
      by (intros other Hin; apply Hlater; now apply in_rev).
    simpl. rewrite <- Hid, eqb_refl. reflexivity.
Qed.

Section ResponseOutputFacts.

Import ResponseParser ResponseSetup.

Variable ids : lookup_t.

(** The timing entry of a record, when its identifier is known. *)
Definition timing_of_record (r : Segmenter.log_record) : list timing_entry :=
  match lookup (Segmenter.unique_id r) ids with
  | Some info =>
      [timing_of (Segmenter.unique_id r) (Segmenter.timestamp r) info]
  | None => []
  end.

(** The call of [save_response_data] for a record, when its identifier is
    known. *)
Definition file_of_record (r : Segmenter.log_record) : list saved_response :=
  match lookup (Segmenter.unique_id r) ids with
  | Some info =>
      [{| s_folder := info_prompt_type info;
          s_id := Segmenter.unique_id r;
          s_content := Segmenter.json_content r;
          s_response_time :=
            calculate_response_time (info_timestamp info)
              (Segmenter.timestamp r) |}]
  | None => []
  end.

Lemma fold_outputs records : forall st,
  timing_data (fold_left (response_step ids) records st)
  = timing_data st ++ flat_map timing_of_record records
  /\ saved (fold_left (response_step ids) records st)
     = saved st ++ flat_map file_of_record records.
Proof.
  induction records as [|r records IH]; intros st; simpl.
  - now rewrite !app_nil_r.
  - destruct (IH (response_step ids st r)) as [-> ->].
    unfold response_step, timing_of_record, file_of_record.
    destruct (lookup (Segmenter.unique_id r) ids) as [info|]; simpl.
    + rewrite <- !app_assoc. split; reflexivity.
    + split; reflexivity.
Qed.

Lemma folder_made uid info :
  lookup uid ids = Some info ->
  In (info_prompt_type info) (create_folder_structure ids).
Proof.
  intros H. apply lookup_in in H. unfold create_folder_structure.
  apply distinct_in. split; [|intros []].
  apply in_map_iff. now exists (uid, info).
Qed.

End ResponseOutputFacts.

(** X17. Every save call of the response parser names a prompt type whose
    folder was asked for.  [create_folder_structure] calls [mkdir] once
    per prompt type among the values of the lookup; and every call of
    [save_response_data] a run of the response loop makes is given one of
    these prompt types, the identifier of a record of the log, and the
    record's raw body as content. *)
Theorem response_saves_name_folders
  (ids : ResponseParser.lookup_t) (st : ResponseParser.parser_state)
  (lines : list pystr) :
  NoDup (ResponseSetup.create_folder_structure ids)
  /\ exists calls,
       ResponseParser.saved (ResponseParser.process_log_file ids st lines)
       = ResponseParser.saved st ++ calls
       /\ Forall (fun f =>
                    In (ResponseParser.s_folder f)
                       (ResponseSetup.create_folder_structure ids)
                    /\ exists r,
                         In r (Segmenter.segment Header.response_pattern lines)
                         /\ ResponseParser.s_id f = Segmenter.unique_id r
                         /\ ResponseParser.s_content f
                            = Segmenter.json_content r)
                 calls.
Proof.
  split; [apply distinct_NoDup|].
  rewrite process_as_fold.
  destruct (fold_outputs ids
              (Segmenter.segment Header.response_pattern lines) st) as [_ ->].
  eexists. split; [reflexivity|].
  apply Forall_forall. intros f Hf.
  apply in_flat_map in Hf as (r & Hr & Hf). unfold file_of_record in Hf.
  destruct (ResponseParser.lookup (Segmenter.unique_id r) ids) as [info|] eqn:L;
    [|destruct Hf].
  destruct Hf as [<-|[]]. simpl. split; [eapply folder_made, L|].
  exists r. now repeat split.
Qed.

(** X18. From the request log to the timing data.  Let the response
    parser load the identifier entries a request run has recorded and
    process a response log.  Every timing entry then belongs to a record
    of the response log and to an identifier entry with the same
    identifier, the last one of the list with it: the entry has that
    request's prompt type and timestamp, the record's timestamp, and for
    response time the elapsed time between the two.  A record whose
    identifier no entry carries gives no timing entry. *)
Theorem timing_entries_pair_requests_and_responses
  (identifiers : list RequestParser.identifier_entry)
  (st : ResponseParser.parser_state) (lines : list pystr) :
  let ids := ResponseSetup.load_unique_identifiers identifiers in
  exists added,
    ResponseParser.timing_data (ResponseParser.process_log_file ids st lines)
    = ResponseParser.timing_data st ++ added
    /\ Forall (fun e =>
         exists r item,
           In r (Segmenter.segment Header.response_pattern lines)
           /\ In item identifiers
           /\ find (fun i => eqb (Segmenter.unique_id r) (RequestParser.id i))
                   (rev identifiers) = Some item
           /\ ResponseParser.t_id e = Segmenter.unique_id r
           /\ ResponseParser.t_id e = RequestParser.id item
           /\ ResponseParser.t_prompt_type e = RequestParser.prompt_type item
           /\ ResponseParser.t_request_timestamp e
              = RequestParser.entry_timestamp item
           /\ ResponseParser.t_response_timestamp e = Segmenter.timestamp r
           /\ ResponseParser.t_response_time e
              = ResponseParser.calculate_response_time
                  (RequestParser.entry_timestamp item) (Segmenter.timestamp r))
         added
    /\ length added
       = length (filter (fun r =>
                           existsb (fun i => eqb (Segmenter.unique_id r)
                                                 (RequestParser.id i))
                                   identifiers)
                        (Segmenter.segment Header.response_pattern lines)).
Proof.
  cbv zeta. rewrite process_as_fold.
  set (ids := ResponseSetup.load_unique_identifiers identifiers).
  set (records := Segmenter.segment Header.response_pattern lines).
  destruct (fold_outputs ids records st) as [-> _].
  eexists. split; [reflexivity|]. split.
  - apply Forall_forall. intros e He.
    apply in_flat_map in He as (r & Hr & He). unfold timing_of_record in He.
    destruct (ResponseParser.lookup (Segmenter.unique_id r) ids) as [info|] eqn:L;
      [|destruct He].
    destruct He as [<-|[]].
    unfold ids in L. rewrite lookup_load in L.
    destruct (find _ (rev identifiers)) as [item|] eqn:F; [|discriminate].
    injection L as <-.
    pose proof (find_some _ _ F) as [Hin E].
    apply in_rev in Hin. apply eqb_eq in E.
    exists r, item. simpl. now repeat split.
  - clear. induction records as [|r records IH]; [reflexivity|].
    simpl. rewrite length_app, IH. unfold timing_of_record at 1.
    unfold ids at 1. rewrite lookup_load.
    destruct (existsb _ identifiers) eqn:Ex.
    + apply existsb_exists in Ex as (i & Hi & E).
      destruct (find _ (rev identifiers)) as [item|] eqn:F; [reflexivity|].
      apply in_rev in Hi. pose proof (find_none _ _ F i Hi) as E'.
      cbv beta in E'. congruence.
    + destruct (find _ (rev identifiers)) as [item|] eqn:F; [|reflexivity].
      apply find_some in F as [Hi E]. apply in_rev in Hi.
      assert (X : existsb (fun i => eqb (Segmenter.unique_id r)
                                        (RequestParser.id i)) identifiers
                  = true) by (apply existsb_exists; eauto).
      congruence.
Qed.

(* ===================================================================== *)
(** * [openrouter_request_parser.py]: the folders                         *)
(* ===================================================================== *)

Module RequestSetup.
Import RequestParser.

(** ** [create_folder_structure]: the prompt types for which it calls
    [mkdir] on [output_base_dir / prompt_type], one per key of the
    signature store. *)
Definition create_folder_structure (prompt_types : prompt_types_t)
  : list pystr :=
  map fst prompt_types.

End RequestSetup.

(** The classifier gave no usable type: the case in which the loop calls
    [mkdir] for the [unknown] folder before saving. *)
Definition unclassified (found : option pystr) : Prop :=
  forall prompt_type, found = Some prompt_type -> prompt_type = [].

Section RequestFolderFacts.

Import RequestParser.

Variable ratio : pystr -> pystr -> Q.
Variable variants : variants_t.
Variable prompt_types : prompt_types_t.

Local Abbreviation classify :=
  (find_matching_prompt_type ratio variants prompt_types).

Lemma find_matching_key content pt :
  classify content = Some pt ->
  In pt (map fst variants) \/ In pt (map fst pattern_matches)
  \/ In pt (map fst prompt_types).
Proof.
  unfold find_matching_prompt_type. cbv zeta.
  destruct (variant_tier variants _) as [pt1|] eqn:E1.
  { intros H. injection H as <-. left. eapply variant_tier_key, E1. }
  destruct (pattern_tier pattern_matches _) as [pt2|] eqn:E2.
  { intros H. injection H as <-. right. left. eapply pattern_tier_key, E2. }
  destruct (fuzzy_enabled variants).
  - destruct (fuzzy_tier ratio variants prompt_types _) as [pt3|] eqn:E3.
    + intros H. injection H as <-. right. right. eapply fuzzy_tier_key, E3.
    + intros H. right. right. eapply signature_tier_key, H.
  - intros H. right. right. eapply signature_tier_key, H.
Qed.

Lemma bucket_of_cases found :
  (exists pt, found = Some pt /\ pt <> [] /\ bucket_of found = pt)
  \/ (unclassified found /\ bucket_of found = UNKNOWN).
Proof.
  destruct found as [[|c s]|]; simpl.
  - right. split; [|reflexivity]. intros pt H. now injection H as <-.
  - left. exists (c :: s). repeat split. discriminate.
  - right. split; [|reflexivity]. intros pt H. discriminate.
Qed.

(** The save calls a run adds name the bucket of their content. *)
Lemma process_records_files records : forall st st',
  process_records ratio variants prompt_types st records = Return st' ->
  exists calls,
    saved st' = saved st ++ calls
    /\ Forall (fun f => folder f = bucket_of (classify (file_content f)))
              calls.
Proof.
  induction records as [|r rest IH]; intros st st'; simpl.
  - intros H. injection H as <-. exists []. now rewrite app_nil_r.
  - pose proof (process_record_cases ratio variants prompt_types st r) as Hr.
    destruct (process_record ratio variants prompt_types st r) as [st1|e];
      simpl; [|discriminate].
    intros Hrest. destruct (IH _ _ Hrest) as (calls & Hs & Hall).
    destruct Hr as [->|(content & _ & ->)]; [now exists calls|].
    eexists (_ :: calls). simpl in Hs. rewrite <- app_assoc in Hs.
    split; [exact Hs|]. constructor; [reflexivity|exact Hall].
Qed.

End RequestFolderFacts.

(** X19. When every save call of the request parser names a prompt type
    whose folder was asked for.  The request parser calls [mkdir] for one
    folder per key of the signature store, and for the [unknown] folder
    when the classifier gives no usable type.  Every call of
    [save_request_data] a run makes is given the bucket of its content:
    the classifier's answer, or [unknown].  So when every key of the
    variants mapping and every key of the built-in table is a key of the
    signature store, each call names a prompt type for whose folder
    [mkdir] was called: a key of the store, or [unknown] in the case in
    which the loop has just asked for that folder. *)
Theorem request_saves_name_folders
  (ratio : pystr -> pystr -> Q)
  (variants : RequestParser.variants_t)
  (prompt_types : RequestParser.prompt_types_t)
  (st st' : RequestParser.parser_state) (lines : list pystr) :
  Forall (fun k => In k (RequestSetup.create_folder_structure prompt_types))
         (map fst variants) ->
  Forall (fun k => In k (RequestSetup.create_folder_structure prompt_types))
         (map fst RequestParser.pattern_matches) ->
  RequestParser.process_log_file ratio variants prompt_types st lines
  = RequestParser.Return st' ->
  exists calls,
    RequestParser.saved st' = RequestParser.saved st ++ calls
    /\ Forall (fun f =>
         let found :=
           RequestParser.find_matching_prompt_type ratio variants prompt_types
             (RequestParser.file_content f) in
         RequestParser.folder f = RequestParser.bucket_of found
         /\ (In (RequestParser.folder f)
                (RequestSetup.create_folder_structure prompt_types)
             \/ (unclassified found
                 /\ RequestParser.folder f = RequestParser.UNKNOWN)))
       calls.
Proof.
  intros Hv Ht Hrun. unfold RequestParser.process_log_file in Hrun.
  destruct (process_records_files Hrun) as (calls & Hs & Hall).
  exists calls. split; [exact Hs|].
  eapply Forall_impl; [|exact Hall]. cbv zeta. intros f Hf.
  split; [exact Hf|]. rewrite Hf.
  destruct (bucket_of_cases
              (RequestParser.find_matching_prompt_type ratio variants
                 prompt_types (RequestParser.file_content f)))
    as [(pt & Hfound & Hne & ->)|[Hun ->]]; [left|now right].
  destruct (find_matching_key Hfound) as [H|[H|H]].
  - rewrite Forall_forall in Hv. now apply Hv.
  - rewrite Forall_forall in Ht. now apply Ht.
  - exact H.
Qed.

(** A signature store with a key for every entry of the built-in table. *)
Definition table_prompt_types : RequestParser.prompt_types_t :=
  map (fun entry =>
         (fst entry,
          {| RequestParser.original_signature := [];
             RequestParser.simplified_signature := [] |}))
      RequestParser.pattern_matches.

Lemma request_saves_name_folders_example :
  exists calls,
    RequestParser.saved example_request_outcome
    = RequestParser.saved request_initial_state ++ calls
    /\ Forall (fun f =>
                 In (RequestParser.folder f)
                    (RequestSetup.create_folder_structure table_prompt_types)
                 \/ RequestParser.folder f = RequestParser.UNKNOWN)
              calls.
Proof.
  destruct (@request_saves_name_folders equal_ratio example_variants
              table_prompt_types request_initial_state
              example_request_outcome example_request_log)
    as (calls & Hs & Hall).
  - repeat constructor.
  - apply Forall_forall. intros k Hk. vm_compute in Hk |- *. tauto.
  - vm_compute. reflexivity.
  - exists calls. split; [exact Hs|].
    eapply Forall_impl; [|exact Hall]. cbv zeta. intros f [_ [H|[_ H]]]; tauto.
Defined.

(* ===================================================================== *)
(** * The summaries of the two [run] methods                              *)
(* ===================================================================== *)

(** A [dict] with string keys, in insertion order. *)
Module PyDict.

Section WithValues.

Variable V : Type.

Definition t := list (pystr * V).

(** [d.get(k)] *)
Fixpoint get (k : pystr) (d : t) : option V :=
  match d with
  | [] => None
  | (k', v) :: d' => if eqb k k' then Some v else get k d'
  end.

(** [d[k] = v]: a key already present keeps its place. *)
Fixpoint set (k : pystr) (v : V) (d : t) : t :=
  match d with
  | [] => [(k, v)]
  | (k', v') :: d' =>
      if eqb k k' then (k', v) :: d' else (k', v') :: set k v d'
  end.

End WithValues.

End PyDict.

Module RunSummary.

(** [type_counts[prompt_type] = type_counts.get(prompt_type, 0) + 1] *)
Definition count_type (type_counts : PyDict.t nat) (prompt_type : pystr)
  : PyDict.t nat :=
  PyDict.set prompt_type
    (match PyDict.get prompt_type type_counts with
     | Some n => n
     | None => 0
     end + 1)
    type_counts.

(** The loop [for entry in ...: prompt_type = entry['prompt_type'] ...]
    over the prompt types of the entries. *)
Definition type_counts (prompt_types : list pystr) : PyDict.t nat :=
  fold_left count_type prompt_types [].

(** The request parser's [run] counts its identifier entries ... *)
Definition request_type_counts (st : RequestParser.parser_state)
  : PyDict.t nat :=
  type_counts (map RequestParser.prompt_type
                   (RequestParser.unique_identifiers st)).

(** ... and the response parser's [run] its processed responses. *)
Definition response_type_counts (st : ResponseParser.parser_state)
  : PyDict.t nat :=
  type_counts (map (fun p => ResponseParser.t_prompt_type
                               (ResponseParser.p_timing p))
                   (ResponseParser.processed_responses st)).

End RunSummary.

(** How many times [x] occurs in [l]. *)
Definition occurrences (x : pystr) (l : list pystr) : nat :=
  length (filter (eqb x) l).

Section DictFacts.

Variable V : Type.

Lemma get_set_same k (v : V) d : PyDict.get k (PyDict.set k v d) = Some v.
Proof.
  induction d as [|[k' v'] d IH]; simpl.
  - now rewrite eqb_refl.
  - destruct (eqb k k') eqn:E; simpl; now rewrite E.
Qed.

Lemma get_set_other k k' (v : V) d :
  eqb k k' = false -> PyDict.get k (PyDict.set k' v d) = PyDict.get k d.
Proof.
  intros Hk. induction d as [|[k2 v2] d IH]; simpl.
  - now rewrite Hk.
  - destruct (eqb k' k2) eqn:E; simpl.
    + apply eqb_eq in E. subst k2. now rewrite Hk.
    + destruct (eqb k k2); [reflexivity|exact IH].
Qed.

Lemma get_in k (d : PyDict.t V) v : PyDict.get k d = Some v -> In (k, v) d.
Proof.
  induction d as [|[k' v'] d IH]; simpl; [discriminate|].
  destruct (eqb k k') eqn:E.
  - intros H. injection H as <-. apply eqb_eq in E. subst. now left.
  - intros H. right. now apply IH.
Qed.

Lemma get_none k (d : PyDict.t V) :
  PyDict.get k d = None <-> ~ In k (map fst d).
Proof.
  induction d as [|[k' v'] d IH]; simpl; [tauto|].
  destruct (eqb k k') eqn:E.
  - apply eqb_eq in E. subst. split; [discriminate|]. tauto.
  - apply eqb_neq in E. rewrite IH. split.
    + intros H [H'|H']; [congruence|contradiction].
    + tauto.
Qed.

Lemma set_keys k (v : V) d :
  map fst (PyDict.set k v d)
  = match PyDict.get k d with
    | Some _ => map fst d
    | None => map fst d ++ [k]
    end.
Proof.
  induction d as [|[k' v'] d IH]; simpl; [reflexivity|].
  destruct (eqb k k') eqn:E; simpl; [reflexivity|].
  rewrite IH. now destruct (PyDict.get k d).
Qed.

Lemma set_NoDup k (v : V) d :
  NoDup (map fst d) -> NoDup (map fst (PyDict.set k v d)).
Proof.
  intros H. rewrite set_keys.
  destruct (PyDict.get k d) eqn:E; [exact H|].
  apply get_none in E. apply NoDup_app; [exact H|repeat constructor; intros []|].
  intros x Hx [<-|[]]. contradiction.
Qed.

Lemma get_of_NoDup k (v : V) d :
  NoDup (map fst d) -> In (k, v) d -> PyDict.get k d = Some v.
Proof.
  induction d as [|[k' v'] d IH]; simpl; [intros _ []|].
  intros Hnd Hin. inversion Hnd as [|? ? Hnotin Hnd']; subst.
  destruct Hin as [Heq|Hin].
  - injection Heq as -> ->. now rewrite eqb_refl.
  - destruct (eqb k k') eqn:E; [|now apply IH].
    apply eqb_eq in E. subst. exfalso. apply Hnotin.
    apply in_map_iff. now exists (k', v).
Qed.

End DictFacts.

Section CountFacts.

Import RunSummary.

Lemma type_counts_snoc l x :
  type_counts (l ++ [x]) = count_type (type_counts l) x.
Proof.
  unfold type_counts. now rewrite fold_left_app.
Qed.

Lemma occurrences_snoc x l y :
  occurrences x (l ++ [y])
  = occurrences x l + (if eqb x y then 1 else 0).
Proof.
  unfold occurrences. rewrite filter_app, length_app. simpl.
  now destruct (eqb x y).
Qed.

Lemma type_counts_get l pt :
  PyDict.get pt (type_counts l)
  = match occurrences pt l with 0 => None | n => Some n end.
Proof.
  induction l as [|x l IH] using rev_ind; [reflexivity|].
  rewrite type_counts_snoc, occurrences_snoc. unfold count_type.
  destruct (eqb pt x) eqn:E.
  - apply eqb_eq in E. subst x. rewrite get_set_same, IH.
    destruct (occurrences pt l) as [|n]; simpl; reflexivity.
  - rewrite get_set_other by exact E. rewrite IH, Nat.add_0_r. reflexivity.
Qed.

Lemma type_counts_NoDup l : NoDup (map fst (type_counts l)).
Proof.
  induction l as [|x l IH] using rev_ind; [constructor|].
  rewrite type_counts_snoc. now apply set_NoDup.
Qed.

Lemma set_total k v (d : PyDict.t nat) :
  list_sum (map snd (PyDict.set k v d))
  + match PyDict.get k d with Some n => n | None => 0 end
  = list_sum (map snd d) + v.
Proof.
  induction d as [|[k' v'] d IH]; simpl; [lia|].
  destruct (eqb k k'); simpl; lia.
Qed.

Lemma type_counts_total l : list_sum (map snd (type_counts l)) = length l.
Proof.
  induction l as [|x l IH] using rev_ind; [reflexivity|].
  rewrite type_counts_snoc, length_app. simpl. unfold count_type.
  pose proof (set_total x
                (match PyDict.get x (type_counts l) with
                 | Some n => n
                 | None => 0
                 end + 1) (type_counts l)). lia.
Qed.

End CountFacts.

(** X20. The counts by prompt type that both [run] methods log.  Each
    prompt type is a key once; its count is the number of entries with
    that type, and a type without entries is no key (no count is zero);
    the counts add up to the number of entries, the total logged before
    them. *)
Theorem type_counts_count_entries (prompt_types : list pystr) :
  NoDup (map fst (RunSummary.type_counts prompt_types))
  /\ (forall prompt_type count,
        In (prompt_type, count) (RunSummary.type_counts prompt_types)
        <-> count = occurrences prompt_type prompt_types /\ 0 < count)
  /\ (forall prompt_type,
        In prompt_type (map fst (RunSummary.type_counts prompt_types))
        <-> In prompt_type prompt_types)
  /\ list_sum (map snd (RunSummary.type_counts prompt_types))
     = length prompt_types
  /\ (forall st,
        list_sum (map snd (RunSummary.request_type_counts st))
        = length (RequestParser.unique_identifiers st))
  /\ (forall st,
        list_sum (map snd (RunSummary.response_type_counts st))
        = length (ResponseParser.processed_responses st)).
Proof.
  pose proof (type_counts_NoDup prompt_types) as Hnd.
  assert (Hin : forall pt n,
             In (pt, n) (RunSummary.type_counts prompt_types)
             <-> n = occurrences pt prompt_types /\ 0 < n).
  { intros pt n. split.
    - intros H. apply (get_of_NoDup Hnd) in H.
      rewrite type_counts_get in H.
      destruct (occurrences pt prompt_types); [discriminate|].
      injection H as <-. split; [reflexivity|lia].
    - intros [-> Hpos]. apply get_in. rewrite type_counts_get.
      destruct (occurrences pt prompt_types); [lia|reflexivity]. }
  split; [exact Hnd|]. split; [exact Hin|].
  split;
    [|split; [apply type_counts_total|];
      split; intros st;
      [unfold RunSummary.request_type_counts
      |unfold RunSummary.response_type_counts];
      now rewrite type_counts_total, length_map].
  intros pt. split.
  - intros H. apply in_map_iff in H as ([k n] & <- & Hk). apply Hin in Hk.
    destruct Hk as [-> Hpos]. unfold occurrences in Hpos. simpl.
    destruct (filter (eqb k) prompt_types) as [|y ys] eqn:F; [simpl in Hpos; lia|].
    assert (Hy : In y (filter (eqb k) prompt_types)) by (rewrite F; now left).
    apply filter_In in Hy as [Hy E]. apply eqb_eq in E. now subst.
  - intros H. apply in_map_iff.
    exists (pt, occurrences pt prompt_types). split; [reflexivity|].
    apply Hin. split; [reflexivity|]. unfold occurrences.
    assert (Hy : In pt (filter (eqb pt) prompt_types))
      by (apply filter_In; split; [exact H|apply eqb_refl]).
    destruct (filter (eqb pt) prompt_types); [destruct Hy|simpl; lia].
Qed.

(* ===================================================================== *)
(** * [save_timing_data]: the summary of the timing file                  *)
(* ===================================================================== *)

Module Timing.
Import ResponseParser.

(** [[t['response_time'] for t in self.timing_data
      if t['response_time'] is not None]] *)
Definition valid_times (timing_data : list timing_entry) : list Q :=
  flat_map (fun t => match t_response_time t with
                     | Some x => [x]
                     | None => []
                     end) timing_data.

(** [min] over an iterable: the item kept is replaced by a later one that
    is less than it. *)
Fixpoint min_from (best : Q) (l : list Q) : Q :=
  match l with
  | [] => best
  | x :: rest => min_from (if RequestParser.Qltb x best then x else best) rest
  end.

(** [max]: replaced by a later one that is greater. *)
Fixpoint max_from (best : Q) (l : list Q) : Q :=
  match l with
  | [] => best
  | x :: rest => max_from (if RequestParser.Qltb best x then x else best) rest
  end.

(** [min(l)] and [max(l)]; [None] is the [ValueError] on an empty list. *)
Definition py_min (l : list Q) : option Q :=
  match l with [] => None | x :: rest => Some (min_from x rest) end.

Definition py_max (l : list Q) : option Q :=
  match l with [] => None | x :: rest => Some (max_from x rest) end.

(** The object written to the timing file. *)
Record timing_summary := {
  total_responses : nat;
  responses_with_timing : nat;
  average_response_time : option Q;
  min_response_time : option Q;
  max_response_time : option Q;
  responses : list timing_entry
}.

Section WithMean.

(** [sum(times) / len(times)] in floating point, on a non-empty list. *)
Variable mean : list Q -> Q.

(** ** [save_timing_data] *)
Definition save_timing_data (timing_data : list timing_entry)
  : timing_summary :=
  let valid_times := valid_times timing_data in
  {| total_responses := length timing_data;
     responses_with_timing :=
       length (filter (fun t => match t_response_time t with
                                | Some _ => true
                                | None => false
                                end) timing_data);
     average_response_time :=
       match valid_times with [] => None | _ :: _ => Some (mean valid_times) end;
     min_response_time :=
       match valid_times with [] => None | _ :: _ => py_min valid_times end;
     max_response_time :=
       match valid_times with [] => None | _ :: _ => py_max valid_times end;
     responses := timing_data |}.

End WithMean.

End Timing.

Section ExtremeFacts.

Import Timing.

Lemma Qltb_false (a b : Q) : RequestParser.Qltb a b = false <-> (b <= a)%Q.
Proof.
  unfold RequestParser.Qltb. rewrite negb_false_iff. apply Qle_bool_iff.
Qed.

Lemma min_from_spec l : forall best,
  (min_from best l = best \/ In (min_from best l) l)
  /\ (min_from best l <= best)%Q
  /\ (forall x, In x l -> (min_from best l <= x)%Q).
Proof.
  induction l as [|y l IH]; intros best; simpl.
  - split; [now left|]. split; [lra|intros x []].
  - destruct (IH (if RequestParser.Qltb y best then y else best))
      as (Hin & Hle & Hall).
    destruct (RequestParser.Qltb y best) eqn:E.
    + apply Qltb_true in E. split; [destruct Hin as [->|Hin]; tauto|].
      split; [lra|]. intros x [<-|Hx]; [exact Hle|now apply Hall].
    + apply Qltb_false in E. split; [tauto|]. split; [exact Hle|].
      intros x [<-|Hx]; [lra|now apply Hall].
Qed.

Lemma max_from_spec l : forall best,
  (max_from best l = best \/ In (max_from best l) l)
  /\ (best <= max_from best l)%Q
  /\ (forall x, In x l -> (x <= max_from best l)%Q).
Proof.
  induction l as [|y l IH]; intros best; simpl.
  - split; [now left|]. split; [lra|intros x []].
  - destruct (IH (if RequestParser.Qltb best y then y else best))
      as (Hin & Hle & Hall).
    destruct (RequestParser.Qltb best y) eqn:E.
    + apply Qltb_true in E. split; [destruct Hin as [->|Hin]; tauto|].
      split; [lra|]. intros x [<-|Hx]; [exact Hle|now apply Hall].
    + apply Qltb_false in E. split; [tauto|]. split; [exact Hle|].
      intros x [<-|Hx]; [lra|now apply Hall].
Qed.

Lemma py_min_spec l lo :
  py_min l = Some lo -> In lo l /\ forall x, In x l -> (lo <= x)%Q.
Proof.
  destruct l as [|y l]; simpl; [discriminate|].
  intros H. injection H as <-.
  destruct (min_from_spec l y) as (Hin & Hle & Hall).
  split; [destruct Hin as [->|Hin]; tauto|].
  intros x [<-|Hx]; [exact Hle|now apply Hall].
Qed.

Lemma py_max_spec l hi :
  py_max l = Some hi -> In hi l /\ forall x, In x l -> (x <= hi)%Q.
Proof.
  destruct l as [|y l]; simpl; [discriminate|].
  intros H. injection H as <-.
  destruct (max_from_spec l y) as (Hin & Hle & Hall).
  split; [destruct Hin as [->|Hin]; tauto|].
  intros x [<-|Hx]; [exact Hle|now apply Hall].
Qed.

Lemma valid_times_length timing_data :
  length (valid_times timing_data)
  = length (filter (fun t => match ResponseParser.t_response_time t with
                             | Some _ => true
                             | None => false
                             end) timing_data).
Proof.
  induction timing_data as [|t l IH]; simpl; [reflexivity|].
  destruct (ResponseParser.t_response_time t); simpl; now rewrite ?IH.
Qed.

Lemma valid_times_in timing_data x :
  In x (valid_times timing_data)
  <-> exists t, In t timing_data /\ ResponseParser.t_response_time t = Some x.
Proof.
  unfold valid_times. rewrite in_flat_map. split.
  - intros (t & Ht & Hx). exists t. split; [exact Ht|].
    destruct (ResponseParser.t_response_time t); [|destruct Hx].
    destruct Hx as [->|[]]. reflexivity.
  - intros (t & Ht & Hx). exists t. split; [exact Ht|].
    rewrite Hx. now left.
Qed.

End ExtremeFacts.

(** X21. The summary [save_timing_data] writes.  [total_responses] counts
    the timing entries and [responses_with_timing] those with a response
    time, never more.  When no entry has a response time the average, the
    minimum and the maximum are all [null]; otherwise all three are
    numbers, the minimum and the maximum are response times of entries,
    and every response time of an entry lies between them.  After a run
    of the response loop from the initial state, [total_responses] is the
    number of matched responses. *)
Theorem timing_summary_bounds
  (mean : list Q -> Q) (timing_data : list ResponseParser.timing_entry) :
  let summary := Timing.save_timing_data mean timing_data in
  Timing.total_responses summary = length timing_data
  /\ Timing.responses_with_timing summary
     = length (Timing.valid_times timing_data)
  /\ Timing.responses_with_timing summary <= Timing.total_responses summary
  /\ (Timing.valid_times timing_data = [] ->
      Timing.average_response_time summary = None
      /\ Timing.min_response_time summary = None
      /\ Timing.max_response_time summary = None)
  /\ (Timing.valid_times timing_data <> [] ->
      exists lo hi,
        Timing.average_response_time summary
        = Some (mean (Timing.valid_times timing_data))
        /\ Timing.min_response_time summary = Some lo
        /\ Timing.max_response_time summary = Some hi
        /\ (exists t, In t timing_data
                      /\ ResponseParser.t_response_time t = Some lo)
        /\ (exists t, In t timing_data
                      /\ ResponseParser.t_response_time t = Some hi)
        /\ (forall t x, In t timing_data ->
                        ResponseParser.t_response_time t = Some x ->
                        (lo <= x <= hi)%Q))
  /\ (forall ids lines,
        Timing.total_responses
          (Timing.save_timing_data mean
             (ResponseParser.timing_data
                (ResponseParser.process_log_file ids
                   ResponseParser.initial_state lines)))
        = ResponseParser.matched_responses
            (ResponseParser.process_log_file ids
               ResponseParser.initial_state lines)).
Proof.
  cbv zeta. unfold Timing.save_timing_data.
  cbn [Timing.total_responses Timing.responses_with_timing
       Timing.average_response_time Timing.min_response_time
       Timing.max_response_time].
  split; [reflexivity|]. split; [symmetry; apply valid_times_length|].
  split; [apply filter_length_le|].
  split; [intros ->; now repeat split|]. split.
  - intros Hne.
    destruct (Timing.valid_times timing_data) as [|y l] eqn:E; [contradiction|].
    destruct (Timing.py_min (y :: l)) as [lo|] eqn:Hmin; [|discriminate].
    destruct (Timing.py_max (y :: l)) as [hi|] eqn:Hmax; [|discriminate].
    apply py_min_spec in Hmin as [Hlo Hmin].
    apply py_max_spec in Hmax as [Hhi Hmax].
    rewrite <- E in Hlo, Hhi, Hmin, Hmax.
    exists lo, hi. repeat (split; [reflexivity|]).
    split; [now apply valid_times_in|]. split; [now apply valid_times_in|].
    intros t x Ht Hx.
    assert (Hin : In x (Timing.valid_times timing_data))
      by (apply valid_times_in; eauto).
    split; [now apply Hmin|now apply Hmax].
  - intros ids lines. rewrite process_as_fold.
    destruct (fold_counts ids
                (Segmenter.segment Header.response_pattern lines)
                ResponseParser.initial_state) as (-> & _ & ->).
    reflexivity.
Qed.

(* ===================================================================== *)
(** * [benchmark_analyzer.py]                                             *)
(* ===================================================================== *)

Module BenchmarkAnalyzer.
Import ResponseParser Timing.

(** One value of the analysis. *)
Record type_stats := {
  count : nat;
  average : Q;
  median : Q;
  min : Q;
  max : Q;
  std_dev : Q;
  times : list Q
}.

(** The body of the grouping loop: the list of the type is made when the
    type is new, and the time appended to it. *)
Definition group_response (by_type : PyDict.t (list Q))
  (response : timing_entry) : PyDict.t (list Q) :=
  match t_response_time response with
  | Some response_time =>
      let prompt_type := t_prompt_type response in
      PyDict.set prompt_type
        (match PyDict.get prompt_type by_type with
         | Some times => times
         | None => []
         end ++ [response_time])
        by_type
  | None => by_type
  end.

(** [by_type] after the loop. *)
Definition by_type (responses : list timing_entry) : PyDict.t (list Q) :=
  fold_left group_response responses [].

Section WithStatistics.

(** [statistics.mean], [statistics.median] and [statistics.stdev] on a
    non-empty list of floats. *)
Variables statistics_mean statistics_median statistics_stdev : list Q -> Q.

(** The statistics of one type; [times] is not empty. *)
Definition stats_of (first : Q) (others : list Q) : type_stats :=
  let times := first :: others in
  {| count := length times;
     average := statistics_mean times;
     median := statistics_median times;
     min := min_from first others;
     max := max_from first others;
     std_dev := if 1 <? length times then statistics_stdev times else 0%Q;
     times := times |}.

(** The body of [for prompt_type, times in by_type.items()]. *)
Definition analyze_type (analysis : PyDict.t type_stats)
  (item : pystr * list Q) : PyDict.t type_stats :=
  match snd item with
  | [] => analysis
  | first :: others => PyDict.set (fst item) (stats_of first others) analysis
  end.

(** ** [analyze_by_prompt_type]; the empty dict is also what it returns
    when the file holds no response. *)
Definition analyze_by_prompt_type (responses : list timing_entry)
  : PyDict.t type_stats :=
  match responses with
  | [] => []
  | _ :: _ => fold_left analyze_type (by_type responses) []
  end.

End WithStatistics.

End BenchmarkAnalyzer.

(** The response times of the responses of one prompt type, in order. *)
Definition times_of_type (prompt_type : pystr)
  (responses : list ResponseParser.timing_entry) : list Q :=
  Timing.valid_times
    (filter (fun r => eqb prompt_type (ResponseParser.t_prompt_type r))
            responses).

(** The prompt types of the responses that have a response time. *)
Definition timed_types (responses : list ResponseParser.timing_entry)
  : list pystr :=
  flat_map (fun r => match ResponseParser.t_response_time r with
                     | Some _ => [ResponseParser.t_prompt_type r]
                     | None => []
                     end) responses.

Section GroupFacts.

Import ResponseParser Timing BenchmarkAnalyzer.

Lemma by_type_snoc l r : by_type (l ++ [r]) = group_response (by_type l) r.
Proof.
  unfold by_type. now rewrite fold_left_app.
Qed.

Lemma times_of_type_snoc pt l r :
  times_of_type pt (l ++ [r])
  = times_of_type pt l
    ++ (if eqb pt (t_prompt_type r)
        then match t_response_time r with Some x => [x] | None => [] end
        else []).
Proof.
  unfold times_of_type, valid_times. rewrite filter_app, flat_map_app.
  simpl. destruct (eqb pt (t_prompt_type r)); simpl; now rewrite ?app_nil_r.
Qed.

Lemma by_type_get l pt :
  PyDict.get pt (by_type l)
  = match times_of_type pt l with [] => None | times => Some times end.
Proof.
  induction l as [|r l IH] using rev_ind; [reflexivity|].
  rewrite by_type_snoc, times_of_type_snoc. unfold group_response.
  destruct (t_response_time r) as [x|] eqn:Hx.
  - destruct (eqb pt (t_prompt_type r)) eqn:E.
    + apply eqb_eq in E. rewrite <- E. rewrite get_set_same, IH.
      destruct (times_of_type pt l); reflexivity.
    + rewrite get_set_other by exact E. rewrite IH, app_nil_r. reflexivity.
  - rewrite IH. destruct (eqb pt (t_prompt_type r)); now rewrite app_nil_r.
Qed.

Lemma by_type_NoDup l : NoDup (map fst (by_type l)).
Proof.
  induction l as [|r l IH] using rev_ind; [constructor|].
  rewrite by_type_snoc. unfold group_response.
  destruct (t_response_time r); [now apply set_NoDup|exact IH].
Qed.

(** No list of the grouping is empty: the test [if times] drops
    nothing. *)
Lemma by_type_nonempty l pt times :
  In (pt, times) (by_type l) -> times = times_of_type pt l /\ times <> [].
Proof.
  intros H. apply (get_of_NoDup (by_type_NoDup l)) in H.
  rewrite by_type_get in H.
  destruct (times_of_type pt l) as [|x xs]; [discriminate|].
  injection H as <-. split; [reflexivity|discriminate].
Qed.

Lemma mem_app x a b :
  ResponseSetup.mem x (a ++ b) = ResponseSetup.mem x a || ResponseSetup.mem x b.
Proof.
  unfold ResponseSetup.mem. apply existsb_app.
Qed.

Lemma mem_cons x y l :
  ResponseSetup.mem x (y :: l) = eqb x y || ResponseSetup.mem x l.
Proof. reflexivity. Qed.

Lemma distinct_snoc l : forall seen x,
  ResponseSetup.distinct seen (l ++ [x])
  = ResponseSetup.distinct seen l
    ++ (if ResponseSetup.mem x seen || ResponseSetup.mem x l then [] else [x]).
Proof.
  induction l as [|y l IH]; intros seen x.
  - cbn [app ResponseSetup.distinct].
    change (ResponseSetup.mem x []) with false. rewrite orb_false_r.
    now destruct (ResponseSetup.mem x seen).
  - cbn [app ResponseSetup.distinct]. rewrite (mem_cons x y l).
    destruct (ResponseSetup.mem y seen) eqn:Ey.
    + rewrite IH. f_equal.
      destruct (eqb x y) eqn:E; [|reflexivity].
      apply eqb_eq in E. subst. now rewrite Ey.
    + rewrite IH, (mem_cons x y seen). cbn [app]. f_equal. f_equal.
      destruct (eqb x y), (ResponseSetup.mem x seen); reflexivity.
Qed.

Lemma timed_types_snoc l r :
  timed_types (l ++ [r])
  = timed_types l
    ++ match t_response_time r with
       | Some _ => [t_prompt_type r]
       | None => []
       end.
Proof.
  unfold timed_types. rewrite flat_map_app. simpl. now rewrite app_nil_r.
Qed.

Lemma get_some_mem {V} k (d : PyDict.t V) :
  ResponseSetup.mem k (map fst d)
  = match PyDict.get k d with Some _ => true | None => false end.
Proof.
  unfold ResponseSetup.mem.
  induction d as [|[k' v'] d IH]; simpl; [reflexivity|].
  destruct (eqb k k'); [reflexivity|exact IH].
Qed.

Lemma mem_distinct x l :
  ResponseSetup.mem x (ResponseSetup.distinct [] l) = ResponseSetup.mem x l.
Proof.
  destruct (ResponseSetup.mem x l) eqn:E.
  - apply mem_in. apply distinct_in. split; [now apply mem_in|intros []].
  - destruct (ResponseSetup.mem x (ResponseSetup.distinct [] l)) eqn:E';
      [|reflexivity].
    apply mem_in, distinct_in in E' as [E' _]. apply mem_in in E'. congruence.
Qed.

(** The keys of the grouping are the types of the timed responses, in the
    order in which they first occur. *)
Lemma by_type_keys l :
  map fst (by_type l) = ResponseSetup.distinct [] (timed_types l).
Proof.
  induction l as [|r l IH] using rev_ind; [reflexivity|].
  rewrite by_type_snoc, timed_types_snoc. unfold group_response.
  destruct (t_response_time r) as [x|]; [|now rewrite app_nil_r].
  rewrite distinct_snoc, set_keys.
  change (ResponseSetup.mem (t_prompt_type r) []) with false. cbn [orb].
  rewrite <- mem_distinct, <- IH, get_some_mem.
  destruct (PyDict.get (t_prompt_type r) (by_type l));
    [now rewrite app_nil_r|reflexivity].
Qed.

Lemma set_fresh {V} k (v : V) d :
  PyDict.get k d = None -> PyDict.set k v d = d ++ [(k, v)].
Proof.
  induction d as [|[k' v'] d IH]; simpl; [reflexivity|].
  destruct (eqb k k'); [discriminate|]. intros H. now rewrite IH.
Qed.

Lemma fold_set_fresh {V} (items : PyDict.t V) : forall d,
  NoDup (map fst d ++ map fst items) ->
  fold_left (fun a kv => PyDict.set (fst kv) (snd kv) a) items d = d ++ items.
Proof.
  induction items as [|[k v] items IH]; intros d Hnd; simpl.
  - now rewrite app_nil_r.
  - simpl in Hnd. rewrite set_fresh.
    + rewrite IH; [now rewrite <- app_assoc|].
      rewrite map_app, <- app_assoc. exact Hnd.
    + apply get_none. intros Hin. apply NoDup_remove_2 in Hnd.
      apply Hnd. apply in_or_app. now left.
Qed.

Section WithStatistics.

Variables mean median stdev : list Q -> Q.

Local Abbreviation stats := (stats_of mean median stdev).
Local Abbreviation step := (analyze_type mean median stdev).

(** The entry of the analysis a list of times gives, when not empty. *)
Definition analysis_item (item : pystr * list Q)
  : list (pystr * type_stats) :=
  match snd item with
  | [] => []
  | first :: others => [(fst item, stats first others)]
  end.

Lemma analyze_as_sets items : forall analysis,
  fold_left step items analysis
  = fold_left (fun a kv => PyDict.set (fst kv) (snd kv) a)
              (flat_map analysis_item items) analysis.
Proof.
  induction items as [|[pt times] items IH]; intros analysis; [reflexivity|].
  cbn [fold_left flat_map]. rewrite fold_left_app, IH.
  unfold analyze_type, analysis_item. cbn [fst snd].
  now destruct times.
Qed.

Lemma analysis_item_keys items :
  Forall (fun item => snd item <> []) items ->
  map fst (flat_map analysis_item items) = map fst items.
Proof.
  induction 1 as [|[pt times] items Hne _ IH]; [reflexivity|].
  cbn [flat_map]. rewrite map_app, IH. unfold analysis_item.
  simpl in *. now destruct times.
Qed.

Lemma by_type_all_nonempty l :
  Forall (fun item : pystr * list Q => snd item <> []) (by_type l).
Proof.
  apply Forall_forall. intros [pt times] H.
  now apply by_type_nonempty in H.
Qed.

Lemma analyze_items responses :
  analyze_by_prompt_type mean median stdev responses
  = flat_map analysis_item (by_type responses).
Proof.
  unfold analyze_by_prompt_type. destruct responses as [|r l]; [reflexivity|].
  rewrite analyze_as_sets, fold_set_fresh; [reflexivity|].
  cbn [map app]. rewrite analysis_item_keys by apply by_type_all_nonempty.
  apply by_type_NoDup.
Qed.

End WithStatistics.

End GroupFacts.

Section GroupTotals.

Import ResponseParser Timing BenchmarkAnalyzer.

Lemma set_sum {V} (f : V -> nat) k v (d : PyDict.t V) :
  list_sum (map (fun kv => f (snd kv)) (PyDict.set k v d))
  + match PyDict.get k d with Some old => f old | None => 0 end
  = list_sum (map (fun kv => f (snd kv)) d) + f v.
Proof.
  induction d as [|[k' v'] d IH]; simpl; [lia|].
  destruct (eqb k k'); simpl; lia.
Qed.

Lemma valid_times_snoc l r :
  valid_times (l ++ [r])
  = valid_times l
    ++ match t_response_time r with Some x => [x] | None => [] end.
Proof.
  unfold valid_times. rewrite flat_map_app. simpl. now rewrite app_nil_r.
Qed.

Lemma by_type_total l :
  list_sum (map (fun kv => length (snd kv)) (by_type l))
  = length (valid_times l).
Proof.
  induction l as [|r l IH] using rev_ind; [reflexivity|].
  rewrite by_type_snoc, valid_times_snoc, length_app. unfold group_response.
  destruct (t_response_time r) as [x|]; [|simpl; lia].
  pose proof (set_sum (@length Q) (t_prompt_type r)
                (match PyDict.get (t_prompt_type r) (by_type l) with
                 | Some times => times
                 | None => []
                 end ++ [x]) (by_type l)) as H.
  rewrite length_app in H. simpl in H |- *.
  destruct (PyDict.get (t_prompt_type r) (by_type l)); cbn [app length] in H |- *; lia.
Qed.

Lemma analysis_item_total mean median stdev items :
  list_sum (map (fun kv => count (snd kv))
                (flat_map (analysis_item mean median stdev) items))
  = list_sum (map (fun kv : pystr * list Q => length (snd kv)) items).
Proof.
  induction items as [|[pt times] items IH]; [reflexivity|].
  cbn [flat_map]. rewrite map_app, list_sum_app, IH.
  unfold analysis_item. cbn [fst snd map list_sum].
  destruct times; simpl; lia.
Qed.

End GroupTotals.

(** X22. The analysis by prompt type groups exactly the timed responses.
    Its keys are the prompt types of the responses that have a response
    time, in the order in which they first occur in the file.  The entry
    of a type holds the response times of the responses of that type, in
    file order; its [count] is their number, never zero; its [min] and
    [max] are two of them and bound all of them.  The counts add up to
    the number of responses with a response time. *)
Theorem analysis_groups_timed_responses
  (mean median stdev : list Q -> Q)
  (responses : list ResponseParser.timing_entry) :
  let analysis :=
    BenchmarkAnalyzer.analyze_by_prompt_type mean median stdev responses in
  map fst analysis = ResponseSetup.distinct [] (timed_types responses)
  /\ (forall prompt_type,
        PyDict.get prompt_type analysis
        = match times_of_type prompt_type responses with
          | [] => None
          | first :: others =>
              Some (BenchmarkAnalyzer.stats_of mean median stdev first others)
          end)
  /\ (forall prompt_type stats,
        In (prompt_type, stats) analysis ->
        BenchmarkAnalyzer.times stats = times_of_type prompt_type responses
        /\ BenchmarkAnalyzer.count stats
           = length (BenchmarkAnalyzer.times stats)
        /\ 0 < BenchmarkAnalyzer.count stats
        /\ In (BenchmarkAnalyzer.min stats) (BenchmarkAnalyzer.times stats)
        /\ In (BenchmarkAnalyzer.max stats) (BenchmarkAnalyzer.times stats)
        /\ (forall x, In x (BenchmarkAnalyzer.times stats) ->
                      (BenchmarkAnalyzer.min stats <= x
                       <= BenchmarkAnalyzer.max stats)%Q))
  /\ list_sum (map (fun kv => BenchmarkAnalyzer.count (snd kv)) analysis)
     = length (Timing.valid_times responses).
Proof.
  cbv zeta. rewrite analyze_items.
  assert (Hin : forall pt s,
             In (pt, s) (flat_map (analysis_item mean median stdev)
                                  (BenchmarkAnalyzer.by_type responses))
             <-> exists first others,
                   times_of_type pt responses = first :: others
                   /\ s = BenchmarkAnalyzer.stats_of mean median stdev
                            first others).
  { intros pt s. rewrite in_flat_map. split.
    - intros ([k times] & Hk & Hs). unfold analysis_item in Hs. simpl in Hs.
      destruct (by_type_nonempty Hk) as [-> _].
      destruct (times_of_type k responses) as [|first others] eqn:E;
        [destruct Hs|].
      destruct Hs as [Hs|[]]. injection Hs as <- <-.
      exists first, others. now split.
    - intros (first & others & E & ->).
      exists (pt, first :: others). split.
      + apply get_in. rewrite by_type_get, E. reflexivity.
      + unfold analysis_item. simpl. now left. }
  assert (Hkeys : map fst (flat_map (analysis_item mean median stdev)
                                    (BenchmarkAnalyzer.by_type responses))
                  = map fst (BenchmarkAnalyzer.by_type responses))
    by (apply analysis_item_keys, by_type_all_nonempty).
  split; [rewrite Hkeys; apply by_type_keys|]. split; [|split].
  - intros pt.
    destruct (times_of_type pt responses) as [|first others] eqn:E.
    + apply get_none. rewrite Hkeys. apply get_none.
      rewrite by_type_get, E. reflexivity.
    + apply get_of_NoDup; [rewrite Hkeys; apply by_type_NoDup|].
      apply Hin. exists first, others. now split.
  - intros pt s H. apply Hin in H as (first & others & E & ->).
    cbn [BenchmarkAnalyzer.stats_of BenchmarkAnalyzer.times
         BenchmarkAnalyzer.count BenchmarkAnalyzer.min BenchmarkAnalyzer.max].
    destruct (min_from_spec others first) as (Hmin & Hminle & Hminall).
    destruct (max_from_spec others first) as (Hmax & Hmaxle & Hmaxall).
    split; [now rewrite E|]. split; [reflexivity|]. split; [simpl; lia|].
    split; [destruct Hmin as [->|Hmin]; [now left|now right]|].
    split; [destruct Hmax as [->|Hmax]; [now left|now right]|].
    intros x [<-|Hx]; split;
      first [exact Hminle|exact Hmaxle|now apply Hminall|now apply Hmaxall].
  - rewrite analysis_item_total. apply by_type_total.
Qed.

(* ===================================================================== *)
(** * [benchmark_analyzer.py]: the sorted lists                           *)
(* ===================================================================== *)

From Stdlib Require Import Permutation Sorted.

Module PySort.

Section WithKey.

Variable A : Type.

(** The [key] function of the sort; the keys are floats. *)
Variable key : A -> Q.

(** The place of [x] among items already in order: behind every item
    whose key is not greater than its own. *)
Fixpoint insert (x : A) (l : list A) : list A :=
  match l with
  | [] => [x]
  | y :: rest =>
      if RequestParser.Qltb (key x) (key y) then x :: l
      else y :: insert x rest
  end.

(** [sorted(l, key=key)] and [l.sort(key=key)]: ascending and stable. *)
Definition sorted (l : list A) : list A :=
  fold_left (fun done x => insert x done) l [].

(** [min(l, key=key)] from a first item on: replaced by a later item with
    a smaller key. *)
Fixpoint min_from (best : A) (l : list A) : A :=
  match l with
  | [] => best
  | x :: rest =>
      min_from (if RequestParser.Qltb (key x) (key best) then x else best) rest
  end.

(** [max(l, key=key)]: replaced by a later item with a greater key. *)
Fixpoint max_from (best : A) (l : list A) : A :=
  match l with
  | [] => best
  | x :: rest =>
      max_from (if RequestParser.Qltb (key best) (key x) then x else best) rest
  end.

End WithKey.

End PySort.

Module Outliers.
Import ResponseParser.

(** [x['response_time']] of a response that has one. *)
Definition response_time (response : timing_entry) : Q :=
  match t_response_time response with Some x => x | None => 0%Q end.

(** The responses whose [response_time] is not [None], then
    [all_times.sort(key=lambda x: x['response_time'])]. *)
Definition all_times (responses : list timing_entry) : list timing_entry :=
  PySort.sorted response_time
    (filter (fun r => match t_response_time r with
                      | Some _ => true
                      | None => false
                      end) responses).

(** [all_times[:5]] *)
Definition fastest_responses (responses : list timing_entry)
  : list timing_entry :=
  firstn 5 (all_times responses).

(** [all_times[-5:]] *)
Definition slowest_responses (responses : list timing_entry)
  : list timing_entry :=
  skipn (length (all_times responses) - 5) (all_times responses).

End Outliers.

Section SortFacts.

Import PySort.

Variable A : Type.
Variable key : A -> Q.

(** [a] is not behind [b] in ascending order of the keys. *)
Definition key_le (a b : A) : Prop := (key a <= key b)%Q.

Local Abbreviation ins := (insert key).
Local Abbreviation srt := (sorted key).

Lemma insert_perm x l : Permutation (ins x l) (x :: l).
Proof.
  induction l as [|y l IH]; simpl; [reflexivity|].
  destruct (RequestParser.Qltb (key x) (key y)); [reflexivity|].
  rewrite IH. apply perm_swap.
Qed.

Lemma sorted_snoc l x : srt (l ++ [x]) = ins x (srt l).
Proof.
  unfold sorted. now rewrite fold_left_app.
Qed.

Lemma sorted_perm l : Permutation (srt l) l.
Proof.
  induction l as [|x l IH] using rev_ind; [reflexivity|].
  rewrite sorted_snoc, insert_perm, IH.
  apply Permutation_cons_append.
Qed.

Lemma insert_sorted x l :
  StronglySorted key_le l -> StronglySorted key_le (ins x l).
Proof.
  induction 1 as [|y l Hs IH Hall]; simpl.
  - constructor; constructor.
  - destruct (RequestParser.Qltb (key x) (key y)) eqn:E.
    + apply Qltb_true in E. constructor; [now constructor|].
      constructor; [unfold key_le; lra|].
      eapply Forall_impl; [|exact Hall]. unfold key_le. intros z Hz. lra.
    + apply Qltb_false in E. constructor; [exact IH|].
      apply Forall_forall. intros z Hz.
      apply (Permutation_in _ (insert_perm x l)) in Hz.
      destruct Hz as [<-|Hz]; [exact E|].
      rewrite Forall_forall in Hall. now apply Hall.
Qed.

Lemma sorted_sorted l : StronglySorted key_le (srt l).
Proof.
  induction l as [|x l IH] using rev_ind; [constructor|].
  rewrite sorted_snoc. now apply insert_sorted.
Qed.

(** Stability: among items with the same key the order is kept. *)
Lemma insert_same_key q x l :
  StronglySorted key_le l ->
  filter (fun a => Qeq_bool (key a) q) (ins x l)
  = filter (fun a => Qeq_bool (key a) q) l
    ++ (if Qeq_bool (key x) q then [x] else []).
Proof.
  induction 1 as [|y l Hs IH Hall]; simpl.
  - now destruct (Qeq_bool (key x) q).
  - destruct (RequestParser.Qltb (key x) (key y)) eqn:E; simpl.
    + apply Qltb_true in E.
      destruct (Qeq_bool (key x) q) eqn:Ex; [|now rewrite app_nil_r].
      apply Qeq_bool_iff in Ex.
      assert (Hnone : filter (fun a => Qeq_bool (key a) q) (y :: l) = []).
      { assert (Hall' : forall z, In z (y :: l) ->
                                  Qeq_bool (key z) q = false).
        { intros z [<-|Hz].
          - destruct (Qeq_bool (key y) q) eqn:Ey; [|reflexivity].
            apply Qeq_bool_iff in Ey. lra.
          - rewrite Forall_forall in Hall. specialize (Hall z Hz).
            unfold key_le in Hall.
            destruct (Qeq_bool (key z) q) eqn:Ez; [|reflexivity].
            apply Qeq_bool_iff in Ez. lra. }
        clear - Hall'. induction (y :: l) as [|z zs IHz]; [reflexivity|].
        simpl. rewrite (Hall' z (or_introl eq_refl)).
        apply IHz. intros w Hw. apply Hall'. now right. }
      simpl in Hnone. now rewrite Hnone.
    + rewrite IH. now destruct (Qeq_bool (key y) q).
Qed.

Lemma sorted_stable q l :
  filter (fun a => Qeq_bool (key a) q) (srt l)
  = filter (fun a => Qeq_bool (key a) q) l.
Proof.
  induction l as [|x l IH] using rev_ind; [reflexivity|].
  rewrite sorted_snoc, insert_same_key by apply sorted_sorted.
  rewrite IH, filter_app. simpl. now destruct (Qeq_bool (key x) q).
Qed.

Lemma in_skipn n : forall (l : list A) b, In b (skipn n l) -> In b l.
Proof.
  induction n as [|n IH]; intros l b H; [exact H|].
  destruct l as [|y l]; [destruct H|]. right. now apply IH.
Qed.

Lemma sorted_split n l a b :
  StronglySorted key_le l -> In a (firstn n l) -> In b (skipn n l) ->
  key_le a b.
Proof.
  intros Hs. revert n. induction Hs as [|y l Hs IH Hall]; intros n Ha Hb.
  - rewrite firstn_nil in Ha. destruct Ha.
  - destruct n as [|n]; [destruct Ha|]. simpl in Ha, Hb.
    destruct Ha as [<-|Ha]; [|now apply (IH n)].
    rewrite Forall_forall in Hall. apply Hall.
    exact (in_skipn Hb).
Qed.

End SortFacts.

(** X23. The fastest and slowest responses of the analysis.  The sorted
    list holds the responses that have a response time, each as often as
    the file does, in ascending order of response time, and responses
    with the same response time stay in file order.  [fastest_responses]
    is its first five entries and [slowest_responses] its last five
    (all of them when there are fewer): no response left out of the
    fastest is faster than one of them, none left out of the slowest is
    slower than one of them, and with five timed responses or fewer both
    lists are the whole sorted list. *)
Theorem outliers_are_extremes (responses : list ResponseParser.timing_entry) :
  let timed :=
    filter (fun r => match ResponseParser.t_response_time r with
                     | Some _ => true
                     | None => false
                     end) responses in
  let all_times := Outliers.all_times responses in
  Permutation all_times timed
  /\ StronglySorted (key_le Outliers.response_time) all_times
  /\ (forall q,
        filter (fun r => Qeq_bool (Outliers.response_time r) q) all_times
        = filter (fun r => Qeq_bool (Outliers.response_time r) q) timed)
  /\ length (Outliers.fastest_responses responses) = Nat.min 5 (length timed)
  /\ length (Outliers.slowest_responses responses) = Nat.min 5 (length timed)
  /\ (forall fast other,
        In fast (Outliers.fastest_responses responses) ->
        In other (skipn 5 all_times) ->
        (Outliers.response_time fast <= Outliers.response_time other)%Q)
  /\ (forall slow other,
        In slow (Outliers.slowest_responses responses) ->
        In other (firstn (length all_times - 5) all_times) ->
        (Outliers.response_time other <= Outliers.response_time slow)%Q)
  /\ (length timed <= 5 ->
      Outliers.fastest_responses responses = all_times
      /\ Outliers.slowest_responses responses = all_times).
Proof.
  cbv zeta. unfold Outliers.fastest_responses, Outliers.slowest_responses,
    Outliers.all_times.
  set (timed := filter _ responses).
  pose proof (sorted_perm Outliers.response_time timed) as Hperm.
  pose proof (sorted_sorted Outliers.response_time timed) as Hsorted.
  pose proof (Permutation_length Hperm) as Hlen.
  split; [exact Hperm|]. split; [exact Hsorted|].
  split; [intros q; apply sorted_stable|].
  split; [rewrite length_firstn, Hlen; reflexivity|].
  split; [rewrite length_skipn, Hlen; lia|].
  split; [intros fast other Hf Ho; exact (sorted_split Hsorted Hf Ho)|].
  split; [intros slow other Hs Ho; exact (sorted_split Hsorted Ho Hs)|].
  intros Hfew. rewrite Hlen.
  replace (length timed - 5) with 0 by lia.
  split; [apply firstn_all2; lia|reflexivity].
Qed.

(* ===================================================================== *)
(** * [benchmark_analyzer.py]: the report                                 *)
(* ===================================================================== *)

Module Report.
Import ResponseParser Timing BenchmarkAnalyzer.

(** The exceptions [generate_report] can end with. *)
Inductive exn := TypeError | ValueError.

Inductive result (A : Type) : Type :=
| Return (a : A)
| Raise (e : exn).
Arguments Raise {A}.

(** [f"{x:.3f}"]: [None] has no such format.  The text is not modelled,
    the value formatted is. *)
Definition format_3f (x : option Q) : result Q :=
  match x with
  | Some v => Return v
  | None => Raise TypeError
  end.

(** The performance classes of a prompt type. *)
Inductive performance := FAST | MODERATE | SLOW | VERY_SLOW.

Definition classify (average : Q) : performance :=
  if RequestParser.Qltb average 2 then FAST
  else if RequestParser.Qltb average 4 then MODERATE
  else if RequestParser.Qltb average 8 then SLOW
  else VERY_SLOW.

(** The judgement of the overall average. *)
Inductive rating := HIGH | GOOD | EXCELLENT.

Definition rate (avg_time : Q) : rating :=
  if RequestParser.Qltb 5 avg_time then HIGH
  else if RequestParser.Qltb 3 avg_time then GOOD
  else EXCELLENT.

(** [key=lambda x: x[1]['average']] *)
Definition average_of (item : pystr * type_stats) : Q := average (snd item).

(** What the report prints, section by section. *)
Record report := {
  avg_time : Q;
  min_time : Q;
  max_time : Q;
  sorted_types : list (pystr * type_stats);
  performances : list performance;
  fastest : list timing_entry;
  slowest : list timing_entry;
  fastest_type : pystr * type_stats;
  slowest_type : pystr * type_stats;
  overall : rating;
  high_variance_types : list pystr
}.

Section WithStatistics.

Variables statistics_mean statistics_median statistics_stdev : list Q -> Q.

(** ** [generate_report], from the summary [load_timing_data] has read. *)
Definition generate_report (timing_data : timing_summary) : result report :=
  match format_3f (average_response_time timing_data) with
  | Raise e => Raise e
  | Return avg =>
  match format_3f (min_response_time timing_data) with
  | Raise e => Raise e
  | Return lo =>
  match format_3f (max_response_time timing_data) with
  | Raise e => Raise e
  | Return hi =>
      let type_analysis :=
        analyze_by_prompt_type statistics_mean statistics_median
          statistics_stdev (responses timing_data) in
      let sorted_types := PySort.sorted average_of type_analysis in
      match sorted_types with
      | [] => Raise ValueError
      | first :: others =>
          Return
            {| avg_time := avg; min_time := lo; max_time := hi;
               sorted_types := sorted_types;
               performances :=
                 map (fun item => classify (average_of item)) sorted_types;
               fastest := Outliers.fastest_responses (responses timing_data);
               slowest := Outliers.slowest_responses (responses timing_data);
               fastest_type := PySort.min_from average_of first others;
               slowest_type := PySort.max_from average_of first others;
               overall := rate avg;
               high_variance_types :=
                 map fst
                   (filter (fun item =>
                              RequestParser.Qltb 2 (std_dev (snd item))
                              && (3 <? count (snd item)))
                           type_analysis) |}
      end
  end end end.

End WithStatistics.

End Report.

Section ReportFacts.

Import PySort.

Variable A : Type.
Variable key : A -> Q.

Lemma min_from_head l : forall best,
  Forall (key_le key best) l -> min_from key best l = best.
Proof.
  induction l as [|x l IH]; intros best Hall; simpl; [reflexivity|].
  inversion Hall as [|? ? Hx Hl]; subst. unfold key_le in Hx.
  destruct (RequestParser.Qltb (key x) (key best)) eqn:E.
  - apply Qltb_true in E. lra.
  - now apply IH.
Qed.

Lemma max_from_greatest l : forall best,
  (max_from key best l = best \/ In (max_from key best l) l)
  /\ key_le key best (max_from key best l)
  /\ Forall (fun x => key_le key x (max_from key best l)) l.
Proof.
  unfold key_le. induction l as [|x l IH]; intros best; simpl.
  - split; [now left|]. split; [lra|constructor].
  - destruct (IH (if RequestParser.Qltb (key best) (key x) then x else best))
      as (Hin & Hle & Hall).
    destruct (RequestParser.Qltb (key best) (key x)) eqn:E.
    + apply Qltb_true in E.
      split; [destruct Hin as [Hin|Hin]; [right; left; now symmetry|tauto]|].
      split; [lra|].
      constructor; [exact Hle|exact Hall].
    + apply Qltb_false in E. split; [tauto|]. split; [exact Hle|].
      constructor; [lra|exact Hall].
Qed.

End ReportFacts.

(** X24. When the report can be printed.  On the summary
    [save_timing_data] writes, [generate_report] ends with a [TypeError]
    exactly when no timing entry has a response time (so also when no
    response was matched): the average is [null] and cannot be formatted.
    It never ends with the [ValueError] of [min] on an empty sequence.
    Otherwise the report lists the prompt types of the analysis in
    ascending order of their average; the fastest prompt type is the first
    of that list, and the slowest one a prompt type of the list whose
    average no other exceeds. *)
Theorem report_needs_a_timed_response
  (mean statistics_mean statistics_median statistics_stdev : list Q -> Q)
  (timing_data : list ResponseParser.timing_entry) :
  let summary := Timing.save_timing_data mean timing_data in
  let outcome :=
    Report.generate_report statistics_mean statistics_median
      statistics_stdev summary in
  let analysis :=
    BenchmarkAnalyzer.analyze_by_prompt_type statistics_mean
      statistics_median statistics_stdev timing_data in
  (outcome = Report.Raise Report.TypeError
   <-> Timing.valid_times timing_data = [])
  /\ outcome <> Report.Raise Report.ValueError
  /\ (forall r,
        outcome = Report.Return r ->
        Permutation (Report.sorted_types r) analysis
        /\ StronglySorted (key_le Report.average_of) (Report.sorted_types r)
        /\ In (Report.fastest_type r) (Report.sorted_types r)
        /\ In (Report.slowest_type r) (Report.sorted_types r)
        /\ hd_error (Report.sorted_types r) = Some (Report.fastest_type r)
        /\ (forall item, In item analysis ->
              (Report.average_of (Report.fastest_type r)
               <= Report.average_of item
               <= Report.average_of (Report.slowest_type r))%Q)).
Proof.
  cbv zeta.
  pose proof (sorted_perm Report.average_of
                (BenchmarkAnalyzer.analyze_by_prompt_type statistics_mean
                   statistics_median statistics_stdev timing_data)) as Hperm.
  pose proof (sorted_sorted Report.average_of
                (BenchmarkAnalyzer.analyze_by_prompt_type statistics_mean
                   statistics_median statistics_stdev timing_data)) as Hsorted.
  assert (Hkeys : Timing.valid_times timing_data <> [] ->
            BenchmarkAnalyzer.analyze_by_prompt_type statistics_mean
              statistics_median statistics_stdev timing_data <> []).
  { intros Hne Hnil.
    assert (Hsum : length (Timing.valid_times timing_data) = 0).
    { rewrite <- (by_type_total timing_data),
        <- (analysis_item_total statistics_mean statistics_median
              statistics_stdev), <- analyze_items, Hnil. reflexivity. }
    destruct (Timing.valid_times timing_data); [contradiction|discriminate]. }
  unfold Report.generate_report, Timing.save_timing_data.
  cbn [Timing.average_response_time Timing.min_response_time
       Timing.max_response_time Timing.responses].
  destruct (Timing.valid_times timing_data) as [|y l] eqn:E.
  - cbn [Report.format_3f]. split; [split; intros _; reflexivity|].
    split; [discriminate|].
    intros r H. discriminate.
  - cbn [Report.format_3f Timing.py_min Timing.py_max].
    set (analysis := BenchmarkAnalyzer.analyze_by_prompt_type statistics_mean
                       statistics_median statistics_stdev timing_data) in *.
    destruct (PySort.sorted Report.average_of analysis) as [|first others] eqn:S.
    + exfalso. apply Hkeys; [discriminate|].
      apply Permutation_nil. now apply Permutation_sym.
    + split; [split; discriminate|]. split; [discriminate|].
      intros r H. injection H as <-.
      cbn [Report.sorted_types Report.fastest_type Report.slowest_type].
      inversion Hsorted as [|? ? Hs Hall]; subst.
      rewrite (min_from_head Hall).
      destruct (max_from_greatest Report.average_of others first)
        as (Hin & Hle & Hmax).
      split; [exact Hperm|]. split; [exact Hsorted|].
      split; [now left|].
      split; [destruct Hin as [->|Hin]; [now left|now right]|].
      split; [reflexivity|].
      intros item Hitem.
      apply (Permutation_in _ (Permutation_sym Hperm)) in Hitem.
      rewrite Forall_forall in Hall, Hmax. unfold key_le in *.
      destruct Hitem as [<-|Hitem]; split;
        first [lra|now apply Hall|now apply Hmax|exact Hle].
Qed.

(* ===================================================================== *)
(** * [skyrim_prompt_parser.py]: the signatures of the store              *)
(* ===================================================================== *)

Module PromptParser.

(** The length of the longest beginning of [s] whose characters all
    satisfy [p]: a greedy [[...]*]. *)
Fixpoint run (p : ascii -> bool) (s : pystr) : nat :=
  match s with
  | c :: s' => if p c then S (run p s') else 0
  | [] => 0
  end.

(** A literal at the head of [s]: the length matched. *)
Definition literal (p s : pystr) : option nat :=
  if startswith p s then Some (length p) else None.

(** One expression after another; the lengths add up. *)
Definition then_ (a b : pystr -> option nat) (s : pystr) : option nat :=
  match a s with
  | Some n =>
      match b (skipn n s) with
      | Some m => Some (n + m)
      | None => None
      end
  | None => None
  end.

(** [[...]*] and [[...]+] for a class no character of which can start
    what follows in the expression, so that giving characters back never
    helps. *)
Definition star (p : ascii -> bool) (s : pystr) : option nat :=
  Some (run p s).

Definition plus (p : ascii -> bool) (s : pystr) : option nat :=
  match run p s with
  | 0 => None
  | n => Some n
  end.

Definition not_char (x : ascii) (c : ascii) : bool := negb (Ascii.eqb c x).

Definition VAR : pystr := lit "[VAR]".

(** [\{\{[^}]*\}\}] *)
Definition template_variable : pystr -> option nat :=
  then_ (literal (lit "{{")) (then_ (star (not_char "}")) (literal (lit "}}"))).

(** [\{%[^%]*%\}] *)
Definition conditional_block : pystr -> option nat :=
  then_ (literal (lit "{%")) (then_ (star (not_char "%")) (literal (lit "%}"))).

(** [\[VAR\]\s*,\s*\[VAR\]] *)
Definition var_comma_var : pystr -> option nat :=
  then_ (literal VAR)
    (then_ (star isspace)
       (then_ (literal (lit ",")) (then_ (star isspace) (literal VAR)))).

(** [\[VAR\]\s+\[VAR\]] *)
Definition var_space_var : pystr -> option nat :=
  then_ (literal VAR) (then_ (plus isspace) (literal VAR)).

(** [\s+] *)
Definition whitespace : pystr -> option nat := plus isspace.

Section Sub.

(** The length of the match of the expression at the head of a text; the
    expressions of this file never match the empty string. *)
Variable pattern : pystr -> option nat.
Variable repl : pystr.

(** [re.sub(pattern, repl, s)]: from left to right, each match replaced
    and the search resumed behind it; [skip] counts the characters of the
    current match still to pass. *)
Fixpoint sub_from (skip : nat) (s : pystr) : pystr :=
  match s with
  | [] => []
  | c :: s' =>
      match skip with
      | S k => sub_from k s'
      | 0 =>
          match pattern s with
          | Some n => repl ++ sub_from (n - 1) s'
          | None => c :: sub_from 0 s'
          end
      end
  end.

Definition sub (s : pystr) : pystr := sub_from 0 s.

End Sub.

(** [s.rstrip('.')] *)
Definition rstrip_dots (s : pystr) : pystr :=
  rev ((fix drop (r : pystr) : pystr :=
          match r with
          | c :: r' => if Ascii.eqb c "." then drop r' else r
          | [] => []
          end) (rev s)).

(** [re.sub(r'\s+', ' ', s).strip().rstrip('.')] *)
Definition tidy (s : pystr) : pystr :=
  rstrip_dots (strip (sub whitespace (lit " ") s)).

(** ** [simplify_signature] *)
Definition simplify_signature (signature : pystr) : pystr :=
  let simplified := sub template_variable VAR signature in
  let simplified := sub conditional_block [] simplified in
  let simplified := sub var_comma_var VAR simplified in
  let simplified := sub var_space_var VAR simplified in
  let simplified := tidy simplified in
  if length simplified <? 20 then tidy signature else simplified.

(** ** [create_prompt_types_json]: the value of its key [prompt_types],
    as the request parser reads it (the field [usage] is always
    [default], and is not read). *)
Definition add_prompt_type (prompt_types : RequestParser.prompt_types_t)
  (item : pystr * pystr) : RequestParser.prompt_types_t :=
  PyDict.set (fst item)
    {| RequestParser.original_signature := snd item;
       RequestParser.simplified_signature := simplify_signature (snd item) |}
    prompt_types.

Definition create_prompt_types_json (prompt_data : list (pystr * pystr))
  : RequestParser.prompt_types_t :=
  fold_left add_prompt_type prompt_data [].

(** ** [extract_system_block] *)

(** A word of the expression under [re.IGNORECASE]. *)
Definition word (w : pystr) (s : pystr) : option nat :=
  if eqb (lower (firstn (length w) s)) w then Some (length w) else None.

(** [\[\s*system\s*\]] *)
Definition open_tag : pystr -> option nat :=
  then_ (literal (lit "["))
    (then_ (star isspace)
       (then_ (word (lit "system")) (then_ (star isspace) (literal (lit "]"))))).

(** [\[\s*end\s+system\s*\]] *)
Definition close_tag : pystr -> option nat :=
  then_ (literal (lit "["))
    (then_ (star isspace)
       (then_ (word (lit "end"))
          (then_ (plus isspace)
             (then_ (word (lit "system"))
                (then_ (star isspace) (literal (lit "]"))))))).

(** [(.*?)] in front of the closing tag, with [re.DOTALL]: the group
    ends at the first place where the closing tag matches. *)
Fixpoint lazy_group (s : pystr) : option pystr :=
  match close_tag s with
  | Some _ => Some []
  | None =>
      match s with
      | [] => None
      | c :: s' =>
          match lazy_group s' with
          | Some g => Some (c :: g)
          | None => None
          end
      end
  end.

(** The whole expression at the head of [s]: its group. *)
Definition system_block_here (s : pystr) : option pystr :=
  match open_tag s with
  | Some n => lazy_group (skipn n s)
  | None => None
  end.

(** [re.search]: the first position at which the expression matches. *)
Fixpoint search (s : pystr) : option pystr :=
  match system_block_here s with
  | Some g => Some g
  | None =>
      match s with
      | [] => None
      | _ :: s' => search s'
      end
  end.

Definition extract_system_block (content : pystr) : pystr :=
  match search content with
  | Some g => strip g
  | None => []
  end.

End PromptParser.

(** Whitespace is tidy in [s]: every whitespace character is a space,
    and none is followed by another. *)
Fixpoint single_spaced (s : pystr) : bool :=
  match s with
  | [] => true
  | c :: rest =>
      (if isspace c
       then Ascii.eqb c " "
            && match rest with [] => true | d :: _ => negb (isspace d) end
       else true)
      && single_spaced rest
  end.

(** [s] does not begin with a whitespace character. *)
Definition starts_clean (s : pystr) : bool :=
  match s with [] => true | c :: _ => negb (isspace c) end.

Section TidyFacts.

Import PromptParser.

Lemma run_all p s : forallb p (firstn (run p s) s) = true.
Proof.
  induction s as [|c s IH]; simpl; [reflexivity|].
  destruct (p c) eqn:E; simpl; [now rewrite E|reflexivity].
Qed.

Lemma collapse_spaced s : forall skip,
  skip <= run isspace s ->
  single_spaced (sub_from whitespace (lit " ") skip s) = true
  /\ (skip = run isspace s ->
      starts_clean (sub_from whitespace (lit " ") skip s) = true).
Proof.
  induction s as [|c s IH]; intros skip Hskip.
  - simpl. now split.
  - cbn [sub_from]. destruct skip as [|k].
    + assert (Hp : whitespace (c :: s)
                   = if isspace c then Some (S (run isspace s)) else None)
        by (unfold whitespace, plus; cbn [run]; now destruct (isspace c)).
      rewrite Hp. clear Hp.
      destruct (isspace c) eqn:E.
      * replace (S (run isspace s) - 1) with (run isspace s) by lia.
        destruct (IH (run isspace s) (le_n _)) as [Hs Hc].
        specialize (Hc eq_refl).
        split; [|cbn [run]; rewrite E; discriminate].
        change (lit " " ++ ?x) with (" "%char :: x).
        cbn [single_spaced]. change (isspace " ") with true.
        rewrite Ascii.eqb_refl, Hs.
        destruct (sub_from _ _ _ s) as [|d rest]; [reflexivity|].
        simpl in Hc. now rewrite Hc.
      * destruct (IH 0 (Nat.le_0_l _)) as [Hs _].
        split; [|intros _; simpl; now rewrite E].
        cbn [single_spaced]. now rewrite E, Hs.
    + cbn [run] in Hskip. destruct (isspace c) eqn:E; [|lia].
      destruct (IH k ltac:(lia)) as [Hs Hc].
      split; [exact Hs|]. intros Hfull. apply Hc.
      cbn [run] in Hfull. rewrite E in Hfull. lia.
Qed.

Lemma single_spaced_app a b :
  single_spaced (a ++ b) = true ->
  single_spaced a = true /\ single_spaced b = true.
Proof.
  induction a as [|c a IH]; simpl; [now split|].
  intros H. apply andb_true_iff in H as [Hc Hrest].
  destruct (IH Hrest) as [Ha Hb]. split; [|exact Hb].
  rewrite Ha, andb_true_r.
  destruct (isspace c); [|reflexivity].
  apply andb_true_iff in Hc as [Hsp Hnext]. rewrite Hsp. simpl.
  destruct a as [|d a]; [reflexivity|exact Hnext].
Qed.

Lemma rstrip_prefix s : exists q, s = rstrip s ++ q.
Proof.
  unfold rstrip. destruct (rest_of_lstrip (rev s)) as (p & Hp).
  exists (rev p). rewrite <- rev_app_distr, <- Hp. now rewrite rev_involutive.
Qed.

Lemma lstrip_clean s : starts_clean (lstrip s) = true.
Proof.
  induction s as [|c s IH]; simpl; [reflexivity|].
  destruct (isspace c) eqn:E; [exact IH|]. simpl. now rewrite E.
Qed.

Lemma starts_clean_prefix a q :
  starts_clean (a ++ q) = true -> starts_clean a = true.
Proof.
  destruct a; [reflexivity|exact (fun H => H)].
Qed.

Lemma rstrip_dots_prefix s : exists q, s = rstrip_dots s ++ q.
Proof.
  unfold rstrip_dots.
  set (drop := fix drop (r : pystr) : pystr :=
                 match r with
                 | c :: r' => if Ascii.eqb c "." then drop r' else r
                 | [] => []
                 end).
  assert (H : forall r, exists p, r = p ++ drop r).
  { induction r as [|c r IH]; [now exists []|]. simpl.
    destruct (Ascii.eqb c "."); [|now exists []].
    destruct IH as (p & Hp). exists (c :: p). simpl. now rewrite <- Hp. }
  destruct (H (rev s)) as (p & Hp). exists (rev p).
  rewrite <- rev_app_distr, <- Hp. now rewrite rev_involutive.
Qed.

Lemma rstrip_dots_end s : endswith (lit ".") (rstrip_dots s) = false.
Proof.
  unfold endswith, rstrip_dots. rewrite rev_involutive.
  induction (rev s) as [|c r IH]; [reflexivity|].
  destruct (Ascii.eqb c ".") eqn:E; [exact IH|].
  change (startswith (rev (lit ".")) (c :: r))
    with (Ascii.eqb "." c && true).
  rewrite Ascii.eqb_sym, E. reflexivity.
Qed.

Lemma tidy_spec s :
  endswith (lit ".") (tidy s) = false
  /\ single_spaced (tidy s) = true
  /\ starts_clean (tidy s) = true.
Proof.
  unfold tidy. split; [apply rstrip_dots_end|].
  set (collapsed := sub whitespace (lit " ") s).
  assert (Hc : single_spaced collapsed = true)
    by (apply (@collapse_spaced s 0 (Nat.le_0_l _))).
  destruct (rstrip_dots_prefix (strip collapsed)) as (q & Hq).
  destruct (rstrip_prefix (lstrip collapsed)) as (q' & Hq').
  destruct (rest_of_lstrip collapsed) as (p & Hp).
  assert (Hl : single_spaced (lstrip collapsed) = true)
    by (rewrite Hp in Hc; now apply single_spaced_app in Hc).
  assert (Hr : single_spaced (rstrip (lstrip collapsed)) = true)
    by (rewrite Hq' in Hl; now apply single_spaced_app in Hl).
  assert (Hchain : lstrip collapsed
                   = rstrip_dots (strip collapsed) ++ (q ++ q'))
    by (rewrite app_assoc, <- Hq; exact Hq').
  split.
  - change (rstrip (lstrip collapsed)) with (strip collapsed) in Hr.
    rewrite Hq in Hr. now apply single_spaced_app in Hr.
  - apply (@starts_clean_prefix _ (q ++ q')).
    rewrite <- Hchain. apply lstrip_clean.
Qed.

(** An expression that begins with a character the text does not hold
    matches nowhere, and [re.sub] leaves the text as it is. *)
Lemma sub_no_match pattern repl s :
  (forall t, (exists p, s = p ++ t) -> pattern t = None) ->
  sub pattern repl s = s.
Proof.
  unfold sub. induction s as [|c s IH]; intros H; [reflexivity|].
  cbn [sub_from]. rewrite (H (c :: s)) by now exists [].
  f_equal. apply IH. intros t (p & ->). apply H. now exists (c :: p).
Qed.

Lemma literal_absent c p t :
  ~ In c t -> literal (c :: p) t = None.
Proof.
  unfold literal. destruct t as [|d t]; [reflexivity|].
  intros H. simpl.
  destruct (Ascii.eqb c d) eqn:E; [|reflexivity].
  apply Ascii.eqb_eq in E. subst. exfalso. apply H. now left.
Qed.

Lemma then_none a b t : a t = None -> then_ a b t = None.
Proof.
  unfold then_. now intros ->.
Qed.

End TidyFacts.

(** X25. What [simplify_signature] returns.  The simplified signature
    never ends with a full stop and never begins with whitespace; its
    whitespace is tidy, every whitespace character being a single space
    between two other characters or at the very end.  And a signature
    that holds neither an opening brace nor an opening bracket is only
    tidied: its whitespace collapsed, its ends stripped and its final full
    stops removed. *)
Theorem simplified_signature_is_tidy (signature : pystr) :
  endswith (lit ".") (PromptParser.simplify_signature signature) = false
  /\ single_spaced (PromptParser.simplify_signature signature) = true
  /\ starts_clean (PromptParser.simplify_signature signature) = true
  /\ (~ In "{"%char signature -> ~ In "["%char signature ->
      PromptParser.simplify_signature signature
      = PromptParser.tidy signature).
Proof.
  assert (Htidy : exists t, PromptParser.simplify_signature signature
                            = PromptParser.tidy t).
  { unfold PromptParser.simplify_signature. cbv zeta.
    destruct (length _ <? 20); eauto. }
  destruct Htidy as (t & Ht). rewrite Ht.
  destruct (tidy_spec t) as (H1 & H2 & H3).
  split; [exact H1|]. split; [exact H2|]. split; [exact H3|].
  intros Hbrace Hbracket. rewrite <- Ht.
  unfold PromptParser.simplify_signature. cbv zeta.
  assert (Hsuffix : forall c t', ~ In c signature ->
                                 (exists p, signature = p ++ t') -> ~ In c t').
  { intros c t' Hc (p & ->) Hin. apply Hc. apply in_or_app. now right. }
  rewrite (@sub_no_match PromptParser.template_variable PromptParser.VAR
             signature)
    by (intros t' Ht'; apply then_none, literal_absent;
        now apply (Hsuffix _ _ Hbrace)).
  rewrite (@sub_no_match PromptParser.conditional_block [] signature)
    by (intros t' Ht'; apply then_none, literal_absent;
        now apply (Hsuffix _ _ Hbrace)).
  rewrite (@sub_no_match PromptParser.var_comma_var PromptParser.VAR signature)
    by (intros t' Ht'; apply then_none, literal_absent;
        now apply (Hsuffix _ _ Hbracket)).
  rewrite (@sub_no_match PromptParser.var_space_var PromptParser.VAR signature)
    by (intros t' Ht'; apply then_none, literal_absent;
        now apply (Hsuffix _ _ Hbracket)).
  now destruct (length _ <? 20).
Qed.

Section StoreFacts.

Import PromptParser.

(** The store entry of one pair of [prompt_data]. *)
Definition store_entry (item : pystr * pystr) : RequestParser.prompt_type_data :=
  {| RequestParser.original_signature := snd item;
     RequestParser.simplified_signature := simplify_signature (snd item) |}.

Lemma create_snoc prompt_data item :
  create_prompt_types_json (prompt_data ++ [item])
  = PyDict.set (fst item) (store_entry item)
      (create_prompt_types_json prompt_data).
Proof.
  unfold create_prompt_types_json. now rewrite fold_left_app.
Qed.

Lemma create_get prompt_data pt :
  PyDict.get pt (create_prompt_types_json prompt_data)
  = option_map store_entry
      (find (fun item => eqb pt (fst item)) (rev prompt_data)).
Proof.
  induction prompt_data as [|item l IH] using rev_ind; [reflexivity|].
  rewrite create_snoc, rev_app_distr. simpl.
  destruct (eqb pt (fst item)) eqn:E.
  - apply eqb_eq in E. subst. apply get_set_same.
  - rewrite get_set_other by exact E. exact IH.
Qed.

Lemma create_NoDup prompt_data :
  NoDup (map fst (create_prompt_types_json prompt_data)).
Proof.
  induction prompt_data as [|item l IH] using rev_ind; [constructor|].
  rewrite create_snoc. now apply set_NoDup.
Qed.

Lemma create_keys prompt_data :
  map fst (create_prompt_types_json prompt_data)
  = ResponseSetup.distinct [] (map fst prompt_data).
Proof.
  induction prompt_data as [|item l IH] using rev_ind; [reflexivity|].
  rewrite create_snoc, set_keys, map_app. cbn [map]. rewrite distinct_snoc.
  change (ResponseSetup.mem (fst item) []) with false. cbn [orb].
  rewrite <- mem_distinct, <- IH, get_some_mem.
  destruct (PyDict.get (fst item) (create_prompt_types_json l));
    [now rewrite app_nil_r|reflexivity].
Qed.

End StoreFacts.

(** X26. The signature store [create_prompt_types_json] builds, which the
    request parser loads.  Its keys are the prompt types of the scanned
    files, each once, in the order in which they first occur; a prompt
    type found in several files keeps the signature of the last one.  The
    simplified signature of every entry is [simplify_signature] of its
    original signature, and so never ends with a full stop.  The request
    parser asks for its folders by these keys. *)
Theorem store_keeps_last_signature (prompt_data : list (pystr * pystr)) :
  let store := PromptParser.create_prompt_types_json prompt_data in
  map fst store = ResponseSetup.distinct [] (map fst prompt_data)
  /\ RequestSetup.create_folder_structure store
     = ResponseSetup.distinct [] (map fst prompt_data)
  /\ (forall prompt_type,
        PyDict.get prompt_type store
        = option_map store_entry
            (find (fun item => eqb prompt_type (fst item)) (rev prompt_data)))
  /\ (forall prompt_type data,
        In (prompt_type, data) store ->
        RequestParser.simplified_signature data
        = PromptParser.simplify_signature
            (RequestParser.original_signature data)
        /\ endswith (lit ".") (RequestParser.simplified_signature data)
           = false
        /\ In (prompt_type, RequestParser.original_signature data)
              prompt_data).
Proof.
  cbv zeta. split; [apply create_keys|]. split; [apply create_keys|].
  split; [intros pt; apply create_get|].
  intros pt data Hin.
  apply (get_of_NoDup (create_NoDup prompt_data)) in Hin.
  rewrite create_get in Hin.
  destruct (find _ (rev prompt_data)) as [item|] eqn:F; [|discriminate].
  injection Hin as <-. apply find_some in F as [Hitem E].
  apply eqb_eq in E. apply in_rev in Hitem.
  cbn [store_entry RequestParser.simplified_signature
       RequestParser.original_signature].
  split; [reflexivity|].
  split; [|subst pt; now destruct item].
  assert (Htidy : exists t, PromptParser.simplify_signature (snd item)
                            = PromptParser.tidy t).
  { unfold PromptParser.simplify_signature. cbv zeta.
    destruct (length _ <? 20); eauto. }
  destruct Htidy as (t & ->). apply tidy_spec.
Qed.

Section BlockFacts.

Import PromptParser.

(** A matcher never reads past the end of the text. *)
Definition bounded (m : pystr -> option nat) : Prop :=
  forall s n, m s = Some n -> n <= length s.

Lemma run_bound p s : run p s <= length s.
Proof.
  induction s as [|c s IH]; simpl; [lia|]. destruct (p c); simpl; lia.
Qed.

Lemma literal_bounded p : bounded (literal p).
Proof.
  intros s n. unfold literal. destruct (startswith p s) eqn:E; [|discriminate].
  intros H. injection H as <-. apply startswith_split in E.
  rewrite E, length_app. lia.
Qed.

Lemma star_bounded p : bounded (star p).
Proof.
  intros s n H. injection H as <-. apply run_bound.
Qed.

Lemma plus_bounded p : bounded (plus p).
Proof.
  intros s n. unfold plus. pose proof (run_bound p s).
  destruct (run p s); [discriminate|]. intros H'. injection H' as <-. lia.
Qed.

Lemma eqb_length (a b : pystr) : eqb a b = true -> length a = length b.
Proof.
  intros H. apply eqb_eq in H. now subst.
Qed.

Lemma word_bounded w : bounded (word w).
Proof.
  intros s n. unfold word.
  destruct (eqb (lower (firstn (length w) s)) w) eqn:E; [|discriminate].
  intros H. injection H as <-. apply eqb_length in E.
  rewrite lower_length, length_firstn in E. lia.
Qed.

Lemma then_bounded a b : bounded a -> bounded b -> bounded (then_ a b).
Proof.
  intros Ha Hb s n. unfold then_.
  destruct (a s) as [x|] eqn:Ea; [|discriminate].
  destruct (b (skipn x s)) as [y|] eqn:Eb; [|discriminate].
  intros H. injection H as <-.
  apply Ha in Ea. apply Hb in Eb. rewrite length_skipn in Eb. lia.
Qed.

Lemma open_tag_bounded : bounded open_tag.
Proof.
  unfold open_tag.
  repeat first [ apply then_bounded | apply literal_bounded
               | apply star_bounded | apply word_bounded ].
Qed.

Lemma close_tag_bounded : bounded close_tag.
Proof.
  unfold close_tag.
  repeat first [ apply then_bounded | apply literal_bounded
               | apply star_bounded | apply plus_bounded
               | apply word_bounded ].
Qed.

Lemma lazy_group_sound s : forall g,
  lazy_group s = Some g ->
  exists rest n,
    s = g ++ rest /\ close_tag rest = Some n
    /\ forall k, k < length g -> close_tag (skipn k s) = None.
Proof.
  induction s as [|c s IH]; intros g; cbn [lazy_group].
  - destruct (close_tag []) as [n|] eqn:E; [|discriminate].
    intros H. injection H as <-. exists [], n.
    split; [reflexivity|]. split; [exact E|]. simpl. intros k Hk. lia.
  - destruct (close_tag (c :: s)) as [n|] eqn:E.
    + intros H. injection H as <-. exists (c :: s), n.
      split; [reflexivity|]. split; [exact E|]. simpl. intros k Hk. lia.
    + destruct (lazy_group s) as [g'|]; [|discriminate].
      intros H. injection H as <-.
      destruct (IH g' eq_refl) as (rest & n & -> & Hclose & Hnone).
      exists rest, n. split; [reflexivity|]. split; [exact Hclose|].
      intros [|k] Hk; [exact E|]. simpl. apply Hnone. simpl in Hk. lia.
Qed.

Lemma search_sound s : forall g,
  search s = Some g ->
  exists pre opening closing post,
    s = pre ++ opening ++ g ++ closing ++ post
    /\ open_tag (opening ++ g ++ closing ++ post) = Some (length opening)
    /\ close_tag (closing ++ post) = Some (length closing)
    /\ (forall k, k < length g ->
                  close_tag (skipn k (g ++ closing ++ post)) = None)
    /\ (forall k, k < length pre ->
                  system_block_here (skipn k s) = None).
Proof.
  assert (Hhere : forall t g, system_block_here t = Some g ->
            exists opening closing post,
              t = opening ++ g ++ closing ++ post
              /\ open_tag (opening ++ g ++ closing ++ post)
                 = Some (length opening)
              /\ close_tag (closing ++ post) = Some (length closing)
              /\ (forall k, k < length g ->
                            close_tag (skipn k (g ++ closing ++ post)) = None)).
  { intros t g. unfold system_block_here.
    destruct (open_tag t) as [n|] eqn:Eo; [|discriminate].
    intros Hg. destruct (lazy_group_sound Hg) as (rest & m & Hsplit & Hc & Hn).
    pose proof (open_tag_bounded Eo) as Hb.
    pose proof (close_tag_bounded Hc) as Hb'.
    exists (firstn n t), (firstn m rest), (skipn m rest).
    rewrite (firstn_skipn m rest), <- Hsplit, (firstn_skipn n t).
    rewrite !length_firstn, !Nat.min_l by lia.
    repeat split; assumption. }
  induction s as [|c s IH]; intros g; cbn [search].
  - destruct (system_block_here []) as [g'|] eqn:E; [|discriminate].
    intros H. injection H as <-.
    destruct (Hhere _ _ E) as (opening & closing & post & Hs & Ho & Hc & Hn).
    exists [], opening, closing, post. simpl.
    repeat split; try assumption. intros k Hk. lia.
  - destruct (system_block_here (c :: s)) as [g'|] eqn:E.
    + intros H. injection H as <-.
      destruct (Hhere _ _ E) as (opening & closing & post & Hs & Ho & Hc & Hn).
      exists [], opening, closing, post. simpl.
      repeat split; try assumption. intros k Hk. lia.
    + intros H.
      destruct (IH g H) as (pre & opening & closing & post & -> & Ho & Hc & Hn & Hp).
      exists (c :: pre), opening, closing, post.
      split; [reflexivity|]. repeat split; try assumption.
      intros [|k] Hk; [exact E|]. simpl. apply Hp. simpl in Hk. lia.
Qed.

Lemma search_no_bracket s : ~ In "["%char s -> search s = None.
Proof.
  induction s as [|c s IH]; intros H; cbn [search]; unfold system_block_here.
  - reflexivity.
  - unfold open_tag at 1. rewrite then_none by now apply literal_absent.
    apply IH. intros Hin. apply H. now right.
Qed.

Lemma strip_clean s :
  starts_clean (strip s) = true /\ starts_clean (rev (strip s)) = true.
Proof.
  split.
  - destruct (rstrip_prefix (lstrip s)) as (q & Hq).
    apply (@starts_clean_prefix _ q). unfold strip. rewrite <- Hq.
    apply lstrip_clean.
  - unfold strip, rstrip. rewrite rev_involutive. apply lstrip_clean.
Qed.

End BlockFacts.

(** X27. What [extract_system_block] returns.  The result has no
    whitespace at either end.  It is empty when the content holds no
    opening bracket, and whenever the expression is found nowhere.  When
    the expression is found, the content is some text, an opening tag
    ([\[], whitespace, [system] in any case, whitespace, [\]]), the group,
    a closing tag (likewise, with [end], whitespace and [system]) and the
    rest; no closing tag starts inside the group, the expression matches
    at no earlier position, and the result is the group stripped. *)
Theorem system_block_is_between_tags (content : pystr) :
  starts_clean (PromptParser.extract_system_block content) = true
  /\ starts_clean (rev (PromptParser.extract_system_block content)) = true
  /\ (~ In "["%char content -> PromptParser.extract_system_block content = [])
  /\ (PromptParser.search content = None ->
      PromptParser.extract_system_block content = [])
  /\ (forall group,
        PromptParser.search content = Some group ->
        PromptParser.extract_system_block content = strip group
        /\ exists before opening closing rest,
             content = before ++ opening ++ group ++ closing ++ rest
             /\ PromptParser.open_tag (opening ++ group ++ closing ++ rest)
                = Some (length opening)
             /\ PromptParser.close_tag (closing ++ rest)
                = Some (length closing)
             /\ (forall k, k < length group ->
                   PromptParser.close_tag
                     (skipn k (group ++ closing ++ rest)) = None)
             /\ (forall k, k < length before ->
                   PromptParser.system_block_here (skipn k content) = None)).
Proof.
  unfold PromptParser.extract_system_block.
  split; [destruct (PromptParser.search content);
          [apply strip_clean|reflexivity]|].
  split; [destruct (PromptParser.search content);
          [apply strip_clean|reflexivity]|].
  split; [intros H; now rewrite (search_no_bracket H)|].
  split; [now intros ->|].
  intros group H. rewrite H. split; [reflexivity|].
  now apply search_sound.
Qed.

Definition prompt_file_text : pystr :=
  payload "# Dialogue|[ SYSTEM ]|You are roleplaying as {{ npc.name }}.|[ end  system ]|[user]hi[end user]".

Lemma system_block_is_between_tags_example :
  PromptParser.extract_system_block prompt_file_text
  = lit "You are roleplaying as {{ npc.name }}."
  /\ starts_clean (PromptParser.extract_system_block prompt_file_text) = true.
Proof.
  split; [vm_compute; reflexivity|].
  exact (proj1 (system_block_is_between_tags prompt_file_text)).
Defined.

(* ===================================================================== *)
(** * [skyrim_prompt_parser.py]: signatures of exception files            *)
(* ===================================================================== *)

Module RawContent.
Import PromptParser.

Section SubLines.

(** An expression that starts with [^], compiled with [re.MULTILINE]: it
    can match at the start of the text and behind a line feed only. *)
Variable pattern : pystr -> option nat.

(** [re.sub('^...', '', s, flags=re.MULTILINE)]; [at_start] tells whether
    the position is the start of a line. *)
Fixpoint sub_lines_from (skip : nat) (at_start : bool) (s : pystr) : pystr :=
  match s with
  | [] => []
  | c :: s' =>
      let next_start := Ascii.eqb c nl in
      match skip with
      | S k => sub_lines_from k next_start s'
      | 0 =>
          match (if at_start then pattern s else None) with
          | Some n => sub_lines_from (n - 1) next_start s'
          | None => c :: sub_lines_from 0 next_start s'
          end
      end
  end.

Definition sub_lines (s : pystr) : pystr := sub_lines_from 0 true s.

End SubLines.

Definition is_alpha (c : ascii) : bool :=
  ((65 <=? code c) && (code c <=? 90)) || ((97 <=? code c) && (code c <=? 122)).

(** [```[a-zA-Z]*\s*] *)
Definition code_fence : pystr -> option nat :=
  then_ (literal (lit "```")) (then_ (star is_alpha) (star isspace)).

(** [---\s*] *)
Definition front_matter : pystr -> option nat :=
  then_ (literal (lit "---")) (star isspace).

(** [#.*?\n]: the dot takes no line feed. *)
Definition markdown_header : pystr -> option nat :=
  then_ (literal (lit "#")) (then_ (star (not_char nl)) (literal [nl])).

(** [s.rfind(c)]: the index of the last [c], or -1. *)
Fixpoint rfind_from (c : ascii) (i found : Z) (s : pystr) : Z :=
  match s with
  | [] => found
  | x :: rest =>
      rfind_from c (i + 1)%Z (if Ascii.eqb x c then i else found) rest
  end.

Definition rfind (c : ascii) (s : pystr) : Z := rfind_from c 0 (-1) s.

(** [s[:n]] for an integer [n] of either sign. *)
Definition slice_to (n : Z) (s : pystr) : pystr :=
  if (n <? 0)%Z then firstn (length s - Z.to_nat (- n)) s
  else firstn (Z.to_nat n) s.

Definition ELLIPSIS : pystr := lit "...".

(** [cleaned_content] when its length is tested: whitespace collapsed,
    the three markers removed, the ends stripped. *)
Definition cleaned_content (content : pystr) : pystr :=
  let cleaned_content := strip (sub whitespace (lit " ") content) in
  let cleaned_content := sub_lines code_fence cleaned_content in
  let cleaned_content := sub_lines front_matter cleaned_content in
  let cleaned_content := sub_lines markdown_header cleaned_content in
  strip cleaned_content.

Section WithFloats.

(** [max_length * factor] in floating point, for the factors 0.5 and
    0.7 of the source. *)
Variable times : nat -> Q -> Q.

(** ** [extract_raw_content], for a [max_length] that is not negative. *)
Definition extract_raw_content (content : pystr) (max_length : nat) : pystr :=
  if negb (nonempty content) then []
  else
    let cleaned_content := cleaned_content content in
    if length cleaned_content <=? max_length then cleaned_content
    else
      let truncated := firstn max_length cleaned_content in
      let last_sentence_end :=
        Z.max (Z.max (rfind "." truncated) (rfind "!" truncated))
              (rfind "?" truncated) in
      if RequestParser.Qltb (times max_length (5 # 10))
                            (inject_Z last_sentence_end)
      then strip (slice_to (last_sentence_end + 1) truncated)
      else
        let last_space := rfind " " truncated in
        if RequestParser.Qltb (times max_length (7 # 10)) (inject_Z last_space)
        then strip (slice_to last_space truncated) ++ ELLIPSIS
        else truncated ++ ELLIPSIS.

End WithFloats.

End RawContent.

(** [p] is a beginning of [s]. *)
Definition prefix_of (p s : pystr) : Prop := exists q, s = p ++ q.

(** What an expression anchored at the very start removes. *)
Definition remove_front (pattern : pystr -> option nat) (s : pystr) : pystr :=
  match pattern s with
  | Some n => skipn n s
  | None => s
  end.

Section RawFacts.

Import PromptParser RawContent.

Lemma prefix_of_refl s : prefix_of s s.
Proof. exists []. now rewrite app_nil_r. Qed.

Lemma prefix_of_trans a b c : prefix_of a b -> prefix_of b c -> prefix_of a c.
Proof.
  intros (q & ->) (q' & ->). exists (q ++ q'). now rewrite app_assoc.
Qed.

Lemma prefix_of_firstn n s : prefix_of (firstn n s) s.
Proof. exists (skipn n s). symmetry. apply firstn_skipn. Qed.

Lemma prefix_of_length p s : prefix_of p s -> length p <= length s.
Proof. intros (q & ->). rewrite length_app. lia. Qed.

Lemma prefix_of_rstrip s : prefix_of (rstrip s) s.
Proof. destruct (rstrip_prefix s) as (q & Hq). now exists q. Qed.

Lemma lstrip_id s : starts_clean s = true -> lstrip s = s.
Proof.
  destruct s as [|c s]; [reflexivity|]. simpl.
  now destruct (isspace c).
Qed.

Lemma starts_clean_prefix_of p s :
  prefix_of p s -> starts_clean s = true -> starts_clean p = true.
Proof.
  intros (q & ->). apply starts_clean_prefix.
Qed.

(** Stripping a beginning of a text that starts clean gives a beginning
    of it. *)
Lemma strip_prefix p s :
  prefix_of p s -> starts_clean s = true -> prefix_of (strip p) s.
Proof.
  intros Hp Hs. unfold strip.
  rewrite (lstrip_id (starts_clean_prefix_of Hp Hs)).
  eapply prefix_of_trans; [apply prefix_of_rstrip|exact Hp].
Qed.

Lemma slice_to_prefix n s : prefix_of (slice_to n s) s.
Proof.
  unfold slice_to. destruct (n <? 0)%Z; apply prefix_of_firstn.
Qed.

Lemma sub_lines_in pattern c s : forall skip at_start,
  In c (sub_lines_from pattern skip at_start s) -> In c s.
Proof.
  induction s as [|x s IH]; intros skip at_start; cbn [sub_lines_from];
    [intros []|].
  destruct skip as [|k]; [|intros H; right; eapply IH, H].
  destruct (if at_start then pattern (x :: s) else None).
  - intros H. right. eapply IH, H.
  - intros [<-|H]; [now left|]. right. eapply IH, H.
Qed.

(** Without a line feed nothing is the start of a line but the start of
    the text. *)
Lemma sub_lines_inside pattern s : forall skip,
  ~ In nl s -> sub_lines_from pattern skip false s = skipn skip s.
Proof.
  induction s as [|x s IH]; intros skip Hnl; cbn [sub_lines_from].
  - now destruct skip.
  - assert (E : Ascii.eqb x nl = false).
    { destruct (Ascii.eqb x nl) eqn:E; [|reflexivity].
      apply Ascii.eqb_eq in E. exfalso. apply Hnl. now left. }
    rewrite E.
    assert (Hs : ~ In nl s) by (intros H; apply Hnl; now right).
    destruct skip as [|k]; simpl.
    + f_equal. now apply (IH 0).
    + now apply IH.
Qed.

Lemma sub_lines_front pattern s :
  ~ In nl s ->
  (forall n, pattern s = Some n -> 0 < n) ->
  sub_lines pattern s = remove_front pattern s.
Proof.
  intros Hnl Hpos. unfold sub_lines, remove_front.
  destruct s as [|x s]; cbn [sub_lines_from].
  - destruct (pattern []) as [n|]; [|reflexivity]. now destruct n.
  - assert (E : Ascii.eqb x nl = false).
    { destruct (Ascii.eqb x nl) eqn:E; [|reflexivity].
      apply Ascii.eqb_eq in E. exfalso. apply Hnl. now left. }
    rewrite E.
    assert (Hs : ~ In nl s) by (intros H; apply Hnl; now right).
    destruct (pattern (x :: s)) as [n|] eqn:P.
    + specialize (Hpos n eq_refl). rewrite sub_lines_inside by exact Hs.
      destruct n as [|n]; [lia|]. simpl. now rewrite Nat.sub_0_r.
    + f_equal. apply (sub_lines_inside _ 0 Hs).
Qed.

Lemma literal_positive c p s n : literal (c :: p) s = Some n -> 0 < n.
Proof.
  unfold literal. destruct (startswith (c :: p) s); [|discriminate].
  intros H. injection H as <-. simpl. lia.
Qed.

Lemma then_positive a b s n :
  (forall m, a s = Some m -> 0 < m) -> then_ a b s = Some n -> 0 < n.
Proof.
  unfold then_. intros Ha.
  destruct (a s) as [x|]; [|discriminate].
  destruct (b (skipn x s)) as [y|]; [|discriminate].
  intros H. injection H as <-. specialize (Ha x eq_refl). lia.
Qed.

Lemma single_spaced_no_nl s : single_spaced s = true -> ~ In nl s.
Proof.
  induction s as [|c s IH]; simpl; [tauto|].
  intros H. apply andb_true_iff in H as [Hc Hs].
  intros [->|Hin]; [|now apply IH].
  change (isspace nl) with true in Hc. cbv iota in Hc.
  apply andb_true_iff in Hc as [Hc _]. vm_compute in Hc. discriminate.
Qed.

Lemma no_nl_prefix p s : prefix_of p s -> ~ In nl s -> ~ In nl p.
Proof.
  intros (q & ->) H Hin. apply H. apply in_or_app. now left.
Qed.

Lemma no_nl_rest s r : rest_of s r -> ~ In nl s -> ~ In nl r.
Proof.
  intros (p & ->) H Hin. apply H. apply in_or_app. now right.
Qed.

Lemma no_nl_strip s : ~ In nl s -> ~ In nl (strip s).
Proof.
  intros H. unfold strip.
  apply (no_nl_prefix (prefix_of_rstrip (lstrip s))).
  apply (no_nl_rest (rest_of_lstrip s)). exact H.
Qed.

Lemma no_nl_skipn n s : ~ In nl s -> ~ In nl (skipn n s).
Proof.
  intros H Hin. apply H. rewrite <- (firstn_skipn n s).
  apply in_or_app. now right.
Qed.

Lemma remove_front_no_nl pattern s :
  ~ In nl s -> ~ In nl (remove_front pattern s).
Proof.
  intros H. unfold remove_front.
  destruct (pattern s); [now apply no_nl_skipn|exact H].
Qed.

Lemma markdown_header_needs_nl s : ~ In nl s -> markdown_header s = None.
Proof.
  intros H. unfold markdown_header, then_.
  destruct (literal (lit "#") s) as [a|]; [|reflexivity].
  destruct (star (not_char nl) (skipn a s)) as [b|]; [|reflexivity].
  unfold literal.
  destruct (startswith [nl] (skipn b (skipn a s))) eqn:E; [|reflexivity].
  exfalso. apply startswith_split in E.
  apply (@no_nl_skipn b _ (@no_nl_skipn a _ H)). rewrite E. now left.
Qed.

(** The text the length test sees: only a marker at the very start is
    removed, and the expression for a markdown header never matches. *)
Lemma cleaned_content_front content :
  cleaned_content content
  = strip (remove_front front_matter
             (remove_front code_fence
                (strip (sub whitespace (lit " ") content)))).
Proof.
  unfold cleaned_content. cbv zeta.
  set (base := strip (sub whitespace (lit " ") content)).
  assert (Hbase : ~ In nl base).
  { apply no_nl_strip, single_spaced_no_nl.
    apply (@collapse_spaced content 0 (Nat.le_0_l _)). }
  rewrite (sub_lines_front Hbase)
    by (intros n; apply then_positive; intros m; apply literal_positive).
  pose proof (@remove_front_no_nl code_fence _ Hbase) as H1.
  rewrite (sub_lines_front H1)
    by (intros n; apply then_positive; intros m; apply literal_positive).
  pose proof (@remove_front_no_nl front_matter _ H1) as H2.
  f_equal. unfold sub_lines.
  set (t := remove_front front_matter (remove_front code_fence base)) in *.
  clearbody t. rename H2 into Ht.
  assert (Hgen : forall at_start,
             sub_lines_from markdown_header 0 at_start t = t).
  { induction t as [|x t IH]; intros at_start; cbn [sub_lines_from];
      [reflexivity|].
    rewrite (markdown_header_needs_nl Ht).
    replace (if at_start then None else None) with (@None nat)
      by now destruct at_start.
    f_equal. apply IH. intros Hin. apply Ht. now right. }
  apply Hgen.
Qed.

Lemma strip_length s : length (strip s) <= length s.
Proof.
  unfold strip.
  pose proof (prefix_of_length (prefix_of_rstrip (lstrip s))).
  destruct (rest_of_lstrip s) as (p & Hp).
  rewrite Hp at 2. rewrite length_app. lia.
Qed.

End RawFacts.

(** X28. The signature of an exception file.  For a [max_length] that is
    not negative, [extract_raw_content] returns at most [max_length]
    characters, or at most [max_length] characters and three dots.  What it returns is a beginning of the
    cleaned text, followed or not by the three dots, and the cleaned text
    itself when that is short enough; an empty content gives an empty
    signature.  The cleaned text is the content with its whitespace
    collapsed and stripped, then without a code fence marker and a
    front-matter marker at its very start, stripped again: after the
    collapse no line feed is left, so that the markers are removed at the
    start only and the expression for a markdown header never matches. *)
Theorem raw_signature_is_bounded
  (times : nat -> Q -> Q) (content : pystr) (max_length : nat) :
  let signature := RawContent.extract_raw_content times content max_length in
  length signature <= max_length + 3
  /\ (content = [] -> signature = [])
  /\ (exists beginning,
        prefix_of beginning (RawContent.cleaned_content content)
        /\ length beginning <= max_length
        /\ (signature = beginning
            \/ signature = beginning ++ RawContent.ELLIPSIS))
  /\ (length (RawContent.cleaned_content content) <= max_length ->
      signature = RawContent.cleaned_content content)
  /\ RawContent.cleaned_content content
     = strip (remove_front RawContent.front_matter
                (remove_front RawContent.code_fence
                   (strip (PromptParser.sub PromptParser.whitespace (lit " ")
                             content)))).
Proof.
  cbv zeta.
  assert (Hclean : starts_clean (RawContent.cleaned_content content) = true)
    by (unfold RawContent.cleaned_content; cbv zeta; apply strip_clean).
  assert (Hshape : exists beginning,
             prefix_of beginning (RawContent.cleaned_content content)
             /\ length beginning <= max_length
             /\ (RawContent.extract_raw_content times content max_length
                 = beginning
                 \/ RawContent.extract_raw_content times content max_length
                    = beginning ++ RawContent.ELLIPSIS)).
  { unfold RawContent.extract_raw_content. cbv zeta.
    destruct (nonempty content) eqn:Hc; cbn [negb].
    - destruct (Nat.leb_spec (length (RawContent.cleaned_content content))
                             max_length) as [Hle|Hgt].
      + exists (RawContent.cleaned_content content).
        split; [apply prefix_of_refl|]. split; [exact Hle|now left].
      + set (truncated := firstn max_length
                            (RawContent.cleaned_content content)).
        assert (Ht : prefix_of truncated (RawContent.cleaned_content content))
          by apply prefix_of_firstn.
        assert (Hlen : length truncated <= max_length)
          by (unfold truncated; rewrite length_firstn; lia).
        assert (Hstrip : forall n,
                   prefix_of (strip (RawContent.slice_to n truncated))
                             (RawContent.cleaned_content content)
                   /\ length (strip (RawContent.slice_to n truncated))
                      <= max_length).
        { intros n.
          pose proof (prefix_of_trans (slice_to_prefix n truncated) Ht) as Hp.
          split; [now apply strip_prefix|].
          pose proof (strip_length (RawContent.slice_to n truncated)).
          pose proof (prefix_of_length (slice_to_prefix n truncated)). lia. }
        destruct (RequestParser.Qltb _ _).
        * eexists. split; [apply Hstrip|]. split; [apply Hstrip|now left].
        * destruct (RequestParser.Qltb _ _).
          -- eexists. split; [apply Hstrip|]. split; [apply Hstrip|now right].
          -- exists truncated. split; [exact Ht|]. split; [exact Hlen|now right].
    - exists []. split; [now exists (RawContent.cleaned_content content)|].
      split; [simpl; lia|now left]. }
  split.
  { destruct Hshape as (b & _ & Hlen & [-> | ->]); [lia|].
    rewrite length_app. simpl. lia. }
  split; [intros ->; reflexivity|].
  split; [exact Hshape|].
  split; [|apply cleaned_content_front].
  intros Hle. unfold RawContent.extract_raw_content. cbv zeta.
  destruct (nonempty content) eqn:Hc; cbn [negb].
  - apply Nat.leb_le in Hle. now rewrite Hle.
  - destruct content; [reflexivity|discriminate].
Qed.

(* ===================================================================== *)
(** * [skyrim_prompt_parser.py]: signatures of system blocks              *)
(* ===================================================================== *)

From Stdlib Require Import DecimalString.

Module Signature.
Import PromptParser.

(** [s.replace(old, new)] for a non-empty [old]. *)
Definition replace (old new s : pystr) : pystr := sub (literal old) new s.

Section FindAll.

Variable pattern : pystr -> option nat.

(** [[m.group() for m in re.finditer(pattern, s)]] *)
Fixpoint finditer_from (skip : nat) (s : pystr) : list pystr :=
  match s with
  | [] => []
  | _ :: s' =>
      match skip with
      | S k => finditer_from k s'
      | 0 =>
          match pattern s with
          | Some n => firstn n s :: finditer_from (n - 1) s'
          | None => finditer_from 0 s'
          end
      end
  end.

Definition finditer (s : pystr) : list pystr := finditer_from 0 s.

(** [re.split(pattern, s)]: the text between the matches; [piece] is the
    piece being read, reversed. *)
Fixpoint split_from (skip : nat) (piece : pystr) (s : pystr) : list pystr :=
  match s with
  | [] => [rev piece]
  | c :: s' =>
      match skip with
      | S k => split_from k piece s'
      | 0 =>
          match pattern s with
          | Some n => rev piece :: split_from (n - 1) [] s'
          | None => split_from 0 (c :: piece) s'
          end
      end
  end.

Definition split (s : pystr) : list pystr := split_from 0 [] s.

End FindAll.

(** [f"TEMPLATE_{template_counter}"] *)
Definition placeholder (template_counter : nat) : pystr :=
  lit "TEMPLATE_"
  ++ list_ascii_of_string (NilZero.string_of_uint (Nat.to_uint template_counter)).

(** The state of the loop over the template variables. *)
Record replacing := {
  temp_text : pystr;
  template_replacements : list (pystr * pystr);
  template_counter : nat
}.

Definition replace_variable (st : replacing) (found : pystr) : replacing :=
  let name := placeholder (template_counter st) in
  {| temp_text := replace found name (temp_text st);
     template_replacements := template_replacements st ++ [(name, found)];
     template_counter := S (template_counter st) |}.

(** [[.!?]+\s+] *)
Definition is_end (c : ascii) : bool :=
  Ascii.eqb c "." || Ascii.eqb c "!" || Ascii.eqb c "?".

Definition sentence_end : pystr -> option nat :=
  then_ (plus is_end) (plus isspace).

(** The inner loop that puts the template variables back, then
    [sentence.strip()]. *)
Definition restore (replacements : list (pystr * pystr)) (sentence : pystr)
  : pystr :=
  strip (fold_left (fun s item => replace (fst item) (snd item) s)
                   replacements sentence).

Definition distinguishing_phrases : list pystr :=
  [lit "thinking to yourself"; lit "reacting verbally";
   lit "speak as they would"; lit "reacting internally";
   lit "speaking to"; lit "in character and speak";
   lit "thoughts about"; lit "verbal response";
   lit "internal thoughts"; lit "remain completely in character";
   lit "verbally to a"; lit "just occurred";
   lit "about the current situation"].

Definition SEPARATOR : pystr := lit ". ".

(** The loop over [real_sentences[:4]]: the parts gathered. *)
Fixpoint gather (signature_parts : list pystr) (sentences : list pystr)
  : list pystr :=
  match sentences with
  | [] => signature_parts
  | sentence :: rest =>
      if nonempty sentence then
        let signature_parts := signature_parts ++ [sentence] in
        if existsb (fun phrase => contains phrase (lower sentence))
                   distinguishing_phrases
        then signature_parts
        else if 150 <=? length (join SEPARATOR signature_parts)
        then signature_parts
        else gather signature_parts rest
      else gather signature_parts rest
  end.

(** [signature.endswith(('.', '!', '?'))] *)
Definition ends_sentence (s : pystr) : bool :=
  endswith (lit ".") s || endswith (lit "!") s || endswith (lit "?") s.

(** ** [extract_unique_signature] *)
Definition extract_unique_signature (text : pystr) : pystr :=
  if negb (nonempty text) then []
  else
    let cleaned_text := strip (sub whitespace (lit " ") text) in
    let replaced :=
      fold_left replace_variable (finditer template_variable cleaned_text)
        {| temp_text := cleaned_text; template_replacements := [];
           template_counter := 0 |} in
    let potential_sentences :=
      map (restore (template_replacements replaced))
          (split sentence_end (temp_text replaced)) in
    let real_sentences :=
      filter (fun s => nonempty (strip s)) potential_sentences in
    let signature_parts := gather [] (firstn 4 real_sentences) in
    let signature :=
      match signature_parts with
      | _ :: _ =>
          let signature := join SEPARATOR signature_parts in
          if ends_sentence signature then signature
          else signature ++ lit "."
      | [] =>
          if 100 <? length cleaned_text
          then firstn 100 cleaned_text ++ lit "..."
          else cleaned_text
      end in
    strip signature.

End Signature.

(** [s] holds a character that is not whitespace. *)
Definition has_ink (s : pystr) : bool := existsb (fun c => negb (isspace c)) s.

(** [s] is not empty and its last character is not whitespace. *)
Definition ends_inked (s : pystr) : Prop :=
  exists front c, s = front ++ [c] /\ isspace c = false.

Section InkFacts.

Import PromptParser Signature.

Lemma has_ink_app a b : has_ink (a ++ b) = has_ink a || has_ink b.
Proof. apply existsb_app. Qed.

Lemma has_ink_in s : has_ink s = true <-> exists c, In c s /\ isspace c = false.
Proof.
  unfold has_ink. rewrite existsb_exists. split; intros (c & Hc & H);
    exists c; (split; [exact Hc|]).
  - now apply negb_true_iff in H.
  - now rewrite H.
Qed.

Lemma lstrip_ink s : has_ink (lstrip s) = has_ink s.
Proof.
  induction s as [|c s IH]; [reflexivity|]. simpl.
  destruct (isspace c) eqn:E; [exact IH|]. simpl. now rewrite E.
Qed.

Lemma has_ink_rev s : has_ink (rev s) = has_ink s.
Proof.
  induction s as [|c s IH]; [reflexivity|]. simpl.
  rewrite has_ink_app, IH. simpl. rewrite orb_false_r. apply orb_comm.
Qed.

Lemma strip_ink s : has_ink (strip s) = has_ink s.
Proof.
  unfold strip, rstrip. now rewrite has_ink_rev, lstrip_ink, has_ink_rev, lstrip_ink.
Qed.

Lemma nonempty_ink s : starts_clean s = true -> nonempty s = has_ink s.
Proof.
  destruct s as [|c s]; [reflexivity|]. simpl. intros H.
  apply negb_true_iff in H. now rewrite H.
Qed.

Lemma strip_nonempty s : nonempty (strip s) = has_ink s.
Proof.
  rewrite nonempty_ink by apply strip_clean. apply strip_ink.
Qed.

Lemma ends_inked_ink s : ends_inked s -> has_ink s = true.
Proof.
  intros (front & c & -> & Hc). rewrite has_ink_app. simpl.
  rewrite Hc. simpl. apply orb_true_r.
Qed.

Lemma ends_inked_cons c s : s <> [] -> ends_inked (c :: s) -> ends_inked s.
Proof.
  intros Hs (front & d & E & Hd). destruct front as [|x front].
  - injection E as _ ->. contradiction.
  - injection E as _ ->. now exists front, d.
Qed.

Lemma ends_inked_app a b : ends_inked b -> ends_inked (a ++ b).
Proof.
  intros (front & c & -> & Hc). exists (a ++ front), c.
  split; [now rewrite app_assoc|exact Hc].
Qed.

Lemma ends_inked_of_clean s :
  s <> [] -> starts_clean (rev s) = true -> ends_inked s.
Proof.
  intros Hs H. destruct (rev s) as [|c r] eqn:E.
  - apply (f_equal (@rev ascii)) in E. rewrite rev_involutive in E.
    contradiction.
  - exists (rev r), c. split.
    + apply (f_equal (@rev ascii)) in E. now rewrite rev_involutive in E.
    + simpl in H. now apply negb_true_iff in H.
Qed.

(** The characters of [re.sub]'s result come from the text or from the
    replacement. *)
Lemma sub_from_in pattern repl c s : forall skip,
  In c (sub_from pattern repl skip s) -> In c s \/ In c repl.
Proof.
  induction s as [|x s IH]; intros skip; cbn [sub_from]; [intros []|].
  destruct skip as [|k].
  - destruct (pattern (x :: s)).
    + intros H. apply in_app_or in H as [H|H]; [now right|].
      destruct (IH _ H); [left; now right|now right].
    + intros [<-|H]; [left; now left|].
      destruct (IH _ H); [left; now right|now right].
  - intros H. destruct (IH _ H); [left; now right|now right].
Qed.

(** Collapsing whitespace keeps every other character. *)
Lemma collapse_keeps c s : forall skip,
  skip <= run isspace s -> isspace c = false -> In c s ->
  In c (sub_from whitespace (lit " ") skip s).
Proof.
  induction s as [|x s IH]; intros skip Hskip Hc Hin; [destruct Hin|].
  cbn [sub_from]. cbn [run] in Hskip.
  destruct skip as [|k].
  - assert (Hp : whitespace (x :: s)
                 = if isspace x then Some (S (run isspace s)) else None)
      by (unfold whitespace, plus; cbn [run]; now destruct (isspace x)).
    rewrite Hp. destruct (isspace x) eqn:E.
    + apply in_or_app. right.
      replace (S (run isspace s) - 1) with (run isspace s) by lia.
      apply IH; [lia|exact Hc|].
      destruct Hin as [->|Hin]; [congruence|exact Hin].
    + destruct Hin as [->|Hin]; [now left|]. right.
      apply IH; [lia|exact Hc|exact Hin].
  - destruct (isspace x) eqn:E; [|lia].
    apply IH; [lia|exact Hc|].
    destruct Hin as [->|Hin]; [congruence|exact Hin].
Qed.

Lemma collapse_ink s :
  has_ink (sub whitespace (lit " ") s) = has_ink s.
Proof.
  destruct (has_ink s) eqn:E.
  - apply has_ink_in in E as (c & Hc & Hs). apply has_ink_in.
    exists c. split; [|exact Hs].
    now apply collapse_keeps; [apply Nat.le_0_l| |].
  - destruct (has_ink (sub whitespace (lit " ") s)) eqn:E'; [|reflexivity].
    apply has_ink_in in E' as (c & Hc & Hs).
    apply sub_from_in in Hc as [Hc|Hc].
    + assert (X : has_ink s = true) by (apply has_ink_in; eauto). congruence.
    + destruct Hc as [<-|[]]. discriminate.
Qed.

(** A replacement that ends with ink leaves a text that ends with ink
    ending with ink. *)
Lemma sub_from_ends pattern repl s : forall skip,
  ends_inked repl -> ends_inked s ->
  (skip < length s -> ends_inked (sub_from pattern repl skip s))
  /\ (length s <= skip -> sub_from pattern repl skip s = []).
Proof.
  intros skip Hrepl. revert skip.
  induction s as [|x s IH]; intros skip Hs.
  - destruct Hs as ([|? ?] & c & E & _); discriminate.
  - cbn [sub_from].
    destruct s as [|y s'].
    + destruct skip as [|k].
      * split; [intros _|intros H; simpl in H; lia].
        destruct (pattern [x]).
        -- cbn [sub_from]. now rewrite app_nil_r.
        -- exact Hs.
      * split; [intros H; simpl in H; lia|reflexivity].
    + assert (Hs' : ends_inked (y :: s'))
        by (apply (ends_inked_cons (c:=x)); [discriminate|exact Hs]).
      destruct skip as [|k].
      * split; [intros _|intros H; simpl in H; lia].
        destruct (pattern (x :: y :: s')) as [n|].
        -- destruct (IH (n - 1) Hs') as [Hlt Hge].
           destruct (Nat.lt_ge_cases (n - 1) (length (y :: s'))) as [H|H].
           ++ apply ends_inked_app. now apply Hlt.
           ++ rewrite (Hge H), app_nil_r. exact Hrepl.
        -- destruct (IH 0 Hs') as [Hlt _].
           apply (ends_inked_app [x]). apply Hlt. simpl. lia.
      * destruct (IH k Hs') as [Hlt Hge]. split.
        -- intros H. apply Hlt. simpl in H |- *. lia.
        -- intros H. apply Hge. simpl in H |- *. lia.
Qed.

Lemma replace_ends old new s :
  ends_inked new -> ends_inked s -> ends_inked (replace old new s).
Proof.
  intros Hn Hs. unfold replace, sub.
  apply (sub_from_ends (literal old) 0 Hn Hs).
  destruct Hs as (front & c & -> & _). rewrite length_app. simpl. lia.
Qed.

(** A replacement with ink keeps a text with ink inked. *)
Lemma sub_from_ink pattern repl s : forall skip,
  has_ink repl = true -> has_ink (skipn skip s) = true ->
  has_ink (sub_from pattern repl skip s) = true.
Proof.
  intros skip Hrepl. revert skip.
  induction s as [|x s IH]; intros skip Hs.
  - now rewrite skipn_nil in Hs.
  - cbn [sub_from]. destruct skip as [|k]; [|now apply IH].
    destruct (pattern (x :: s)).
    + now rewrite has_ink_app, Hrepl.
    + simpl in Hs |- *. destruct (negb (isspace x)); [reflexivity|].
      apply (IH 0). exact Hs.
Qed.

Lemma replace_ink old new s :
  has_ink new = true -> has_ink s = true -> has_ink (replace old new s) = true.
Proof.
  intros Hn Hs. now apply sub_from_ink.
Qed.

Lemma placeholder_ends n : ends_inked (placeholder n).
Proof.
  unfold placeholder.
  destruct (list_ascii_of_string
              (NilZero.string_of_uint (Nat.to_uint n))) as [|d ds] eqn:E.
  - rewrite app_nil_r. exists (lit "TEMPLATE"), "_"%char. now split.
  - apply ends_inked_app.
    assert (Hdigits : forall u, Forall (fun c => isspace c = false)
                        (list_ascii_of_string (NilEmpty.string_of_uint u))).
    { induction u; simpl; constructor; auto. }
    assert (Hall : Forall (fun c => isspace c = false) (d :: ds)).
    { rewrite <- E. unfold NilZero.string_of_uint.
      destruct (Nat.to_uint n); try apply Hdigits.
      repeat constructor. }
    clear E. destruct (exists_last (l:=d :: ds)) as (front & c & Hl);
      [discriminate|].
    exists front, c. split; [exact Hl|].
    rewrite Forall_forall in Hall. apply Hall. rewrite Hl.
    apply in_or_app. right. now left.
Qed.

End InkFacts.

Section SentenceFacts.

Import PromptParser Signature.

Lemma run_nth p s k :
  k < run p s -> exists c, nth_error s k = Some c /\ p c = true.
Proof.
  revert k. induction s as [|x s IH]; intros k; simpl; [lia|].
  destruct (p x) eqn:E; [|lia].
  destruct k as [|k]; [intros _; now exists x|].
  intros H. apply IH. lia.
Qed.

Lemma nth_error_skipn {A} (l : list A) a k :
  nth_error (skipn a l) k = nth_error l (a + k).
Proof.
  revert l. induction a as [|a IH]; intros l; [reflexivity|].
  destruct l as [|x l]; [now destruct k|]. apply IH.
Qed.

(** A sentence end that matches is at least two characters, lies inside
    the text and ends with a whitespace character. *)
Lemma sentence_end_spec s n :
  sentence_end s = Some n ->
  2 <= n <= length s
  /\ exists c, nth_error s (n - 1) = Some c /\ isspace c = true.
Proof.
  unfold sentence_end, then_, plus.
  pose proof (run_bound is_end s) as Ba.
  destruct (run is_end s) as [|a] eqn:Ea; [discriminate|].
  pose proof (run_bound isspace (skipn (S a) s)) as Bb.
  rewrite length_skipn in Bb.
  destruct (run isspace (skipn (S a) s)) as [|b] eqn:Eb; [discriminate|].
  intros H. injection H as <-. split; [lia|].
  destruct (@run_nth isspace (skipn (S a) s) b) as (c & Hc & Hs); [lia|].
  exists c. split; [|exact Hs].
  rewrite nth_error_skipn in Hc. rewrite <- Hc. f_equal. lia.
Qed.

(** The last piece of a text that ends with ink has ink. *)
Lemma split_last_ink s : forall skip piece,
  ends_inked s ->
  (skip = 0
   \/ (skip <= length s
       /\ exists c, nth_error s (skip - 1) = Some c /\ isspace c = true)) ->
  exists front last,
    split_from sentence_end skip piece s = front ++ [last]
    /\ has_ink last = true.
Proof.
  induction s as [|x s IH]; intros skip piece Hs Hskip.
  - destruct Hs as ([|? ?] & c & E & _); discriminate.
  - cbn [split_from]. destruct s as [|y s'].
    + assert (Hx : isspace x = false).
      { destruct Hs as ([|a [|b front]] & c & E & Hc);
          [now injection E as ->|discriminate|discriminate]. }
      destruct skip as [|k].
      * destruct (sentence_end [x]) as [n|] eqn:E.
        -- apply sentence_end_spec in E as [[H1 H2] _]. simpl in H2. lia.
        -- cbn [split_from]. exists [], (rev (x :: piece)).
           split; [reflexivity|]. rewrite has_ink_rev. simpl.
           now rewrite Hx.
      * exfalso. destruct Hskip as [H|(Hle & c & Hc & Hsp)]; [discriminate|].
        simpl in Hle. assert (k = 0) by lia. subst k.
        simpl in Hc. injection Hc as <-. congruence.
    + assert (Hs' : ends_inked (y :: s'))
        by (apply (ends_inked_cons (c:=x)); [discriminate|exact Hs]).
      destruct skip as [|k].
      * destruct (sentence_end (x :: y :: s')) as [n|] eqn:E.
        -- apply sentence_end_spec in E as [[H1 H2] (c & Hc & Hsp)].
           destruct (IH (n - 1) [] Hs') as (front & last & -> & Hink).
           { right. split; [simpl in H2 |- *; lia|]. exists c.
             split; [|exact Hsp].
             replace (n - 1) with (S (n - 1 - 1)) in Hc by lia.
             exact Hc. }
           exists (rev piece :: front), last. now split.
        -- apply (IH 0 (x :: piece) Hs'). now left.
      * destruct Hskip as [H|(Hle & c & Hc & Hsp)]; [discriminate|].
        apply (IH k piece Hs').
        destruct k as [|k']; [now left|]. right.
        split; [simpl in Hle |- *; lia|]. exists c. split; [|exact Hsp].
        simpl in Hc |- *. now rewrite Nat.sub_0_r in *.
Qed.

Lemma template_variable_ink s n :
  template_variable s = Some n -> has_ink (firstn n s) = true.
Proof.
  unfold template_variable, then_, literal.
  destruct (startswith (lit "{{") s) eqn:E; [|discriminate].
  apply startswith_split in E.
  destruct (match star _ _ with Some _ => _ | None => _ end) as [m|];
    [|discriminate].
  intros H. injection H as <-. rewrite E. reflexivity.
Qed.

Lemma finditer_ink s : forall skip,
  Forall (fun found => has_ink found = true)
         (finditer_from template_variable skip s).
Proof.
  induction s as [|x s IH]; intros skip; cbn [finditer_from]; [constructor|].
  destruct skip as [|k]; [|apply IH].
  destruct (template_variable (x :: s)) as [n|] eqn:E; [|apply IH].
  constructor; [now apply template_variable_ink|apply IH].
Qed.

(** What the loop over the template variables keeps true. *)
Definition replacing_ok (st : replacing) : Prop :=
  ends_inked (temp_text st)
  /\ Forall (fun item => has_ink (snd item) = true) (template_replacements st).

Lemma replace_variable_ok st found :
  has_ink found = true -> replacing_ok st ->
  replacing_ok (replace_variable st found).
Proof.
  intros Hf [He Hr]. split; simpl.
  - apply replace_ends; [apply placeholder_ends|exact He].
  - apply Forall_app. split; [exact Hr|]. now repeat constructor.
Qed.

Lemma replacing_fold_ok found : forall st,
  Forall (fun f => has_ink f = true) found -> replacing_ok st ->
  replacing_ok (fold_left replace_variable found st).
Proof.
  induction found as [|f found IH]; intros st Hall Hst; [exact Hst|].
  inversion Hall; subst. simpl. apply IH; [assumption|].
  now apply replace_variable_ok.
Qed.

Lemma restore_ink replacements sentence :
  Forall (fun item => has_ink (snd item) = true) replacements ->
  has_ink sentence = true ->
  has_ink (restore replacements sentence) = true.
Proof.
  unfold restore. rewrite strip_ink. revert sentence.
  induction replacements as [|[name original] l IH]; intros sentence Hall Hs;
    [exact Hs|].
  inversion Hall; subst. simpl. apply IH; [assumption|].
  now apply replace_ink.
Qed.

(** The parts gathered are the first sentences that are not empty, and
    there is one as soon as a sentence is not empty. *)
Lemma gather_spec sentences : forall parts,
  exists taken,
    gather parts sentences = parts ++ taken
    /\ length taken <= length sentences
    /\ Forall (fun p => In p sentences /\ p <> []) taken
    /\ (Exists (fun s => s <> []) sentences -> taken <> []).
Proof.
  induction sentences as [|s l IH]; intros parts; cbn [gather].
  - exists []. rewrite app_nil_r. repeat split; [simpl; lia|constructor|].
    intros H. inversion H.
  - assert (Hweak : forall taken,
               Forall (fun p => In p l /\ p <> []) taken ->
               Forall (fun p => In p (s :: l) /\ p <> []) taken).
    { intros taken. apply Forall_impl. intros p [H1 H2].
      split; [now right|exact H2]. }
    destruct (nonempty s) eqn:E.
    + assert (Hs : s <> []) by (intros ->; discriminate).
      assert (Hone : exists taken,
                 parts ++ [s] = parts ++ taken
                 /\ length taken <= length (s :: l)
                 /\ Forall (fun p => In p (s :: l) /\ p <> []) taken
                 /\ (Exists (fun s => s <> []) (s :: l) -> taken <> [])).
      { exists [s]. split; [reflexivity|]. split; [simpl; lia|].
        split; [repeat constructor; assumption|]. intros _. discriminate. }
      destruct (existsb _ distinguishing_phrases); [exact Hone|].
      destruct (150 <=? _); [exact Hone|].
      destruct (IH (parts ++ [s])) as (taken & -> & Hlen & Hall & _).
      exists (s :: taken). rewrite <- app_assoc. split; [reflexivity|].
      split; [simpl; lia|]. split; [|intros _; discriminate].
      constructor; [split; [now left|exact Hs]|now apply Hweak].
    + destruct (IH parts) as (taken & -> & Hlen & Hall & Hex).
      exists taken. split; [reflexivity|]. split; [simpl; lia|].
      split; [now apply Hweak|]. intros H. apply Hex.
      inversion H as [? ? Hhd|? ? Htl]; subst; [|exact Htl].
      destruct s; [contradiction|discriminate].
Qed.

Lemma endswith_self p s : endswith p (s ++ p) = true.
Proof.
  unfold endswith. rewrite rev_app_distr. apply startswith_app.
Qed.

Lemma startswith_one x c r : startswith [x] (c :: r) = Ascii.eqb x c.
Proof. simpl. apply andb_true_r. Qed.

Lemma ends_sentence_clean s :
  ends_sentence s = true -> starts_clean (rev s) = true.
Proof.
  unfold ends_sentence, endswith. intros H.
  destruct (rev s) as [|c r]; [discriminate|].
  change (rev (lit ".")) with ["."%char] in H.
  change (rev (lit "!")) with ["!"%char] in H.
  change (rev (lit "?")) with ["?"%char] in H.
  rewrite !startswith_one in H.
  apply orb_true_iff in H as [H|H]; [apply orb_true_iff in H as [H|H]|];
    apply Ascii.eqb_eq in H; now subst.
Qed.

Lemma strip_id s :
  starts_clean s = true -> starts_clean (rev s) = true -> strip s = s.
Proof.
  intros H1 H2. unfold strip, rstrip.
  rewrite (lstrip_id H1), (lstrip_id H2). apply rev_involutive.
Qed.

Lemma join_starts sep p parts :
  p <> [] -> starts_clean p = true ->
  starts_clean (join sep (p :: parts)) = true.
Proof.
  intros Hp Hc. destruct p as [|c p]; [contradiction|].
  destruct parts; exact Hc.
Qed.

End SentenceFacts.

(** The sentences [extract_unique_signature] keeps. *)
Lemma unique_signature_spec (text : pystr) :
  let signature := Signature.extract_unique_signature text in
  (has_ink text = false -> signature = [])
  /\ (has_ink text = true ->
      Signature.ends_sentence signature = true
      /\ starts_clean signature = true
      /\ exists parts,
           parts <> [] /\ length parts <= 4
           /\ Forall (fun p => p <> [] /\ starts_clean p = true
                               /\ starts_clean (rev p) = true) parts
           /\ (signature = join Signature.SEPARATOR parts
               \/ signature = join Signature.SEPARATOR parts ++ lit ".")).
Proof.
  cbv zeta. unfold Signature.extract_unique_signature. cbv zeta.
  set (cleaned := strip (PromptParser.sub PromptParser.whitespace (lit " ")
                           text)).
  assert (Hink : has_ink cleaned = has_ink text)
    by (unfold cleaned; now rewrite strip_ink, collapse_ink).
  split.
  - intros Hnone. destruct (nonempty text); cbn [negb]; [|reflexivity].
    assert (Hc : cleaned = []).
    { unfold cleaned. pose proof (strip_nonempty
        (PromptParser.sub PromptParser.whitespace (lit " ") text)) as H.
      rewrite collapse_ink, Hnone in H.
      now destruct (strip _). }
    rewrite Hc. reflexivity.
  - intros Hsome.
    assert (Htext : nonempty text = true)
      by (destruct text; [discriminate|reflexivity]).
    rewrite Htext. cbn [negb].
    assert (Hends : ends_inked cleaned).
    { apply ends_inked_of_clean; [|apply strip_clean].
      intros Hnil. rewrite Hnil in Hink. simpl in Hink. congruence. }
    set (replaced := fold_left Signature.replace_variable
                       (Signature.finditer PromptParser.template_variable
                          cleaned)
                       {| Signature.temp_text := cleaned;
                          Signature.template_replacements := [];
                          Signature.template_counter := 0 |}).
    assert (Hok : replacing_ok replaced).
    { apply replacing_fold_ok; [apply finditer_ink|].
      split; [exact Hends|constructor]. }
    destruct Hok as [Htemp Hreps].
    destruct (@split_last_ink (Signature.temp_text replaced) 0 [] Htemp
                (or_introl eq_refl)) as (front & last & Hsplit & Hlast).
    unfold Signature.split. rewrite Hsplit.
    set (reps := Signature.template_replacements replaced) in *.
    set (real := filter (fun s => nonempty (strip s))
                        (map (Signature.restore reps) (front ++ [last]))).
    assert (Hreal : Forall (fun p => p <> [] /\ starts_clean p = true
                                     /\ starts_clean (rev p) = true) real).
    { apply Forall_forall. intros p Hp. unfold real in Hp.
      apply filter_In in Hp as [Hp Hne].
      apply in_map_iff in Hp as (s & <- & _).
      unfold Signature.restore in *.
      split; [|apply strip_clean].
      rewrite strip_nonempty in Hne. intros Hnil.
      rewrite Hnil in Hne. discriminate. }
    assert (Hsome_real : real <> []).
    { unfold real. rewrite map_app, filter_app. cbn [map filter].
      rewrite strip_nonempty, (restore_ink Hreps Hlast).
      intros H. apply app_eq_nil in H as [_ H]. discriminate. }
    destruct (gather_spec (firstn 4 real) []) as (taken & Hg & Hlen & Hall & Hex).
    rewrite Hg. cbn [app].
    assert (Htaken : taken <> []).
    { apply Hex. destruct real as [|r rs]; [contradiction|].
      cbn [firstn]. apply Exists_cons_hd.
      rewrite Forall_forall in Hreal. apply (Hreal r). now left. }
    assert (Hparts : Forall (fun p => p <> [] /\ starts_clean p = true
                                      /\ starts_clean (rev p) = true) taken).
    { apply Forall_forall. intros p Hp.
      rewrite Forall_forall in Hall, Hreal.
      apply Hreal. destruct (Hall p Hp) as [Hin _].
      rewrite <- (firstn_skipn 4 real). apply in_or_app. now left. }
    assert (Hlen4 : length taken <= 4)
      by (rewrite length_firstn in Hlen; lia).
    destruct taken as [|p ps]; [contradiction|]. cbv beta iota.
    set (joined := join Signature.SEPARATOR (p :: ps)).
    assert (Hstart : starts_clean joined = true).
    { inversion Hparts as [|? ? (Hp & Hc & _) _]; subst.
      now apply join_starts. }
    match goal with |- context [strip ?x] => set (signature := x) end.
    assert (Hsig : Signature.ends_sentence signature = true
                   /\ starts_clean signature = true
                   /\ (signature = joined \/ signature = joined ++ lit ".")).
    { unfold signature.
      destruct (Signature.ends_sentence joined) eqn:E.
      - split; [exact E|]. split; [exact Hstart|now left].
      - split; [|split; [|now right]].
        + unfold Signature.ends_sentence. now rewrite endswith_self.
        + destruct joined; [reflexivity|exact Hstart]. }
    destruct Hsig as (He & Hs & Hor).
    rewrite (strip_id Hs (ends_sentence_clean He)).
    split; [exact He|]. split; [exact Hs|].
    exists (p :: ps). split; [discriminate|]. split; [exact Hlen4|].
    split; [exact Hparts|exact Hor].
Qed.


(* ===================================================================== *)
(** * [skyrim_prompt_parser.py]: the signature of one prompt file         *)
(* ===================================================================== *)

Module Scan.

Section WithFloats.

Variable times : nat -> Q -> Q.

(** The body of the loop of [scan_prompt_files] for one prompt file whose
    text was read: the signature appended to the results with the file's
    prompt type, [None] when the file is passed over with a warning. *)
Definition file_signature (is_exception_file : bool) (content : pystr)
  (max_length : nat) : option pystr :=
  if is_exception_file then
    let signature := RawContent.extract_raw_content times content max_length in
    if negb (nonempty signature) then None else Some signature
  else
    let system_content := PromptParser.extract_system_block content in
    if negb (nonempty system_content) then None
    else
      let signature := Signature.extract_unique_signature system_content in
      if negb (nonempty signature) then None else Some signature.

End WithFloats.

End Scan.

(** X30. Which prompt files get a signature.  A file that is not an
    exception file is passed over exactly when [extract_system_block]
    finds nothing in it; otherwise its signature is the unique signature
    of the block, which is not empty and ends with a full stop, an
    exclamation mark or a question mark, so that the warning for an empty
    signature is never given.  An exception file is passed over exactly
    when its raw signature is empty, and a signature it gets is that raw
    signature. *)
Theorem scanned_file_signature
  (times : nat -> Q -> Q) (content : pystr) (max_length : nat) :
  (Scan.file_signature times false content max_length = None
   <-> PromptParser.extract_system_block content = [])
  /\ (forall signature,
        Scan.file_signature times false content max_length = Some signature ->
        signature
        = Signature.extract_unique_signature
            (PromptParser.extract_system_block content)
        /\ signature <> []
        /\ Signature.ends_sentence signature = true)
  /\ (Scan.file_signature times true content max_length = None
      <-> RawContent.extract_raw_content times content max_length = [])
  /\ (forall signature,
        Scan.file_signature times true content max_length = Some signature ->
        signature = RawContent.extract_raw_content times content max_length
        /\ signature <> []).
Proof.
  assert (Hblock : PromptParser.extract_system_block content <> [] ->
            Signature.ends_sentence
              (Signature.extract_unique_signature
                 (PromptParser.extract_system_block content)) = true).
  { intros Hne.
    assert (Hclean : starts_clean (PromptParser.extract_system_block content)
                     = true).
    { unfold PromptParser.extract_system_block.
      destruct (PromptParser.search content); [apply strip_clean|reflexivity]. }
    assert (Hink : has_ink (PromptParser.extract_system_block content) = true).
    { destruct (PromptParser.extract_system_block content) as [|c block];
        [contradiction|].
      cbn [starts_clean] in Hclean. unfold has_ink. cbn [existsb].
      destruct (isspace c); [discriminate|reflexivity]. }
    exact (proj1 (proj2 (unique_signature_spec _) Hink)). }
  unfold Scan.file_signature. cbv zeta.
  split; [|split; [|split]].
  - destruct (PromptParser.extract_system_block content) as [|c block] eqn:E;
      cbn [nonempty negb]; [tauto|].
    specialize (Hblock ltac:(discriminate)).
    destruct (Signature.extract_unique_signature (c :: block)) as [|d sig];
      [discriminate|]. cbn [nonempty negb]. split; discriminate.
  - intros signature.
    destruct (PromptParser.extract_system_block content) as [|c block] eqn:E;
      cbn [nonempty negb]; [discriminate|].
    specialize (Hblock ltac:(discriminate)).
    destruct (Signature.extract_unique_signature (c :: block)) as [|d sig];
      [discriminate|]. cbn [nonempty negb]. intros H. injection H as <-.
    split; [reflexivity|]. split; [discriminate|exact Hblock].
  - destruct (RawContent.extract_raw_content times content max_length);
      cbn [nonempty negb]; [tauto|]. split; discriminate.
  - intros signature.
    destruct (RawContent.extract_raw_content times content max_length)
      as [|c sig]; cbn [nonempty negb]; [discriminate|].
    intros H. injection H as <-.
    split; [reflexivity|discriminate].
Qed.
